(* ===== verification/_CoqProject ===== *)
-Q . S2P
Prelude.v
Str.v
Serde.v
Platform.v
Ext.v
State.v
Error.v
PathParam.v
Body.v
Form.v
Message.v
Next.v
Addr.v
Extract.v
RouteSeg.v
RouteTree.v
Route.v
Streams.v
Listener.v
Tls.v
NetServer.v
Quic.v
Cookies.v
Sessions.v
Tower.v
Templates.v
Grpc.v
Ws.v
Service.v
Served.v
Upgrade.v
QuicFlow.v
QuicConn.v
AppSpec.v
App.v
Sockets.v
Testing.v
Scheduler.v
Static.v
Sse.v
Cors.v
Middlewares.v
RateLimit.v
OpenApiPath.v
OpenApi.v
Endpoint.v
OpenApiUi.v
Assets.v
Bench.v
