(* ===== verification/Prelude.v ===== *)
(** * Silent, a web framework: verification library

    Silent (crate [silent] under silent/src) is an asynchronous HTTP server:
    listeners accept connections, hyper or h3 parse requests, a frozen route
    tree dispatches them through middlewares to a handler, and the response
    goes back.  This library models that path and the components it rests on
    as executable definitions, and proves what each of them promises.

    ** How the program is put together, and where each part is modelled

    A request takes this way; every step names its file here and its source.

    - [Listener]: server/listener.rs.  [ListenersBuilder] binds the sockets;
      [Listeners::accept] picks one listener by rotation, with a back-off per
      listener after errors.  [accept_poll] is one poll of the future, with
      the state it keeps between polls ([AcceptPhase]).
    - [Tls]: server/tls.rs, the listeners of server/listener.rs and the
      hybrid one of server/quic/listener.rs.
      Certificate stores; [tls_poll] is one poll of a TLS listener's accept,
      [tls_loop_step] one wake-up of the server's loop around it.
    - [Streams]: server/stream.rs, server/connection.rs,
      server/quic/connection.rs, grpc/stream.rs.  Byte streams of either kind,
      boxed connections.  [Sockets]: the sockets a builder binds, with their
      blocking mode, and the address each kind of listener reports.
    - [NetServer]: server/net_server.rs, server/mod.rs, server/config.rs,
      server/metrics.rs.  The accept loop with graceful and forced shutdown is
      the state machine [loop_step]; [conn_task] is one connection's task;
      [ask_permit], [refill_tick] and [release] are the rate limiter, over
      tokio's semaphore as a parameter with laws.
    - [Service]: server/route_connection.rs and server/protocol/hyper_http.
      [RouteConnectionService_new] adds the framework's middlewares to the
      routes and freezes them; [handle_http_connection] answers one request.
      [Served] composes it with the builder and the tree, from a pattern to
      its handler.  [AppSpec] says, as a function of the list of patterns an
      application registers, what is to answer a path, and [App] that it does.
      [Upgrade] is the same with the upgrade feature, and the tasks that hand
      an upgraded connection to a handler as the relation [handover_step].
    - [Cookies] and [Sessions]: cookie/*.rs, session/*.rs and
      scheduler/middleware.rs, the middlewares the service installs; [Ext]
      is a typed slot of the extensions they travel in.
    - [Addr]: core/socket_addr.rs, core/remote_addr.rs, [set_remote] and
      [remote] of core/request.rs.
    - [Quic] and [QuicConn]: server/quic.  The same for HTTP/3: body reader,
      response writer on a stream whose calls may fail ([StreamIo]) and the
      datagram limits of WebTransport sessions; the transport configuration,
      the connection's accept loop, one request from the stream to the routes
      and back, and the echo handler.  [QuicFlow]: the body reader as a task
      of its own beside the handler and the response, the relation
      [flow_step]; a request is served over any run of it ([h3_run]).
    - [Route]: route/mod.rs, route/handler_append.rs, route/route_service.rs.
      The builder: [Route_new], [Route_append], [handler], merging of equal
      paths, and [convert_to_route_tree].
    - [RouteSeg] and [RouteTree]: route/handler_match.rs and
      route/route_tree.rs.  Matching of one segment, capture ranges computed
      from addresses, the lookahead [path_can_resolve], the dispatch
      [call_children], the frozen copies the continuations use.
    - [Next]: core/next.rs, handler/*.rs, middleware/middleware_trait.rs and
      the adapters of extractor/mod.rs.  Middleware chains, function handlers,
      dispatch by method.
    - [Message] and [Body]: core/request.rs, core/response.rs,
      core/req_body.rs, core/res_body.rs.  Requests with their caches,
      responses, polled bodies and the size limit of uploads.
    - [Extract]: extractor/*.rs.  [FromRequest] is a class; its instances are
      the extractors, options and results around them, and tuples.
    - [Serde] and [Form]: core/serde/*.rs and core/form.rs.  The text
      deserialisers against serde's visitors (a type code [Ty] says what the
      target asks for), reading multipart uploads, and the life of uploaded
      files on a file system.  Files are written through a buffer of another
      crate and never flushed: of their contents on disk only that law says
      something ([on_disk_spec]).
    - [Ws]: ws/*.rs.  The handshake, the upgrade slot, and the two tasks of a
      connection as the step function [ws_step].
    - [PathParam], [State], [Error]: core/path_param.rs, configs/mod.rs,
      error/mod.rs.
    - [Cors]: middleware/middlewares/cors.rs; [Static]: handler/static/*.rs;
      [Sse]: sse/*.rs; [Middlewares] and [RateLimit]: the other files of
      middleware/middlewares; [Tower]: middleware/tower_compat.rs;
      [Templates]: templates/middleware.rs and the password hashes of
      security; [Grpc]: grpc/*.rs.  Stock middleware and handlers users mount.
    - [OpenApiPath], [OpenApi], [OpenApiUi]: silent-openapi/src.  Route
      patterns as OpenAPI paths, the walk over a route tree that collects the
      document, and the handlers and middlewares that show it.  [Assets]:
      silent-openapi/build.rs, fetching the files they embed.  [Endpoint]:
      silent-openapi-macros/src/lib.rs, the attribute macro that registers a
      handler's documentation.
    - [Testing]: testing/*.rs and route/worker.rs, the two callers of a route
      that are not the HTTP server.
    - [Scheduler]: scheduler/*.rs, the task table every request can reach.
    - [Bench]: benchmark/src/main.rs and xtask/src/main.rs, an application of
      the framework and the task that runs it.
    - [Str] and [Platform]: what the sources use of [std] is defined in
      [Str] (byte strings with UTF-8 boundaries, slicing that panics,
      decimal text, machine integers); what they use of other crates is a
      field of the class [Platform], with its documented laws in
      [PlatformLaws] (and [Ipv6Text]/[Ipv6Laws] in [Addr]).  [Demo] is an
      instance of the laws, at which the witnesses are evaluated.

    ** How code is rendered

    - An expression that may panic is an [outcome]; [Result] is [result]; an
      [async fn] is a state transformer [M World] over the world user code
      acts on, which may panic; [<-?] is the [?] operator.
    - [&mut self] methods return the new value.  Futures the theorems look
      inside of ([accept], bodies) are modelled poll by poll.
    - Machine integers are [Z] with their wrap-around, saturation or panic
      written where the source has them.  Time is in nanoseconds.
    - A borrowed [&str] of the request path is a [Slice], an address and a
      text, since capture ranges are computed by subtracting addresses.
    - A [HashMap] is a [gmap]; where the source iterates over one, the order
      is the parameter [hash_order].

    ** What is shown

    - Routing.  [RouteTree]: dispatch is one depth-first search followed by a
      walk through the onions of middlewares; the search finds a way whenever
      there is one; freezing changes nothing; static children come first, and
      a path that ends on a static node without handler is not found even
      where a dynamic sibling would take it.  [RouteSeg]: captures read back
      what was matched.  [Route]: whatever the builder makes converts to a well-formed tree that stands
      for the routes node by node; which paths make the builder panic;
      appending is the union of tries, at every depth.
    - Serving.  [App]: the answer to any request, read off the list of
      registrations: which pattern is picked, by its text alone, which handler
      of it, and the parameters bound, over every transport; builder, merge,
      conversion, search and captures refine the function [picked].  [Served]: the case of one pattern, whose pieces
      are given.
      [Service]: the server panics only if user code does.  [Next]: chains are onions,
      method dispatch with HEAD.
    - Messages.  Size limits, in-memory bodies, JSON read once, typed state,
      the peer's address.  [Serde]: what every text deserialises to, and that it inverts
      printing.  [Form]: reading an upload ends, and its files, whose
      writers were handed every byte, live exactly as long as their parts.  [Extract]: typed path parameters, tuples, the
      shared JSON body.
    - Connections.  [Upgrade]: which handler gets an upgraded connection, and
      that the hand-over can not be raced; gRPC services never upgrade behind
      the server.  [QuicFlow]: a body in flight ends, or waits in a circle
      when the answer holds more of it than the channel.
      [Ws]: both directions of a WebSocket keep their order
      under every interleaving.  [QuicConn]: what an HTTP/3 request gets of
      its answer in every run beside its body reader, and whatever the stream
      fails.  [Sessions]: which session a handler sees, and which cookie goes
      out.
    - The server.  Accept order, back-off and stalls; limiter permits;
      shutdown accounts for every connection and ends; metrics.  [Tls]: every
      connection is accounted for, and what a handshake blocks; reloading
      certificates is all or nothing.
    - HTTP/3 and WebTransport limits, and the scheduler's table and one-shot
      tasks.
    - Stock parts.  CORS and compression answers case by case; static files
      never leave their root; an event stream parses back to the events that
      were sent; the rate limiter's bounds up to the rounding of [f64]; what a
      tower layer lets through.
    - OpenAPI.  The rewriting of patterns terminates; typed patterns come out
      right; the document has the paths and first operations of the routes; an
      [#[endpoint]] handler is documented as its attribute says; the marker of
      the build script stands for a complete set of files.

    - Tools.  [Bench]: when a benchmark run succeeds, what it leaves behind
      when it does not, and that its targets are served.

    Several theorems state behaviour that differs from the documentation;
    they are marked as such where they stand.

    ** Bounds and fuel

    [Route_new_go] recurses on segments with the length of the path as fuel,
    enough since every segment consumes a character ([Route_new_shape] shows
    the fuel left suffices).  [send_chunks] has the buffer's length as fuel
    and answers [None] when it runs out, which happens only for chunk size 0
    ([send_chunks_total], [send_chunks_zero]).  [FormData_read] has fuel for
    its loops over parts and chunks; [read_fuel] of the parts is enough
    ([form_read_terminates]).  [convert_path_format] runs its loop with one
    more than the number of [>] in the pattern, of which every iteration
    removes one ([convert_terminates]); [angle_params] scans with the length
    of the path.  [send_frames] polls a response body at most [fuel] times,
    enough beyond the number of its buffers ([body_frames_drain]);
    [to_stream] takes as many chunks of a file as asked for, enough beyond its
    length ([to_stream_content]).  [wait_loop] has one
    unit of fuel per millisecond of its limit, more than its attempts
    ([wait_until_ready_total]; for a minute there are at most 123,
    [wait_attempts]); [hex_digits] prints sixteen digits.  All other recursion
    is structural on
    trees, bodies, lines or event lists.  The event stream parser
    of [Sse] is a reference, defined on the whole text.

    ** Not modelled

    Sockets, TLS and QUIC transports, hyper, h3 and tokio themselves (inputs
    and parameters of the models); logging and metrics exporters;
    cryptography (calls into libraries); what tonic does behind a gRPC
    handler; the stores of scheduler/storage, a trait and files that no module
    includes; accessors that return a field, which are projections here, and
    deprecated names for them.  Handlers are their behaviour: that two
    allocations of one function differ is seen only by the registries of
    [OpenApi], where both count as one.

    ** This file

    Outcomes, results, effects and their laws; the tactics and hint databases
    of the development. *)

From stdpp Require Export base tactics list strings gmap option.
From Stdlib Require Export ZArith Lia.
From Stdlib Require Export FunctionalExtensionality.

Declare Scope silent_scope.
Delimit Scope silent_scope with silent.
#[global] Open Scope silent_scope.
#[global] Open Scope string_scope.

(** ** Outcomes of Rust code *)

(** A Rust expression either yields a value or panics ([unwrap] on [None],
    an index or slice out of range, an arithmetic underflow checked by
    [debug_assert!]). *)
Inductive outcome (A : Type) : Type :=
| Ret (a : A)
| Panic.
Arguments Ret {A} _.
Arguments Panic {A}.

(** Rust's [Result<T, E>]. *)
Inductive result (T E : Type) : Type :=
| Ok (t : T)
| Err (e : E).
Arguments Ok {T E} _.
Arguments Err {T E} _.

(** [Poll<T>] of [std::task]. *)
Inductive Poll (A : Type) : Type :=
| Ready (a : A)
| Pending.
Arguments Ready {A} _.
Arguments Pending {A}.

#[export] Instance outcome_ret : MRet outcome := λ A a, Ret a.
#[export] Instance outcome_bind : MBind outcome := λ A B f m,
  match m with Ret a => f a | Panic => Panic end.

#[export] Instance outcome_fmap : FMap outcome := λ A B f m,
  match m with Ret a => Ret (f a) | Panic => Panic end.

(** [Option::unwrap] and slice indexing [&v[i]]. *)
Definition unwrap {A} (o : option A) : outcome A :=
  match o with Some a => Ret a | None => Panic end.

Definition index {A} (l : list A) (i : nat) : outcome A := unwrap (l !! i).

(** ** Effects

    An [async fn] of the program is a state transformer over a world [W] (the
    clock, the shared atomics, the log, whatever user supplied handlers touch)
    which may panic.  Awaiting a future is running its transformer. *)
Definition M (W A : Type) : Type := W → outcome A * W.

#[export] Instance M_ret W : MRet (M W) := λ A a w, (Ret a, w).
#[export] Instance M_bind W : MBind (M W) := λ A B f m w,
  match m w with
  | (Ret a, w') => f a w'
  | (Panic, w') => (Panic, w')
  end.

#[export] Instance M_fmap W : FMap (M W) := λ A B f m, m ≫= λ a, mret (f a).

Definition M_lift {W A} (o : outcome A) : M W A := λ w, (o, w).

(** The [?] operator on [Result] under an effect. *)
Definition M_try {W A B E} (m : M W (result A E)) (k : A → M W (result B E))
  : M W (result B E) :=
  m ≫= λ r, match r with Ok a => k a | Err e => mret (Err e) end.

(** The [?] operator on plain [Result] and on [Option]. *)
Definition result_bind {A B E} (r : result A E) (k : A → result B E) : result B E :=
  match r with Ok a => k a | Err e => Err e end.

Definition map_err {T E F} (f : E → F) (r : result T E) : result T F :=
  match r with Ok t => Ok t | Err e => Err (f e) end.

Definition ok_or {T E} (o : option T) (e : E) : result T E :=
  match o with Some t => Ok t | None => Err e end.

Definition ok {T E} (r : result T E) : option T :=
  match r with Ok t => Some t | Err _ => None end.

(** [Option::or] *)
Definition or_else {A} (o o' : option A) : option A :=
  match o with Some _ => o | None => o' end.

Definition is_ok {T E} (r : result T E) : bool :=
  match r with Ok _ => true | Err _ => false end.

Notation "x <-? m ;; k" := (M_try m (λ x, k))
  (at level 100, m at next level, right associativity) : silent_scope.
Notation "x <-! m ;; k" := (result_bind m (λ x, k))
  (at level 100, m at next level, right associativity) : silent_scope.

(** ** Automation *)

Create HintDb silent.
Create Rewrite HintDb silent.

(** Split every [match]/[if] of the goal and of the hypotheses, closing
    contradictory branches. *)
Ltac split_cases :=
  repeat (case_match; simplify_eq/=; try done).

(** Extensional equality of effects. *)
Ltac fext := repeat (apply functional_extensionality_dep; intro).

(** Destruct a pair-valued call in the goal, remembering its result. *)
Ltac destruct_run :=
  match goal with
  | |- context [let '(_, _) := ?e in _] => destruct e as [[?|] ?] eqn:?
  | |- context [match ?e with (_, _) => _ end] => destruct e as [[?|] ?] eqn:?
  end.

(** ** Laws of the effect monads *)

Lemma M_bind_ret_l {W A B} (a : A) (k : A → M W B) : mret a ≫= k = k a.
Proof. reflexivity. Qed.

Lemma M_bind_assoc {W A B C} (m : M W A) (f : A → M W B) (g : B → M W C) :
  (m ≫= f) ≫= g = m ≫= (λ a, f a ≫= g).
Proof.
  apply functional_extensionality; intros w. cbv [mbind M_bind].
  by destruct (m w) as [[a|] w'].
Qed.

Lemma M_bind_ret_r {W A} (m : M W A) : m ≫= mret = m.
Proof.
  apply functional_extensionality; intros w. cbv [mbind M_bind mret M_ret].
  by destruct (m w) as [[a|] w'].
Qed.

Lemma M_bind_ext {W A B} (m : M W A) (f g : A → M W B) :
  (∀ a, f a = g a) → m ≫= f = m ≫= g.
Proof. intros H. f_equal. by apply functional_extensionality. Qed.

(** Running a bind whose first part is known. *)
Lemma M_bind_run {W A B} (m : M W A) (k : A → M W B) w a w' :
  m w = (Ret a, w') → (m ≫= k) w = k a w'.
Proof. intros H. unfold mbind, M_bind. by rewrite H. Qed.

Lemma M_lift_ret {W A B} (a : A) (k : A → M W B) : M_lift (Ret a) ≫= k = k a.
Proof. reflexivity. Qed.

Lemma M_lift_panic {W A B} (k : A → M W B) : M_lift Panic ≫= k = M_lift Panic.
Proof. reflexivity. Qed.

#[export] Hint Rewrite @M_lift_ret @M_lift_panic @M_bind_ret_l @M_bind_assoc : silent.

(** ** Outcomes *)

Lemma unwrap_Some {A} (o : option A) a : unwrap o = Ret a ↔ o = Some a.
Proof. destruct o; naive_solver. Qed.

Lemma index_Ret {A} (l : list A) i a : index l i = Ret a ↔ l !! i = Some a.
Proof. apply unwrap_Some. Qed.

Lemma outcome_bind_Ret {A B} (m : outcome A) (k : A → outcome B) b :
  m ≫= k = Ret b ↔ ∃ a, m = Ret a ∧ k a = Ret b.
Proof.
  split.
  - destruct m as [a|]; [|done]. by exists a.
  - by intros (a & -> & ?).
Qed.

(** ** Lists *)

(** Reflexive transitive closure is stdpp's [rtc]; [runs] folds a deterministic
    step over a sequence of events. *)
Definition runs {S Ev} (step : S → Ev → S) (s : S) (evs : list Ev) : S :=
  foldl step s evs.

Lemma runs_app {S Ev} (step : S → Ev → S) s e1 e2 :
  runs step s (e1 ++ e2) = runs step (runs step s e1) e2.
Proof. apply foldl_app. Qed.

(** A property preserved by every step holds after every run. *)
Lemma runs_invariant {S Ev} (step : S → Ev → S) (I : S → Prop) s evs :
  I s → (∀ s e, I s → I (step s e)) → I (runs step s evs).
Proof.
  intros H0 Hs. revert s H0. induction evs as [|e evs IH]; intros s H0; [done|].
  apply IH. by apply Hs.
Qed.
