(* ===== verification/Str.v ===== *)
(** * Rust strings and integers

    [&str] and [String] are byte strings: a Rocq [string] holds the UTF-8
    encoding, so [String.length] is Rust's [len()].  This file models what the
    sources use of [std]: slicing with its panics, [strip_prefix], [split],
    [splitn], [trim], [find], [replace], decimal parsing and printing, and the
    machine integer types. *)

From S2P Require Import Prelude.
From stdpp Require Export pretty.
From Stdlib Require Export Ascii.

Open Scope string_scope.

#[global] Arguments String.append !_ _ /.

(** ** UTF-8 *)

(** Continuation bytes are 0x80..0xBF. *)
Definition is_cont (c : ascii) : bool :=
  let n := N_of_ascii c in (128 <=? n)%N && (n <=? 191)%N.

(** How many continuation bytes follow a leading byte; [None] if the byte
    cannot start a character. *)
Definition lead_len (c : ascii) : option nat :=
  let n := N_of_ascii c in
  if (n <? 128)%N then Some 0
  else if (n <? 194)%N then None
  else if (n <? 224)%N then Some 1
  else if (n <? 240)%N then Some 2
  else if (n <? 245)%N then Some 3
  else None.

(** Run of the UTF-8 automaton: [k] continuation bytes are still expected.
    (The range restrictions on the second byte are not needed here.) *)
Fixpoint utf8_run (k : nat) (s : string) : option nat :=
  match s with
  | "" => Some k
  | String c s' =>
      match k with
      | O => match lead_len c with Some k' => utf8_run k' s' | None => None end
      | S k' => if is_cont c then utf8_run k' s' else None
      end
  end.

Definition utf8 (s : string) : bool :=
  match utf8_run 0 s with Some 0 => true | _ => false end.

(** ** Slicing *)

Fixpoint str_drop (n : nat) (s : string) : string :=
  match n, s with
  | O, _ => s
  | S n', String _ s' => str_drop n' s'
  | S _, "" => ""
  end.

Fixpoint str_take (n : nat) (s : string) : string :=
  match n, s with
  | S n', String c s' => String c (str_take n' s')
  | _, _ => ""
  end.

(** [str::is_char_boundary] *)
Definition is_char_boundary (s : string) (i : nat) : bool :=
  match i with
  | O => true
  | _ => match str_drop i s with
         | "" => i =? String.length s
         | String c _ => negb (is_cont c)
         end
  end%nat.

(** [&s[i..]], [&s[..i]] and [&s[i..j]]. *)
Definition slice_from (s : string) (i : nat) : outcome string :=
  if is_char_boundary s i then Ret (str_drop i s) else Panic.

Definition slice_to (s : string) (i : nat) : outcome string :=
  if is_char_boundary s i then Ret (str_take i s) else Panic.

Definition slice_range (s : string) (i j : nat) : outcome string :=
  if (i <=? j)%nat && is_char_boundary s i && is_char_boundary s j
  then Ret (str_take (j - i) (str_drop i s)) else Panic.

(** ** Prefixes and suffixes *)

Fixpoint starts_with (p s : string) : bool :=
  match p, s with
  | "", _ => true
  | String a p', String b s' => Ascii.eqb a b && starts_with p' s'
  | String _ _, "" => false
  end.

Definition strip_prefix_char (c : ascii) (s : string) : option string :=
  match s with
  | String b s' => if Ascii.eqb b c then Some s' else None
  | "" => None
  end.

Definition starts_with_char (c : ascii) (s : string) : bool :=
  match s with String b _ => Ascii.eqb b c | "" => false end.

Fixpoint ends_with_char (c : ascii) (s : string) : bool :=
  match s with
  | "" => false
  | String b "" => Ascii.eqb b c
  | String _ s' => ends_with_char c s'
  end.

Fixpoint trim_start_matches (c : ascii) (s : string) : string :=
  match s with
  | String b s' => if Ascii.eqb b c then trim_start_matches c s' else s
  | "" => ""
  end.

Fixpoint trim_end_matches (c : ascii) (s : string) : string :=
  match s with
  | String b s' =>
      match trim_end_matches c s' with
      | "" => if Ascii.eqb b c then "" else String b ""
      | t => String b t
      end
  | "" => ""
  end.

(** ** Searching and splitting on an ASCII byte *)

(** First index of [c] in [s]. *)
Fixpoint find_char (c : ascii) (s : string) : option nat :=
  match s with
  | "" => None
  | String b s' =>
      if Ascii.eqb b c then Some O else S <$> find_char c s'
  end.

Fixpoint str_contains_char (c : ascii) (s : string) : bool :=
  match s with
  | "" => false
  | String b s' => Ascii.eqb b c || str_contains_char c s'
  end.

(** [str::contains] of a text. *)
Fixpoint str_contains (pat s : string) : bool :=
  starts_with pat s || match s with "" => false | String _ s => str_contains pat s end.

(** [s.splitn(2, c)] as the pair (first piece, second piece if any). *)
Fixpoint split_once (c : ascii) (s : string) : string * option string :=
  match s with
  | "" => ("", None)
  | String b s' =>
      if Ascii.eqb b c then ("", Some s')
      else let '(x, y) := split_once c s' in (String b x, y)
  end.

(** [s.split(c)]: never empty. *)
Fixpoint split_char (c : ascii) (s : string) : list string :=
  match s with
  | "" => [""]
  | String b s' =>
      if Ascii.eqb b c then "" :: split_char c s'
      else match split_char c s' with
           | x :: xs => String b x :: xs
           | [] => [String b ""]
           end
  end.

(** [v.join(sep)] *)
Fixpoint join (sep : string) (l : list string) : string :=
  match l with
  | [] => ""
  | [x] => x
  | x :: xs => x +:+ sep +:+ join sep xs
  end.

(** ** White space and case, on ASCII text *)

Definition is_ws (c : ascii) : bool :=
  let n := N_of_ascii c in
  (n =? 32)%N || ((9 <=? n)%N && (n <=? 13)%N).

Fixpoint trim_start (s : string) : string :=
  match s with
  | String b s' => if is_ws b then trim_start s' else s
  | "" => ""
  end.

Fixpoint trim_end (s : string) : string :=
  match s with
  | String b s' =>
      match trim_end s' with
      | "" => if is_ws b then "" else String b ""
      | t => String b t
      end
  | "" => ""
  end.

Definition trim (s : string) : string := trim_end (trim_start s).

Definition lower_ascii (c : ascii) : ascii :=
  let n := N_of_ascii c in
  if (65 <=? n)%N && (n <=? 90)%N then ascii_of_N (n + 32) else c.

(** Apply a function to every byte. *)
Fixpoint str_map (f : ascii → ascii) (s : string) : string :=
  match s with "" => "" | String c s' => String (f c) (str_map f s') end.

Definition to_ascii_lowercase (s : string) : string := str_map lower_ascii s.

Fixpoint str_forallb (f : ascii → bool) (s : string) : bool :=
  match s with "" => true | String c s' => f c && str_forallb f s' end.

(** Replace every byte by a string and concatenate. *)
Fixpoint str_flat_map (f : ascii → string) (s : string) : string :=
  match s with "" => "" | String c s' => f c +:+ str_flat_map f s' end.

(** Line feed, carriage return and the double quote. *)
Definition LF : ascii := "010".
Definition CR : ascii := "013".
Definition dquote : ascii := ascii_of_N 34.

(** ** Machine integers *)

Definition i32_min : Z := -2147483648.
Definition i32_max : Z := 2147483647.
Definition i64_min : Z := -9223372036854775808.
Definition i64_max : Z := 9223372036854775807.
Definition u32_max : Z := 4294967295.
Definition u64_max : Z := 18446744073709551615.
Definition u16_max : Z := 65535.
(** [usize] of the 64-bit targets the server runs on. *)
Definition usize_max : Z := u64_max.

Definition in_range (lo hi z : Z) : bool := (lo <=? z)%Z && (z <=? hi)%Z.
Definition wrap_u64 (z : Z) : Z := (z mod (u64_max + 1))%Z.
Definition saturating_add (max a b : Z) : Z := Z.min max (a + b)%Z.
Definition saturating_mul (max a b : Z) : Z := Z.min max (a * b)%Z.
Definition saturating_sub (a b : Z) : Z := Z.max 0 (a - b)%Z.

Definition digit (c : ascii) : option Z :=
  let n := N_of_ascii c in
  if (48 <=? n)%N && (n <=? 57)%N then Some (Z.of_N n - 48)%Z else None.

(** Value of a non empty run of decimal digits. *)
Fixpoint digits_value (acc : Z) (s : string) : option Z :=
  match s with
  | "" => Some acc
  | String c s' => match digit c with
                   | Some d => digits_value (acc * 10 + d)%Z s'
                   | None => None
                   end
  end.

Definition digits (s : string) : option Z :=
  match s with "" => None | _ => digits_value 0 s end.

(** [str::parse] for a signed and for an unsigned integer type: an optional
    sign ([-] only for signed types), then at least one digit, then a range
    check.  Leading zeros are accepted. *)
Definition parse_signed (lo hi : Z) (s : string) : option Z :=
  let r := match s with
           | String "+" s' => digits s'
           | String "-" s' => Z.opp <$> digits s'
           | _ => digits s
           end in
  match r with
  | Some z => if in_range lo hi z then Some z else None
  | None => None
  end.

Definition parse_unsigned (hi : Z) (s : string) : option Z :=
  let r := match s with
           | String "+" s' => digits s'
           | _ => digits s
           end in
  match r with
  | Some z => if in_range 0 hi z then Some z else None
  | None => None
  end.

Definition parse_i32 := parse_signed i32_min i32_max.
Definition parse_i64 := parse_signed i64_min i64_max.
Definition parse_u32 := parse_unsigned u32_max.
Definition parse_u64 := parse_unsigned u64_max.

(** [to_string] of an integer. *)
Definition show_Z (z : Z) : string := pretty z.

(** ** Lemmas: appending, taking and dropping *)

Lemma str_app_nil_r s : s +:+ "" = s.
Proof. induction s as [|c s IH]; cbn; [done|by rewrite IH]. Qed.

Lemma str_app_assoc s t u : (s +:+ t) +:+ u = s +:+ (t +:+ u).
Proof. induction s as [|c s IH]; cbn; [done|by rewrite IH]. Qed.

Lemma str_len_app s t :
  String.length (s +:+ t) = (String.length s + String.length t)%nat.
Proof. induction s as [|c s IH]; cbn; [done|by rewrite IH]. Qed.

Lemma str_len_0 s : String.length s = 0%nat ↔ s = "".
Proof. destruct s; naive_solver. Qed.

Lemma str_take_drop i s : str_take i s +:+ str_drop i s = s.
Proof. revert s. induction i as [|i IH]; intros [|c s]; cbn; try done. by rewrite IH. Qed.

Lemma str_drop_len i s :
  String.length (str_drop i s) = (String.length s - i)%nat.
Proof. revert s. induction i as [|i IH]; intros [|c s]; cbn; auto. Qed.

Lemma str_take_len i s :
  (i ≤ String.length s)%nat → String.length (str_take i s) = i.
Proof.
  revert s. induction i as [|i IH]; intros [|c s]; cbn; intros; try lia.
  rewrite IH; lia.
Qed.

Lemma str_drop_app s t : str_drop (String.length s) (s +:+ t) = t.
Proof. by induction s as [|c s IH]. Qed.

Lemma str_take_app s t : str_take (String.length s) (s +:+ t) = s.
Proof. induction s as [|c s IH]; cbn; [by destruct t|by rewrite IH]. Qed.

Lemma str_drop_drop i j s : str_drop i (str_drop j s) = str_drop (j + i) s.
Proof.
  revert s. induction j as [|j IH]; intros [|c s]; cbn; try done.
  by destruct i.
Qed.

Lemma str_drop_all s : str_drop (String.length s) s = "".
Proof. by induction s. Qed.

Lemma str_take_all s : str_take (String.length s) s = s.
Proof. induction s as [|c s IH]; cbn; [done|by rewrite IH]. Qed.

(** [&s[s.len() - r.len()..]] recovers the suffix [r]. *)
Lemma str_drop_suffix p r :
  str_drop (String.length (p +:+ r) - String.length r) (p +:+ r) = r.
Proof.
  rewrite str_len_app. replace (_ + _ - _)%nat with (String.length p) by lia.
  apply str_drop_app.
Qed.

#[export] Hint Rewrite str_app_nil_r str_app_assoc str_len_app str_drop_app
  str_take_app str_drop_all str_take_all : silent.

(** ** Lemmas: UTF-8 boundaries *)

Lemma utf8_run_app s t k :
  utf8_run k (s +:+ t) = utf8_run k s ≫= λ k', utf8_run k' t.
Proof.
  revert k. induction s as [|c s IH]; intros k; cbn; [done|].
  destruct k; case_match; try done; apply IH.
Qed.

Lemma utf8_app_r s t : utf8 s = true → utf8 (s +:+ t) = utf8 t.
Proof.
  unfold utf8. rewrite utf8_run_app. by destruct (utf8_run 0 s) as [[|?]|].
Qed.

Lemma lead_not_cont c k : lead_len c = Some k → is_cont c = false.
Proof.
  unfold lead_len, is_cont. generalize (N_of_ascii c); intros n H.
  apply andb_false_iff. rewrite !N.leb_gt.
  repeat match goal with
  | H : context [(?a <? ?b)%N] |- _ => destruct (N.ltb_spec a b)
  end; simplify_eq; lia.
Qed.

Lemma utf8_head_not_cont c s : utf8 (String c s) = true → is_cont c = false.
Proof.
  unfold utf8; cbn. destruct (lead_len c) eqn:E; [|done].
  intros _. by eapply lead_not_cont.
Qed.

(** A suffix that is itself a [&str] starts on a character boundary. *)
Lemma boundary_suffix p r :
  utf8 r = true → is_char_boundary (p +:+ r) (String.length p) = true.
Proof.
  intros Hr. unfold is_char_boundary. destruct p as [|c p]; [done|].
  cbn. rewrite str_drop_app. destruct r as [|d r].
  - rewrite str_app_nil_r. apply Nat.eqb_refl.
  - apply negb_true_iff. by eapply utf8_head_not_cont.
Qed.

Lemma boundary_end s : is_char_boundary s (String.length s) = true.
Proof. rewrite <-(str_app_nil_r s) at 1. by apply boundary_suffix. Qed.

Lemma slice_from_suffix p r :
  utf8 r = true → slice_from (p +:+ r) (String.length p) = Ret r.
Proof.
  intros Hr. unfold slice_from. by rewrite boundary_suffix, str_drop_app.
Qed.

Lemma slice_to_prefix p r :
  utf8 r = true → slice_to (p +:+ r) (String.length p) = Ret p.
Proof.
  intros Hr. unfold slice_to. by rewrite boundary_suffix, str_take_app.
Qed.

Lemma slice_from_0 s : slice_from s 0 = Ret s.
Proof. reflexivity. Qed.

Lemma slice_from_len s : slice_from s (String.length s) = Ret "".
Proof. unfold slice_from. by rewrite boundary_end, str_drop_all. Qed.

(** [&full[start..end]] where [full = p ++ m ++ r]. *)
Lemma slice_range_mid p m r :
  utf8 (m +:+ r) = true → utf8 r = true →
  slice_range (p +:+ (m +:+ r)) (String.length p)
    (String.length p + String.length m) = Ret m.
Proof.
  intros Hm Hr. unfold slice_range.
  rewrite (boundary_suffix p (m +:+ r)) by done.
  rewrite <-str_len_app, <-str_app_assoc, (boundary_suffix _ r) by done.
  rewrite str_len_app, str_app_assoc, str_drop_app.
  replace (_ + _ - _)%nat with (String.length m) by lia.
  rewrite str_take_app. by destruct (Nat.leb_spec (String.length p)
    (String.length p + String.length m)); [|lia].
Qed.

(** An ASCII character splits a UTF-8 string into two UTF-8 strings. *)
Lemma utf8_ascii_split c p r :
  lead_len c = Some 0 →
  utf8 (p +:+ String c r) = true → utf8 p = true ∧ utf8 r = true.
Proof.
  unfold utf8. rewrite utf8_run_app. intros Hc.
  destruct (utf8_run 0 p) as [[|k]|]; cbn; try done.
  - by rewrite Hc.
  - assert (is_cont c = false) as -> by by eapply lead_not_cont. done.
Qed.

(** ** Lemmas: decimal printing and parsing *)

Lemma digit_pretty n : (n < 10)%N → digit (pretty_N_char n) = Some (Z.of_N n).
Proof.
  intros H.
  assert (n = 0 ∨ n = 1 ∨ n = 2 ∨ n = 3 ∨ n = 4 ∨ n = 5 ∨ n = 6 ∨ n = 7
          ∨ n = 8 ∨ n = 9)%N as Hn by lia.
  by destruct_or! Hn; subst.
Qed.

Lemma digits_value_pretty x s :
  digits_value 0 (pretty_N_go x s) = digits_value (Z.of_N x) s.
Proof.
  revert s. induction (N.lt_wf_0 x) as [x _ IH]; intros s.
  assert (x = 0 ∨ 0 < x)%N as [->|Hx] by lia; [done|].
  rewrite pretty_N_go_step, IH by (try apply N.div_lt; lia). cbn.
  rewrite digit_pretty by (apply N.mod_lt; lia). f_equal.
  rewrite (N.div_mod x 10) at 3 by done. lia.
Qed.

Lemma pretty_N_go_nonempty x s : s ≠ "" → pretty_N_go x s ≠ "".
Proof.
  revert s. induction (N.lt_wf_0 x) as [x _ IH]; intros s Hs.
  assert (x = 0 ∨ 0 < x)%N as [->|Hx] by lia; [done|].
  rewrite pretty_N_go_step by done. apply IH; [apply N.div_lt; lia|done].
Qed.

Lemma digits_pretty (n : N) : digits (pretty n) = Some (Z.of_N n).
Proof.
  unfold pretty, pretty_N. case_decide; [by subst|].
  unfold digits. destruct (pretty_N_go n "") eqn:E.
  - rewrite pretty_N_go_step in E by lia.
    exfalso. by apply pretty_N_go_nonempty in E.
  - by rewrite <-E, digits_value_pretty.
Qed.

(** A number never starts with a sign character. *)
Lemma digits_head c s v : digits (String c s) = Some v → digit c ≠ None.
Proof. cbn. by destruct (digit c). Qed.

Lemma digits_not_signed s v :
  digits s = Some v →
  match s with String "+" _ => False | String "-" _ => False | _ => True end.
Proof.
  destruct s as [|c s]; [done|]. intros H%digits_head.
  destruct c as [[] [] [] [] [] [] [] []]; try done; by destruct H.
Qed.

Lemma parse_unsigned_digits hi s z :
  digits s = Some z → in_range 0 hi z = true → parse_unsigned hi s = Some z.
Proof.
  intros Hd Hr. pose proof (digits_not_signed _ _ Hd) as Hn.
  unfold parse_unsigned.
  assert (match s with String "+" s' => digits s' | _ => digits s end = Some z) as ->.
  { rewrite <-Hd. by repeat case_match; subst. }
  by rewrite Hr.
Qed.

Lemma parse_signed_digits lo hi s z :
  digits s = Some z → in_range lo hi z = true → parse_signed lo hi s = Some z.
Proof.
  intros Hd Hr. pose proof (digits_not_signed _ _ Hd) as Hn.
  unfold parse_signed.
  assert (match s with String "+" s' => digits s' | String "-" s' => Z.opp <$> digits s'
          | _ => digits s end = Some z) as ->.
  { rewrite <-Hd. by repeat case_match; subst. }
  by rewrite Hr.
Qed.

(** Printing then parsing an integer in range is the identity. *)
Lemma parse_unsigned_show hi z :
  in_range 0 hi z = true → parse_unsigned hi (show_Z z) = Some z.
Proof.
  intros Hr. apply parse_unsigned_digits; [|done].
  unfold in_range in Hr. apply andb_true_iff in Hr as [H0 _].
  apply Z.leb_le in H0. unfold show_Z, pretty, pretty_Z.
  destruct z as [|p|p]; [done|apply (digits_pretty (Npos p))|lia].
Qed.

Lemma parse_signed_show lo hi z :
  in_range lo hi z = true → parse_signed lo hi (show_Z z) = Some z.
Proof.
  intros Hr. destruct z as [|p|p].
  - apply parse_signed_digits; [|done]. apply (digits_pretty 0).
  - apply parse_signed_digits; [|done]. apply (digits_pretty (Npos p)).
  - unfold parse_signed, show_Z. change (pretty (Zneg p)) with ("-" +:+ pretty (Npos p)).
    cbn [String.append].
    assert (Z.opp <$> digits (pretty (Npos p)) = Some (Zneg p)) as ->
      by by rewrite digits_pretty.
    by rewrite Hr.
Qed.

Lemma digits_show z : (0 <= z)%Z → digits (show_Z z) = Some z.
Proof.
  intros Hz. pose proof (digits_pretty (Z.to_N z)) as H. rewrite Z2N.id in H by done.
  rewrite <-H. f_equal. unfold show_Z. destruct z; [done|done|lia].
Qed.

Definition is_digit (c : ascii) : bool := match digit c with Some _ => true | None => false end.

Lemma digits_value_forallb acc s z : digits_value acc s = Some z → str_forallb is_digit s = true.
Proof.
  revert acc. induction s as [|c s IH]; intros acc; [done|]. cbn. unfold is_digit at 1.
  destruct (digit c); [|done]. apply IH.
Qed.

Lemma digits_forallb s z : digits s = Some z → str_forallb is_digit s = true.
Proof. destruct s; [done|]. apply digits_value_forallb. Qed.

Lemma show_Z_digits z : (0 <= z)%Z → str_forallb is_digit (show_Z z) = true.
Proof. intros H. by eapply digits_forallb, digits_show. Qed.

Lemma str_forallb_app f s t : str_forallb f (s +:+ t) = str_forallb f s && str_forallb f t.
Proof. induction s as [|c s IH]; [done|]. cbn. by rewrite IH, andb_assoc. Qed.

Lemma str_forallb_impl (f g : ascii → bool) s :
  (∀ c, f c = true → g c = true) → str_forallb f s = true → str_forallb g s = true.
Proof.
  intros H. induction s as [|c s IH]; [done|]. cbn. rewrite !andb_true_iff. naive_solver.
Qed.

(** A text all of whose bytes satisfy [f] does not contain a byte that does
    not. *)
Lemma str_forallb_not_contains f c s :
  f c = false → str_forallb f s = true → str_contains_char c s = false.
Proof.
  intros Hc. induction s as [|d s IH]; [done|]. cbn. rewrite andb_true_iff, orb_false_iff.
  intros [Hd Hs]. split; [|by apply IH]. apply Ascii.eqb_neq. by intros ->; congruence.
Qed.

Lemma split_char_ne c s : split_char c s ≠ [].
Proof.
  destruct s as [|d s]; [discriminate|]. cbn. destruct (Ascii.eqb d c); [discriminate|].
  destruct (split_char c s); discriminate.
Qed.

(** The pieces around a separator. *)
Lemma split_char_at c a b : split_char c (a +:+ String c b) = (split_char c a ++ split_char c b)%list.
Proof.
  induction a as [|d a IH]; cbn.
  - by rewrite (proj2 (Ascii.eqb_eq c c)).
  - destruct (Ascii.eqb d c); [by rewrite IH|]. rewrite IH.
    by destruct (split_char c a) eqn:E; [apply split_char_ne in E|].
Qed.

Lemma split_char_none c s : str_contains_char c s = false → split_char c s = [s].
Proof.
  induction s as [|d s IH]; [done|]. cbn. intros [-> Hs]%orb_false_iff. by rewrite IH.
Qed.

Lemma split_char_app c a b :
  str_contains_char c a = false → split_char c (a +:+ String c b) = a :: split_char c b.
Proof.
  induction a as [|d a IH]; cbn.
  - intros _. by rewrite (proj2 (Ascii.eqb_eq c c)).
  - intros [-> Ha]%orb_false_iff. by rewrite IH.
Qed.

Lemma str_contains_app c a b :
  str_contains_char c (a +:+ b) = str_contains_char c a || str_contains_char c b.
Proof. induction a as [|d a IH]; [done|]. cbn. by rewrite IH, orb_assoc. Qed.

(** The pieces of a split and the trimmed text only have bytes of the text. *)
Lemma split_char_forallb f c s :
  str_forallb f s = true → Forall (λ t, str_forallb f t = true) (split_char c s).
Proof.
  induction s as [|d s IH]; cbn; [by repeat constructor|].
  intros [Hd Hs]%andb_true_iff. specialize (IH Hs). destruct (Ascii.eqb d c); [by constructor|].
  destruct (split_char c s) as [|x xs]; apply Forall_cons; cbn; rewrite Hd.
  - split; [done|constructor].
  - by apply Forall_cons in IH as [? ?].
Qed.

Lemma trim_forallb f s : str_forallb f s = true → str_forallb f (trim s) = true.
Proof.
  assert (∀ s, str_forallb f s = true → str_forallb f (trim_start s) = true) as Hst.
  { clear. induction s as [|c s IH]; [done|]. cbn. intros [Hc Hs]%andb_true_iff.
    destruct (is_ws c); [by apply IH|]. cbn. by rewrite Hc. }
  assert (∀ s, str_forallb f s = true → str_forallb f (trim_end s) = true) as Hen.
  { clear. induction s as [|c s IH]; [done|]. cbn. intros [Hc Hs]%andb_true_iff.
    specialize (IH Hs). destruct (trim_end s).
    - destruct (is_ws c); cbn; [done|by rewrite Hc].
    - cbn in *. by rewrite Hc. }
  intros H. by apply Hen, Hst.
Qed.

(** The pieces of a split do not hold the separator. *)
Lemma split_char_pieces c s : Forall (λ x, str_contains_char c x = false) (split_char c s).
Proof.
  induction s as [|a s IH]; cbn; [by repeat constructor|].
  destruct (a =? c)%char eqn:Ea; [by constructor|].
  destruct (split_char c s) as [|x l]; [by repeat constructor; cbn; rewrite Ea|].
  inversion IH as [|?? Hx Hl]; subst. constructor; [|done]. cbn. by rewrite Ea, Hx.
Qed.
