(* ===== verification/Serde.v ===== *)
(** * Deserialising text values
    (silent/src/core/serde/mod.rs, silent/src/core/serde/multipart.rs)

    The two value deserialisers behind the path extractor and the multipart
    fields: one text, and a list of texts.  A [Visitor] is the record of
    callbacks serde hands to a deserialiser; a deserialiser answers a method
    of serde's trait by calling one of them.  Types that derive [Deserialize]
    are library code: [SerdeTypes] states what serde documents about the
    visitors of its own types. *)

From S2P Require Import Prelude Str.

(** The integer types a deserialiser parses. *)
Inductive IntTy := U8 | U16 | U32 | U64 | I8 | I16 | I32 | I64.

#[export] Instance IntTy_eq_dec : EqDecision IntTy.
Proof. solve_decision. Defined.

Definition int_lo (t : IntTy) : Z :=
  match t with
  | I8 => -128 | I16 => -32768 | I32 => i32_min | I64 => i64_min | _ => 0
  end.
Definition int_hi (t : IntTy) : Z :=
  match t with
  | U8 => 255 | U16 => u16_max | U32 => u32_max | U64 => u64_max
  | I8 => 127 | I16 => 32767 | I32 => i32_max | I64 => i64_max
  end.
Definition int_ok (t : IntTy) (z : Z) : bool := in_range (int_lo t) (int_hi t) z.

Definition int_signed (t : IntTy) : bool :=
  match t with I8 | I16 | I32 | I64 => true | _ => false end.

(** [str::parse::<$ty>()]. *)
Definition parse_int (t : IntTy) (s : string) : option Z :=
  if int_signed t then parse_signed (int_lo t) (int_hi t) s
  else parse_unsigned (int_hi t) s.

Definition parse_bool (s : string) : option bool :=
  if bool_decide (s = "true") then Some true
  else if bool_decide (s = "false") then Some false else None.

(** [Cow<'de, str>] *)
Inductive Cow := CowBorrowed (s : string) | CowOwned (s : string).
Definition cow_str (c : Cow) : string :=
  match c with CowBorrowed s | CowOwned s => s end.

(** The deserialisers of the crate: [CowValue] and [VecValue]. *)
Inductive De := DCow (c : Cow) | DVec (items : list Cow).

(** The methods of serde's [Deserializer] trait. *)
Inductive DeMethod :=
| MAny | MBool | MInt (t : IntTy) | MF32 | MF64 | MChar | MStr | MString
| MUnit | MBytes | MByteBuf | MUnitStruct | MTuple (len : nat)
| MTupleStruct (len : nat) | MStruct | MIdentifier | MIgnoredAny | MSeq | MMap
| MOption | MNewtypeStruct | MEnum.

(** Floating-point parsing of the standard library and the texts of the
    parse errors. *)
Class SerdeStd := {
  Float : Type;
  parse_f32 : string → result Float string;
  parse_f64 : string → result Float string;
  parse_int_err : IntTy → string → string;
}.

Section serde.
Context {S : SerdeStd}.

(** [Result<V::Value, ValError>]; an error is its message. *)
Abbreviation ValResult V := (result V string).

Record Visitor (V : Type) := mkVisitor {
  visit_bool : bool → ValResult V;
  visit_int : IntTy → Z → ValResult V;
  visit_f32 : Float → ValResult V;
  visit_f64 : Float → ValResult V;
  visit_borrowed_str : string → ValResult V;
  visit_string : string → ValResult V;
  visit_some : De → ValResult V;
  visit_newtype_struct : De → ValResult V;
  (** [SeqDeserializer] over the values. *)
  visit_seq : list Cow → ValResult V;
  (** [ValueEnumAccess(value)] *)
  visit_enum : Cow → ValResult V;
}.
Arguments visit_bool {V}. Arguments visit_int {V}. Arguments visit_f32 {V}.
Arguments visit_f64 {V}. Arguments visit_borrowed_str {V}. Arguments visit_string {V}.
Arguments visit_some {V}. Arguments visit_newtype_struct {V}. Arguments visit_seq {V}.
Arguments visit_enum {V}.

(** [ValueEnumAccess] and [UnitOnlyVariantAccess]: the variant's name is the
    text; only unit variants have a content. *)
Definition variant_seed {V} (seed : Cow → ValResult V) (c : Cow) : ValResult (V * unit) :=
  variant <-! seed c ;; Ok (variant, tt).
Definition unit_variant : ValResult unit := Ok tt.
Definition newtype_variant_seed {V} : ValResult V := Err "expected unit variant".
Definition tuple_variant {V} (len : nat) : ValResult V := Err "expected unit variant".
Definition struct_variant {V} (fields : list string) : ValResult V := Err "expected unit variant".

(** [CowValue::deserialize_any] *)
Definition cow_any {V} (c : Cow) (v : Visitor V) : ValResult V :=
  match c with
  | CowBorrowed value => visit_borrowed_str v value
  | CowOwned value => visit_string v value
  end.

(** [forward_cow_parsed_value!]: parse, then hand the value over. *)
Definition cow_bool {V} (c : Cow) (v : Visitor V) : ValResult V :=
  match parse_bool (cow_str c) with
  | Some val => visit_bool v val
  | None => Err "provided string was not `true` or `false`"
  end.
Definition cow_int {V} (t : IntTy) (c : Cow) (v : Visitor V) : ValResult V :=
  match parse_int t (cow_str c) with
  | Some val => visit_int v t val
  | None => Err (parse_int_err t (cow_str c))
  end.
Definition cow_f32 {V} (c : Cow) (v : Visitor V) : ValResult V :=
  val <-! parse_f32 (cow_str c) ;; visit_f32 v val.
Definition cow_f64 {V} (c : Cow) (v : Visitor V) : ValResult V :=
  val <-! parse_f64 (cow_str c) ;; visit_f64 v val.

(** [impl Deserializer for CowValue] *)
Definition CowValue_deserialize {V} (c : Cow) (m : DeMethod) (v : Visitor V) : ValResult V :=
  match m with
  | MOption => visit_some v (DCow c)
  | MNewtypeStruct => visit_newtype_struct v (DCow c)
  | MEnum => visit_enum v c
  | MBool => cow_bool c v
  | MInt t => cow_int t c v
  | MF32 => cow_f32 c v
  | MF64 => cow_f64 c v
  | _ => cow_any c v
  end.

(** The first value, on which [VecValue] answers scalar methods. *)
Definition vec_first {V} (items : list Cow) (k : Cow → ValResult V) : ValResult V :=
  match items with
  | item :: _ => k item
  | [] => Err "expected vec not empty"
  end.

(** [impl Deserializer for VecValue] *)
Definition VecValue_deserialize {V} (items : list Cow) (m : DeMethod) (v : Visitor V)
  : ValResult V :=
  match m with
  | MOption => visit_some v (DVec items)
  | MNewtypeStruct => visit_newtype_struct v (DVec items)
  | MSeq | MTuple _ | MTupleStruct _ => visit_seq v items
  | MEnum => vec_first items (visit_enum v)
  | MBool => vec_first items (λ item, cow_bool item v)
  | MInt t => vec_first items (λ item, cow_int t item v)
  | MF32 => vec_first items (λ item, cow_f32 item v)
  | MF64 => vec_first items (λ item, cow_f64 item v)
  | _ => vec_first items (λ item, cow_any item v)
  end.

Definition deserialize {V} (d : De) (m : DeMethod) (v : Visitor V) : ValResult V :=
  match d with
  | DCow c => CowValue_deserialize c m v
  | DVec items => VecValue_deserialize items m v
  end.

(** [T: Deserialize]: the method the type asks for, with its visitor. *)
Record Deserialize (T : Type) := mkDeserialize {
  de_method : DeMethod;
  de_visitor : Visitor T;
}.
Arguments de_method {T}. Arguments de_visitor {T}.

Definition T_deserialize {T} (t : Deserialize T) (d : De) : ValResult T :=
  deserialize d (de_method t) (de_visitor t).

(** [from_str_val] and [from_str_multi_val]; [from_str_map] hands the pairs,
    both sides as [CowValue]s, to serde's [MapDeserializer], the parameter
    [map_de]. *)
Definition from_str_val {T} (t : Deserialize T) (input : Cow) : ValResult T :=
  T_deserialize t (DCow input).
Definition from_str_multi_val {T} (t : Deserialize T) (input : list Cow) : ValResult T :=
  T_deserialize t (DVec input).
Definition from_str_map {T} (map_de : Deserialize T → list (De * De) → ValResult T)
    (t : Deserialize T) (input : list (Cow * Cow)) : ValResult T :=
  map_de t (map (λ '(k, v), (DCow k, DCow v)) input).
End serde.

Arguments visit_bool {S V}. Arguments visit_int {S V}. Arguments visit_f32 {S V}.
Arguments visit_f64 {S V}. Arguments visit_borrowed_str {S V}. Arguments visit_string {S V}.
Arguments visit_some {S V}. Arguments visit_newtype_struct {S V}. Arguments visit_seq {S V}.
Arguments visit_enum {S V}. Arguments mkVisitor {S V}.
Arguments de_method {S T}. Arguments de_visitor {S T}. Arguments mkDeserialize {S T}.

(** ** The types serde implements itself *)

Inductive Ty :=
| TBool
| TInt (t : IntTy)
| TString
| TOption (t : Ty)
| TNewtype (t : Ty)
| TVec (t : Ty)
| TUnitEnum (variants : list string).

Inductive Val :=
| VBool (b : bool)
| VInt (z : Z)
| VString (s : string)
| VNone
| VSome (v : Val)
| VNewtype (v : Val)
| VVec (l : list Val)
| VVariant (name : string).

(** The method each type's [deserialize] asks for. *)
Definition hint (t : Ty) : DeMethod :=
  match t with
  | TBool => MBool
  | TInt t => MInt t
  | TString => MString
  | TOption _ => MOption
  | TNewtype _ => MNewtypeStruct
  | TVec _ => MSeq
  | TUnitEnum _ => MEnum
  end.

Definition result_map {A B E} (f : A → B) (r : result A E) : result B E :=
  match r with Ok a => Ok (f a) | Err e => Err e end.

(** Collecting results stops at the first error. *)
Fixpoint result_mapM {A B E} (f : A → result B E) (l : list A) : result (list B) E :=
  match l with
  | [] => Ok []
  | a :: l => b <-! f a ;; bs <-! result_mapM f l ;; Ok (b :: bs)
  end.

Class SerdeTypes (S : SerdeStd) := {
  serde : Ty → Deserialize Val;
  unknown_variant : string → string;
  (** The error of a sequence's visitor for a text. *)
  invalid_seq : string → string;
}.

(** The seed of a derived enum of unit variants reads its variant's name. *)
Definition enum_seed {S : SerdeStd} {T : SerdeTypes S} (variants : list string) (c : Cow)
  : result string string :=
  if bool_decide (cow_str c ∈ variants) then Ok (cow_str c)
  else Err (unknown_variant (cow_str c)).

(** What serde documents about them. *)
Class SerdeTypesLaws (S : SerdeStd) (T : SerdeTypes S) : Prop := {
  serde_method t : de_method (serde t) = hint t;
  serde_bool b : visit_bool (de_visitor (serde TBool)) b = Ok (VBool b);
  serde_int t z : visit_int (de_visitor (serde (TInt t))) t z = Ok (VInt z);
  serde_str s : visit_borrowed_str (de_visitor (serde TString)) s = Ok (VString s);
  serde_string s : visit_string (de_visitor (serde TString)) s = Ok (VString s);
  serde_some t d :
    visit_some (de_visitor (serde (TOption t))) d = result_map VSome (T_deserialize (serde t) d);
  serde_newtype t d :
    visit_newtype_struct (de_visitor (serde (TNewtype t))) d =
    result_map VNewtype (T_deserialize (serde t) d);
  serde_seq t items :
    visit_seq (de_visitor (serde (TVec t))) items =
    result_map VVec (result_mapM (λ c, T_deserialize (serde t) (DCow c)) items);
  serde_seq_str t s : visit_borrowed_str (de_visitor (serde (TVec t))) s = Err (invalid_seq s);
  serde_seq_string t s : visit_string (de_visitor (serde (TVec t))) s = Err (invalid_seq s);
  serde_enum variants c :
    visit_enum (de_visitor (serde (TUnitEnum variants))) c =
    (nv <-! variant_seed (enum_seed variants) c ;;
     _ <-! unit_variant ;; Ok (VVariant (fst nv)));
}.

(** A value of the type, as Rust's type system has it. *)
Fixpoint typed (t : Ty) (v : Val) : bool :=
  match t, v with
  | TBool, VBool _ => true
  | TInt t, VInt z => int_ok t z
  | TString, VString _ => true
  | TOption _, VNone => true
  | TOption t, VSome v => typed t v
  | TNewtype t, VNewtype v => typed t v
  | TVec t, VVec l => forallb (typed t) l
  | TUnitEnum variants, VVariant name => bool_decide (name ∈ variants)
  | _, _ => false
  end.

(** *** Reference: what texts stand for, by the type alone *)

Fixpoint reads {S : SerdeStd} {T : SerdeTypes S} (t : Ty) (s : string) : result Val string :=
  match t with
  | TBool => ok_or (VBool <$> parse_bool s) "provided string was not `true` or `false`"
  | TInt t => ok_or (VInt <$> parse_int t s) (parse_int_err t s)
  | TString => Ok (VString s)
  | TOption t => result_map VSome (reads t s)
  | TNewtype t => result_map VNewtype (reads t s)
  | TVec _ => Err (invalid_seq s)
  | TUnitEnum variants => if bool_decide (s ∈ variants) then Ok (VVariant s) else Err (unknown_variant s)
  end.

(** A list of texts: a vector reads them all, anything else the first. *)
Fixpoint reads_multi {S : SerdeStd} {T : SerdeTypes S} (t : Ty) (l : list string) : result Val string :=
  match t with
  | TOption t => result_map VSome (reads_multi t l)
  | TNewtype t => result_map VNewtype (reads_multi t l)
  | TVec t => result_map VVec (result_mapM (reads t) l)
  | t => match l with s :: _ => reads t s | [] => Err "expected vec not empty" end
  end.

(** A value without [None]. *)
Fixpoint present (v : Val) : bool :=
  match v with
  | VNone => false
  | VSome v | VNewtype v => present v
  | VVec l => forallb present l
  | _ => true
  end.

(** The text of a value, and the texts of a possibly repeated value. *)
Fixpoint render (v : Val) : string :=
  match v with
  | VBool true => "true"
  | VBool false => "false"
  | VInt z => show_Z z
  | VString s | VVariant s => s
  | VSome v | VNewtype v => render v
  | VNone | VVec _ => ""
  end.
Fixpoint render_multi (v : Val) : list string :=
  match v with
  | VVec l => map render l
  | VSome v | VNewtype v => render_multi v
  | _ => [render v]
  end.

(** Types a single text can stand for, and those a list of texts can. *)
Fixpoint scalar (t : Ty) : bool :=
  match t with
  | TVec _ => false
  | TOption t | TNewtype t => scalar t
  | _ => true
  end.
Fixpoint multi (t : Ty) : bool :=
  match t with
  | TVec t => scalar t
  | TOption t | TNewtype t => multi t
  | _ => true
  end.

(** ** Lemmas *)

Lemma parse_int_range t s z : parse_int t s = Some z → int_ok t z = true.
Proof.
  unfold parse_int, int_ok, parse_signed, parse_unsigned.
  destruct t; cbn; intros; by split_cases.
Qed.

Lemma parse_signed_show_any lo hi z :
  parse_signed lo hi (show_Z z) = if in_range lo hi z then Some z else None.
Proof.
  unfold parse_signed. destruct (decide (0 <= z)%Z) as [Hz|Hz].
  - pose proof (digits_show z Hz) as Hd. pose proof (digits_not_signed _ _ Hd) as Hn.
    assert (match show_Z z with String "+" s' => digits s' | String "-" s' => Z.opp <$> digits s'
            | _ => digits (show_Z z) end = Some z) as ->; [|done].
    rewrite <-Hd. by repeat case_match; subst.
  - destruct z as [|q|q]; [lia..|].
    unfold show_Z. change (pretty (Zneg q)) with ("-" +:+ pretty (Npos q)).
    cbn [String.append].
    by assert (Z.opp <$> digits (pretty (Npos q)) = Some (Zneg q)) as ->
      by by rewrite digits_pretty.
Qed.

Lemma parse_unsigned_show_any hi z :
  parse_unsigned hi (show_Z z) = if in_range 0 hi z then Some z else None.
Proof.
  unfold parse_unsigned. destruct (decide (0 <= z)%Z) as [Hz|Hz].
  - pose proof (digits_show z Hz) as Hd. pose proof (digits_not_signed _ _ Hd) as Hn.
    assert (match show_Z z with String "+" s' => digits s' | _ => digits (show_Z z) end
            = Some z) as ->; [|done].
    rewrite <-Hd. by repeat case_match; subst.
  - destruct z as [|q|q]; [lia..|].
    unfold show_Z. by change (pretty (Zneg q)) with ("-" +:+ pretty (Npos q)).
Qed.

(** Printing a number and parsing it back: the same number, if it fits. *)
Lemma parse_int_show_iff t z :
  parse_int t (show_Z z) = if int_ok t z then Some z else None.
Proof.
  unfold parse_int, int_ok. destruct t; cbn;
    by first [apply parse_unsigned_show_any|apply parse_signed_show_any].
Qed.

Lemma result_map_Ok {A B E} (f : A → B) (r : result A E) b :
  result_map f r = Ok b ↔ ∃ a, r = Ok a ∧ b = f a.
Proof. destruct r; naive_solver. Qed.

Lemma result_mapM_Ok {A B E} (f : A → result B E) l bs :
  result_mapM f l = Ok bs ↔ Forall2 (λ a b, f a = Ok b) l bs.
Proof.
  revert bs. induction l as [|a l IH]; intros bs; cbn.
  { split; [intros [= <-]; constructor|by intros H; inversion H]. }
  split.
  - destruct (f a) as [b|e] eqn:Ea; [cbn|done].
    destruct (result_mapM f l) as [bs'|e]; [cbn|done].
    intros [= <-]. constructor; [done|]. by apply IH.
  - intros H; inversion H as [|? b ? bs' Ha Hl]; subst. rewrite Ha; cbn.
    apply IH in Hl. by rewrite Hl.
Qed.

Section types.
Context {S : SerdeStd} {T : SerdeTypes S} {L : SerdeTypesLaws S T}.

(** What [serde]'s types make of a single text. *)
Lemma cow_deserialize t c :
  from_str_val (serde t) c =
  CowValue_deserialize c (hint t) (de_visitor (serde t)).
Proof. unfold from_str_val, T_deserialize. by rewrite serde_method. Qed.

Lemma multi_deserialize t items :
  from_str_multi_val (serde t) items =
  VecValue_deserialize items (hint t) (de_visitor (serde t)).
Proof. unfold from_str_multi_val, T_deserialize. by rewrite serde_method. Qed.

Lemma cow_int_serde t c :
  cow_int t c (de_visitor (serde (TInt t))) =
  match parse_int t (cow_str c) with
  | Some z => Ok (VInt z)
  | None => Err (parse_int_err t (cow_str c))
  end.
Proof. unfold cow_int. case_match; [apply serde_int|done]. Qed.

Lemma cow_any_string c : cow_any c (de_visitor (serde TString)) = Ok (VString (cow_str c)).
Proof. destruct c; [apply serde_str|apply serde_string]. Qed.

Lemma cow_any_vec t c : cow_any c (de_visitor (serde (TVec t))) = Err (invalid_seq (cow_str c)).
Proof. destruct c; [apply serde_seq_str|apply serde_seq_string]. Qed.

Lemma visit_enum_Ok variants c v :
  visit_enum (de_visitor (serde (TUnitEnum variants))) c = Ok v ↔
  cow_str c ∈ variants ∧ v = VVariant (cow_str c).
Proof.
  rewrite serde_enum. unfold variant_seed, enum_seed.
  case_bool_decide; cbn; naive_solver.
Qed.

Lemma cow_reads t c : from_str_val (serde t) c = reads t (cow_str c).
Proof.
  induction t; rewrite cow_deserialize; cbn [CowValue_deserialize hint reads].
  - unfold cow_bool. destruct (parse_bool _); [apply serde_bool|done].
  - rewrite cow_int_serde. by destruct (parse_int _ _).
  - apply cow_any_string.
  - rewrite serde_some. by rewrite <-IHt.
  - rewrite serde_newtype. by rewrite <-IHt.
  - apply cow_any_vec.
  - rewrite serde_enum. unfold variant_seed, enum_seed. by case_bool_decide.
Qed.

Lemma vec_reads t items : from_str_multi_val (serde t) items = reads_multi t (map cow_str items).
Proof.
  induction t; rewrite multi_deserialize; cbn [VecValue_deserialize hint reads_multi].
  all: try solve [destruct items as [|c items]; [done|]; cbn [map vec_first];
    rewrite <-cow_reads, cow_deserialize; done].
  - rewrite serde_some. by rewrite <-IHt.
  - rewrite serde_newtype. by rewrite <-IHt.
  - rewrite serde_seq. clear IHt. f_equal. induction items as [|c items IH]; [done|]. cbn [map result_mapM].
    rewrite IH, <-cow_reads. done.
Qed.

(** A value that was read is one of the type. *)
Lemma reads_typed t s v : reads t s = Ok v → typed t v = true ∧ present v = true.
Proof.
  revert v. induction t; intros v; cbn [reads].
  - unfold ok_or. destruct (parse_bool s); [|done]. by intros [= <-].
  - destruct (parse_int t s) eqn:E; [|done]. intros [= <-]. cbn. by rewrite (parse_int_range _ _ _ E).
  - by intros [= <-].
  - rewrite result_map_Ok. by intros (v' & Hv%IHt & ->).
  - rewrite result_map_Ok. by intros (v' & Hv%IHt & ->).
  - done.
  - case_bool_decide; [|done]. intros [= <-]. cbn. by rewrite bool_decide_eq_true_2.
Qed.

Lemma cow_typed t c v :
  from_str_val (serde t) c = Ok v → typed t v = true ∧ present v = true.
Proof. rewrite cow_reads. apply reads_typed. Qed.

(** C16: What the deserialisers make of a text and of a list of texts, errors
    included, is what the requested type says, whether the texts are borrowed
    or owned: a text stands for itself, for one of two booleans, for an
    integer that its type can hold, or for the variant of that name; options
    and newtypes are read through (so that an empty text is a present value
    for an optional text); a vector is read text by text, in order, up to the
    first error, and a single text is none; from a list anything but a vector
    takes the first text, and an empty list is an error.  A decimal number is
    read exactly when it lies in the range of its integer type. *)
Theorem deserialize_spec t :
  (∀ c, from_str_val (serde t) c = reads t (cow_str c)) ∧
  (∀ items, from_str_multi_val (serde t) items = reads_multi t (map cow_str items)) ∧
  (∀ i z, reads (TInt i) (show_Z z) =
     if int_ok i z then Ok (VInt z) else Err (parse_int_err i (show_Z z))).
Proof.
  split_and!; [intros c; apply cow_reads|intros items; apply vec_reads|].
  intros i z. cbn. rewrite parse_int_show_iff. by destruct (int_ok i z).
Qed.

Lemma cow_roundtrip t v c :
  scalar t = true → typed t v = true → present v = true → cow_str c = render v →
  from_str_val (serde t) c = Ok v.
Proof.
  revert v. induction t; intros v Hs Ht Hp Hc;
    rewrite cow_deserialize; cbn [CowValue_deserialize hint];
    destruct v; try done; cbn in *.
  - unfold cow_bool, parse_bool. rewrite Hc. destruct b; apply (serde_bool _).
  - rewrite cow_int_serde, Hc. rewrite parse_int_show_iff. unfold int_ok in *. by rewrite Ht.
  - by rewrite cow_any_string, Hc.
  - rewrite serde_some. apply result_map_Ok. eexists; split; [|done]. by apply IHt.
  - rewrite serde_newtype. apply result_map_Ok. eexists; split; [|done]. by apply IHt.
  - apply visit_enum_Ok. rewrite Hc. by apply bool_decide_eq_true in Ht.
Qed.

Lemma vec_roundtrip t v items :
  multi t = true → typed t v = true → present v = true →
  map cow_str items = render_multi v →
  from_str_multi_val (serde t) items = Ok v.
Proof.
  revert v. induction t; intros v Hs Ht Hp Hc;
    rewrite multi_deserialize; cbn [VecValue_deserialize hint];
    destruct v; try done; cbn in *.
  all: try solve [destruct items as [|c [|]]; try done; injection Hc as Hc; cbn [vec_first];
    match goal with |- ?l = Ok ?v =>
      match l with context [serde ?t] => rewrite <-(cow_roundtrip t v c) by done end end;
    by rewrite cow_deserialize].
  - rewrite serde_some. apply result_map_Ok. eexists; split; [|done]. by apply IHt.
  - rewrite serde_newtype. apply result_map_Ok. eexists; split; [|done]. by apply IHt.
  - rewrite serde_seq. apply result_map_Ok. eexists; split; [|done]. apply result_mapM_Ok.
    clear IHt. revert items Hc. induction l as [|w l IH]; intros [|c items]; try done; cbn.
    cbn in Ht, Hp. apply andb_true_iff in Ht as [? ?], Hp as [? ?].
    intros [= ? ?]. constructor; [by apply (cow_roundtrip t w c)|by apply IH].
Qed.

(** C17: Deserialising inverts printing: the text of a value of a scalar type
    is read back as the same value, and the list of the texts of a repeated
    field as the same vector (in order), a scalar target taking the first
    text only. *)
Theorem deserialize_render t v (Ht : typed t v = true) (Hp : present v = true) :
  (scalar t = true → ∀ c, cow_str c = render v → from_str_val (serde t) c = Ok v) ∧
  (multi t = true → ∀ items, map cow_str items = render_multi v →
     from_str_multi_val (serde t) items = Ok v).
Proof.
  split; intros Hs.
  - intros c Hc. by apply cow_roundtrip.
  - intros items Hc. by apply vec_roundtrip.
Qed.
End types.

(** ** A concrete serde *)

Definition DemoStd : SerdeStd := {|
  Float := string;
  parse_f32 s := Ok s;
  parse_f64 s := Ok s;
  parse_int_err _ _ := "invalid digit found in string";
|}.

Fixpoint demo_serde (t : Ty) : Deserialize (S := DemoStd) Val :=
  let bad {A} (_ : A) : result Val string := Err "invalid type" in
  mkDeserialize (hint t)
    match t with
    | TBool => mkVisitor (S := DemoStd) (λ b, Ok (VBool b)) (λ _, bad) bad bad bad bad bad bad bad bad
    | TInt _ => mkVisitor (S := DemoStd) bad (λ _ z, Ok (VInt z)) bad bad bad bad bad bad bad bad
    | TString => mkVisitor (S := DemoStd) bad (λ _, bad) bad bad
                   (λ s, Ok (VString s)) (λ s, Ok (VString s)) bad bad bad bad
    | TOption t => mkVisitor (S := DemoStd) bad (λ _, bad) bad bad bad bad
                     (λ d, result_map VSome (T_deserialize (demo_serde t) d)) bad bad bad
    | TNewtype t => mkVisitor (S := DemoStd) bad (λ _, bad) bad bad bad bad bad
                      (λ d, result_map VNewtype (T_deserialize (demo_serde t) d)) bad bad
    | TVec t => mkVisitor (S := DemoStd) bad (λ _, bad) bad bad bad bad bad bad
                  (λ items, result_map VVec
                     (result_mapM (λ c, T_deserialize (demo_serde t) (DCow c)) items)) bad
    | TUnitEnum variants => mkVisitor (S := DemoStd) bad (λ _, bad) bad bad bad bad bad bad bad
        (λ c, if bool_decide (cow_str c ∈ variants) then Ok (VVariant (cow_str c))
              else Err "unknown variant")
    end.

#[export] Instance DemoSerde : SerdeTypes DemoStd :=
  {| serde := demo_serde; unknown_variant _ := "unknown variant"; invalid_seq _ := "invalid type" |}.

#[export] Instance DemoSerdeLaws : SerdeTypesLaws DemoStd DemoSerde.
Proof.
  constructor; try done.
  - by intros [].
  - intros variants c. unfold variant_seed, enum_seed. cbn. by case_bool_decide.
Qed.

#[local] Existing Instance DemoStd.

Lemma deserialize_spec_witness :
  from_str_multi_val (serde (TVec (TInt U8))) [CowOwned "7"; CowOwned "256"; CowBorrowed "x"] =
    Err "invalid digit found in string" ∧
  from_str_val (serde (TOption TString)) (CowBorrowed "") = Ok (VSome (VString "")) ∧
  from_str_multi_val (serde (TOption (TInt U8))) [] = Err "expected vec not empty".
Proof.
  split_and!.
  - rewrite (proj1 (proj2 (deserialize_spec (TVec (TInt U8))))). vm_compute. reflexivity.
  - rewrite (proj1 (deserialize_spec (TOption TString))). reflexivity.
  - rewrite (proj1 (proj2 (deserialize_spec (TOption (TInt U8))))). reflexivity.
Defined.

Lemma deserialize_render_witness :
  from_str_val (serde (TOption (TInt I32))) (CowBorrowed "-42") = Ok (VSome (VInt (-42))) ∧
  from_str_multi_val (serde (TVec (TUnitEnum ["red"; "blue"]))) [CowOwned "blue"; CowOwned "red"]
    = Ok (VVec [VVariant "blue"; VVariant "red"]).
Proof.
  split.
  - destruct (deserialize_render (TOption (TInt I32)) (VSome (VInt (-42)))) as [H _];
      [vm_compute; reflexivity..|]. apply H; reflexivity.
  - destruct (deserialize_render (TVec (TUnitEnum ["red"; "blue"]))
      (VVec [VVariant "blue"; VVariant "red"])) as [_ H]; [vm_compute; reflexivity..|].
    apply H; reflexivity.
Defined.
