(* ===== verification/Platform.v ===== *)
(** * Third-party code as parameters

    [Platform] collects the operations of the crates Silent depends on
    ([http], [headers], [hyper], [uuid], [memchr], [serde_json], ...) and the
    parts of a run the program does not determine (the world user handlers
    act on, the iteration order of a [HashMap], the address of a literal).
    Every definition that uses one takes the class as an argument.
    [PlatformLaws] states the documented behaviour the theorems rely on;
    [Demo] is a concrete instance at which the witnesses are evaluated. *)

From S2P Require Import Prelude Str.

(** [http_body::Frame]: a data frame or a trailers frame. *)
Inductive Frame :=
| FrameData (bytes : string)
| FrameTrailers.

Definition frame_data (f : Frame) : option string :=
  match f with FrameData b => Some b | FrameTrailers => None end.

(** [http_body::SizeHint]. *)
Record SizeHint := mkHint { lower : Z; upper : option Z }.
Definition hint_exact (n : Z) : SizeHint := mkHint n (Some n).
Definition hint_default : SizeHint := mkHint 0 None.

(** What [serde_json::to_value] may produce, as far as the sources look. *)
Inductive JsonView :=
| JsonString (s : string)
| JsonNull
| JsonOther.

Class Platform := {
  (** The state user supplied futures act on. *)
  World : Type;
  (** [http::HeaderMap], [HeaderValue] parsing and [HeaderValue::to_str]. *)
  HeaderMap : Type;
  hm_empty : HeaderMap;
  hm_get : HeaderMap → string → option string;
  hm_insert : HeaderMap → string → string → HeaderMap;
  hm_append : HeaderMap → string → string → HeaderMap;
  hm_remove : HeaderMap → string → HeaderMap;
  hm_extend : HeaderMap → HeaderMap → HeaderMap;
  header_value_ok : string → bool;
  header_to_str : string → option string;
  (** [http::Extensions]. *)
  Extensions : Type;
  ext_empty : Extensions;
  ext_extend : Extensions → Extensions → Extensions;
  (** [uuid::Uuid]. *)
  Uuid : Type;
  uuid_parse : string → option Uuid;
  uuid_to_string : Uuid → string;
  (** [memchr::memchr]. *)
  memchr : ascii → string → option nat;
  (** The payload of an [Arc<dyn Any>]. *)
  AnyVal : Type;
  (** [hyper::body::Incoming] and boxed bodies and streams. *)
  Incoming : Type;
  incoming_poll : Incoming → Poll (option (result Frame string)) * Incoming;
  incoming_is_end : Incoming → bool;
  incoming_hint : Incoming → SizeHint;
  BytesStream : Type;
  stream_poll : BytesStream → Poll (option (result string string)) * BytesStream;
  BoxedBody : Type;
  boxed_poll : BoxedBody → Poll (option (result Frame string)) * BoxedBody;
  boxed_is_end : BoxedBody → bool;
  boxed_hint : BoxedBody → SizeHint;
  (** [serde_json]. *)
  Json : Type;
  json_from_slice : string → result Json string;
  json_to_vec : Json → string;
  json_view : Json → JsonView;
  json_get : Json → string → option Json;
  (** [mime::Mime] parsing (its subtype) and [form_urlencoded::parse]. *)
  mime_subtype : string → option string;
  form_urlencoded_parse : string → list (string * string);
  (** [http::StatusCode]'s [Display]. *)
  status_display : Z → string;
  (** The [headers::ContentType] constants. *)
  ct_text_utf8 : string;
  ct_html : string;
  ct_json : string;
  ct_octet_stream : string;
  (** The order in which [HashMap::values] yields the values of a map. *)
  hash_order : gmap string nat → list nat;
  (** The address of the literal [""] in the executable. *)
  empty_lit : Z;
}.

(** Printable ASCII or a tab. *)
Definition visible (c : ascii) : bool :=
  ((32 <=? N_of_ascii c)%N && (N_of_ascii c <? 127)%N) || (N_of_ascii c =? 9)%N.

(** Header names compare without case. *)
Definition header_eq (a b : string) : bool :=
  bool_decide (to_ascii_lowercase a = to_ascii_lowercase b).

Class PlatformLaws (P : Platform) : Prop := {
  hm_get_empty k : hm_get hm_empty k = None;
  hm_get_insert m k v k' :
    hm_get (hm_insert m k v) k' = if header_eq k k' then Some v else hm_get m k';
  hm_get_append m k v k' :
    hm_get (hm_append m k v) k' =
    if header_eq k k'
    then Some (default v (hm_get m k')) else hm_get m k';
  hm_get_remove m k k' :
    hm_get (hm_remove m k) k' = if header_eq k k' then None else hm_get m k';
  (** [Extend]: the entries of the second map replace those of the first. *)
  hm_get_extend m m' k :
    hm_get (hm_extend m m') k =
    match hm_get m' k with Some v => Some v | None => hm_get m k end;
  (** [to_str] succeeds on visible ASCII, which is also a legal value. *)
  header_to_str_spec s t : header_to_str s = Some t ↔ t = s ∧ str_forallb visible s = true;
  header_value_visible s : str_forallb visible s = true → header_value_ok s = true;
  memchr_spec c s : memchr c s = find_char c s;
  hash_order_perm m : hash_order m ≡ₚ (map_to_list m).*2;
}.

(** ** A concrete platform

    Headers are an association list keyed by lower-cased names (the newest
    values first, [append] adds at the end), the world is a log of strings; the
    empty literal is placed at a chosen address. *)
Definition demo_get (m : list (string * string)) (k : string) : option string :=
  snd <$> find (λ kv, header_eq (fst kv) k) m.

Definition demo_remove (m : list (string * string)) (k : string) :=
  List.filter (λ kv, negb (header_eq (fst kv) k)) m.

(** Scripted bodies: a list of poll results, exhausted as [None]. *)
Definition script_poll {A} (l : list (Poll (option A))) : Poll (option A) * list (Poll (option A)) :=
  match l with [] => (Ready None, []) | p :: l' => (p, l') end.

Definition DemoExt (E : Type) (e0 : E) (ee : E → E → E) (W : Type) (lit : Z) : Platform := {|
  World := W;
  HeaderMap := list (string * string);
  hm_empty := [];
  hm_get := demo_get;
  hm_insert m k v := (k, v) :: demo_remove m k;
  hm_append m k v := (m ++ [(k, v)])%list;
  hm_remove := demo_remove;
  hm_extend m m' := (m' ++ m)%list;
  header_value_ok := str_forallb (λ c,
    ((32 <=? N_of_ascii c)%N && negb (N_of_ascii c =? 127)%N) || (N_of_ascii c =? 9)%N);
  header_to_str s := if str_forallb visible s then Some s else None;
  Extensions := E;
  ext_empty := e0;
  ext_extend := ee;
  Uuid := string;
  uuid_parse s := if (String.length s =? 36)%nat then Some s else None;
  uuid_to_string s := s;
  memchr := find_char;
  AnyVal := Z;
  Incoming := list (Poll (option (result Frame string)));
  incoming_poll := script_poll;
  incoming_is_end l := match l with [] => true | _ => false end;
  incoming_hint _ := hint_default;
  BytesStream := list (Poll (option (result string string)));
  stream_poll := script_poll;
  BoxedBody := list (Poll (option (result Frame string)));
  boxed_poll := script_poll;
  boxed_is_end l := match l with [] => true | _ => false end;
  boxed_hint _ := hint_default;
  Json := string;
  json_from_slice s := match parse_i64 s with Some _ => Ok s | None => Err "bad json" end;
  json_to_vec s := s;
  json_view s := JsonString s;
  json_get _ _ := None;
  mime_subtype s := snd (split_once "/" s);
  form_urlencoded_parse s :=
    (λ kv, let '(k, v) := split_once "=" kv in (k, default "" v)) <$> split_char "&" s;
  status_display := show_Z;
  ct_text_utf8 := "text/plain; charset=utf-8";
  ct_html := "text/html; charset=utf-8";
  ct_json := "application/json";
  ct_octet_stream := "application/octet-stream";
  hash_order m := (map_to_list m).*2;
  empty_lit := lit;
|}.

(** With extensions that hold nothing. *)
Definition DemoOn (W : Type) (lit : Z) : Platform := DemoExt unit tt (λ _ _, tt) W lit.

Definition DemoAt : Z → Platform := DemoOn (list string).

Definition Demo : Platform := DemoAt 1.

Section headers.
Context {P : Platform} {L : PlatformLaws P}.

Lemma header_eq_refl k : header_eq k k = true.
Proof. by apply bool_decide_eq_true. Qed.

Lemma hm_get_insert_eq m k v : hm_get (hm_insert m k v) k = Some v.
Proof. by rewrite hm_get_insert, header_eq_refl. Qed.

Lemma hm_get_insert_ne m k v k' :
  header_eq k k' = false → hm_get (hm_insert m k v) k' = hm_get m k'.
Proof. intros H. by rewrite hm_get_insert, H. Qed.

Lemma hm_get_remove_eq m k : hm_get (hm_remove m k) k = None.
Proof. by rewrite hm_get_remove, header_eq_refl. Qed.
End headers.

Lemma header_eq_trans a b c :
  header_eq a b = true → header_eq a c = header_eq b c.
Proof.
  unfold header_eq. rewrite bool_decide_eq_true. by intros ->.
Qed.

Lemma header_eq_sym a b : header_eq a b = header_eq b a.
Proof. apply bool_decide_ext. split; congruence. Qed.

Lemma demo_get_remove m k k' :
  demo_get (demo_remove m k) k' = if header_eq k k' then None else demo_get m k'.
Proof.
  unfold demo_get, demo_remove. induction m as [|[a v] m IH]; cbn.
  { by destruct (header_eq k k'). }
  destruct (header_eq a k) eqn:Ek; cbn.
  - rewrite IH. rewrite (header_eq_trans a k k') by done.
    by destruct (header_eq k k').
  - destruct (header_eq a k') eqn:Ea; cbn; [|done].
    by rewrite (header_eq_sym k k'), <-(header_eq_trans a k' k), Ek.
Qed.

Lemma demo_get_app m m' k :
  demo_get (m ++ m')%list k =
  match demo_get m k with Some v => Some v | None => demo_get m' k end.
Proof.
  unfold demo_get. induction m as [|[a v] m IH]; cbn; [done|].
  by destruct (header_eq a k).
Qed.

#[local] Arguments demo_get : simpl never.
#[local] Arguments demo_remove : simpl never.

#[export] Instance DemoExtLaws E e0 ee W lit : PlatformLaws (DemoExt E e0 ee W lit).
Proof.
  constructor; cbn; try done.
  - intros m k v k'. change ((k, v) :: demo_remove m k) with ([(k, v)] ++ demo_remove m k)%list.
    rewrite demo_get_app, demo_get_remove. unfold demo_get at 1; cbn.
    by destruct (header_eq k k').
  - intros m k v k'. rewrite demo_get_app. unfold demo_get at 2; cbn.
    destruct (header_eq k k'); by destruct (demo_get m k').
  - intros m k k'. apply demo_get_remove.
  - intros m m' k. apply demo_get_app.
  - intros s t. destruct (str_forallb visible s); naive_solver.
  - intros s Hs. induction s as [|c s IH]; [done|]. cbn in *.
    apply andb_true_iff in Hs as [Hc Hs]. rewrite IH, andb_true_r by done.
    apply orb_true_iff in Hc as [Hc| ->]; [|apply orb_true_r].
    apply andb_true_iff in Hc as [-> H2]. apply N.ltb_lt in H2.
    destruct (N.eqb_spec (N_of_ascii c) 127); [lia|done].
Qed.

#[export] Instance DemoOnLaws W lit : PlatformLaws (DemoOn W lit) := DemoExtLaws unit tt _ W lit.

#[export] Instance DemoAtLaws lit : PlatformLaws (DemoAt lit) := DemoOnLaws (list string) lit.

#[export] Instance DemoLaws : PlatformLaws Demo := DemoAtLaws 1.
