(* ===== verification/Ext.v ===== *)
(** * Typed slots of [http::Extensions]

    The extensions of a request or a response hold at most one value of each
    type.  [ExtSlot P T] is the slot of the type [T]; its laws are the
    documented behaviour of [Extensions::insert], [get], [remove] and [extend],
    and [ExtApart] says that two types do not share a slot. *)

From S2P Require Import Prelude Str Platform.

Class ExtSlot (P : Platform) (T : Type) := {
  ext_get : Extensions → option T;
  ext_insert : Extensions → T → Extensions;
  ext_remove : Extensions → Extensions;
}.

Class ExtSlotLaws {P : Platform} {T : Type} (S : ExtSlot P T) : Prop := {
  ext_get_empty : ext_get ext_empty = None;
  ext_get_insert e v : ext_get (ext_insert e v) = Some v;
  ext_get_remove e : ext_get (ext_remove e) = None;
  ext_get_extend e e' :
    ext_get (ext_extend e e') = match ext_get e' with Some v => Some v | None => ext_get e end;
  (** Removing what was just inserted restores extensions without it. *)
  ext_remove_insert e v : ext_get e = None → ext_remove (ext_insert e v) = e;
}.

Class ExtApart {P : Platform} {T U : Type} (S : ExtSlot P T) (S' : ExtSlot P U) : Prop := {
  ext_apart_insert e u : ext_get (T := T) (ext_insert (T := U) e u) = ext_get e;
  ext_apart_remove e : ext_get (T := T) (ext_remove (T := U) e) = ext_get e;
}.

(** ** Two slots on the demonstration platform *)

Definition DemoTwo (A B W : Type) : Platform :=
  DemoExt (option A * option B) (None, None) (λ e e', (or_else (fst e') (fst e), or_else (snd e') (snd e)))
    W 1.

Section two.
Context {A B W : Type}.

Definition slot1 : ExtSlot (DemoTwo A B W) A := {|
  ext_get := (fst : @Extensions (DemoTwo A B W) → option A);
  ext_insert := (λ e v, (Some v, snd e)) : @Extensions (DemoTwo A B W) → A → @Extensions (DemoTwo A B W);
  ext_remove := (λ e, (None, snd e)) : @Extensions (DemoTwo A B W) → @Extensions (DemoTwo A B W);
|}.
Definition slot2 : ExtSlot (DemoTwo A B W) B := {|
  ext_get := (snd : @Extensions (DemoTwo A B W) → option B);
  ext_insert := (λ e v, (fst e, Some v)) : @Extensions (DemoTwo A B W) → B → @Extensions (DemoTwo A B W);
  ext_remove := (λ e, (fst e, None)) : @Extensions (DemoTwo A B W) → @Extensions (DemoTwo A B W);
|}.

Lemma slot1_laws : ExtSlotLaws slot1.
Proof.
  split; cbn; try done.
  - intros e e'. by destruct (fst e').
  - intros [a b] v Ha. cbn in *. by subst a.
Qed.
Lemma slot2_laws : ExtSlotLaws slot2.
Proof.
  split; cbn; try done.
  - intros e e'. by destruct (snd e').
  - intros [a b] v Hb. cbn in *. by subst b.
Qed.
Lemma slots_apart : ExtApart slot1 slot2.
Proof. by split. Qed.
Lemma slots_apart' : ExtApart slot2 slot1.
Proof. by split. Qed.
End two.
