(* ===== verification/State.v ===== *)
(** * The typed state container (silent/src/configs/mod.rs)

    [State] maps a [TypeId] to one value of that type behind [Arc<dyn Any>];
    [Request], [Response] and every route node carry one. *)

From S2P Require Import Prelude Str Platform.

(** A type is named by its path; [dyn Any] remembers the type of its payload. *)
Abbreviation TypeId := string.

Section state.
Context {P : Platform}.

Record Any := mkAny { any_type : TypeId; any_val : AnyVal }.

Abbreviation AnyMap := (gmap TypeId Any).

(** [Any::downcast_ref::<T>]. *)
Definition downcast_ref (t : TypeId) (a : Any) : option AnyVal :=
  if decide (any_type a = t) then Some (any_val a) else None.

Record State := mkState { st_map : option AnyMap }.

Definition State_new : State := mkState None.

(** [insert::<T>]: the previous value of that type and the new container. *)
Definition State_insert (s : State) (t : TypeId) (v : AnyVal) : option AnyVal * State :=
  let m := default ∅ (st_map s) in
  (m !! t ≫= downcast_ref t, mkState (Some (<[t := mkAny t v]> m))).

(** [get::<T>]. *)
Definition State_get (s : State) (t : TypeId) : option AnyVal :=
  st_map s ≫= λ m, m !! t ≫= downcast_ref t.

(** [remove::<T>]. *)
Definition State_remove (s : State) (t : TypeId) : option AnyVal * State :=
  match st_map s with
  | Some m => (m !! t ≫= downcast_ref t, mkState (Some (delete t m)))
  | None => (None, s)
  end.

Definition State_clear (s : State) : State :=
  match st_map s with Some _ => mkState (Some ∅) | None => s end.

Definition State_is_empty (s : State) : bool :=
  match st_map s with Some m => bool_decide (m = ∅) | None => true end.

Definition State_len (s : State) : nat :=
  match st_map s with Some m => size m | None => 0 end.

(** [extend_from]: insert every entry of [other], replacing those present. *)
Definition State_extend_from (s other : State) : State :=
  match st_map other with
  | Some om => mkState (Some (map_fold (λ k v dst, <[k := v]> dst) (default ∅ (st_map s)) om))
  | None => s
  end.

(** Every value is stored under its own type. *)
Definition State_ok (s : State) : Prop :=
  ∀ m t a, st_map s = Some m → m !! t = Some a → any_type a = t.

Inductive StateOp :=
| OpInsert (t : TypeId) (v : AnyVal)
| OpRemove (t : TypeId)
| OpClear
| OpExtend (ops : list (TypeId * AnyVal)).

(** The container built by inserting a list of values. *)
Definition State_of_list (l : list (TypeId * AnyVal)) : State :=
  foldl (λ s '(t, v), snd (State_insert s t v)) State_new l.

Definition state_step (s : State) (op : StateOp) : State :=
  match op with
  | OpInsert t v => snd (State_insert s t v)
  | OpRemove t => snd (State_remove s t)
  | OpClear => State_clear s
  | OpExtend l => State_extend_from s (State_of_list l)
  end.

(** ** Lemmas *)

Lemma map_fold_insert_union {V} (m1 m2 : gmap TypeId V) :
  map_fold (λ k v dst, <[k := v]> dst) m1 m2 = m2 ∪ m1.
Proof.
  induction m2 as [|k v m2 Hk Hf IH] using map_first_key_ind.
  - by rewrite map_fold_empty, (left_id_L ∅ (∪)).
  - rewrite map_fold_insert_first_key, IH by done.
    by rewrite insert_union_l.
Qed.

Lemma State_extend_from_map s other :
  State_extend_from s other =
  match st_map other with
  | Some om => mkState (Some (om ∪ default ∅ (st_map s)))
  | None => s
  end.
Proof.
  unfold State_extend_from. destruct (st_map other); [|done].
  by rewrite map_fold_insert_union.
Qed.

Lemma State_new_ok : State_ok State_new.
Proof. done. Qed.

Lemma State_insert_ok s t v : State_ok s → State_ok (snd (State_insert s t v)).
Proof.
  intros H m t' a [= <-] [[<- <-]|[Hne Hl]]%lookup_insert_Some; [done|].
  destruct (st_map s) eqn:E; [by eapply H|by cbn in Hl; rewrite lookup_empty in Hl].
Qed.

Lemma State_remove_ok s t : State_ok s → State_ok (snd (State_remove s t)).
Proof.
  intros H. unfold State_remove. destruct (st_map s) as [m|] eqn:E; [|done].
  intros m' t' a [= <-] [_ Hl]%lookup_delete_Some. by eapply H.
Qed.

Lemma State_clear_ok s : State_ok s → State_ok (State_clear s).
Proof.
  intros H. unfold State_clear. destruct (st_map s) eqn:E; [|done].
  intros m t a [= <-] Hl. by rewrite lookup_empty in Hl.
Qed.

Lemma State_extend_from_ok s other :
  State_ok s → State_ok other → State_ok (State_extend_from s other).
Proof.
  intros Hs Ho. rewrite State_extend_from_map.
  destruct (st_map other) as [om|] eqn:Eo; [|done].
  intros m t a [= <-] [Hl|[_ Hl]]%lookup_union_Some_raw; [by eapply Ho|].
  destruct (st_map s) eqn:Es; [by eapply Hs|by cbn in Hl; rewrite lookup_empty in Hl].
Qed.

Lemma State_of_list_ok l : State_ok (State_of_list l).
Proof.
  unfold State_of_list. generalize State_new_ok. generalize State_new.
  induction l as [|[t v] l IH]; intros s Hs; [done|].
  apply IH. by apply State_insert_ok.
Qed.

#[local] Hint Resolve State_new_ok State_insert_ok State_remove_ok State_clear_ok
  State_extend_from_ok State_of_list_ok : core.

Lemma state_step_ok s op : State_ok s → State_ok (state_step s op).
Proof.
  intros Hs. destruct op as [t v|t| |l]; unfold state_step; auto.
Qed.

Lemma State_get_insert s t v t' :
  State_get (snd (State_insert s t v)) t' =
  if decide (t = t') then Some v else State_get s t'.
Proof.
  unfold State_get, State_insert; cbn. rewrite lookup_insert.
  destruct (decide (t = t')) as [<-|Hne]; cbn.
  - unfold downcast_ref; cbn. by rewrite decide_True.
  - destruct (st_map s); cbn; [done|by rewrite lookup_empty].
Qed.

(** In a well typed container [get] never loses a stored value to a failed
    downcast. *)
Lemma State_get_ok s t :
  State_ok s → State_get s t = st_map s ≫= λ m, any_val <$> m !! t.
Proof.
  intros H. unfold State_get. destruct (st_map s) as [m|] eqn:E; [|done]; cbn.
  destruct (m !! t) as [a|] eqn:El; [|done]; cbn. unfold downcast_ref.
  by rewrite decide_True by by eapply H.
Qed.

(** every reachable container is well typed (so the [downcast_ref] of
    [get], [insert] and [remove] never fails on a stored value), and
    [extend_from] makes [get] answer from the other container first and from
    the old contents otherwise, for every type. *)
Theorem state_reachable_extend (ops : list StateOp) (l : list (TypeId * AnyVal)) t :
  let s := runs state_step State_new ops in
  State_ok s ∧
  State_get (State_extend_from s (State_of_list l)) t =
    match State_get (State_of_list l) t with
    | Some v => Some v
    | None => State_get s t
    end.
Proof.
  cbn. assert (State_ok (runs state_step State_new ops)) as Hs.
  { apply runs_invariant; [done|]. intros. by apply state_step_ok. }
  split; [done|].
  rewrite !State_get_ok by auto. rewrite State_extend_from_map.
  destruct (st_map (State_of_list l)) as [om|]; [|done]; cbn.
  rewrite lookup_union.
  destruct (om !! t); cbn;
    destruct (st_map (runs state_step State_new ops)) as [m|]; cbn;
    rewrite ?lookup_empty; cbn; by try destruct (m !! t).
Qed.
End state.
