(* ===== verification/Error.v ===== *)
(** * Errors (silent/src/error/mod.rs) *)

From S2P Require Import Prelude Str Platform.

(** [http::StatusCode], a number in 100..999. *)
Abbreviation StatusCode := Z.
Definition OK : StatusCode := 200.
Definition NO_CONTENT : StatusCode := 204.
Definition MOVED_PERMANENTLY : StatusCode := 301.
Definition NOT_MODIFIED : StatusCode := 304.
Definition BAD_REQUEST : StatusCode := 400.
Definition FORBIDDEN : StatusCode := 403.
Definition NOT_FOUND : StatusCode := 404.
Definition METHOD_NOT_ALLOWED : StatusCode := 405.
Definition REQUEST_TIMEOUT : StatusCode := 408.
Definition UNPROCESSABLE_ENTITY : StatusCode := 422.
Definition TOO_MANY_REQUESTS : StatusCode := 429.
Definition SWITCHING_PROTOCOLS : StatusCode := 101.
Definition INTERNAL_SERVER_ERROR : StatusCode := 500.

(** [StatusCode::from_u16]. *)
Definition status_from_u16 (z : Z) : option StatusCode :=
  if in_range 100 999 z then Some z else None.

(** Errors of other crates are carried as their [Display] text. *)
Inductive SilentError :=
| IOError (e : string)
| SerdeJsonError (e : string)
| SerdeDeError (e : string)
| HyperError (e : string)
| FileEmpty (e : string)
| BodyEmpty
| JsonEmpty
| ContentTypeError
| ContentTypeMissingError
| ParamsEmpty
| ParamsNotFound
| ConfigNotFound
| WsError (e : string)
| AnyhowError (e : string)
| BusinessError (code : StatusCode) (msg : string)
| NotFound.

Abbreviation SilentResult T := (result T SilentError).

Definition business_error (code : StatusCode) (msg : string) : SilentError :=
  BusinessError code msg.

(** [business_error_obj]: the serialised object, or [""] when it cannot be
    serialised. *)
Definition business_error_obj (code : StatusCode) (ser : result string string) : SilentError :=
  BusinessError code (match ser with Ok s => s | Err _ => "" end).

(** The [From] conversions. *)
Definition error_from_status (v : StatusCode * string) : SilentError :=
  business_error (fst v) (snd v).

Definition error_from_u16 (v : Z * string) : SilentError :=
  business_error (default INTERNAL_SERVER_ERROR (status_from_u16 (fst v))) (snd v).

Definition error_from_string (v : string) : SilentError :=
  business_error INTERNAL_SERVER_ERROR v.

Definition error_from_boxed (display : string) : SilentError :=
  business_error INTERNAL_SERVER_ERROR display.

Definition status (e : SilentError) : StatusCode :=
  match e with
  | BusinessError code _ => code
  | SerdeDeError _ => UNPROCESSABLE_ENTITY
  | SerdeJsonError _ => UNPROCESSABLE_ENTITY
  | NotFound => NOT_FOUND
  | ContentTypeError => BAD_REQUEST
  | BodyEmpty => BAD_REQUEST
  | JsonEmpty => BAD_REQUEST
  | _ => INTERNAL_SERVER_ERROR
  end.

Section display.
Context {P : Platform}.

(** The [#[error(...)]] strings. *)
Definition error_display (e : SilentError) : string :=
  match e with
  | IOError _ => "io error"
  | SerdeJsonError e => "serde_json error `" +:+ e +:+ "`"
  | SerdeDeError e => "serde de error `" +:+ e +:+ "`"
  | HyperError e => "the data for key `" +:+ e +:+ "` is not available"
  | FileEmpty e => "upload file read error `" +:+ e +:+ "`"
  | BodyEmpty => "body is empty"
  | JsonEmpty => "json is empty"
  | ContentTypeError => "content-type is error"
  | ContentTypeMissingError => "content-type is missing"
  | ParamsEmpty => "params is empty"
  | ParamsNotFound => "params not found"
  | ConfigNotFound => "config not found"
  | WsError e => "websocket error: " +:+ e
  | AnyhowError e => e
  | BusinessError code msg => "business error: " +:+ msg +:+ " (" +:+ status_display code +:+ ")"
  | NotFound => "not found"
  end.

Definition message (e : SilentError) : string :=
  match e with
  | BusinessError _ msg => msg
  | SerdeDeError e => e
  | SerdeJsonError e => e
  | _ => error_display e
  end.
End display.

(** ** Lemmas *)

(** Errors built by the program itself (not carrying a caller's code) map to
    one of four statuses. *)
Lemma status_cases e :
  match e with BusinessError _ _ => False | _ => True end →
  status e ∈ [UNPROCESSABLE_ENTITY; NOT_FOUND; BAD_REQUEST; INTERNAL_SERVER_ERROR].
Proof. destruct e; cbn; intros; try done; set_solver. Qed.

Lemma error_from_u16_valid v :
  in_range 100 999 (status (error_from_u16 v)) = true.
Proof.
  destruct v as [z m]. unfold error_from_u16, status_from_u16; cbn.
  by destruct (in_range 100 999 z) eqn:E.
Qed.
