(* ===== verification/PathParam.v ===== *)
(** * Path parameters (silent/src/core/path_param.rs)

    A string parameter borrows a range of the shared request path; reading it
    slices the path again, so a bad range panics at that point. *)

From S2P Require Import Prelude Str Platform Error.

Section path_param.
Context {P : Platform}.

(** [Range<usize>] *)
Record Range := mkRange { start : nat; end_ : nat }.

Record PathSlice := mkPathSlice { source : string; range : Range }.

Definition PathSlice_as_str (s : PathSlice) : outcome string :=
  slice_range (source s) (start (range s)) (end_ (range s)).

Inductive PathString :=
| Borrowed (slice : PathSlice)
| Owned (value : string).

Definition PathString_borrowed (source : string) (r : Range) : PathString :=
  Borrowed (mkPathSlice source r).

Definition as_str (s : PathString) : outcome string :=
  match s with
  | Borrowed slice => PathSlice_as_str slice
  | Owned value => Ret value
  end.

(** [as_cow] borrows what [as_str] returns. *)
Definition as_cow (s : PathString) : outcome string :=
  match s with
  | Borrowed slice => PathSlice_as_str slice
  | Owned value => Ret value
  end.

Inductive PathParam :=
| PStr (s : PathString)
| PInt (v : Z)
| PInt64 (v : Z)
| PInt32 (v : Z)
| PUInt64 (v : Z)
| PUInt32 (v : Z)
| PUuid (u : Uuid)
| PPath (s : PathString).

Definition borrowed_str (source : string) (r : Range) : PathParam :=
  PStr (PathString_borrowed source r).
Definition borrowed_path (source : string) (r : Range) : PathParam :=
  PPath (PathString_borrowed source r).

(** The [From] conversions. *)
Definition from_String (s : string) : PathParam := PStr (Owned s).
Definition from_i32 (v : Z) : PathParam := PInt v.
Definition from_i64 (v : Z) : PathParam := PInt64 v.
Definition from_u64 (v : Z) : PathParam := PUInt64 v.
Definition from_u32 (v : Z) : PathParam := PUInt32 v.
Definition from_Uuid (u : Uuid) : PathParam := PUuid u.

(** The [TryFrom<&PathParam>] conversions; only the string one can panic. *)
Definition try_i32 (p : PathParam) : SilentResult Z :=
  match p with
  | PInt v => Ok v
  | PInt32 v => Ok v
  | _ => Err ParamsNotFound
  end.

Definition try_i64 (p : PathParam) : SilentResult Z :=
  match p with
  | PInt64 v => Ok v
  | PInt v => Ok v
  | PInt32 v => Ok v
  | _ => Err ParamsNotFound
  end.

Definition try_u64 (p : PathParam) : SilentResult Z :=
  match p with PUInt64 v => Ok v | _ => Err ParamsNotFound end.

Definition try_u32 (p : PathParam) : SilentResult Z :=
  match p with PUInt32 v => Ok v | _ => Err ParamsNotFound end.

Definition try_String (p : PathParam) : outcome (SilentResult string) :=
  match p with
  | PStr v | PPath v => Ok <$> (as_str v)
  | _ => Ret (Err ParamsNotFound)
  end.

Definition try_Uuid (p : PathParam) : SilentResult Uuid :=
  match p with PUuid u => Ok u | _ => Err ParamsNotFound end.

(** [path_param_to_string] of the [Path<T>] extractor
    (silent/src/extractor/from_request.rs). *)
Definition path_param_to_string (p : PathParam) : outcome string :=
  match p with
  | PStr s | PPath s => as_str s
  | PInt v => Ret (show_Z v)
  | PInt32 v => Ret (show_Z v)
  | PInt64 v => Ret (show_Z v)
  | PUInt32 v => Ret (show_Z v)
  | PUInt64 v => Ret (show_Z v)
  | PUuid u => Ret (uuid_to_string u)
  end.
End path_param.
