(* ===== verification/Body.v ===== *)
(** * Request and response bodies
    (silent/src/core/req_body.rs, silent/src/core/res_body.rs)

    A body is polled: each poll yields a frame, an error, the end of the body
    or [Pending], and leaves a new body behind.  Bodies that come from hyper
    or from a user stream are parameters; the variants the program implements
    itself are executable. *)

From S2P Require Import Prelude Str Platform.

(** The results of the first [n] polls. *)
Fixpoint polls {B A} (poll : B → A * B) (n : nat) (b : B) : list A * B :=
  match n with
  | O => ([], b)
  | S n' => let '(r, b') := poll b in
            let '(rs, b'') := polls poll n' b' in (r :: rs, b'')
  end.

(** Bytes of a successfully delivered data frame. *)
Definition ok_len (r : Poll (option (result Frame string))) : nat :=
  match r with
  | Ready (Some (Ok (FrameData d))) => String.length d
  | _ => 0
  end.

Definition delivered (rs : list (Poll (option (result Frame string)))) : nat :=
  sum_list_with ok_len rs.
#[local] Arguments delivered _ /.

Section body.
Context {P : Platform}.

(** [Poll::map] on the stream side: trailers end the stream. *)
Definition frame_to_item (r : Poll (option (result Frame string)))
  : Poll (option (result string string)) :=
  match r with
  | Ready (Some (Ok f)) => Ready (Ok <$> frame_data f)
  | Ready (Some (Err e)) => Ready (Some (Err e))
  | Ready None => Ready None
  | Pending => Pending
  end.

Definition item_to_frame (r : Poll (option (result string string)))
  : Poll (option (result Frame string)) :=
  match r with
  | Ready (Some (Ok b)) => Ready (Some (Ok (FrameData b)))
  | Ready (Some (Err e)) => Ready (Some (Err e))
  | Ready None => Ready None
  | Pending => Pending
  end.

(** ** LimitedIncoming *)

Record LimitedIncoming := mkLimited { inner : Incoming; seen : Z; max : Z }.

Definition LimitedIncoming_new (i : Incoming) (max : Z) : LimitedIncoming :=
  mkLimited i 0 max.

(** [seen] is a [usize]: the addition wraps. *)
Definition limited_poll (b : LimitedIncoming)
  : Poll (option (result Frame string)) * LimitedIncoming :=
  let '(r, i) := incoming_poll (inner b) in
  match r with
  | Ready (Some (Ok frame)) =>
      match frame_data frame with
      | Some data =>
          let seen' := wrap_u64 (seen b + Z.of_nat (String.length data)) in
          let b' := mkLimited i seen' (max b) in
          if (max b <? seen')%Z
          then (Ready (Some (Err "request body size exceeds limit")), b')
          else (Ready (Some (Ok frame)), b')
      | None => (Ready (Some (Ok frame)), mkLimited i (seen b) (max b))
      end
  | other => (other, mkLimited i (seen b) (max b))
  end.

(** ** ReqBody *)

Inductive ReqBody :=
| ReqEmpty
| ReqOnce (bytes : string)
| ReqIncoming (i : Incoming)
| ReqLimitedIncoming (l : LimitedIncoming)
| ReqStreaming (s : BytesStream).

Definition ReqBody_poll_frame (b : ReqBody)
  : Poll (option (result Frame string)) * ReqBody :=
  match b with
  | ReqEmpty => (Ready None, ReqEmpty)
  | ReqOnce bytes => (Ready (Some (Ok (FrameData bytes))), ReqEmpty)
  | ReqIncoming i => let '(r, i') := incoming_poll i in (r, ReqIncoming i')
  | ReqLimitedIncoming l => let '(r, l') := limited_poll l in (r, ReqLimitedIncoming l')
  | ReqStreaming s => let '(r, s') := stream_poll s in (item_to_frame r, ReqStreaming s')
  end.

Definition ReqBody_is_end_stream (b : ReqBody) : bool :=
  match b with
  | ReqEmpty => true
  | ReqOnce bytes => bool_decide (bytes = "")
  | ReqIncoming i => incoming_is_end i
  | ReqLimitedIncoming l => incoming_is_end (inner l)
  | ReqStreaming _ => false
  end.

Definition ReqBody_size_hint (b : ReqBody) : SizeHint :=
  match b with
  | ReqEmpty => hint_exact 0
  | ReqOnce bytes => hint_exact (Z.of_nat (String.length bytes))
  | ReqIncoming i => incoming_hint i
  | ReqLimitedIncoming l => incoming_hint (inner l)
  | ReqStreaming _ => hint_default
  end.

(** The [Stream] implementation. *)
Definition ReqBody_poll_next (b : ReqBody)
  : Poll (option (result string string)) * ReqBody :=
  let '(r, b') := ReqBody_poll_frame b in (frame_to_item r, b').

Definition ReqBody_with_limit (b : ReqBody) (max : option Z) : ReqBody :=
  match b, max with
  | ReqIncoming body, Some max_bytes =>
      ReqLimitedIncoming (LimitedIncoming_new body max_bytes)
  | other, _ => other
  end.

Definition ReqBody_from_stream (s : BytesStream) : ReqBody := ReqStreaming s.
Definition ReqBody_from_incoming (i : Incoming) : ReqBody := ReqIncoming i.
Definition ReqBody_from_unit (_ : ()) : ReqBody := ReqEmpty.

(** ** ResBody *)

Inductive ResBody :=
| ResNone
| ResOnce (bytes : string)
| ResChunks (chunks : list string)
| ResIncoming (i : Incoming)
| ResStream (s : BytesStream)
| ResBoxed (b : BoxedBody).

Definition full (chunk : string) : ResBody := ResOnce chunk.
Definition stream_body (s : BytesStream) : ResBody := ResStream s.

Definition ResBody_poll_next (b : ResBody)
  : Poll (option (result string string)) * ResBody :=
  match b with
  | ResNone => (Ready None, b)
  | ResOnce bytes =>
      if bool_decide (bytes = "") then (Ready None, b)
      else (Ready (Some (Ok bytes)), ResOnce "")
  | ResChunks [] => (Ready None, b)
  | ResChunks (c :: cs) => (Ready (Some (Ok c)), ResChunks cs)
  | ResIncoming i => let '(r, i') := incoming_poll i in (frame_to_item r, ResIncoming i')
  | ResStream s => let '(r, s') := stream_poll s in (r, ResStream s')
  | ResBoxed x => let '(r, x') := boxed_poll x in (frame_to_item r, ResBoxed x')
  end.

Definition ResBody_poll_frame (b : ResBody)
  : Poll (option (result Frame string)) * ResBody :=
  match b with
  | ResNone => (Ready None, b)
  | ResOnce bytes =>
      if bool_decide (bytes = "") then (Ready None, b)
      else (Ready (Some (Ok (FrameData bytes))), ResOnce "")
  | ResChunks [] => (Ready None, b)
  | ResChunks (c :: cs) => (Ready (Some (Ok (FrameData c))), ResChunks cs)
  | ResIncoming i => let '(r, i') := incoming_poll i in (r, ResIncoming i')
  | ResStream s => let '(r, s') := stream_poll s in (item_to_frame r, ResStream s')
  | ResBoxed x => let '(r, x') := boxed_poll x in (r, ResBoxed x')
  end.

Definition ResBody_is_end_stream (b : ResBody) : bool :=
  match b with
  | ResNone => true
  | ResOnce bytes => bool_decide (bytes = "")
  | ResChunks chunks => bool_decide (chunks = [])
  | ResIncoming i => incoming_is_end i
  | ResBoxed x => boxed_is_end x
  | ResStream _ => false
  end.

Definition ResBody_size_hint (b : ResBody) : SizeHint :=
  match b with
  | ResNone => hint_exact 0
  | ResOnce bytes => hint_exact (Z.of_nat (String.length bytes))
  | ResChunks chunks => hint_exact (Z.of_nat (sum_list_with String.length chunks))
  | ResIncoming i => incoming_hint i
  | ResBoxed x => boxed_hint x
  | ResStream _ => hint_default
  end.

(** The [From] conversions: strings and byte slices all become [Once]. *)
Definition ResBody_from_bytes (v : string) : ResBody := ResOnce v.
Definition ResBody_from_incoming (i : Incoming) : ResBody := ResIncoming i.

(** ** Reference: the bytes of an in-memory body *)

Definition in_memory (b : ResBody) : option (list string) :=
  match b with
  | ResNone => Some []
  | ResOnce bytes => Some (if bool_decide (bytes = "") then [] else [bytes])
  | ResChunks cs => Some cs
  | _ => None
  end.

(** A scripted upload of seven bytes in two frames, for the witnesses. *)
Definition demo_upload : list (Poll (option (result Frame string))) :=
  [Ready (Some (Ok (FrameData "abc"))); Ready (Some (Ok (FrameData "defg")))].

(** ** Lemmas *)

Lemma polls_S {B A} (poll : B → A * B) n b :
  polls poll (S n) b =
  let '(r, b') := poll b in let '(rs, b'') := polls poll n b' in (r :: rs, b'').
Proof. reflexivity. Qed.

Lemma polls_limited n b i rs :
  polls incoming_poll n (inner b) = (rs, i) →
  (0 ≤ seen b ≤ max b)%Z →
  (seen b + Z.of_nat (delivered rs) ≤ max b)%Z →
  (max b ≤ usize_max)%Z →
  ∃ b', polls limited_poll n b = (rs, b').
Proof.
  revert b i rs. induction n as [|n IH]; intros b i rs Hp Hs Hm Hu; cbn in *.
  { simplify_eq. by eexists. }
  unfold limited_poll at 1. destruct (incoming_poll (inner b)) as [r i'] eqn:E.
  destruct (polls incoming_poll n i') as [rs' i''] eqn:E'. simplify_eq.
  cbn in Hm.
  destruct r as [[[[d|]|e]|]|]; cbn in *.
  2-5: destruct (IH (mkLimited i' (seen b) (max b)) i rs') as [b' Hb'];
    cbn; [done|lia|lia|lia|rewrite Hb'; by eexists].
  assert (wrap_u64 (seen b + Z.of_nat (String.length d))
          = seen b + Z.of_nat (String.length d))%Z as ->.
  { unfold wrap_u64. apply Z.mod_small. unfold usize_max in Hu. lia. }
  destruct (Z.ltb_spec (max b) (seen b + Z.of_nat (String.length d))); [lia|].
  destruct (IH (mkLimited i' (seen b + Z.of_nat (String.length d)) (max b)) i rs')
    as [b' Hb']; cbn; [done|lia|lia|lia|].
  rewrite Hb'. by eexists.
Qed.

(** Once the limit is passed no data frame is delivered any more. *)
Lemma limited_over n b i rs rs' b' :
  polls incoming_poll n (inner b) = (rs, i) →
  polls limited_poll n b = (rs', b') →
  (0 ≤ seen b)%Z →
  (seen b + Z.of_nat (delivered rs) < u64_max + 1)%Z →
  (Z.of_nat (delivered rs') ≤ Z.max 0 (max b - seen b))%Z.
Proof.
  revert b i rs rs' b'.
  induction n as [|n IH]; intros b i rs rs' b' Hp Hl Hs Hu; cbn in *.
  { simplify_eq; cbn. lia. }
  unfold limited_poll at 1 in Hl. destruct (incoming_poll (inner b)) as [r i'] eqn:E.
  destruct (polls incoming_poll n i') as [rs1 i1] eqn:E'. simplify_eq.
  cbn in Hu.
  destruct r as [[[f|e]|]|]; cbn in *; [destruct f as [d|]; cbn in *|..].
  2-5: destruct (polls limited_poll n _) as [rs2 b2] eqn:E2; simplify_eq; cbn;
    eapply (IH _ i rs1) in E2; cbn in *; eauto with lia.
  assert (wrap_u64 (seen b + Z.of_nat (String.length d))
          = seen b + Z.of_nat (String.length d))%Z as Hw.
  { unfold wrap_u64. apply Z.mod_small. lia. }
  rewrite Hw in Hl.
  destruct (Z.ltb_spec (max b) (seen b + Z.of_nat (String.length d)));
    destruct (polls limited_poll n _) as [rs2 b2] eqn:E2; simplify_eq; cbn;
    eapply (IH _ i rs1) in E2; cbn in *; eauto with lia; lia.
Qed.

(** C30: A body read through [with_limit(Some(max))] never delivers more than
    [max] bytes of data, over any number of polls and whatever the client
    sends (fewer than 2^64 bytes), and when the client stays within the limit
    the polls are exactly those of the unlimited body. *)
Theorem limited_body_bound (i : Incoming) (m : Z) (n : nat) :
  (0 ≤ m ≤ usize_max)%Z →
  let sent := fst (polls incoming_poll n i) in
  (Z.of_nat (delivered sent) < u64_max + 1)%Z →
  let got := fst (polls ReqBody_poll_frame n
                    (ReqBody_with_limit (ReqIncoming i) (Some m))) in
  (Z.of_nat (delivered got) ≤ m)%Z ∧
  ((Z.of_nat (delivered sent) ≤ m)%Z → got = sent).
Proof.
  intros Hm sent Hs got. subst sent got.
  assert (∀ n l, polls ReqBody_poll_frame n (ReqLimitedIncoming l) =
    let '(r, l') := polls limited_poll n l in (r, ReqLimitedIncoming l')) as Hl.
  { clear. induction n as [|n IH]; intros l; [done|]. cbn.
    destruct (limited_poll l) as [r l']. rewrite IH.
    by destruct (polls limited_poll n l'). }
  cbn [ReqBody_with_limit]. rewrite Hl.
  destruct (polls incoming_poll n i) as [rs i'] eqn:Ei; cbn in *.
  destruct (polls limited_poll n _) as [rs' l'] eqn:El; cbn. split.
  - eapply (limited_over n (LimitedIncoming_new i m)) in El; cbn; eauto with lia.
    cbn in El. lia.
  - intros Hle. destruct (polls_limited n (LimitedIncoming_new i m) i' rs) as [b' Hb'];
      cbn; [done|lia|lia|lia|]. congruence.
Qed.

(** A buffered body is drained frame by frame. *)
Lemma chunks_poll_frames cs :
  polls ResBody_poll_frame (S (length cs)) (ResChunks cs) =
  (((λ c, Ready (Some (Ok (FrameData c)))) <$> cs) ++ [Ready None], ResChunks [])%list.
Proof.
  induction cs as [|c cs IH]; [done|].
  cbn [length]. rewrite polls_S. cbn [ResBody_poll_frame]. by rewrite IH.
Qed.

Lemma chunks_poll_items cs :
  polls ResBody_poll_next (S (length cs)) (ResChunks cs) =
  (((λ c, Ready (Some (Ok c))) <$> cs) ++ [Ready None], ResChunks [])%list.
Proof.
  induction cs as [|c cs IH]; [done|].
  cbn [length]. rewrite polls_S. cbn [ResBody_poll_next]. by rewrite IH.
Qed.

(** Polling a buffered response body (none, one buffer or a queue of
    buffers) yields exactly its buffers in order and then the end, through
    both the [Body] and the [Stream] interface, without ever pending or
    failing; its size hint is the exact number of bytes that will come, and
    [is_end_stream] holds exactly when nothing will. *)
Theorem buffered_body_drain (b : ResBody) (cs : list string) :
  in_memory b = Some cs →
  fst (polls ResBody_poll_frame (S (length cs)) b) =
    (((λ c, Ready (Some (Ok (FrameData c)))) <$> cs) ++ [Ready None])%list ∧
  fst (polls ResBody_poll_next (S (length cs)) b) =
    (((λ c, Ready (Some (Ok c))) <$> cs) ++ [Ready None])%list ∧
  ResBody_size_hint b = hint_exact (Z.of_nat (sum_list_with String.length cs)) ∧
  (ResBody_is_end_stream b = true ↔ cs = []).
Proof.
  destruct b as [|bytes|l| | |]; cbn [in_memory]; intros [= <-].
  - done.
  - unfold ResBody_is_end_stream. case_bool_decide as E; subst; cbn; [done|].
    rewrite bool_decide_eq_false_2 by done. cbn.
    by rewrite bool_decide_eq_true_2, Nat.add_0_r.
  - rewrite chunks_poll_frames, chunks_poll_items. cbn.
    by rewrite bool_decide_eq_true.
Qed.
End body.

(** ** Witnesses *)

Lemma limited_body_bound_witness :
  (0 ≤ 5 ≤ usize_max)%Z ∧
  (Z.of_nat (delivered (fst (polls (ReqBody_poll_frame (P := Demo)) 3
     (ReqBody_with_limit (ReqIncoming (P := Demo) demo_upload) (Some 5%Z))))) ≤ 5)%Z.
Proof.
  split; [by vm_compute|].
  refine (proj1 (limited_body_bound (P := Demo) demo_upload 5 3 _ _)); by vm_compute.
Defined.

Lemma buffered_body_drain_witness :
  in_memory (P := Demo) (ResChunks ["ab"; "c"]) = Some ["ab"; "c"] ∧
  ResBody_size_hint (P := Demo) (ResChunks ["ab"; "c"]) = hint_exact 3.
Proof.
  split; [reflexivity|].
  refine (proj1 (proj2 (proj2
    (buffered_body_drain (P := Demo) (ResChunks ["ab"; "c"]) ["ab"; "c"] _)))).
  reflexivity.
Defined.
