(* ===== verification/Form.v ===== *)
(** * Multipart form data (silent/src/core/form.rs)

    [FormData::read] walks the parts of an upload, keeps text fields and
    stores file parts below fresh temporary directories; dropping a
    [FilePart] removes its file and directory.  The multipart parser (multer),
    temporary directories (tempfile), nonces (textnonce) and the buffered
    files of async_fs are parameters; the file system is a component [Fs] of
    the world. *)

From S2P Require Import Prelude Str Platform Error Body.

(** ** File names *)

(** The last [c] of a text, as [rsplitn(2, c)]. *)
Fixpoint rsplit_once (c : ascii) (s : string) : option (string * string) :=
  match s with
  | "" => None
  | String a s' =>
      match rsplit_once c s' with
      | Some (x, y) => Some (String a x, y)
      | None => if bool_decide (a = c) then Some ("", s') else None
      end
  end.

(** [Path::file_name] and [Path::extension] of the standard library. *)
Definition path_file_name (p : string) : option string :=
  match last (filter (λ c, c ≠ "" ∧ c ≠ ".") (split_char "/" p)) with
  | Some f => if bool_decide (f = "..") then None else Some f
  | None => None
  end.
Definition path_extension (p : string) : option string :=
  match path_file_name p ≫= rsplit_once "." with
  | Some (before, after) => if bool_decide (before = "") then None else Some after
  | None => None
  end.

(** ** The file system *)

(** A path is a directory and the name pushed onto it. *)
Abbreviation FilePath := (string * string)%type.

(** [contents] is what the writer of each file was handed.  A buffered file
    that is never flushed may hold less of it ([on_disk] below). *)
Record Fs := mkFs {
  dirs : gset string;
  contents : gmap FilePath string;
}.

Definition fs_remove_file (p : FilePath) (fs : Fs) : Fs :=
  mkFs (dirs fs) (delete p (contents fs)).

(** [remove_dir] only removes an empty directory. *)
Definition fs_remove_dir (d : string) (fs : Fs) : Fs :=
  if decide (map_Forall (λ p _, p.1 ≠ d) (contents fs))
  then mkFs (dirs fs ∖ {[d]}) (contents fs) else fs.

Section form.
Context {P : Platform}.

(** [multer::Field] as far as the source looks at it: its name, whether it has
    a [content-type] header, its file name and its headers. *)
Record FieldMeta := mkMeta {
  f_name : option string;
  f_file_name : option string;
  f_headers : HeaderMap;
}.

Record FilePart := mkFilePart {
  fp_name : option string;
  fp_headers : HeaderMap;
  fp_path : FilePath;
  fp_size : Z;
  fp_temp_dir : option string;
}.

(** The [MultiMap]s as association lists: the values of a key are in the order
    of insertion. *)
Record FormData := mkFormData {
  fields : list (string * string);
  files : list (string * FilePart);
}.

Definition FormData_new : FormData := mkFormData [] [].

(** [MultiMap::insert] and [MultiMap::get_vec]. *)
Definition mm_insert {A} (m : list (string * A)) (k : string) (v : A) : list (string * A) :=
  m ++ [(k, v)].
Definition get_vec {A} (m : list (string * A)) (k : string) : option (list A) :=
  match map snd (filter (λ kv, kv.1 = k) m) with
  | [] => None
  | l => Some l
  end.

(** The accessors and [do_not_delete_on_drop]. *)
Definition name_mut (fp : FilePart) (name : string) : FilePart :=
  match fp_name fp with
  | Some _ => mkFilePart (Some name) (fp_headers fp) (fp_path fp) (fp_size fp) (fp_temp_dir fp)
  | None => fp
  end.
Definition do_not_delete_on_drop (fp : FilePart) : FilePart :=
  mkFilePart (fp_name fp) (fp_headers fp) (fp_path fp) (fp_size fp) None.

(** [Drop]: the thread it spawns ignores the errors of both removals. *)
Definition FilePart_drop (fp : FilePart) (fs : Fs) : Fs :=
  match fp_temp_dir fp with
  | Some temp_dir => fs_remove_dir temp_dir (fs_remove_file (fp_path fp) fs)
  | None => fs
  end.
Definition drop_all (l : list FilePart) (fs : Fs) : Fs :=
  foldl (λ fs fp, FilePart_drop fp fs) fs l.

(** [save]: [std::fs::copy] to another path; [read] is what reading the file
    gives. *)
Definition FilePart_save (read : result string string) (target : FilePath) (fs : Fs)
  : SilentResult Z * Fs :=
  match read with
  | Ok bytes => (Ok (Z.of_nat (String.length bytes)),
                 mkFs (dirs fs) (<[target := bytes]> (contents fs)))
  | Err e => (Err (BusinessError INTERNAL_SERVER_ERROR ("Failed to save file: " +:+ e)), fs)
  end.
End form.

(** ** The crates *)

Class FormCrates (P : Platform) := {
  Multipart : Type;
  parse_boundary : string → option string;
  mp_new : ReqBody → string → Multipart;
  (** [next_field], and [chunk] and [text] of the field it returned. *)
  mp_next : Multipart → M World (result (option FieldMeta) string * Multipart);
  mp_chunk : Multipart → M World (result (option string) string * Multipart);
  mp_text : Multipart → M World (result string string * Multipart);
  (** [Field::text]'s decoding. *)
  decode_text : string → string;
  (** The file system in the world. *)
  get_fs : World → Fs;
  put_fs : Fs → World → World;
  (** [async_fs::File]: its writes go to a buffer that is written behind the
      program's back, so that [on_disk], what the operating system finds at a
      path, may lag behind. *)
  File : Type;
  file_create : FilePath → M World (result File string);
  write_all : File → string → M World (result unit string * File);
  on_disk : World → FilePath → option string;
  (** [Builder::tempdir().keep()]'s directory and the nonce. *)
  tempdir : M World (result string string);
  nonce : M World (result string string);
}.

Section read.
Context {P : Platform} {F : FormCrates P}.

Definition modify_fs (f : Fs → Fs) : M World unit := λ w, (Ret tt, put_fs (f (get_fs w)) w).

(** [while let Some(chunk) = field.chunk().await?]: [None] means the loop has
    not ended within its fuel. *)
Fixpoint copy_chunks (fuel : nat) (file : File) (m : Multipart) (size : Z)
  : M World (option (SilentResult Z) * Multipart) :=
  match fuel with
  | O => mret (None, m)
  | S fuel =>
      mp_chunk m ≫= λ '(c, m),
      match c with
      | Err e => mret (Some (Err (FileEmpty e)), m)
      | Ok None => mret (Some (Ok size), m)
      | Ok (Some chunk) =>
          write_all file chunk ≫= λ '(r, file),
          match r with
          | Err e => mret (Some (Err (IOError e)), m)
          | Ok _ => copy_chunks fuel file m (wrap_u64 (size + Z.of_nat (String.length chunk)))
          end
      end
  end.

Definition file_base (nonce : string) (name : option string) : string :=
  nonce +:+ "." +:+ default "unknown" (name ≫= path_extension).

(** [FilePart::create]; the file is dropped without a flush. *)
Definition FilePart_create (fuel : nat) (meta : FieldMeta) (m : Multipart)
  : M World (option (SilentResult FilePart) * Multipart) :=
  tempdir ≫= λ d,
  match d with
  | Err e => mret (Some (Err (IOError e)), m)
  | Ok dir =>
      let temp_dir := Some dir in
      let name := f_file_name meta in
      nonce ≫= λ n,
      match n with
      | Err e => mret (Some (Err (error_from_string e)), m)
      | Ok n =>
          let path := (dir, file_base n name) in
          file_create path ≫= λ r,
          match r with
          | Err e => mret (Some (Err (IOError e)), m)
          | Ok file =>
              copy_chunks fuel file m 0 ≫= λ '(r, m),
              mret (match r with
                    | None => None
                    | Some (Err e) => Some (Err e)
                    | Some (Ok size) =>
                        Some (Ok (mkFilePart name (f_headers meta) path size temp_dir))
                    end, m)
          end
      end
  end.

(** Leaving [read] with an error drops the form read so far. *)
Definition fail_read (fd : FormData) (e : SilentError) : M World (option (SilentResult FormData)) :=
  modify_fs (drop_all (map snd (files fd))) ≫= λ _, mret (Some (Err e)).

(** The loop over the fields; [fuel] bounds the fields and each field's
    chunks. *)
Fixpoint read_fields (fuel : nat) (fd : FormData) (m : Multipart)
  : M World (option (SilentResult FormData)) :=
  match fuel with
  | O => mret None
  | S fuel =>
      mp_next m ≫= λ '(next, m),
      match next with
      | Err e => fail_read fd (FileEmpty e)
      | Ok None => mret (Some (Ok fd))
      | Ok (Some meta) =>
          match f_name meta with
          | None => read_fields fuel fd m
          | Some name =>
              match hm_get (f_headers meta) "content-type" with
              | Some _ =>
                  FilePart_create fuel meta m ≫= λ '(r, m),
                  match r with
                  | None => mret None
                  | Some (Err e) => fail_read fd e
                  | Some (Ok fp) =>
                      read_fields fuel (mkFormData (fields fd) (mm_insert (files fd) name fp)) m
                  end
              | None =>
                  mp_text m ≫= λ '(t, m),
                  match t with
                  | Err e => fail_read fd (FileEmpty e)
                  | Ok text =>
                      read_fields fuel (mkFormData (mm_insert (fields fd) name text) (files fd)) m
                  end
              end
          end
      end
  end.

(** [FormData::read] *)
Definition FormData_read (fuel : nat) (headers : HeaderMap) (body : ReqBody)
  : M World (option (SilentResult FormData)) :=
  match (hm_get headers "content-type" ≫= header_to_str) ≫= parse_boundary with
  | Some boundary => read_fields fuel FormData_new (mp_new body boundary)
  | None => mret (Some (Ok FormData_new))
  end.
End read.

(** ** What the crates promise *)

(** A part of an upload: its header data, its chunks, and the error the
    connection or the parser ends it with, if any. *)
Record Part {P : Platform} := mkPart {
  p_meta : FieldMeta;
  p_chunks : list string;
  p_error : option string;
}.

(** [mp_holds m ps e]: the parts [ps] are still to come, then the end or the
    error [e].  [mp_in m cs err ps e]: inside a part whose chunks [cs] (and
    [err]) are to come, before [ps]. *)
Class FormModel (P : Platform) (F : FormCrates P) := {
  mp_holds : Multipart → list Part → option string → Prop;
  mp_in : Multipart → list string → option string → list Part → option string → Prop;
  (** An open file and its path. *)
  file_at : File → FilePath → Prop;
}.

Definition chunks_text (cs : list string) : string := foldr String.append "" cs.

Definition fresh_dir (fs : Fs) (d : string) : Prop :=
  d ∉ dirs fs ∧ ∀ n, contents fs !! (d, n) = None.

Class FormLaws {P : Platform} (F : FormCrates P) (FM : FormModel P F) : Prop := {
  get_put_fs fs w : get_fs (put_fs fs w) = fs;
  mp_next_end m e w : mp_holds m [] e → ∃ m' w',
    mp_next m w = (Ret (match e with Some x => Err x | None => Ok None end, m'), w') ∧
    get_fs w' = get_fs w;
  mp_next_part m p ps e w : mp_holds m (p :: ps) e → ∃ m' w',
    mp_next m w = (Ret (Ok (Some (p_meta p)), m'), w') ∧ get_fs w' = get_fs w ∧
    mp_in m' (p_chunks p) (p_error p) ps e;
  (** [next_field] skips what is left of the current part. *)
  mp_skip m cs ps e : mp_in m cs None ps e → mp_holds m ps e;
  mp_skip_error m cs x ps e : mp_in m cs (Some x) ps e → mp_holds m [] (Some x);
  mp_chunk_some m c cs err ps e w : mp_in m (c :: cs) err ps e → ∃ m' w',
    mp_chunk m w = (Ret (Ok (Some c), m'), w') ∧ get_fs w' = get_fs w ∧ mp_in m' cs err ps e;
  mp_chunk_end m err ps e w : mp_in m [] err ps e → ∃ m' w',
    mp_chunk m w = (Ret (match err with Some x => Err x | None => Ok None end, m'), w') ∧
    get_fs w' = get_fs w ∧ mp_in m' [] err ps e;
  mp_text_spec m cs err ps e w : mp_in m cs err ps e → ∃ m' w',
    mp_text m w = (Ret (match err with
                        | Some x => Err x
                        | None => Ok (decode_text (chunks_text cs))
                        end, m'), w') ∧
    get_fs w' = get_fs w ∧ mp_in m' [] err ps e;
  file_create_spec p w : ∃ r w', file_create p w = (Ret r, w') ∧
    match r with
    | Ok f => file_at f p ∧ get_fs w' = mkFs (dirs (get_fs w)) (<[p := ""]> (contents (get_fs w)))
    | Err _ => get_fs w' = get_fs w
    end;
  (** A write that fails, perhaps for an earlier one, may have taken a part. *)
  write_all_spec f p bytes old w : file_at f p → contents (get_fs w) !! p = Some old →
    ∃ r f' w' got, write_all f bytes w = (Ret (r, f'), w') ∧ file_at f' p ∧
      get_fs w' = mkFs (dirs (get_fs w)) (<[p := old +:+ got]> (contents (get_fs w))) ∧
      (is_ok r = true → got = bytes);
  (** Without a flush the disk has a prefix of what was handed over. *)
  on_disk_spec w p :
    match contents (get_fs w) !! p with
    | Some handed => ∃ bytes rest, on_disk w p = Some bytes ∧ handed = bytes +:+ rest
    | None => on_disk w p = None
    end;
  nonce_spec w : ∃ r w', nonce w = (Ret r, w') ∧ get_fs w' = get_fs w;
  (** [tempdir] creates a directory that did not exist. *)
  tempdir_spec w : ∃ r w', tempdir w = (Ret r, w') ∧
    match r with
    | Ok d => fresh_dir (get_fs w) d ∧
        get_fs w' = mkFs ({[d]} ∪ dirs (get_fs w)) (contents (get_fs w))
    | Err _ => get_fs w' = get_fs w
    end;
}.

(** ** Reference: what an upload should become *)

Definition is_text {P : Platform} (p : Part) : bool :=
  match f_name (p_meta p), hm_get (f_headers (p_meta p)) "content-type" with
  | Some _, None => true
  | _, _ => false
  end.
Definition is_file {P : Platform} (p : Part) : bool :=
  match f_name (p_meta p), hm_get (f_headers (p_meta p)) "content-type" with
  | Some _, Some _ => true
  | _, _ => false
  end.

Definition text_field {P : Platform} {F : FormCrates P} (p : Part) : string * string :=
  (default "" (f_name (p_meta p)), decode_text (chunks_text (p_chunks p))).

(** The stored copy of a file part: its writer was handed all its bytes. *)
Definition stored {P : Platform} (fs : Fs) (p : Part) (f : string * FilePart) : Prop :=
  let '(name, fp) := f in
  f_name (p_meta p) = Some name ∧
  fp_name fp = f_file_name (p_meta p) ∧
  fp_headers fp = f_headers (p_meta p) ∧
  contents fs !! fp_path fp = Some (chunks_text (p_chunks p)) ∧
  fp_size fp = wrap_u64 (Z.of_nat (String.length (chunks_text (p_chunks p)))) ∧
  ∃ n, snd (fp_path fp) = file_base n (f_file_name (p_meta p)).

Definition part_fuel {P : Platform} (p : Part) : nat := 2 + length (p_chunks p).
Definition read_fuel {P : Platform} (ps : list Part) : nat :=
  foldr (λ p n, part_fuel p + n)%nat 1%nat ps.

(** The file system holds [base] and the files of [l], each alone in a
    directory of its own. *)
Definition pdir {P : Platform} (fp : FilePart) : string := (fp_path fp).1.

Record parked {P : Platform} (base : Fs) (l : list FilePart) (fs : Fs) : Prop := {
  parked_temp : Forall (λ fp, fp_temp_dir fp = Some (pdir fp)) l;
  parked_nodup : NoDup (map pdir l);
  parked_fresh : Forall (λ fp, fresh_dir base (pdir fp)) l;
  parked_dirs d : d ∈ dirs fs ↔ d ∈ dirs base ∨ d ∈ map pdir l;
  parked_contents p : p ∉ map fp_path l → contents fs !! p = contents base !! p;
}.

(** At most one new directory with at most one file in it. *)
Definition leaked (base fs : Fs) : Prop :=
  fs = base ∨ ∃ d, fresh_dir base d ∧ dirs fs = {[d]} ∪ dirs base ∧
    (contents fs = contents base ∨
     ∃ n bytes, contents fs = <[(d, n) := bytes]> (contents base)).

Section parked.
Context {P : Platform}.

Lemma parked_nil fs : parked fs [] fs.
Proof.
  split; [constructor|constructor|constructor| |done].
  intros d. cbn. set_solver.
Qed.

Lemma parked_perm base l l' fs : l ≡ₚ l' → parked base l fs → parked base l' fs.
Proof.
  intros Hp [H1 H2 H3 H4 H5]. split.
  - by rewrite <-Hp.
  - by rewrite <-Hp.
  - by rewrite <-Hp.
  - intros d. by rewrite H4, Hp.
  - intros p Hn. apply H5. by rewrite Hp.
Qed.

Lemma parked_nil_inv base fs : parked base [] fs → fs = base.
Proof.
  intros [_ _ _ Hd Hc]. destruct fs as [D C], base as [D' C']; cbn in *. f_equal.
  - apply set_eq. intros d. rewrite Hd. cbn. set_solver.
  - apply map_eq. intros p. apply Hc. cbn. set_solver.
Qed.

Lemma pdir_path_ne base fp l fs p :
  parked base (fp :: l) fs → p.1 = pdir fp → p ∉ map fp_path l.
Proof.
  intros [_ Hn _ _ _] Hp Hin. apply list_elem_of_In, in_map_iff in Hin as (fp' & <- & Hin).
  cbn in Hn. apply NoDup_cons in Hn as [Hn _]. apply Hn.
  apply list_elem_of_In, in_map_iff. by exists fp'.
Qed.

(** Dropping one of the parked files leaves the others parked. *)
Lemma drop_parked base fp l fs :
  parked base (fp :: l) fs → parked base l (FilePart_drop fp fs).
Proof.
  intros Hpk. pose proof (λ p, pdir_path_ne base fp l fs p Hpk) as Hne.
  destruct Hpk as [Ht Hn Hf Hd Hc].
  apply Forall_cons in Ht as [Ht Ht'], Hf as [[Hfd Hfc] Hf'].
  cbn in Hn. apply NoDup_cons in Hn as [Hnin Hn].
  unfold FilePart_drop. rewrite Ht. unfold fs_remove_dir, fs_remove_file; cbn.
  assert (∀ p, p ∉ map fp_path l → delete (fp_path fp) (contents fs) !! p = contents base !! p) as Hcd.
  { intros p Hp. destruct (decide (p = fp_path fp)) as [->|Hpp].
    - rewrite lookup_delete_eq. destruct (fp_path fp) as [d n] eqn:Ep.
      unfold pdir in Hfc. rewrite Ep in Hfc. by rewrite Hfc.
    - rewrite lookup_delete_ne by done. apply Hc. cbn. set_solver. }
  rewrite decide_True; cbn.
  - split; cbn; [done..| |done].
    intros d. rewrite elem_of_difference, elem_of_singleton, Hd. cbn.
    rewrite elem_of_cons. split; [naive_solver|].
    intros [H|H]; split; [by left| |by auto|]; intros ->; [by destruct Hfd|done].
  - intros p x Hx Hp. rewrite Hcd in Hx by by apply Hne.
    destruct p as [d n]; cbn in *. subst d. by rewrite Hfc in Hx.
Qed.

Lemma drop_all_parked base l fs : parked base l fs → drop_all l fs = base.
Proof.
  revert fs. induction l as [|fp l IH]; intros fs Hp; cbn; [by apply parked_nil_inv|].
  apply IH. by apply drop_parked.
Qed.

(** A new file in a fresh directory. *)
Lemma parked_snoc base l fs fp d n bytes :
  parked base l fs → fresh_dir fs d → fp_path fp = (d, n) → fp_temp_dir fp = Some d →
  parked base (l ++ [fp])%list
    (mkFs ({[d]} ∪ dirs fs) (<[(d, n) := bytes]> (contents fs))).
Proof.
  intros [Ht Hn Hf Hd Hc] [Hfd Hfc] Hp Htd.
  assert (pdir fp = d) as Hpd by (unfold pdir; by rewrite Hp).
  assert (d ∉ map pdir l ∧ d ∉ dirs base) as [Hdl Hdb].
  { rewrite Hd in Hfd. clear -Hfd. tauto. }
  assert (∀ m, (d, m) ∉ map fp_path l) as Hpl.
  { intros m Hin. apply Hdl. apply list_elem_of_In, in_map_iff in Hin as (fp' & E & Hin).
    apply list_elem_of_In, in_map_iff. exists fp'. split; [|done]. unfold pdir. by rewrite E. }
  split; cbn.
  - apply Forall_app; split; [done|]. constructor; [by rewrite Hpd|constructor].
  - rewrite map_app. apply NoDup_app. split_and!; [done| |by apply NoDup_singleton].
    intros x Hx. cbn. rewrite Hpd. set_solver.
  - apply Forall_app; split; [done|]. constructor; [|constructor]. rewrite Hpd. split; [done|].
    intros m. rewrite <-(Hc (d, m)) by done. apply Hfc.
  - intros x. rewrite map_app, elem_of_union, elem_of_singleton, Hd, elem_of_app. cbn.
    rewrite Hpd. set_solver.
  - intros p. rewrite map_app, not_elem_of_app. cbn. rewrite Hp. intros [Hp1 Hp2].
    rewrite lookup_insert_ne by set_solver. by apply Hc.
Qed.

(** A leak besides the parked files survives their dropping. *)
Lemma drop_all_leaked base l fs fs' :
  parked base l fs → leaked fs fs' → leaked base (drop_all l fs').
Proof.
  intros Hp [->|(d & [Hfd Hfc] & Hdirs & Hcont)].
  { left. by apply drop_all_parked. }
  destruct Hp as [Ht Hn Hf Hd Hc].
  assert (d ∉ map pdir l ∧ d ∉ dirs base) as [Hdl Hdb].
  { rewrite Hd in Hfd. clear -Hfd. tauto. }
  assert (∀ m, (d, m) ∉ map fp_path l) as Hpl.
  { intros m Hin. apply Hdl. apply list_elem_of_In, in_map_iff in Hin as (fp' & E & Hin).
    apply list_elem_of_In, in_map_iff. exists fp'. split; [|done]. unfold pdir. by rewrite E. }
  assert (fresh_dir base d) as Hfr.
  { split; [done|]. intros m. rewrite <-(Hc (d, m)) by done. apply Hfc. }
  assert (∀ C', (∀ p, p.1 ≠ d → C' !! p = contents base !! p) →
    (∀ p, p ∉ map fp_path l → contents fs' !! p = C' !! p) →
    drop_all l fs' = mkFs ({[d]} ∪ dirs base) C') as Hgen.
  { intros C' HC HC'. apply drop_all_parked. split; [done..| | |done].
    - rewrite Forall_forall in *. intros fp Hfp. destruct (Hf fp Hfp) as [H1 H2].
      assert (pdir fp ≠ d) as Hne.
      { intros <-. apply Hdl. apply list_elem_of_In, in_map_iff. exists fp.
        split; [done|]. by apply list_elem_of_In. }
      split; cbn; [set_solver|]. intros n. by rewrite HC.
    - intros x. rewrite Hdirs. cbn. rewrite !elem_of_union, Hd. set_solver. }
  right. exists d. split; [done|]. destruct Hcont as [Hcont|(n & bytes & Hcont)].
  - rewrite (Hgen (contents base)); [by auto|done|].
    intros p Hp. rewrite Hcont. by apply Hc.
  - rewrite (Hgen (<[(d, n):=bytes]> (contents base))); [by eauto| |].
    + intros p Hp. rewrite lookup_insert_ne; [done|]. by intros <-.
    + intros p Hp. rewrite Hcont. destruct (decide (p = (d, n))) as [->|Hne].
      * by rewrite !lookup_insert_eq.
      * rewrite !lookup_insert_ne by done. by apply Hc.
Qed.
End parked.

(** ** Lemmas on the reading *)

Section read_lemmas.
Context {P : Platform} {F : FormCrates P} {FM : FormModel P F} {L : FormLaws F FM}.

Lemma modify_fs_run f w : modify_fs f w = (Ret tt, put_fs (f (get_fs w)) w).
Proof. done. Qed.

Definition add_size (size : Z) (cs : list string) : Z :=
  foldl (λ s c, wrap_u64 (s + Z.of_nat (String.length c))) size cs.

(** The copy loop ends, and has then handed the chunks over, behind what the
    file was handed before. *)
Lemma copy_chunks_run fuel f p cs err ps e m size old w :
  (length cs < fuel)%nat → mp_in m cs err ps e → file_at f p → contents (get_fs w) !! p = Some old →
  ∃ r m' w' bytes, copy_chunks fuel f m size w = (Ret (Some r, m'), w') ∧
    get_fs w' = mkFs (dirs (get_fs w)) (<[p := bytes]> (contents (get_fs w))) ∧
    match r with
    | Ok size' => err = None ∧ bytes = old +:+ chunks_text cs ∧
        size' = add_size size cs ∧ mp_in m' [] err ps e
    | Err _ => True
    end.
Proof.
  revert f cs m size old w. induction fuel as [|fuel IH]; intros f cs m size old w Hf Hm Ha Hp; [lia|].
  destruct cs as [|c cs]; cbn [copy_chunks].
  - destruct (mp_chunk_end m err ps e w Hm) as (m' & w' & Hr & Hw & Hm').
    rewrite (M_bind_run _ _ _ _ _ Hr).
    assert (get_fs w' = mkFs (dirs (get_fs w)) (<[p := old]> (contents (get_fs w)))) as Hfs.
    { rewrite Hw, insert_id by done. by destruct (get_fs w). }
    destruct err as [x|].
    + by exists (Err (FileEmpty x)), m', w', old.
    + exists (Ok size), m', w', old. split_and!; try done. by rewrite str_app_nil_r.
  - destruct (mp_chunk_some m c cs err ps e w Hm) as (m1 & w1 & Hr & Hw & Hm1).
    rewrite (M_bind_run _ _ _ _ _ Hr). rewrite <-Hw in Hp.
    destruct (write_all_spec f p c old w1 Ha Hp) as (r2 & f2 & w2 & got & Hr2 & Ha2 & Hw2 & Hgot).
    rewrite (M_bind_run _ _ _ _ _ Hr2). destruct r2 as [[]|x].
    + rewrite (Hgot eq_refl) in Hw2. cbn in Hf.
      destruct (IH f2 cs m1 (wrap_u64 (size + Z.of_nat (String.length c)))
        (old +:+ c) w2) as (r & m' & w' & bytes & Hrun & Hfs & Hres); [lia|done|done| |].
      { rewrite Hw2. by apply lookup_insert_eq. }
      exists r, m', w', bytes. split_and!; [done| |].
      * rewrite Hfs, Hw2, Hw; cbn. by rewrite insert_insert_eq.
      * destruct r as [size'|]; [|done]. destruct Hres as (-> & -> & -> & ?).
        split_and!; [done| |done..]. by rewrite str_app_assoc.
    + exists (Err (IOError x)), m1, w2, (old +:+ got). split_and!; [done| |done]. by rewrite Hw2, Hw.
Qed.

Lemma add_size_wrap size cs :
  wrap_u64 size = size →
  add_size size cs = wrap_u64 (size + Z.of_nat (String.length (chunks_text cs))).
Proof.
  revert size. induction cs as [|c cs IH]; intros size Hs; cbn.
  { by rewrite Z.add_0_r. }
  unfold add_size in IH. rewrite IH.
  - unfold wrap_u64. rewrite str_len_app, Nat2Z.inj_add, Zplus_mod_idemp_l.
    f_equal. unfold chunks_text. lia.
  - unfold wrap_u64. by rewrite Zmod_mod.
Qed.

Lemma leaked_refl fs : leaked fs fs.
Proof. by left. Qed.

(** [FilePart::create] stores the part in a fresh directory, or fails leaving
    at most that directory. *)
Lemma FilePart_create_run fuel p ps e m w :
  (length (p_chunks p) < fuel)%nat → mp_in m (p_chunks p) (p_error p) ps e →
  ∃ r m' w', FilePart_create fuel (p_meta p) m w = (Ret (Some r, m'), w') ∧
    match r with
    | Err _ => leaked (get_fs w) (get_fs w')
    | Ok fp => p_error p = None ∧ mp_in m' [] None ps e ∧ ∃ d n,
        fresh_dir (get_fs w) d ∧ fp_path fp = (d, n) ∧ fp_temp_dir fp = Some d ∧
        get_fs w' = mkFs ({[d]} ∪ dirs (get_fs w))
                      (<[(d, n) := chunks_text (p_chunks p)]> (contents (get_fs w))) ∧
        ∀ name, f_name (p_meta p) = Some name → stored (get_fs w') p (name, fp)
    end.
Proof.
  intros Hf Hm. destruct (tempdir_spec w) as (rd & w1 & Hd & Hd').
  unfold FilePart_create. rewrite (M_bind_run _ _ _ _ _ Hd).
  destruct rd as [d|x]; [|exists (Err (IOError x)), m, w1; split; [done|by left]].
  destruct Hd' as [Hfr Hw1]. destruct (nonce_spec w1) as (rn & w2 & Hn & Hw2).
  rewrite (M_bind_run _ _ _ _ _ Hn). destruct rn as [n|x].
  2: { exists (Err (error_from_string x)), m, w2. split; [done|]. right. exists d.
       rewrite Hw2, Hw1. cbn. by auto. }
  set (path := (d, file_base n (f_file_name (p_meta p)))).
  destruct (file_create_spec path w2) as (rc & w3 & Hc & Hw3).
  rewrite (M_bind_run _ _ _ _ _ Hc). destruct rc as [f|x].
  2: { exists (Err (IOError x)), m, w3. split; [done|]. right. exists d.
       rewrite Hw3, Hw2, Hw1. cbn. by auto. }
  destruct Hw3 as [Ha Hw3].
  destruct (copy_chunks_run fuel f path (p_chunks p) (p_error p) ps e m 0 "" w3 Hf Hm Ha)
    as (r & m' & w' & bytes & Hrun & Hfs & Hres).
  { rewrite Hw3. apply lookup_insert_eq. }
  rewrite Hw3, Hw2, Hw1 in Hfs. cbn in Hfs. rewrite insert_insert_eq in Hfs.
  rewrite (M_bind_run _ _ _ _ _ Hrun). destruct r as [size|x].
  - destruct Hres as (He & -> & -> & Hm'). rewrite He in Hm'.
    exists (Ok (mkFilePart (f_file_name (p_meta p)) (f_headers (p_meta p)) path
      (add_size 0 (p_chunks p)) (Some d))), m', w'.
    split; [done|]. split_and!; [done..|]. exists d, (file_base n (f_file_name (p_meta p))).
    split_and!; [done..|]. intros name Hname. split_and!; cbn; try done.
    + rewrite Hfs. apply lookup_insert_eq.
    + by apply add_size_wrap.
    + by eexists.
  - exists (Err x), m', w'. split; [done|]. right. exists d. split; [done|].
    rewrite Hfs. cbn. split; [done|]. right. by eexists _, _.
Qed.

Lemma stored_grows fs d n bytes p f :
  fresh_dir fs d → stored fs p f →
  stored (mkFs ({[d]} ∪ dirs fs) (<[(d, n) := bytes]> (contents fs))) p f.
Proof.
  intros [_ Hd]. destruct f as [name fp].
  intros (H1 & H2 & H3 & H4 & H5 & H6). split_and!; cbn; try done.
  rewrite lookup_insert_ne; [done|]. intros E. by rewrite <-E, Hd in H4.
Qed.

(** The shape of a run of the field loop. *)
Definition read_result (base : Fs) (fd : FormData) (ps_done ps : list Part) (e : option string)
    (r : SilentResult FormData) (fs : Fs) : Prop :=
  match r with
  | Ok fd' =>
      e = None ∧ Forall (λ p, p_error p = None) ps ∧
      fields fd' = (fields fd ++ map text_field (List.filter is_text ps))%list ∧
      Forall2 (stored fs) (ps_done ++ List.filter is_file ps)%list (files fd') ∧
      parked base (map snd (files fd')) fs
  | Err _ => leaked base fs
  end.

Lemma fail_read_run base fd ps_done ps e x w :
  (∃ fs, parked base (map snd (files fd)) fs ∧ leaked fs (get_fs w)) →
  ∃ r w', fail_read fd x w = (Ret (Some r), w') ∧
    read_result base fd ps_done ps e r (get_fs w').
Proof.
  intros (fs & Hp & Hl). eexists (Err x), _. split; [done|]. cbn.
  rewrite get_put_fs. by apply (drop_all_leaked base _ fs).
Qed.

(** A part that is skipped or read as text leaves the rest of the upload, cut
    off where the part's own error is. *)
Lemma rest_holds m cs err ps e :
  mp_in m cs err ps e →
  match err with None => mp_holds m ps e | Some x => mp_holds m [] (Some x) end.
Proof. destruct err; [apply mp_skip_error|apply mp_skip]. Qed.

Lemma read_fields_end fuel base fd m ps_done e w :
  (0 < fuel)%nat → mp_holds m [] e →
  parked base (map snd (files fd)) (get_fs w) → Forall2 (stored (get_fs w)) ps_done (files fd) →
  ∃ r w', read_fields fuel fd m w = (Ret (Some r), w') ∧
    read_result base fd ps_done [] e r (get_fs w').
Proof.
  intros Hf Hm Hp Hd. destruct fuel as [|fuel]; [lia|]. cbn [read_fields].
  destruct (mp_next_end m e w Hm) as (m' & w' & Hr & Hw).
  rewrite (M_bind_run _ _ _ _ _ Hr). destruct e as [x|].
  - apply fail_read_run. exists (get_fs w). rewrite Hw. split; [done|by left].
  - exists (Ok fd), w'. split; [done|]. cbn. rewrite !app_nil_r, Hw. by split_and!.
Qed.

Lemma read_result_err base fd ps_done ps ps' e x r fs :
  read_result base fd ps_done ps (Some x) r fs → read_result base fd ps_done ps' e r fs.
Proof. destruct r; [by intros (? & _)|done]. Qed.

(** One part in front of those that were read: skipped, a file or a text. *)
Lemma read_result_skip base fd ps_done p ps e r fs :
  f_name (p_meta p) = None → p_error p = None →
  read_result base fd ps_done ps e r fs → read_result base fd ps_done (p :: ps) e r fs.
Proof.
  intros Hname Herr Hrr. destruct r as [fd'|]; [|done].
  unfold read_result, is_text, is_file in *. cbn. rewrite Hname.
  destruct Hrr as (? & ? & ?). split_and!; [done|by constructor|naive_solver..].
Qed.

Lemma read_result_file base fd ps_done p ps e r fs name ct fp :
  f_name (p_meta p) = Some name → hm_get (f_headers (p_meta p)) "content-type" = Some ct →
  p_error p = None →
  read_result base (mkFormData (fields fd) (mm_insert (files fd) name fp)) (ps_done ++ [p]) ps e r fs →
  read_result base fd ps_done (p :: ps) e r fs.
Proof.
  intros Hname Hct Herr Hrr. destruct r as [fd'|]; [|done].
  unfold read_result, is_text, is_file in *. cbn in *. rewrite Hname, Hct. cbn.
  destruct Hrr as (? & ? & Hfld & Hfil & ?). rewrite <-app_assoc in Hfil.
  split_and!; [done|by constructor|done..].
Qed.

Lemma read_result_text base fd ps_done p ps e r fs name :
  f_name (p_meta p) = Some name → hm_get (f_headers (p_meta p)) "content-type" = None →
  p_error p = None →
  read_result base (mkFormData (mm_insert (fields fd) name
    (decode_text (chunks_text (p_chunks p)))) (files fd)) ps_done ps e r fs →
  read_result base fd ps_done (p :: ps) e r fs.
Proof.
  intros Hname Hct Herr Hrr. destruct r as [fd'|]; [|done].
  unfold read_result, is_text, is_file, text_field in *. cbn in *. rewrite Hname, Hct. cbn.
  destruct Hrr as (? & ? & Hfld & ?). unfold mm_insert in Hfld. rewrite <-app_assoc in Hfld.
  split_and!; [done|by constructor| |naive_solver..]. cbn in Hfld. rewrite Hname. done.
Qed.

Lemma read_fields_run ps fuel base fd m ps_done e w :
  (read_fuel ps <= fuel)%nat → mp_holds m ps e →
  parked base (map snd (files fd)) (get_fs w) → Forall2 (stored (get_fs w)) ps_done (files fd) →
  ∃ r w', read_fields fuel fd m w = (Ret (Some r), w') ∧
    read_result base fd ps_done ps e r (get_fs w').
Proof.
  revert fuel fd m ps_done w. induction ps as [|p ps IH]; intros fuel fd m ps_done w Hf Hm Hp Hd.
  { apply (read_fields_end fuel base fd m); [cbn in Hf; lia|done..]. }
  cbn [read_fuel foldr] in Hf. change (foldr _ _ ps) with (read_fuel ps) in Hf.
  unfold part_fuel in Hf. destruct fuel as [|fuel]; [lia|]. cbn [read_fields].
  destruct (mp_next_part m p ps e w Hm) as (m1 & w1 & Hr & Hw & Hm1).
  rewrite (M_bind_run _ _ _ _ _ Hr). rewrite <-Hw in Hp, Hd.
  destruct (f_name (p_meta p)) as [name|] eqn:Hname.
  2: { pose proof (rest_holds _ _ _ _ _ Hm1) as Hm2. destruct (p_error p) as [x|] eqn:Herr.
    - destruct (read_fields_end fuel base fd m1 ps_done (Some x) w1) as (r & w' & ? & Hrr);
        [lia|done..|]. exists r, w'. split; [done|]. by eapply read_result_err.
    - destruct (IH fuel fd m1 ps_done w1) as (r & w' & ? & Hrr); [lia|done..|].
      exists r, w'. split; [done|]. by apply read_result_skip. }
  destruct (hm_get (f_headers (p_meta p)) "content-type") as [ct|] eqn:Hct.
  - destruct (FilePart_create_run fuel p ps e m1 w1) as (rc & m2 & w2 & Hc & Hres); [lia|done|].
    rewrite (M_bind_run _ _ _ _ _ Hc). destruct rc as [fp|x].
    2: { apply fail_read_run. by exists (get_fs w1). }
    destruct Hres as (Herr & Hm2 & d & n & Hfr & Hpath & Htd & Hfs & Hst).
    destruct (IH fuel (mkFormData (fields fd) (mm_insert (files fd) name fp)) m2
      (ps_done ++ [p])%list w2) as (r & w' & Hrun & Hrr).
    + lia.
    + by apply mp_skip in Hm2.
    + cbn. unfold mm_insert. rewrite map_app, Hfs. cbn. by eapply parked_snoc.
    + cbn. unfold mm_insert. apply Forall2_app.
      * rewrite Hfs. eapply Forall2_impl; [done|]. intros p' f' ?. by apply stored_grows.
      * constructor; [|constructor]. by apply Hst.
    + exists r, w'. split; [done|]. by eapply read_result_file.
  - destruct (mp_text_spec m1 _ _ _ _ w1 Hm1) as (m2 & w2 & Ht & Hw2 & Hm2).
    rewrite (M_bind_run _ _ _ _ _ Ht). destruct (p_error p) as [x|] eqn:Herr.
    { apply fail_read_run. exists (get_fs w1). rewrite Hw2. split; [done|by left]. }
    rewrite <-Hw2 in Hp, Hd.
    destruct (IH fuel (mkFormData (mm_insert (fields fd) name
      (decode_text (chunks_text (p_chunks p)))) (files fd)) m2 ps_done w2)
      as (r & w' & Hrun & Hrr); [lia|by apply mp_skip in Hm2|done..|].
    exists r, w'. split; [done|]. by eapply read_result_text.
Qed.

(** More fuel changes nothing once a loop has ended. *)
Lemma copy_chunks_mono fuel k f m size w r m' w' :
  copy_chunks fuel f m size w = (Ret (Some r, m'), w') →
  copy_chunks (fuel + k) f m size w = (Ret (Some r, m'), w').
Proof.
  revert f m size w. induction fuel as [|fuel IH]; intros f m size w; cbn; [done|].
  unfold mbind, M_bind. destruct (mp_chunk m w) as [[[[[c|]|x] m1]|] w1]; try done.
  destruct (write_all f c w1) as [[[[[]|x] f2]|] w2]; try done. apply IH.
Qed.

Lemma FilePart_create_mono fuel k meta m w r m' w' :
  FilePart_create fuel meta m w = (Ret (Some r, m'), w') →
  FilePart_create (fuel + k) meta m w = (Ret (Some r, m'), w').
Proof.
  unfold FilePart_create, mbind, M_bind.
  destruct (tempdir w) as [[[d|x]|] w1]; try done.
  destruct (nonce w1) as [[[n|x]|] w2]; try done.
  destruct (file_create _ w2) as [[[f|x]|] w3]; try done.
  destruct (copy_chunks fuel _ m 0 w3) as [[[[rr|] m1]|] w4] eqn:E; [|done..].
  by rewrite (copy_chunks_mono _ k _ _ _ _ _ _ _ E).
Qed.

Lemma read_fields_mono fuel k fd m w r w' :
  read_fields fuel fd m w = (Ret (Some r), w') →
  read_fields (fuel + k) fd m w = (Ret (Some r), w').
Proof.
  revert fd m w. induction fuel as [|fuel IH]; intros fd m w; cbn [read_fields Nat.add]; [done|].
  unfold mbind, M_bind. destruct (mp_next m w) as [[[[[meta|]|x] m1]|] w1]; try done.
  destruct (f_name meta) as [name|]; [|apply IH].
  destruct (hm_get _ _).
  - destruct (FilePart_create fuel meta m1 w1) as [[[[[fp|x]|] m2]|] w2] eqn:E; try done;
      rewrite (FilePart_create_mono _ k _ _ _ _ _ _ E); [apply IH|done].
  - destruct (mp_text m1 w1) as [[[[t|x] m2]|] w2]; try done. apply IH.
Qed.

(** C10: Reading an upload of finitely many parts terminates (with one answer,
    whatever the fuel beyond [read_fuel]), also when the upload breaks off in
    the middle or the system refuses an operation.  If it succeeds, no part
    was in error, the text parts are the fields in order (a part is a file
    exactly when it has a [content-type]; unnamed parts are skipped), each
    file part has its size and extension and a file in a fresh directory of
    its own whose writer was handed exactly its bytes; what is on disk is only
    known to be a prefix of them, for the file is dropped without a flush.
    Dropping the file parts, in any order, gives back the file system as it
    was.  If reading fails, the files stored so far are removed again and at
    most one directory with one file, that of the part being read, is left
    behind. *)
Theorem form_read_terminates headers body boundary ps e w
    (Hb : (hm_get headers "content-type" ≫= header_to_str) ≫= parse_boundary = Some boundary)
    (Hm : mp_holds (mp_new body boundary) ps e) :
  ∃ r w', (∀ fuel, (read_fuel ps <= fuel)%nat →
    FormData_read fuel headers body w = (Ret (Some r), w')) ∧
  match r with
  | Ok fd =>
      e = None ∧ Forall (λ p, p_error p = None) ps ∧
      fields fd = map text_field (List.filter is_text ps) ∧
      Forall2 (stored (get_fs w')) (List.filter is_file ps) (files fd) ∧
      Forall2 (λ p f, ∃ bytes rest, on_disk w' (fp_path f.2) = Some bytes ∧
        chunks_text (p_chunks p) = bytes +:+ rest) (List.filter is_file ps) (files fd) ∧
      ∀ l, l ≡ₚ map snd (files fd) → drop_all l (get_fs w') = get_fs w
  | Err _ => leaked (get_fs w) (get_fs w')
  end.
Proof.
  destruct (read_fields_run ps (read_fuel ps) (get_fs w) FormData_new
    (mp_new body boundary) [] e w) as (r & w' & Hrun & Hres); [done|done| |constructor|].
  { apply parked_nil. }
  exists r, w'. split.
  - intros fuel Hf. unfold FormData_read. rewrite Hb.
    replace fuel with (read_fuel ps + (fuel - read_fuel ps))%nat by lia.
    by apply read_fields_mono.
  - destruct r as [fd|x]; [|done]. destruct Hres as (He & Herr & Hfld & Hfil & Hpk).
    split_and!; [done..| |].
    { eapply Forall2_impl; [exact Hfil|]. intros p [name fp] (_ & _ & _ & Hc & _).
      pose proof (on_disk_spec w' (fp_path fp)) as Hd. by rewrite Hc in Hd. }
    intros l Hl. apply drop_all_parked. by apply (parked_perm _ (map snd (files fd))).
Qed.

Lemma fp_size_bounds fp p name fs :
  stored fs p (name, fp) → (0 <= fp_size fp <= u64_max)%Z.
Proof.
  intros (_ & _ & _ & _ & -> & _). unfold wrap_u64.
  pose proof (Z.mod_pos_bound (Z.of_nat (String.length (chunks_text (p_chunks p))))
    (u64_max + 1)). unfold u64_max in *. lia.
Qed.
End read_lemmas.

(** ** Names *)

Lemma rsplit_once_app c s x y : rsplit_once c s = Some (x, y) → s = x +:+ String c y.
Proof.
  revert x. induction s as [|a s IH]; intros x; cbn; [done|].
  destruct (rsplit_once c s) as [[x' y']|].
  - intros [= <- <-]. cbn. by rewrite <-(IH x').
  - case_bool_decide; [|done]. by intros [= <- <-]; subst.
Qed.

(** The uploaded file name never leaves the temporary directory: the name
    pushed onto it is one component. *)
Lemma file_base_one_component n name :
  str_contains_char "/" n = false → str_contains_char "/" (file_base n name) = false.
Proof.
  intros Hn. unfold file_base. rewrite !str_contains_app, Hn. cbn.
  destruct name as [name|]; [cbn|reflexivity].
  destruct (path_extension name) as [ext|] eqn:E; [cbn|reflexivity].
  unfold path_extension, path_file_name in E.
  destruct (last _) as [f|] eqn:Ef; [|done]. cbn in E.
  case_bool_decide; [done|]. cbn in E.
  destruct (rsplit_once "." f) as [[x y]|] eqn:Er; [|done].
  case_bool_decide; [done|]. injection E as ->.
  apply rsplit_once_app in Er as ->.
  assert (str_contains_char "/" (x +:+ String "." ext) = false) as Hf.
  { pose proof (split_char_pieces "/" name) as Hp. rewrite Forall_forall in Hp. apply Hp.
    apply last_Some_elem_of, list_elem_of_filter in Ef. apply Ef. }
  rewrite str_contains_app in Hf. cbn in Hf. by apply orb_false_iff in Hf as [_ Hf].
Qed.

(** Dropping one clone of a [FilePart] deletes the file of all of them: the
    original can no longer be saved. *)
Lemma clone_drop_loses_file {P : Platform} {F : FormCrates P} {FM : FormModel P F} {L : FormLaws F FM}
    (fp : FilePart) d w :
  fp_temp_dir fp = Some d →
  on_disk (put_fs (FilePart_drop fp (get_fs w)) w) (fp_path fp) = None.
Proof.
  intros Hd. pose proof (on_disk_spec (put_fs (FilePart_drop fp (get_fs w)) w) (fp_path fp)) as H.
  rewrite get_put_fs in H.
  assert (contents (FilePart_drop fp (get_fs w)) !! fp_path fp = None) as E; [|by rewrite E in H].
  unfold FilePart_drop. rewrite Hd. unfold fs_remove_dir. case_decide; cbn; by rewrite lookup_delete_eq.
Qed.

(** ** A concrete upload *)

#[local] Instance DemoFsP : Platform := DemoOn Fs 1.

Definition demo_names (fs : Fs) : list string :=
  (elements (dirs fs) ++ map (λ x, x.1.1) (map_to_list (contents fs)))%list.
Definition demo_fresh (fs : Fs) : string := foldr String.append "t" (demo_names fs).

Record DemoMp := mkDemoMp {
  dm_now : list string * option string;
  dm_rest : list (Part (P := DemoFsP));
  dm_end : option string;
}.

(** The body text is a note and the content of an uploaded file; the body
    ["cut"] breaks off in the middle of the file. *)
Definition demo_file_meta : FieldMeta (P := DemoFsP) :=
  mkMeta (P := DemoFsP) (Some "doc") (Some "../a.b/report.tar.gz") [("content-type", "text/plain")].
Definition demo_upload (text : string) : list (Part (P := DemoFsP)) :=
  [ mkPart DemoFsP (mkMeta (P := DemoFsP) (Some "note") None []) [text; "!"] None;
    mkPart DemoFsP (mkMeta (P := DemoFsP) None None []) ["skipped"] None;
    mkPart DemoFsP demo_file_meta [text; text]
      (if bool_decide (text = "cut") then Some "incomplete" else None) ].

#[local] Instance DemoForm : FormCrates DemoFsP := {
  Multipart := DemoMp;
  parse_boundary ct := snd (split_once "=" ct);
  mp_new b _ := mkDemoMp ([], None) (match b with ReqOnce s => demo_upload s | _ => [] end) None;
  mp_next m := mret (
    match dm_now m with
    | (_, Some x) => (Err x, m)
    | (_, None) =>
        match dm_rest m, dm_end m with
        | p :: ps, e => (Ok (Some (p_meta p)), mkDemoMp (p_chunks p, p_error p) ps e)
        | [], None => (Ok None, m)
        | [], Some x => (Err x, m)
        end
    end);
  mp_chunk m := mret (
    match dm_now m with
    | (c :: cs, err) => (Ok (Some c), mkDemoMp (cs, err) (dm_rest m) (dm_end m))
    | ([], Some x) => (Err x, m)
    | ([], None) => (Ok None, m)
    end);
  mp_text m := mret (
    match dm_now m with
    | (cs, err) => (match err with Some x => Err x | None => Ok (chunks_text cs) end,
                    mkDemoMp ([], err) (dm_rest m) (dm_end m))
    end);
  decode_text s := s;
  get_fs w := w;
  put_fs fs _ := fs;
  File := FilePath;
  file_create p w := (Ret (Ok p), mkFs (dirs w) (<[p := ""]> (contents w)));
  write_all p bytes w :=
    (Ret (Ok (), p), mkFs (dirs w) (alter (λ old, old +:+ bytes) p (contents w)));
  on_disk w p := str_take 3 <$> contents w !! p;
  tempdir w := (Ret (Ok (demo_fresh w)), mkFs ({[demo_fresh w]} ∪ dirs w) (contents w));
  nonce := mret (Ok "k3Jd");
}.

#[local] Instance DemoFormModel : FormModel DemoFsP DemoForm := {
  mp_holds m ps e := m = mkDemoMp ([], None) ps e ∨
    (∃ cs, m = mkDemoMp (cs, None) ps e) ∨
    (∃ cs x rest e', e = Some x ∧ ps = [] ∧ m = mkDemoMp (cs, Some x) rest e');
  mp_in m cs err ps e := m = mkDemoMp (cs, err) ps e;
  file_at f p := f = p;
}.

Lemma foldr_append_len x l :
  x ∈ l → (String.length x < String.length (foldr String.append "t" l))%nat.
Proof.
  induction l as [|y l IH]; [by intros ?%elem_of_nil|]. rewrite elem_of_cons. cbn.
  rewrite str_len_app. intros [->|H]; [|specialize (IH H); lia].
  assert (0 < String.length (foldr String.append "t" l))%nat; [|lia].
  clear. induction l; cbn; [lia|]. rewrite str_len_app. lia.
Qed.

Lemma demo_fresh_ok fs : fresh_dir fs (demo_fresh fs).
Proof.
  assert (demo_fresh fs ∉ demo_names fs) as Hn.
  { intros H%foldr_append_len. unfold demo_fresh in H. lia. }
  unfold demo_names in Hn. rewrite elem_of_app, elem_of_elements in Hn.
  split; [tauto|]. intros n. apply eq_None_not_Some. intros [x Hx].
  apply Hn. right. apply list_elem_of_In, in_map_iff.
  exists ((demo_fresh fs, n), x). split; [done|].
  by apply list_elem_of_In, elem_of_map_to_list.
Qed.

#[local] Instance DemoFormLaws : FormLaws DemoForm DemoFormModel.
Proof.
  constructor; cbn; try done.
  - intros m e w [->|[[cs ->]|(cs & x & rest & e' & -> & _ & ->)]];
      [by destruct e; eauto..|by eauto].
  - intros m p ps e w [->|[[cs ->]|(cs & x & rest & e' & _ & ? & _)]]; [by eauto 6..|done].
  - intros m cs ps e ->. right; left. by eexists.
  - intros m cs x ps e ->. right; right. by eexists _, _, _, _.
  - intros m c cs err ps e w ->. cbn. by eauto 6.
  - intros m err ps e w ->. cbn. destruct err; by eauto 6.
  - intros m cs err ps e w ->. cbn. by eauto 6.
  - intros p w. by eexists _, _.
  - intros f p bytes old w -> Hp. eexists _, _, _, bytes. split_and!; [done..| |done]. cbn. f_equal.
    apply map_eq; intros q. destruct (decide (q = p)) as [->|Hq].
    + by rewrite lookup_alter_eq, Hp, lookup_insert_eq.
    + by rewrite lookup_alter_ne, lookup_insert_ne.
  - intros w p. destruct (contents w !! p) as [s|]; [|done]. cbn.
    exists (str_take 3 s), (str_drop 3 s). by rewrite str_take_drop.
  - intros w. by eexists _, _.
  - intros w. eexists _, _. split; [done|]. cbn. split; [apply demo_fresh_ok|done].
Qed.

Definition demo_fs : Fs := mkFs {["/srv"]} {[("/srv", "data") := "kept"]}.

Definition demo_headers : HeaderMap (Platform := DemoFsP) :=
  [("content-type", "multipart/form-data; boundary=xyz")].

(** The names of the stored files, their sizes and what is on disk of them, and
    how many files there are. *)
Definition demo_files (fd : FormData (P := DemoFsP)) (fs : Fs) : list (string * Z * option string) :=
  map (λ f, ((fp_path f.2).2, fp_size f.2, on_disk (P := DemoFsP) fs (fp_path f.2))) (files fd).
Definition demo_summary (r : outcome (option (SilentResult (FormData (P := DemoFsP)))) * Fs)
  : option (list (string * Z * option string)) * nat :=
  (match r.1 with
   | Ret (Some (Ok fd)) => Some (demo_files fd r.2)
   | _ => None
   end, size (contents r.2)).

(** The demonstration's disk keeps a file's first three bytes: the last byte of
    the upload is not on it, though the size counts it.  An upload that is
    read and dropped leaves nothing; one that is cut in a
    file part leaves the part's directory and file. *)
Lemma form_read_terminates_witness :
  (∃ fd w', FormData_read (P := DemoFsP) 20 demo_headers (ReqOnce (P := DemoFsP) "hi") demo_fs
              = (Ret (Some (Ok fd)), w') ∧
     fields fd = [("note", "hi!")] ∧
     demo_files fd w' = [("k3Jd.gz", 4%Z, Some "hih")] ∧
     drop_all (map snd (files fd)) w' = demo_fs) ∧
  ∃ x w', FormData_read (P := DemoFsP) 20 demo_headers (ReqOnce (P := DemoFsP) "cut") demo_fs
              = (Ret (Some (Err x)), w') ∧
    leaked demo_fs w' ∧ size (contents w') = 2%nat.
Proof.
  split.
  - destruct (form_read_terminates (P := DemoFsP) demo_headers (ReqOnce (P := DemoFsP) "hi") "xyz"
      (demo_upload "hi") None demo_fs) as (r & w' & Hrun & Hres); [reflexivity|by left|].
    specialize (Hrun 20%nat ltac:(cbn; lia)).
    assert (demo_summary (FormData_read (P := DemoFsP) 20 demo_headers
      (ReqOnce (P := DemoFsP) "hi") demo_fs) = (Some [("k3Jd.gz", 4%Z, Some "hih")], 2%nat)) as Hs
      by (vm_compute; reflexivity).
    rewrite Hrun in Hs. destruct r as [fd|x]; [|discriminate Hs].
    exists fd, w'. split; [exact Hrun|]. destruct Hres as (_ & _ & Hf & _ & _ & Hd).
    split; [rewrite Hf; reflexivity|]. split; [by injection Hs|by apply Hd].
  - destruct (form_read_terminates (P := DemoFsP) demo_headers (ReqOnce (P := DemoFsP) "cut") "xyz"
      (demo_upload "cut") None demo_fs) as (r & w' & Hrun & Hres); [reflexivity|by left|].
    specialize (Hrun 20%nat ltac:(cbn; lia)).
    assert (demo_summary (FormData_read (P := DemoFsP) 20 demo_headers
      (ReqOnce (P := DemoFsP) "cut") demo_fs) = (None, 2%nat)) as Hs
      by (vm_compute; reflexivity).
    rewrite Hrun in Hs. destruct r as [fd|x]; [discriminate Hs|].
    exists x, w'. split; [exact Hrun|]. split; [exact Hres|]. by injection Hs.
Defined.
