(* ===== verification/Message.v ===== *)
(** * Requests and responses
    (silent/src/core/request.rs, silent/src/core/response.rs)

    A [Request] owns the parts hyper parsed, the parameters the router bound,
    a body that can be taken once, and write-once caches for its parsed
    forms.  [&mut self] methods return the new request next to their result. *)

From S2P Require Import Prelude Str Serde Platform State Error PathParam Body Form.

(** [http::Method] by its token; [http::Version] by its name. *)
Abbreviation Method := string.
Definition GET : Method := "GET".
Definition POST : Method := "POST".
Definition PUT : Method := "PUT".
Definition DELETE : Method := "DELETE".
Definition PATCH : Method := "PATCH".
Definition HEAD : Method := "HEAD".
Definition OPTIONS : Method := "OPTIONS".
Definition CONNECT : Method := "CONNECT".
Abbreviation Version := string.
Definition HTTP_11 : Version := "HTTP/1.1".

Section message.
Context {P : Platform}.

(** [http::Uri], of which the program reads the path and the query. *)
Record Uri := mkUri { uri_path : string; uri_query : option string }.

Record Parts := mkParts {
  p_method : Method;
  p_uri : Uri;
  p_version : Version;
  p_headers : HeaderMap;
  p_extensions : Extensions;
}.

(** ** Request *)

Record Request := mkRequest {
  parts : Parts;
  path_params : gmap string PathParam;
  params : gmap string string;
  body : ReqBody;
  path_source : option string;
  form_data : option FormData;
  json_data : option Json;
  form_body_cache : option string;
  req_state : State;
}.

Definition Request_from_parts (p : Parts) (b : ReqBody) : Request :=
  mkRequest p ∅ ∅ b None None None None State_new.

Definition Request_empty : Request :=
  mkRequest (mkParts GET (mkUri "/" None) HTTP_11 hm_empty ext_empty)
    ∅ ∅ ReqEmpty None None None None State_new.

Definition into_http (r : Request) : Parts * ReqBody := (parts r, body r).

Definition with_parts (r : Request) (p : Parts) : Request :=
  mkRequest p (path_params r) (params r) (body r) (path_source r) (form_data r)
    (json_data r) (form_body_cache r) (req_state r).

Definition method (r : Request) : Method := p_method (parts r).
Definition uri (r : Request) : Uri := p_uri (parts r).
Definition version (r : Request) : Version := p_version (parts r).
Definition headers (r : Request) : HeaderMap := p_headers (parts r).
Definition extensions (r : Request) : Extensions := p_extensions (parts r).

(** Writing through [headers_mut], [extensions_mut] and [state_mut]. *)
Definition set_headers (r : Request) (h : HeaderMap) : Request :=
  with_parts r (mkParts (method r) (uri r) (version r) h (extensions r)).
Definition set_extensions (r : Request) (e : Extensions) : Request :=
  with_parts r (mkParts (method r) (uri r) (version r) (headers r) e).
Definition set_state (r : Request) (s : State) : Request :=
  mkRequest (parts r) (path_params r) (params r) (body r) (path_source r)
    (form_data r) (json_data r) (form_body_cache r) s.

Definition set_path_source (r : Request) (source : string) : Request :=
  mkRequest (parts r) (path_params r) (params r) (body r) (Some source)
    (form_data r) (json_data r) (form_body_cache r) (req_state r).

Definition set_path_params (r : Request) (key : string) (value : PathParam) : Request :=
  mkRequest (parts r) (<[key := value]> (path_params r)) (params r) (body r)
    (path_source r) (form_data r) (json_data r) (form_body_cache r) (req_state r).

(** [get_state::<T>] and [get_state_uncheck::<T>]. *)
Definition get_state (r : Request) (t : TypeId) : SilentResult AnyVal :=
  ok_or (State_get (req_state r) t) ConfigNotFound.
Definition get_state_uncheck (r : Request) (t : TypeId) : outcome AnyVal :=
  unwrap (State_get (req_state r) t).

(** [get_path_params::<T>]: the target type's [TryFrom<&PathParam>] is passed. *)
Definition get_path_params {T} (conv : PathParam → outcome (SilentResult T))
    (r : Request) (key : string) : outcome (SilentResult T) :=
  match path_params r !! key with
  | Some value => conv value
  | None => Ret (Err ParamsNotFound)
  end.

(** [params]: re-parsed from the query when there is one; later pairs win. *)
Definition Request_params (r : Request) : gmap string string * Request :=
  match uri_query (uri r) with
  | Some query =>
      let m := foldl (λ m '(k, v), <[k := v]> m) ∅ (form_urlencoded_parse query) in
      (m, mkRequest (parts r) (path_params r) m (body r) (path_source r)
            (form_data r) (json_data r) (form_body_cache r) (req_state r))
  | None => (params r, r)
  end.

(** [params_parse]: [serde_html_form] is passed as [de]. *)
Definition params_parse {T} (de : string → result T string) (r : Request) : SilentResult T :=
  map_err SerdeDeError (de (default "" (uri_query (uri r)))).

Definition replace_body (r : Request) (b : ReqBody) : ReqBody * Request :=
  (body r, mkRequest (parts r) (path_params r) (params r) b (path_source r)
     (form_data r) (json_data r) (form_body_cache r) (req_state r)).

Definition take_body (r : Request) : ReqBody * Request := replace_body r ReqEmpty.

Definition replace_extensions (r : Request) (e : Extensions) : Extensions * Request :=
  (extensions r, set_extensions r e).

Definition take_extensions (r : Request) : Extensions * Request :=
  replace_extensions r ext_empty.

(** Writing through [method_mut], [uri_mut] and [version_mut]. *)
Definition method_mut (f : Method → Method) (r : Request) : Request :=
  with_parts r (mkParts (f (method r)) (uri r) (version r) (headers r) (extensions r)).
Definition uri_mut (f : Uri → Uri) (r : Request) : Request :=
  with_parts r (mkParts (method r) (f (uri r)) (version r) (headers r) (extensions r)).
Definition version_mut (f : Version → Version) (r : Request) : Request :=
  with_parts r (mkParts (method r) (uri r) (f (version r)) (headers r) (extensions r)).

(** [strip_to_hyper] and [strip_to_bytes_hyper] move headers, extensions and
    body out of the request, also where they then fail. *)
Definition strip (r : Request) : Parts * ReqBody * Request :=
  let stripped := snd (take_body (snd (take_extensions (set_headers r hm_empty)))) in
  (parts r, body r, stripped).

Definition strip_to_hyper {QB} (try_into : ReqBody → result QB string) (r : Request)
  : SilentResult (Parts * QB) * Request :=
  let '(p, b, r) := strip r in
  (match try_into b with
   | Ok b => Ok (p, b)
   | Err e => Err (business_error INTERNAL_SERVER_ERROR ("request strip to hyper failed: " +:+ e))
   end, r).

(** [frame] is what awaiting the body's first frame gives. *)
Definition strip_to_bytes_hyper (frame : ReqBody → option (result Frame string)) (r : Request)
  : outcome (SilentResult (Parts * string)) * Request :=
  let '(p, b, r) := strip r in
  (first ← unwrap (frame b);
   match first with
   | Err e => mret (Err (IOError e))
   | Ok f => data ← unwrap (frame_data f); mret (Ok (p, data))
   end, r).

(** [content_type]: only the subtype of the [Mime] is ever inspected. *)
Definition content_type (r : Request) : option string :=
  (hm_get (headers r) "content-type" ≫= header_to_str) ≫= mime_subtype.

Definition set_json_data (r : Request) (v : Json) : Request :=
  mkRequest (parts r) (path_params r) (params r) (body r) (path_source r)
    (form_data r) (Some v) (form_body_cache r) (req_state r).
Definition set_form_body_cache (r : Request) (v : string) : Request :=
  mkRequest (parts r) (path_params r) (params r) (body r) (path_source r)
    (form_data r) (json_data r) (Some v) (req_state r).
Definition set_form_data (r : Request) (v : FormData) : Request :=
  mkRequest (parts r) (path_params r) (params r) (body r) (path_source r)
    (Some v) (json_data r) (form_body_cache r) (req_state r).

(** ** Response *)

Record Response := mkResponse {
  r_status : StatusCode;
  r_version : Version;
  r_headers : HeaderMap;
  r_body : ResBody;
  r_extensions : Extensions;
  r_state : State;
}.

Definition Response_empty : Response :=
  mkResponse OK HTTP_11 hm_empty ResNone ext_empty State_new.

Definition set_status (r : Response) (s : StatusCode) : Response :=
  mkResponse s (r_version r) (r_headers r) (r_body r) (r_extensions r) (r_state r).
Definition set_body (r : Response) (b : ResBody) : Response :=
  mkResponse (r_status r) (r_version r) (r_headers r) b (r_extensions r) (r_state r).
Definition set_res_headers (r : Response) (h : HeaderMap) : Response :=
  mkResponse (r_status r) (r_version r) h (r_body r) (r_extensions r) (r_state r).
Definition set_res_state (r : Response) (s : State) : Response :=
  mkResponse (r_status r) (r_version r) (r_headers r) (r_body r) (r_extensions r) s.

(** The chained variants. *)
Definition with_status := set_status.
Definition with_body := set_body.
Definition set_header (r : Response) (k v : string) : Response :=
  set_res_headers r (hm_insert (r_headers r) k v).
Definition with_header := set_header.
Definition set_typed_header (r : Response) (k v : string) : Response :=
  set_res_headers r (hm_insert (r_headers r) k v).
Definition with_typed_header := set_typed_header.

(** [Display], by the texts of the parts. *)
Definition Response_display (show_version : Version → string) (show_headers : HeaderMap → string)
    (r : Response) : string :=
  show_version (r_version r) +:+ " " +:+ status_display (r_status r) +:+ String LF "" +:+
  show_headers (r_headers r) +:+ String LF "".

Definition res_take_body (r : Response) : ResBody * Response :=
  (r_body r, set_body r ResNone).

Definition content_length (r : Response) : SizeHint := ResBody_size_hint (r_body r).

Definition res_get_state (r : Response) (t : TypeId) : SilentResult AnyVal :=
  ok_or (State_get (r_state r) t) ConfigNotFound.

Definition redirect (url : string) : SilentResult Response :=
  if header_value_ok url
  then Ok (set_header (set_status Response_empty MOVED_PERMANENTLY) "location" url)
  else Err (business_error INTERNAL_SERVER_ERROR
              "redirect error: failed to parse header value").

Definition text (t : string) : Response :=
  set_body (set_typed_header Response_empty "content-type" ct_text_utf8) (full t).
Definition html (t : string) : Response :=
  set_body (set_typed_header Response_empty "content-type" ct_html) (full t).
Definition json (v : Json) : Response :=
  set_body (set_typed_header Response_empty "content-type" ct_json) (full (json_to_vec v)).

(** [copy_from_response]: headers, extensions, status and body move over; the
    version and the state container stay. *)
Definition copy_from_response (self res : Response) : Response :=
  mkResponse (r_status res) (r_version self)
    (hm_extend (r_headers self) (r_headers res)) (r_body res)
    (ext_extend (r_extensions self) (r_extensions res)) (r_state self).

(** [From<S: Serialize> for Response]. *)
Definition response_from_serialize (v : Json) : Response :=
  match json_view v with
  | JsonString s =>
      with_body (with_typed_header Response_empty "content-type" ct_json) (full s)
  | JsonNull => with_status Response_empty NO_CONTENT
  | JsonOther => json v
  end.

(** [From<SilentError> for Response] (silent/src/error/mod.rs). *)
Definition response_from_error (e : SilentError) : Response :=
  let res := set_status Response_empty (status e) in
  let res := if is_ok (json_from_slice (message e))
             then set_typed_header res "content-type" ct_json else res in
  set_body res (ResOnce (message e)).

(** [Result::unwrap_or_else(Into::into)], what the servers answer. *)
Definition response_or_error (r : SilentResult Response) : Response :=
  match r with Ok res => res | Err e => response_from_error e end.

(** ** Body parsing

    [BodyExt::collect] of http-body-util is the parameter [collect]. *)
Section parsing.
Context (collect : ReqBody → M World (result string string)).

(** [json_parse::<T>]: the cache is consulted before the content type. *)
Definition json_parse {T} (de : Json → result T string) (r : Request)
  : M World (SilentResult T * Request) :=
  match json_data r with
  | Some cached => mret (map_err SerdeJsonError (de cached), r)
  | None =>
      match content_type r with
      | None => mret (Err ContentTypeMissingError, r)
      | Some sub =>
          if negb (bool_decide (sub = "json")) then mret (Err ContentTypeError, r)
          else
            let '(b, r) := take_body r in
            match b with
            | ReqEmpty => mret (Err JsonEmpty, r)
            | other =>
                collect other ≫= λ c,
                match c with
                | Err _ => mret (Err JsonEmpty, r)
                | Ok bytes =>
                    if bool_decide (bytes = "") then mret (Err JsonEmpty, r)
                    else match json_from_slice bytes with
                         | Err e => mret (Err (SerdeJsonError e), r)
                         | Ok value =>
                             let r := set_json_data r value in
                             mret (map_err SerdeJsonError (de value), r)
                         end
                end
            end
      end
  end.

(** [json_field::<T>] *)
Definition json_field {T} (de : Json → result T string) (r : Request) (key : string)
  : M World (SilentResult T * Request) :=
  json_parse (λ v, Ok v) r ≫= λ '(res, r),
  mret (match res with
        | Err e => Err e
        | Ok value => match json_get value key with
                      | None => Err ParamsNotFound
                      | Some v => map_err SerdeJsonError (de v)
                      end
        end, r).

(** [urlencoded_form_parse::<T>]: the raw bytes are cached, not the value. *)
Definition urlencoded_form_parse {T} (de : string → result T string) (r : Request)
  : M World (SilentResult T * Request) :=
  match form_body_cache r with
  | Some bytes => mret (map_err SerdeDeError (de bytes), r)
  | None =>
      let '(b, r) := take_body r in
      match b with
      | ReqEmpty => mret (Err BodyEmpty, r)
      | other =>
          collect other ≫= λ c,
          match c with
          | Err _ => mret (Err BodyEmpty, r)
          | Ok bytes =>
              if bool_decide (bytes = "") then mret (Err BodyEmpty, r)
              else let r := set_form_body_cache r bytes in
                   mret (map_err SerdeDeError (de bytes), r)
          end
      end
  end.

(** [form_data]: [read] is [FormData::read], whose loops [Form.v] models. *)
Definition Request_form_data (read : HeaderMap → ReqBody → M World (SilentResult FormData))
    (r : Request) : M World (SilentResult FormData * Request) :=
  match content_type r with
  | None => mret (Err ContentTypeMissingError, r)
  | Some sub =>
      if negb (bool_decide (sub = "form-data")) then mret (Err ContentTypeError, r)
      else match form_data r with
           | Some d => mret (Ok d, r)
           | None =>
               let '(b, r) := take_body r in
               read (headers r) b ≫= λ d,
               match d with
               | Err e => mret (Err (business_error BAD_REQUEST
                                  ("Failed to read form data: " +:+ error_display e)), r)
               | Ok d => mret (Ok d, set_form_data r d)
               end
           end
  end.

(** [form_parse::<T>], dispatching on the content type. *)
Definition form_parse {T} (read : HeaderMap → ReqBody → M World (SilentResult FormData))
    (de_url : string → result T string) (de_fields : list (string * string) → result T string)
    (r : Request) : M World (SilentResult T * Request) :=
  match content_type r with
  | None => mret (Err ContentTypeMissingError, r)
  | Some sub =>
      if bool_decide (sub = "form-data") then
        Request_form_data read r ≫= λ '(res, r),
        mret (match res with
              | Err e => Err e
              | Ok d => map_err SerdeJsonError (de_fields (fields d))
              end, r)
      else if bool_decide (sub = "x-www-form-urlencoded")
      then urlencoded_form_parse de_url r
      else mret (Err ContentTypeError, r)
  end.

(** [form_field::<T>] and [files]: whatever goes wrong is [None]. *)
Definition form_field {S : SerdeStd} {T} (read : HeaderMap → ReqBody → M World (SilentResult FormData))
    (t : Deserialize T) (r : Request) (key : string) : M World (option T * Request) :=
  Request_form_data read r ≫= λ '(res, r),
  mret ((ok res ≫= λ ps, get_vec (fields ps) key) ≫=
        λ vs, ok (from_str_multi_val t (map CowBorrowed vs)), r).

Definition Request_files (read : HeaderMap → ReqBody → M World (SilentResult FormData))
    (r : Request) (key : string) : M World (option (list FilePart) * Request) :=
  Request_form_data read r ≫= λ '(res, r),
  mret (ok res ≫= λ ps, get_vec (files ps) key, r).

(** ** Lemmas *)

(** Stripping keeps nothing but method, target and version behind; the bytes
    version takes the first frame alone, and panics on a body without one. *)
Lemma strip_to_hyper_spec {QB} (try_into : ReqBody → result QB string) r :
  let '(res, r') := strip_to_hyper try_into r in
  headers r' = hm_empty ∧ extensions r' = ext_empty ∧ body r' = ReqEmpty ∧
  method r' = method r ∧ uri r' = uri r ∧ req_state r' = req_state r ∧
  (∀ b, try_into (body r) = Ok b → res = Ok (parts r, b)) ∧
  (∀ e, try_into (body r) = Err e → ∃ msg, res = Err (business_error INTERNAL_SERVER_ERROR msg)).
Proof.
  unfold strip_to_hyper, strip. split_and!; try done; intros x ->; [done|by eexists].
Qed.

Lemma strip_to_bytes_spec (frame : ReqBody → option (result Frame string)) r :
  (∀ b, frame (ReqOnce b) = Some (Ok (FrameData b))) → frame ReqEmpty = None →
  (∀ b, body r = ReqOnce b → fst (strip_to_bytes_hyper frame r) = Ret (Ok (parts r, b))) ∧
  (body r = ReqEmpty → fst (strip_to_bytes_hyper frame r) = Panic).
Proof.
  intros Ho He. unfold strip_to_bytes_hyper, strip. cbn [fst]. split.
  - intros b ->. by rewrite Ho.
  - intros ->. by rewrite He.
Qed.

Lemma take_body_content_type r : content_type (snd (take_body r)) = content_type r.
Proof. done. Qed.

(** The possible shapes of a run of [json_parse] without a cached value. *)
Lemma json_parse_cases {T} (de : Json → result T string) r w res r' w' :
  json_data r = None → content_type r = Some "json" →
  json_parse de r w = (Ret (res, r'), w') →
  body r' = ReqEmpty ∧ content_type r' = Some "json" ∧
  match json_data r' with
  | None => ∀ t, res ≠ Ok t
  | Some v => res = map_err SerdeJsonError (de v)
  end.
Proof.
  intros Hj Hc. unfold json_parse. rewrite Hj, Hc. cbn.
  unfold take_body, replace_body; cbn.
  destruct (body r) eqn:Eb; cbn;
    [intros [= <- <- <-]; cbn; by rewrite Hj|..];
    unfold mbind, M_bind; repeat case_match; intros [= <- <- <-];
    cbn in *; simplify_eq/=; try congruence; by split_and!.
Qed.

Lemma json_parse_again {T U} (de : Json → result T string) (de' : Json → result U string)
    r w res r' w' w2 :
  json_data r = None → content_type r = Some "json" →
  json_parse de r w = (Ret (res, r'), w') →
  json_parse de' r' w2 =
    (Ret (match json_data r' with
          | Some v => map_err SerdeJsonError (de' v)
          | None => Err JsonEmpty
          end, r'), w2) ∧
  body r' = ReqEmpty ∧ (∀ t, res = Ok t → is_Some (json_data r')).
Proof.
  intros Hj Hc (Hb & Hc' & Hd)%json_parse_cases; [|done..]. split_and!; [|done|].
  - unfold json_parse. destruct (json_data r') as [v|] eqn:Ej; [done|].
    rewrite Hc'; cbn. unfold take_body, replace_body; cbn. rewrite Hb. cbn.
    destruct r'; cbn in *; by subst.
  - intros t ->. destruct (json_data r'); [done|]. by destruct (Hd t).
Qed.

(** [json_parse] reads the body at most once: whenever a first call got
    past the content type check, the body is gone, and a second call (at any
    target type, in any later world) either decodes the cached value, or, if
    the first call could not parse the body, reports [JsonEmpty] and leaves
    the request alone. *)
Theorem json_parse_once {T U} (de : Json → result T string) (de' : Json → result U string)
    r w res r' w' w2 :
  json_data r = None → content_type r = Some "json" →
  json_parse de r w = (Ret (res, r'), w') →
  json_parse de' r' w2 =
    (Ret (match json_data r' with
          | Some v => map_err SerdeJsonError (de' v)
          | None => Err JsonEmpty
          end, r'), w2) ∧
  body r' = ReqEmpty ∧ (∀ t, res = Ok t → is_Some (json_data r')).
Proof. intros Hj Hc Hr. by apply (json_parse_again de de' r w res r' w' w2). Qed.
End parsing.
End message.

(** ** Witnesses *)

Lemma json_parse_once_witness :
  let collect := λ b : ReqBody, @mret (M (@World Demo)) _ _ (match b with
    ReqOnce s => @Ok string string s | _ => Err "not in memory" end) in
  let r := Request_from_parts (P := Demo)
    (mkParts (P := Demo) POST (mkUri "/" None) HTTP_11
       [("content-type", "application/json")] tt) (ReqOnce "42") in
  let de := λ j : @Json Demo, @Ok _ string (j : string) in
  let r' := set_json_data (snd (take_body r)) "42" in
  content_type r = Some "json" ∧
  json_parse collect de r [] = (Ret (Ok "42", r'), []) ∧
  json_parse collect de r' ["later"] = (Ret (Ok "42", r'), ["later"]).
Proof.
  intros collect r de r'. split; [reflexivity|]. split; [reflexivity|].
  refine (proj1 (json_parse_once (P := Demo) collect de de r [] (Ok "42") r' []
    ["later"] _ _ _)); reflexivity.
Defined.
