(* ===== verification/Next.v ===== *)
(** * Handlers, middleware chains and method dispatch
    (silent/src/core/next.rs, silent/src/handler/handler_trait.rs,
    silent/src/handler/handler_fn.rs, silent/src/handler/handler_wrapper.rs,
    silent/src/middleware/middleware_trait.rs)

    A handler turns a request into a response or an error under effects.  A
    middleware additionally receives what comes after it, of which it can
    only use [call]. *)

From S2P Require Import Prelude Str Platform State Error PathParam Body Message.

Set Warnings "-register-all".

Section next.
Context {P : Platform}.

(** [dyn Handler] and [dyn MiddleWareHandler]. *)
Definition Handler : Type := Request → M World (SilentResult Response).
Definition MiddleWare : Type := Request → Handler → M World (SilentResult Response).

(** ** The chain of core/next.rs *)

Inductive NextInstance :=
| Middleware (mw : MiddleWare)
| EndPoint (ep : Handler).

Inductive Next := mkNext (inner : NextInstance) (next : option Next).

(** [Next::build]: the endpoint is wrapped from the last middleware to the
    first. *)
Definition Next_build (endpoint : Handler) (middlewares : list MiddleWare) : Next :=
  let next := mkNext (EndPoint endpoint) None in
  match middlewares with
  | [] => next
  | _ => foldl (λ next mw, mkNext (Middleware mw) (Some next)) next (rev middlewares)
  end.

(** [Next::call]; a middleware node without a successor panics. *)
Fixpoint Next_call (n : Next) (req : Request) : M World (SilentResult Response) :=
  match n with
  | mkNext (Middleware mw) (Some next) => mw req (Next_call next)
  | mkNext (Middleware _) None => M_lift Panic
  | mkNext (EndPoint ep) _ => ep req
  end.

(** [Next] used as a middleware forwards to its successor. *)
Definition Next_handle (_ : Next) : MiddleWare := λ req next, next req.

(** ** Handlers from functions *)

Definition HandlerFn (func : Request → M World Response) : Handler :=
  λ req, func req ≫= λ resp, mret (Ok resp).

(** [HandlerWrapper]: [into] is the [IntoResponse] of the result type. *)
Definition HandlerWrapper {T} (into : T → Response)
    (handler : Request → M World (SilentResult T)) : Handler :=
  λ req, t <-? handler req ;; mret (Ok (into t)).

(** [IntoResponseResultHandler]: both arms become responses. *)
Definition IntoResponseResultHandler {T E} (into : T → Response) (into_e : E → Response)
    (handler : Request → M World (result T E)) : Handler :=
  λ req, handler req ≫= λ r,
  match r with
  | Ok v => mret (Ok (into v))
  | Err e => mret (Ok (into_e e))
  end.

(** [handler_from_extractor]: extraction works on [&mut Request]; a rejection
    becomes the response. *)
Definition handler_from_extractor {Args R T} (extract : Request → M World (result Args R * Request))
    (reject : R → Response) (into : T → Response)
    (f : Args → M World (SilentResult T)) : Request → M World (SilentResult Response) :=
  λ req, extract req ≫= λ '(a, _),
  match a with
  | Ok args => res <-? f args ;; mret (Ok (into res))
  | Err rej => mret (Ok (reject rej))
  end.

(** [handler_from_extractor_with_request]: the function also gets what the
    extraction left of the request. *)
Definition handler_from_extractor_with_request {Args R T}
    (extract : Request → M World (result Args R * Request))
    (reject : R → Response) (into : T → Response)
    (f : Request → Args → M World (SilentResult T)) : Request → M World (SilentResult Response) :=
  λ req, extract req ≫= λ '(a, req),
  match a with
  | Ok args => res <-? f req args ;; mret (Ok (into res))
  | Err rej => mret (Ok (reject rej))
  end.

(** The [IntoRouteHandler::into_handler] instances. *)
Definition into_handler_response (func : Request → M World Response) : Handler := HandlerFn func.
Definition into_handler_result {T} (into : T → Response)
    (f : Request → M World (SilentResult T)) : Handler := HandlerWrapper into f.
Definition into_handler_extract {Args R T} (extract : Request → M World (result Args R * Request))
    (reject : R → Response) (into : T → Response)
    (f : Args → M World (SilentResult T)) : Handler :=
  HandlerWrapper (λ r, r) (handler_from_extractor extract reject into f).
Definition into_handler_extract_with_request {Args R T}
    (extract : Request → M World (result Args R * Request))
    (reject : R → Response) (into : T → Response)
    (f : Request → Args → M World (SilentResult T)) : Handler :=
  HandlerWrapper (λ r, r) (handler_from_extractor_with_request extract reject into f).

(** ** Method dispatch *)

Definition pre_res (req : Request) : Response := set_res_state Response_empty (req_state req).

(** [HashMap<Method, Arc<dyn Handler>>::call]. *)
Definition HandlerMap_call (m : gmap Method Handler) : Handler := λ req,
  match m !! method req with
  | Some handler =>
      res <-? handler req ;; mret (Ok (copy_from_response (pre_res req) res))
  | None =>
      match (if bool_decide (method req = HEAD) then m !! GET else None) with
      | Some get_handler =>
          res <-? get_handler req ;;
          mret (Ok (set_body (copy_from_response (pre_res req) res) ResNone))
      | None => mret (Err (business_error METHOD_NOT_ALLOWED "method not allowed"))
      end
  end.

(** ** Reference: the onion *)

(** The first middleware of the list is the outermost layer. *)
Fixpoint onion (mws : list MiddleWare) (h : Handler) : Handler :=
  match mws with
  | [] => h
  | mw :: mws' => λ req, mw req (onion mws' h)
  end.

(** The handler a method selects, and whether it stands in for [HEAD]. *)
Definition select_handler (m : gmap Method Handler) (meth : Method) : option (Handler * bool) :=
  match m !! meth with
  | Some h => Some (h, false)
  | None => if bool_decide (meth = HEAD) then (λ h, (h, true)) <$> m !! GET else None
  end.

(** ** Lemmas *)

Lemma foldl_rev {A B} (f : A → B → A) a (l : list B) :
  foldl f a (rev l) = foldr (λ x acc, f acc x) a l.
Proof. induction l as [|x l IH]; [done|]. cbn. by rewrite foldl_app, IH. Qed.

Lemma onion_app m1 m2 h : onion (m1 ++ m2)%list h = onion m1 (onion m2 h).
Proof. induction m1 as [|mw m1 IH]; cbn; [done|]. by rewrite IH. Qed.

Lemma Next_build_foldr ep mws :
  Next_build ep mws =
  foldr (λ mw next, mkNext (Middleware mw) (Some next)) (mkNext (EndPoint ep) None) mws.
Proof.
  unfold Next_build. destruct mws as [|mw mws]; [done|]. apply foldl_rev.
Qed.

Lemma Next_build_call (ep : Handler) (mws : list MiddleWare) :
  Next_call (Next_build ep mws) = onion mws ep.
Proof.
  rewrite Next_build_foldr. induction mws as [|mw mws IH]; [done|].
  apply functional_extensionality; intros req. cbn. by rewrite IH.
Qed.

(** C14: Calling the chain built from an endpoint and a slice of middlewares
    runs the middlewares as an onion, first one outermost, around the
    endpoint; in particular no chain ever hits the [unwrap] of a missing
    successor.  Building from two slices nests one onion in the other, and a
    [Next] put in a middleware list only forwards. *)
Theorem next_build_onion (ep : Handler) :
  (∀ mws, Next_call (Next_build ep mws) = onion mws ep) ∧
  (∀ m1 m2 n, Next_call (Next_build ep (m1 ++ Next_handle n :: m2)%list) =
              onion m1 (Next_call (Next_build ep m2))).
Proof.
  split; intros; rewrite !Next_build_call; [done|]. by rewrite onion_app.
Qed.

(** C15: Method dispatch at a node: the handler registered for the method
    runs, [HEAD] falls back to [GET]; its errors and panics pass through, and
    its response keeps status and headers, loses the body exactly for the
    [HEAD] fallback, and carries the state of the request.  With no handler
    the answer is 405 and no handler code runs. *)
Theorem handler_map_dispatch {L : PlatformLaws P} (m : gmap Method Handler) req w :
  match select_handler m (method req) with
  | None =>
      HandlerMap_call m req w =
        (Ret (Err (BusinessError METHOD_NOT_ALLOWED "method not allowed")), w)
  | Some (h, head) =>
      match h req w with
      | (Ret (Ok res), w') =>
          ∃ out, HandlerMap_call m req w = (Ret (Ok out), w') ∧
            r_status out = r_status res ∧ r_state out = req_state req ∧
            r_body out = (if head then ResNone else r_body res) ∧
            ∀ k, hm_get (r_headers out) k = hm_get (r_headers res) k
      | (Ret (Err e), w') => HandlerMap_call m req w = (Ret (Err e), w')
      | (Panic, w') => HandlerMap_call m req w = (Panic, w')
      end
  end.
Proof.
  assert (∀ res k, hm_get (hm_extend hm_empty (r_headers res)) k = hm_get (r_headers res) k)
    as Hk.
  { intros res k. rewrite hm_get_extend. destruct (hm_get _ k); [done|].
    apply hm_get_empty. }
  unfold HandlerMap_call, select_handler, M_try, mbind, M_bind.
  destruct (m !! method req) as [h|].
  - destruct (h req w) as [[[res|e]|] w']; [|done..]. eexists; split_and!; try done. apply Hk.
  - case_bool_decide; [|done]. destruct (m !! GET) as [h|]; [|done]. cbn.
    destruct (h req w) as [[[res|e]|] w']; [|done..]. eexists; split_and!; try done. apply Hk.
Qed.
End next.

(** ** Witnesses *)

Lemma handler_map_dispatch_witness :
  let h : Handler (P := Demo) := λ _, mret (Ok (text "hello")) in
  let m : gmap Method (Handler (P := Demo)) := {[ GET := h ]} in
  let req := Request_from_parts (P := Demo)
    (mkParts (P := Demo) HEAD (mkUri "/" None) HTTP_11 [] tt) ReqEmpty in
  PlatformLaws Demo ∧
  ∃ out, HandlerMap_call m req [] = (Ret (Ok out), []) ∧ r_body out = ResNone.
Proof.
  intros h m req. split; [exact DemoLaws|].
  destruct (handler_map_dispatch (P := Demo) m req []) as (out & H & _ & _ & Hb & _).
  exists out. by split.
Defined.
