(* ===== verification/Addr.v ===== *)
(** * Peer addresses (silent/src/core/socket_addr.rs,
    silent/src/core/remote_addr.rs and [set_remote]/[remote] of
    silent/src/core/request.rs)

    IPv4 addresses are parsed and printed as [std] does; IPv6 addresses are an
    abstract type with its own parser and printer; a Unix address is its path,
    if it has one. *)

From S2P Require Import Prelude Str Platform State Error PathParam Body Message.

(** ** IPv4 text *)

Definition Ipv4 : Type := Z * Z * Z * Z.

Definition octet_ok (z : Z) : bool := in_range 0 255 z.

Definition ipv4_ok (a : Ipv4) : bool :=
  let '(w, x, y, z) := a in octet_ok w && octet_ok x && octet_ok y && octet_ok z.

(** An octet: one to three digits, no leading zero. *)
Definition parse_octet (s : string) : option Z :=
  match digits s with
  | Some z => if bool_decide (show_Z z = s) && octet_ok z then Some z else None
  | None => None
  end.

Definition show_ipv4 (a : Ipv4) : string :=
  let '(w, x, y, z) := a in
  show_Z w +:+ "." +:+ show_Z x +:+ "." +:+ show_Z y +:+ "." +:+ show_Z z.

Definition parse_ipv4 (s : string) : option Ipv4 :=
  match split_char "." s with
  | [a; b; c; d] =>
      match parse_octet a, parse_octet b, parse_octet c, parse_octet d with
      | Some w, Some x, Some y, Some z => Some (w, x, y, z)
      | _, _, _, _ => None
      end
  | _ => None
  end.

(** The port of a socket address: decimal digits, 16 bits. *)
Definition parse_port (s : string) : option Z :=
  match digits s with
  | Some z => if in_range 0 u16_max z then Some z else None
  | None => None
  end.

(** [ip:port] *)
Definition parse_sock4 (s : string) : option (Ipv4 * Z) :=
  match split_char ":" s with
  | [ip; port] =>
      match parse_ipv4 ip, parse_port port with
      | Some ip, Some port => Some (ip, port)
      | _, _ => None
      end
  | _ => None
  end.

(** IPv6 text is a parameter: addresses and [[addr]:port] pairs, with their
    parsers and printers. *)
Class Ipv6Text := {
  Ipv6 : Type;
  parse_ipv6 : string → option Ipv6;
  show_ipv6 : Ipv6 → string;
  Sock6 : Type;
  sock6_ip : Sock6 → Ipv6;
  parse_sock6 : string → option Sock6;
  show_sock6 : Sock6 → string;
}.

(** Printing and parsing are inverse, the printed text is visible ASCII, and
    no text is both an IPv4 and an IPv6 one. *)
Class Ipv6Laws (T : Ipv6Text) : Prop := {
  ipv6_round a : parse_ipv6 (show_ipv6 a) = Some a;
  sock6_round a : parse_sock6 (show_sock6 a) = Some a;
  ipv6_visible a : str_forallb visible (show_ipv6 a) = true;
  sock6_visible a : str_forallb visible (show_sock6 a) = true;
  ipv6_not_sock4 a : parse_sock4 (show_ipv6 a) = None;
  ipv6_not_sock6 a : parse_sock6 (show_ipv6 a) = None;
  ipv6_not_ipv4 a : parse_ipv4 (show_ipv6 a) = None;
  sock6_not_sock4 a : parse_sock4 (show_sock6 a) = None;
  ipv4_not_sock6 a : parse_sock6 (show_ipv4 a) = None;
}.

Section addr.
Context {P : Platform} {T : Ipv6Text}.

(** [std::net::SocketAddr] *)
Inductive NetAddr :=
| V4 (ip : Ipv4) (port : Z)
| V6 (a : Sock6).

Inductive IpAddr :=
| IpV4 (ip : Ipv4)
| IpV6 (ip : Ipv6).

Definition net_ip (a : NetAddr) : IpAddr :=
  match a with V4 ip _ => IpV4 ip | V6 a => IpV6 (sock6_ip a) end.

Definition show_net (a : NetAddr) : string :=
  match a with
  | V4 ip port => show_ipv4 ip +:+ ":" +:+ show_Z port
  | V6 a => show_sock6 a
  end.

Definition parse_net (s : string) : option NetAddr :=
  match parse_sock4 s with
  | Some (ip, port) => Some (V4 ip port)
  | None => V6 <$> parse_sock6 s
  end.

(** [std::os::unix::net::SocketAddr::from_pathname]: no NUL, at most 107
    bytes. *)
Definition from_pathname (s : string) : option string :=
  if negb (str_contains_char "000" s) && (String.length s <? 108)%nat then Some s else None.

(** ** core/socket_addr.rs *)

Inductive SocketAddr :=
| Tcp (addr : NetAddr)
| TlsTcp (addr : NetAddr)
| Unix (pathname : option string).

Definition SocketAddr_tls (a : SocketAddr) : SocketAddr :=
  match a with Tcp addr => TlsTcp addr | _ => a end.

Definition SocketAddr_debug (a : SocketAddr) : string :=
  match a with
  | Tcp addr => "http://" +:+ show_net addr
  | TlsTcp addr => "https://" +:+ show_net addr
  | Unix (Some path) => "unix://" +:+ path
  | Unix None => "unix:(unnamed)"
  end.

Definition SocketAddr_display (a : SocketAddr) : string :=
  match a with
  | Tcp addr => show_net addr
  | TlsTcp addr => show_net addr
  | Unix (Some path) => path
  | Unix None => "(unnamed)"
  end.

Definition SocketAddr_from_str (s : string) : option SocketAddr :=
  match parse_net s with
  | Some addr => Some (Tcp addr)
  | None =>
      match from_pathname s with
      | Some path => Some (Unix (Some path))
      | None => None
      end
  end.

(** ** core/remote_addr.rs *)

Inductive RemoteAddr :=
| Socket (a : SocketAddr)
| RIpv4 (ip : Ipv4)
| RIpv6 (ip : Ipv6).

Definition RemoteAddr_ip (r : RemoteAddr) : option IpAddr :=
  match r with
  | Socket (Tcp addr) => Some (net_ip addr)
  | Socket (TlsTcp addr) => Some (net_ip addr)
  | Socket (Unix _) => None
  | RIpv4 ip => Some (IpV4 ip)
  | RIpv6 ip => Some (IpV6 ip)
  end.

Definition RemoteAddr_from_socket (a : SocketAddr) : RemoteAddr := Socket a.
Definition RemoteAddr_from_net (a : NetAddr) : RemoteAddr := Socket (Tcp a).

Definition RemoteAddr_from_str (s : string) : option RemoteAddr :=
  match parse_net s with
  | Some sock => Some (RemoteAddr_from_net sock)
  | None =>
      match parse_ipv4 s with
      | Some ip => Some (RIpv4 ip)
      | None =>
          match parse_ipv6 s with
          | Some ip => Some (RIpv6 ip)
          | None =>
              match from_pathname s with
              | Some path => Some (Socket (Unix (Some path)))
              | None => None
              end
          end
      end
  end.

Definition RemoteAddr_display (r : RemoteAddr) : string :=
  match r with
  | Socket a => SocketAddr_display a
  | RIpv4 ip => show_ipv4 ip
  | RIpv6 ip => show_ipv6 ip
  end.

(** ** The peer of a request *)

Definition header_remote (req : Request) (name : string) : option RemoteAddr :=
  (hm_get (headers req) name ≫= header_to_str) ≫= RemoteAddr_from_str.

(** [remote]: panics when no valid [x-real-ip] was set. *)
Definition remote (req : Request) : outcome RemoteAddr :=
  unwrap (header_remote req "x-real-ip").

(** The first element of [x-forwarded-for] that is not blank, if it parses. *)
Definition forwarded_remote (v : string) : option RemoteAddr :=
  match find (λ p, negb (bool_decide (p = ""))) (map trim (split_char "," v)) with
  | Some ip => RemoteAddr_from_str ip
  | None => None
  end.

Definition insert_real_ip (req : Request) (a : RemoteAddr) : outcome Request :=
  let value := RemoteAddr_display a in
  if header_value_ok value
  then Ret (set_headers req (hm_insert (headers req) "x-real-ip" value))
  else Panic.

Definition set_remote (req : Request) (remote_addr : RemoteAddr) : outcome Request :=
  match header_remote req "x-real-ip" with
  | Some _ => Ret req
  | None =>
      match (hm_get (headers req) "x-forwarded-for" ≫= header_to_str) ≫= forwarded_remote with
      | Some real_from_forwarded => insert_real_ip req real_from_forwarded
      | None => insert_real_ip req remote_addr
      end
  end.
(** ** Sane peers *)

Definition net_ok (a : NetAddr) : bool :=
  match a with V4 ip port => ipv4_ok ip && in_range 0 u16_max port | V6 _ => true end.

(** A Unix peer that is no address text and can stand in a header. *)
Definition path_peer (p : string) : Prop :=
  parse_net p = None ∧ parse_ipv4 p = None ∧ parse_ipv6 p = None ∧
  from_pathname p = Some p ∧ str_forallb visible p = true.

Definition peer_ok (r : RemoteAddr) : Prop :=
  match r with
  | Socket (Tcp a) | Socket (TlsTcp a) => net_ok a = true
  | Socket (Unix (Some p)) => path_peer p
  | Socket (Unix None) => False
  | RIpv4 ip => ipv4_ok ip = true
  | RIpv6 _ => True
  end.

(** The header does not record that the connection was encrypted. *)
Definition plain (r : RemoteAddr) : RemoteAddr :=
  match r with Socket (TlsTcp a) => Socket (Tcp a) | _ => r end.

(** ** Lemmas: text round trips *)

Lemma octet_bounds z : octet_ok z = true → (0 <= z <= 255)%Z.
Proof. unfold octet_ok, in_range. rewrite andb_true_iff, !Z.leb_le. done. Qed.

Lemma parse_octet_show z : octet_ok z = true → parse_octet (show_Z z) = Some z.
Proof.
  intros Hz. unfold parse_octet. rewrite digits_show by (apply octet_bounds in Hz; lia).
  by rewrite bool_decide_eq_true_2, Hz.
Qed.

Lemma show_no_char c z : is_digit c = false → (0 <= z)%Z → str_contains_char c (show_Z z) = false.
Proof. intros Hc Hz. eapply str_forallb_not_contains; [done|]. by apply show_Z_digits. Qed.

Lemma parse_show_ipv4 a : ipv4_ok a = true → parse_ipv4 (show_ipv4 a) = Some a.
Proof.
  destruct a as [[[w x] y] z]. unfold ipv4_ok, show_ipv4, parse_ipv4.
  intros [[[Hw Hx]%andb_true_iff Hy]%andb_true_iff Hz]%andb_true_iff.
  pose proof (octet_bounds _ Hw). pose proof (octet_bounds _ Hx).
  pose proof (octet_bounds _ Hy). pose proof (octet_bounds _ Hz).
  cbn [String.append].
  rewrite !split_char_app by (apply show_no_char; [done|lia]).
  rewrite split_char_none by (apply show_no_char; [done|lia]).
  by rewrite !parse_octet_show.
Qed.

Lemma show_ipv4_chars f a :
  (∀ c, is_digit c = true → f c = true) → f "."%char = true → ipv4_ok a = true →
  str_forallb f (show_ipv4 a) = true.
Proof.
  destruct a as [[[w x] y] z]. unfold ipv4_ok, show_ipv4.
  intros Hf Hd [[[Hw Hx]%andb_true_iff Hy]%andb_true_iff Hz]%andb_true_iff.
  assert (∀ z, octet_ok z = true → str_forallb f (show_Z z) = true) as Hs.
  { intros n Hn%octet_bounds. eapply str_forallb_impl; [exact Hf|]. apply show_Z_digits. lia. }
  rewrite !str_forallb_app. cbn. by rewrite Hd, !Hs.
Qed.

Lemma parse_port_show p : in_range 0 u16_max p = true → parse_port (show_Z p) = Some p.
Proof.
  intros Hp. unfold parse_port. rewrite digits_show; [by rewrite Hp|].
  unfold in_range in Hp. apply andb_true_iff in Hp as [Hp _]. by apply Z.leb_le in Hp.
Qed.

Context {TL : Ipv6Laws T}.

Lemma digit_visible c : is_digit c = true → visible c = true.
Proof.
  unfold is_digit, digit, visible. destruct (_ && _) eqn:E; [|done]. intros _.
  apply andb_true_iff in E as [H1 H2]. apply N.leb_le in H1, H2.
  apply orb_true_iff. left. apply andb_true_iff. rewrite N.leb_le, N.ltb_lt. lia.
Qed.

Lemma parse_show_net a : net_ok a = true → parse_net (show_net a) = Some a.
Proof.
  destruct a as [ip port|a]; cbn.
  - intros [Hi Hp]%andb_true_iff. unfold parse_net, parse_sock4.
    cbn [String.append]. rewrite split_char_app.
    2:{ apply (str_forallb_not_contains (λ c, is_digit c || Ascii.eqb c ".")); [done|].
        apply show_ipv4_chars; [by intros c ->|done|done]. }
    rewrite split_char_none; [by rewrite parse_show_ipv4, parse_port_show|].
    apply show_no_char; [done|]. unfold in_range in Hp. apply andb_true_iff in Hp as [Hp _].
    by apply Z.leb_le in Hp.
  - intros _. unfold parse_net. by rewrite sock6_not_sock4, sock6_round.
Qed.

Lemma show_net_visible a : net_ok a = true → str_forallb visible (show_net a) = true.
Proof.
  destruct a as [ip port|a]; cbn; [|intros _; apply sock6_visible].
  intros [Hi Hp]%andb_true_iff. rewrite str_forallb_app. cbn.
  rewrite show_ipv4_chars by (done || apply digit_visible). cbn.
  eapply str_forallb_impl; [apply digit_visible|]. apply show_Z_digits.
  unfold in_range in Hp. apply andb_true_iff in Hp as [Hp _]. by apply Z.leb_le in Hp.
Qed.

Lemma parse_net_ipv4 a : ipv4_ok a = true → parse_net (show_ipv4 a) = None.
Proof.
  intros Ha. unfold parse_net, parse_sock4. rewrite split_char_none.
  - by rewrite ipv4_not_sock6.
  - apply (str_forallb_not_contains (λ c, is_digit c || Ascii.eqb c ".")); [done|].
    apply show_ipv4_chars; [by intros c ->|done|done].
Qed.

(** What a peer's text parses back to, and that it fits a header. *)
Lemma peer_round r :
  peer_ok r → RemoteAddr_from_str (RemoteAddr_display r) = Some (plain r) ∧
    str_forallb visible (RemoteAddr_display r) = true.
Proof.
  unfold RemoteAddr_from_str. destruct r as [[a|a|[p|]]|ip|ip]; cbn; intros H.
  - by rewrite parse_show_net, show_net_visible.
  - by rewrite parse_show_net, show_net_visible.
  - destruct H as (-> & -> & -> & -> & ->). done.
  - done.
  - rewrite parse_net_ipv4, parse_show_ipv4 by done. split; [done|].
    apply show_ipv4_chars; [apply digit_visible|done|done].
  - unfold parse_net. rewrite ipv6_not_sock4, ipv6_not_sock6, ipv6_not_ipv4, ipv6_round.
    split; [done|]. apply ipv6_visible.
Qed.
Lemma parse_octet_ok s z : parse_octet s = Some z → octet_ok z = true.
Proof.
  unfold parse_octet. destruct (digits s); [|done]. destruct (_ && octet_ok z0) eqn:E; [|done].
  intros [= <-]. by apply andb_true_iff in E as [_ ?].
Qed.

Lemma parse_ipv4_ok s a : parse_ipv4 s = Some a → ipv4_ok a = true.
Proof.
  unfold parse_ipv4. destruct (split_char "." s) as [|x1 [|x2 [|x3 [|x4 [|? ?]]]]]; try done.
  destruct (parse_octet x1) eqn:E1, (parse_octet x2) eqn:E2, (parse_octet x3) eqn:E3,
    (parse_octet x4) eqn:E4; try done.
  intros [= <-]. unfold ipv4_ok.
  by rewrite (parse_octet_ok _ _ E1), (parse_octet_ok _ _ E2), (parse_octet_ok _ _ E3),
    (parse_octet_ok _ _ E4).
Qed.

Lemma parse_net_ok s a : parse_net s = Some a → net_ok a = true.
Proof.
  unfold parse_net. destruct (parse_sock4 s) as [[ip port]|] eqn:E.
  - intros [= <-]. cbn. unfold parse_sock4, parse_port in E.
    destruct (split_char ":" s) as [|i [|q [|? ?]]]; try done.
    destruct (parse_ipv4 i) eqn:Ei; [|done]. destruct (digits q); [|done].
    destruct (in_range 0 u16_max z) eqn:Er; [|done]. simplify_eq.
    by rewrite (parse_ipv4_ok _ _ Ei), Er.
  - by destruct (parse_sock6 s); intros [= <-].
Qed.

Lemma from_pathname_same s p : from_pathname s = Some p → p = s.
Proof. unfold from_pathname. destruct (_ && _); congruence. Qed.

(** Anything parsed out of a header is a sane peer, and not a TLS one. *)
Lemma from_str_peer_ok s r :
  str_forallb visible s = true → RemoteAddr_from_str s = Some r → peer_ok r ∧ plain r = r.
Proof.
  unfold RemoteAddr_from_str. intros Hv.
  destruct (parse_net s) eqn:En; [intros [= <-]; split; [by eapply parse_net_ok|done]|].
  destruct (parse_ipv4 s) eqn:E4; [intros [= <-]; split; [by eapply parse_ipv4_ok|done]|].
  destruct (parse_ipv6 s) eqn:E6; [by intros [= <-]|].
  destruct (from_pathname s) as [p|] eqn:Ep; [|done]. intros [= <-].
  pose proof (from_pathname_same _ _ Ep) as ->. done.
Qed.

Context {L : PlatformLaws P}.

(** What [remote] makes of an address that was written into the header. *)
Definition read_back (text : string) : outcome RemoteAddr :=
  if str_forallb visible text then unwrap (RemoteAddr_from_str text) else Panic.

Definition with_real_ip (req : Request) (text : string) : Request :=
  set_headers req (hm_insert (headers req) "x-real-ip" text).

Lemma remote_with_real_ip req text : remote (with_real_ip req text) = read_back text.
Proof.
  unfold remote, header_remote, with_real_ip, read_back; cbn. rewrite hm_get_insert_eq. cbn.
  destruct (str_forallb visible text) eqn:Hv.
  - by assert (header_to_str text = Some text) as -> by by apply header_to_str_spec.
  - destruct (header_to_str text) as [t|] eqn:E; [|done].
    apply header_to_str_spec in E as [-> E]. congruence.
Qed.

Lemma insert_real_ip_text req r :
  insert_real_ip req r =
    if header_value_ok (RemoteAddr_display r) then Ret (with_real_ip req (RemoteAddr_display r)) else Panic.
Proof. done. Qed.

Lemma peer_read_back r :
  peer_ok r → header_value_ok (RemoteAddr_display r) = true ∧
    read_back (RemoteAddr_display r) = Ret (plain r).
Proof.
  intros [Hr Hv]%peer_round. split; [by apply header_value_visible|].
  unfold read_back. by rewrite Hv, Hr.
Qed.

Lemma forwarded_peer_ok v r :
  str_forallb visible v = true → forwarded_remote v = Some r → peer_ok r ∧ plain r = r.
Proof.
  unfold forwarded_remote. intros Hv.
  destruct (find _ _) as [ip|] eqn:E; [|done]. apply from_str_peer_ok.
  apply find_some in E as [Hin _]. apply in_map_iff in Hin as (t & <- & Hin).
  apply trim_forallb. pose proof (split_char_forallb visible "," v Hv) as H.
  rewrite List.Forall_forall in H. by apply H.
Qed.

(** [set_remote] only touches the headers. *)
Lemma set_remote_total req peer :
  peer_ok peer → ∃ h, set_remote req peer = Ret (set_headers req h).
Proof.
  assert (∀ r, peer_ok r → ∃ h, insert_real_ip req r = Ret (set_headers req h)) as Hi.
  { intros r [_ Hv]%peer_round. unfold insert_real_ip.
    rewrite header_value_visible by done. by eexists. }
  intros Hp. unfold set_remote. destruct (header_remote req "x-real-ip") as [r|].
  { exists (headers req). by destruct req as [[]]. }
  destruct (hm_get (headers req) "x-forwarded-for" ≫= header_to_str) as [v|] eqn:Ev; cbn.
  2:{ by apply Hi. }
  assert (str_forallb visible v = true) as Hv.
  { destruct (hm_get _ _) as [h|]; [|done]. cbn in Ev. by apply header_to_str_spec in Ev as [-> ?]. }
  destruct (forwarded_remote v) as [r|] eqn:Ef; [|by apply Hi].
  apply Hi. by eapply forwarded_peer_ok.
Qed.


(** [x-forwarded-for] is not searched for its first valid address: any
    first token that is no address text is itself taken for the path of a
    Unix socket and becomes the client's address, valid addresses after it
    notwithstanding. *)
Theorem forwarded_takes_first_token tok rest :
  tok ≠ "" → trim tok = tok → str_contains_char "," tok = false → path_peer tok →
  forwarded_remote (tok +:+ String "," rest) = Some (Socket (Unix (Some tok))).
Proof.
  intros Hne Ht Hc (Hn & H4 & H6 & Hp & _). unfold forwarded_remote.
  rewrite split_char_app by done. cbn. rewrite Ht, bool_decide_eq_false_2 by done. cbn.
  unfold RemoteAddr_from_str. by rewrite Hn, H4, H6, Hp.
Qed.
End addr.

(** ** Witnesses: an IPv6 text with the loopback address only *)

Definition LoopbackText : Ipv6Text := {|
  Ipv6 := unit;
  parse_ipv6 s := if bool_decide (s = "::1") then Some tt else None;
  show_ipv6 _ := "::1";
  Sock6 := unit;
  sock6_ip _ := tt;
  parse_sock6 s := if bool_decide (s = "[::1]:80") then Some tt else None;
  show_sock6 _ := "[::1]:80";
|}.

#[export] Instance LoopbackLaws : Ipv6Laws LoopbackText.
Proof.
  constructor; try (intros []; reflexivity).
  intros a. cbn. rewrite bool_decide_eq_false_2; [done|].
  destruct a as [[[w x] y] z]. unfold show_ipv4.
  intros H%(f_equal (str_contains_char ".")). rewrite str_contains_app in H.
  cbn in H. by rewrite orb_true_r in H.
Qed.


Lemma forwarded_takes_first_token_witness :
  forwarded_remote (T := LoopbackText) "unknown,203.0.113.9" =
  Some (Socket (T := LoopbackText) (Unix (Some "unknown"))).
Proof.
  refine (forwarded_takes_first_token (T := LoopbackText) "unknown" "203.0.113.9" _ _ _ _);
    repeat split; done.
Defined.
