(* ===== verification/Extract.v ===== *)
(** * Extractors
    (silent/src/extractor/from_request.rs, silent/src/extractor/types.rs,
    silent/src/core/into_response.rs)

    [FromRequest] is the trait of the same name; its [from_request] takes the
    request by [&mut], so it returns what it leaves of it.  The tuples run
    their components one after the other on the same request. *)

From S2P Require Import Prelude Str Serde Platform State Error PathParam Body Form Message Addr Next.

(** What the [http], [headers] and [serde] crates contribute. *)
Class ExtractCrates (P : Platform) (S : SerdeStd) := {
  (** [Extensions::get::<T>] and [HeaderMapExt::typed_get::<H>]. *)
  ext_get : ∀ T : Type, Extensions → option T;
  typed_get : ∀ H : Type, HeaderMap → option H;
  (** [MapDeserializer] and the iteration order of a [HashMap]. *)
  map_de : ∀ T, Deserialize T → list (De * De) → result T string;
  params_iter : gmap string PathParam → list (string * PathParam);
}.

Class ExtractLaws {P : Platform} {S : SerdeStd} (X : ExtractCrates P S) : Prop := {
  params_iter_perm m : params_iter m ≡ₚ map_to_list m;
}.

Section extract.
Context {P : Platform} {S : SerdeStd} {X : ExtractCrates P S}.

(** [trait IntoResponse], implemented for everything that converts into a
    response. *)
Class IntoResponse (T : Type) := into_response : T → Response.
#[export] Instance IntoResponse_Response : IntoResponse Response := λ r, r.
#[export] Instance IntoResponse_SilentError : IntoResponse SilentError := response_from_error.

(** [trait FromRequest] *)
Class FromRequest (T : Type) := mkFromRequest {
  Rejection : Type;
  #[global] Rejection_into :: IntoResponse Rejection;
  from_request : Request → M World (result T Rejection * Request);
}.
Arguments Rejection T {_}.

(** Most extractors only read the request and reject with a [SilentError]. *)
Definition reading {T} (f : Request → outcome (SilentResult T)) : FromRequest T :=
  mkFromRequest T SilentError _ (λ req, M_lift (f req) ≫= λ r, mret (r, req)).

Definition SerdeResult {T} (r : result T string) : SilentResult T := map_err SerdeDeError r.

(** [Path<T>]: a single parameter is parsed as a value, several as a map. *)
Definition Path_read {T} (t : Deserialize T) (req : Request) : outcome (SilentResult T) :=
  let params := path_params req in
  match params_iter params with
  | [] => Ret (Err ParamsEmpty)
  | [(_, value)] =>
      single ← path_param_to_string value;
      mret (SerdeResult (from_str_val t (CowBorrowed single)))
  | l =>
      l ← mapM (M := outcome) (λ '(k, v),
                 (λ s, (CowBorrowed k, CowOwned s)) <$> path_param_to_string v) l;
      mret (SerdeResult (from_str_map (map_de T) t l))
  end.
Definition Path_from_request {T} (t : Deserialize T) : FromRequest T := reading (Path_read t).

(** [Query<T>]: [de] is [serde_html_form]. *)
Definition Query_from_request {T} (de : string → result T string) : FromRequest T :=
  reading (λ req, Ret (params_parse de req)).

(** [Json<T>] and [Form<T>] consume the body through the request's caches. *)
Definition Json_from_request {T} (collect : ReqBody → M World (result string string))
    (de : Platform.Json → result T string) : FromRequest T :=
  mkFromRequest T SilentError _ (json_parse collect de).

Definition Form_from_request {T} (collect : ReqBody → M World (result string string))
    (read : HeaderMap → ReqBody → M World (SilentResult FormData))
    (de_url : string → result T string) (de_fields : list (string * string) → result T string)
  : FromRequest T :=
  mkFromRequest T SilentError _ (form_parse collect read de_url de_fields).

(** [State<T>] and the deprecated [Configs<T>]. *)
Definition State_from_request (t : TypeId) : FromRequest AnyVal :=
  reading (λ req, Ret (get_state req t)).
Definition Configs_from_request (t : TypeId) : FromRequest AnyVal :=
  reading (λ req, Ret (get_state req t)).

Definition Extension_from_request (T : Type) : FromRequest T :=
  reading (λ req, Ret (ok_or (ext_get T (extensions req)) ParamsNotFound)).

Definition TypedHeader_from_request (H : Type) : FromRequest H :=
  reading (λ req, Ret (ok_or (typed_get H (headers req)) ParamsNotFound)).

Definition Method_from_request : FromRequest Method := reading (λ req, Ret (Ok (method req))).
Definition Uri_from_request : FromRequest Uri := reading (λ req, Ret (Ok (uri req))).
Definition Version_from_request : FromRequest Version := reading (λ req, Ret (Ok (version req))).

(** [RemoteAddr]: [Request::remote] unwraps the header. *)
Definition RemoteAddr_from_request {N : Ipv6Text} : FromRequest RemoteAddr :=
  reading (λ req, Ok <$> remote req).

(** [match A::from_request(req).await { Ok(v) => v, Err(e) => return
    Err(e.into()) }], the step every tuple repeats. *)
Definition component {T B} (A : FromRequest T) (req : Request)
    (k : T → Request → M World (result B Response * Request))
  : M World (result B Response * Request) :=
  from_request req ≫= λ '(r, req),
  match r with
  | Ok v => k v req
  | Err e => mret (Err (into_response e), req)
  end.

Definition tuple1 {A} (FA : FromRequest A) : FromRequest A :=
  mkFromRequest A Response _ (λ req, component FA req (λ a req, mret (Ok a, req))).

Definition tuple2 {A B} (FA : FromRequest A) (FB : FromRequest B) : FromRequest (A * B) :=
  mkFromRequest (A * B) Response _ (λ req,
    component FA req (λ a req,
    component FB req (λ b req, mret (Ok (a, b), req)))).

Definition tuple3 {A B C} (FA : FromRequest A) (FB : FromRequest B) (FC : FromRequest C)
  : FromRequest (A * B * C) :=
  mkFromRequest (A * B * C) Response _ (λ req,
    component FA req (λ a req,
    component FB req (λ b req,
    component FC req (λ c req, mret (Ok (a, b, c), req))))).

Definition tuple4 {A B C D} (FA : FromRequest A) (FB : FromRequest B) (FC : FromRequest C)
    (FD : FromRequest D) : FromRequest (A * B * C * D) :=
  mkFromRequest (A * B * C * D) Response _ (λ req,
    component FA req (λ a req,
    component FB req (λ b req,
    component FC req (λ c req,
    component FD req (λ d req, mret (Ok (a, b, c, d), req)))))).

(** [Option<T>]: a rejection is dropped, what it did to the request is not. *)
Definition Option_from_request {T} (F : FromRequest T) : FromRequest (option T) :=
  mkFromRequest (option T) Response _ (λ req,
    from_request req ≫= λ '(r, req),
    mret (Ok (match r with Ok v => Some v | Err _ => None end), req)).

(** [Result<T, Response>] *)
Definition Result_from_request {T} (F : FromRequest T) : FromRequest (result T Response) :=
  mkFromRequest (result T Response) Response _ (λ req,
    from_request req ≫= λ '(r, req),
    mret (Ok (match r with Ok v => Ok v | Err e => Err (into_response e) end), req)).

(** [RequestExt::extract] *)
Definition extract {T} (F : FromRequest T) (req : Request)
  : M World (result T (Rejection T) * Request) := from_request req.

(** The handler a function of extracted arguments becomes. *)
Definition extract_handler {T R} (F : FromRequest T) (into : R → Response)
    (f : T → M World (SilentResult R)) : Handler :=
  into_handler_extract (extract F) into_response into f.

(** ** Lemmas *)

Lemma reading_run {T} (f : Request → outcome (SilentResult T)) req w :
  @from_request T (reading f) req w =
  match f req with Ret r => (Ret (r, req), w) | Panic => (Panic, w) end.
Proof. cbn. unfold M_lift, mbind, M_bind. by destruct (f req). Qed.

Lemma params_iter_singleton `{!ExtractLaws X} k p : params_iter {[k := p]} = [(k, p)].
Proof.
  apply Permutation_length_1_inv. rewrite params_iter_perm.
  by rewrite map_to_list_singleton.
Qed.

Lemma Path_read_single `{!ExtractLaws X} {T} (t : Deserialize T) req k p s :
  path_params req = {[k := p]} → path_param_to_string p = Ret s →
  Path_read t req = Ret (SerdeResult (from_str_val t (CowBorrowed s))).
Proof. intros Hp Hs. unfold Path_read. by rewrite Hp, params_iter_singleton, Hs. Qed.

Lemma Option_never_rejects {T} (F : FromRequest T) req w r req' w' :
  @from_request _ (Option_from_request F) req w = (Ret (r, req'), w') → ∃ o, r = Ok o.
Proof.
  cbn. unfold mbind, M_bind. destruct (from_request req w) as [[[r1 req1]|] w1]; [|done].
  intros [= <- <- <-]. by eexists.
Qed.

(** One component: its value goes on, its rejection is the answer. *)
Lemma component_run {T B} (A : FromRequest T) req
    (k : T → Request → M World (result B Response * Request)) w :
  component A req k w =
  match @from_request T A req w with
  | (Ret (Ok v, req1), w1) => k v req1 w1
  | (Ret (Err e, req1), w1) => (Ret (Err (into_response e), req1), w1)
  | (Panic, w1) => (Panic, w1)
  end.
Proof.
  unfold component, mbind, M_bind.
  by destruct (from_request req w) as [[[[v|e] req1]|] w1].
Qed.

(** Run a tuple component by component, splitting on what each returns. *)
Local Ltac run_tuple :=
  repeat (rewrite component_run
    || (progress cbn [from_request tuple1 tuple2 tuple3 tuple4 mret M_ret])
    || match goal with
       | |- context [@from_request ?T ?F ?r ?w] => is_var F;
           destruct (@from_request T F r w) as [[[[?|?] ?]|] ?]
       end); try reflexivity.

(** Tuples extract from left to right and stop at the first rejection:
    the longer tuples are nested pairs, and a pair whose first component
    rejects answers with that rejection's response without running the
    second one (neither the request nor the world is touched again), while a
    pair that goes on runs the second component on what the first one left
    of the request. *)
Theorem tuple_extract_nested {A B C D} (FA : FromRequest A) (FB : FromRequest B)
    (FC : FromRequest C) (FD : FromRequest D) :
  @from_request _ (tuple3 FA FB FC) = @from_request _ (tuple2 (tuple2 FA FB) FC) ∧
  @from_request _ (tuple4 FA FB FC FD) =
    @from_request _ (tuple2 (tuple2 (tuple2 FA FB) FC) FD) ∧
  ∀ req w,
    @from_request _ (tuple2 FA FB) req w =
    match @from_request _ (tuple1 FA) req w with
    | (Ret (Ok a, req1), w1) =>
        match @from_request _ (tuple1 FB) req1 w1 with
        | (Ret (Ok b, req2), w2) => (Ret (Ok (a, b), req2), w2)
        | (Ret (Err e, req2), w2) => (Ret (Err e, req2), w2)
        | (Panic, w2) => (Panic, w2)
        end
    | (Ret (Err e, req1), w1) => (Ret (Err e, req1), w1)
    | (Panic, w1) => (Panic, w1)
    end.
Proof.
  split_and!.
  - apply functional_extensionality; intros req.
    apply functional_extensionality; intros w. run_tuple.
  - apply functional_extensionality; intros req.
    apply functional_extensionality; intros w. run_tuple.
  - intros req w. run_tuple.
Qed.

(** C26: A path parameter reaches the handler typed: for a request with one
    parameter whose text is [s], [Path<T>] yields exactly the value [s]
    prints, for every scalar [T]; for an integer type it yields the captured
    number when it fits the type and a parse error otherwise (never a
    truncated number); whatever it yields has the requested type; and the
    request is left as it was.  Without any parameter it rejects. *)
Theorem path_extract_typed {T : SerdeTypes S} {L : SerdeTypesLaws S T} `{!ExtractLaws X}
    req w k p s (Hp : path_params req = {[k := p]}) (Hs : path_param_to_string p = Ret s) :
  (∀ t v, scalar t = true → typed t v = true → present v = true → s = render v →
     @from_request _ (Path_from_request (serde t)) req w = (Ret (Ok v, req), w)) ∧
  (∀ t z, s = show_Z z →
     @from_request _ (Path_from_request (serde (TInt t))) req w =
     (Ret (if int_ok t z then Ok (VInt z)
           else Err (SerdeDeError (parse_int_err t s)), req), w)) ∧
  (∀ t v req' w',
     @from_request _ (Path_from_request (serde t)) req w = (Ret (Ok v, req'), w') →
     typed t v = true ∧ req' = req ∧ w' = w) ∧
  (∀ t, @from_request _ (Path_from_request (serde t)) Request_empty w =
     (Ret (Err ParamsEmpty, Request_empty), w)).
Proof.
  assert (∀ t, @from_request _ (Path_from_request (serde t)) req w =
    (Ret (SerdeResult (from_str_val (serde t) (CowBorrowed s)), req), w)) as Hrun.
  { intros t. unfold Path_from_request. rewrite reading_run.
    by rewrite (Path_read_single _ _ _ _ _ Hp Hs). }
  split_and!.
  - intros t v Hsc Ht Hv ->. rewrite Hrun.
    by rewrite (cow_roundtrip t v (CowBorrowed (render v))).
  - intros t z ->. rewrite Hrun, cow_deserialize. cbn [hint CowValue_deserialize].
    rewrite cow_int_serde. cbn [cow_str]. rewrite parse_int_show_iff. by destruct (int_ok t z).
  - intros t v req' w'. rewrite Hrun. intros [= H <- <-].
    destruct (from_str_val _ _) as [v'|] eqn:E; [|done]. injection H as <-.
    by apply cow_typed in E as [? _].
  - intros t. unfold Path_from_request. rewrite reading_run. unfold Path_read.
    change (path_params Request_empty) with (∅ : gmap string PathParam).
    assert (params_iter (∅ : gmap string PathParam) = []) as ->; [|done].
    apply Permutation_nil. rewrite params_iter_perm. by rewrite map_to_list_empty.
Qed.

(** C27: The JSON body is shared by the extractors of a tuple: when a first
    [Json<T>] succeeds, a second [Json<U>] after it decodes the same value,
    without touching the world or the request again; when the first one fails
    before there is a value, the body is gone, so even behind
    [Option<Json<T>>], which swallows that failure, the second one answers
    [JsonEmpty]. *)
Theorem json_extract_shared (collect : ReqBody → M World (result string string))
    {A B} (de : Platform.Json → result A string) (de' : Platform.Json → result B string)
    req w res req' w'
    (Hj : json_data req = None) (Hc : content_type req = Some "json")
    (Hrun : @from_request _ (Json_from_request collect de) req w = (Ret (res, req'), w')) :
  let J := Json_from_request collect de in
  let J' := Json_from_request collect de' in
  (∀ a, res = Ok a → ∃ v, de v = Ok a ∧
     @from_request _ (tuple2 J J') req w =
     (Ret (match de' v with
           | Ok b => Ok (a, b)
           | Err e => Err (response_from_error (SerdeJsonError e))
           end, req'), w')) ∧
  (∀ e, res = Err e → json_data req' = None →
     @from_request _ (tuple2 (Option_from_request J) J') req w =
     (Ret (Err (response_from_error JsonEmpty), req'), w')).
Proof.
  intros J J'. pose proof (json_parse_again collect de de' _ _ _ _ _ w' Hj Hc Hrun) as (Hag & Hb & Hok).
  change (json_parse collect de' req' w') with (@from_request _ J' req' w') in Hag.
  assert (@from_request _ J req w = (Ret (res, req'), w')) as HrunJ by exact Hrun.
  split.
  - intros a ->. destruct (Hok a eq_refl) as [v Hv]. exists v.
    destruct (json_parse_cases collect de _ _ _ _ _ Hj Hc Hrun) as (_ & _ & Hd).
    rewrite Hv in Hd, Hag. split.
    { destruct (de v); [by injection Hd as ->|done]. }
    cbn [tuple2 from_request]. rewrite component_run, HrunJ.
    rewrite component_run, Hag. by destruct (de' v).
  - intros e -> Hn. rewrite Hn in Hag. cbn [tuple2 from_request].
    rewrite component_run.
    assert (@from_request _ (Option_from_request J) req w = (Ret (Ok None, req'), w')) as Ho.
    { cbn [from_request Option_from_request]. unfold mbind, M_bind.
      change (json_parse collect de req w) with (@from_request _ J req w). by rewrite HrunJ. }
    by rewrite Ho, component_run, Hag.
Qed.
End extract.

(** ** Witnesses *)

#[local] Existing Instance DemoStd.

#[local] Instance DemoExtract : ExtractCrates Demo DemoStd := {|
  ext_get _ _ := None;
  typed_get _ _ := None;
  map_de _ _ _ := Err "invalid type";
  params_iter := map_to_list;
|}.

#[local] Instance DemoExtractLaws : ExtractLaws DemoExtract.
Proof. by constructor. Qed.

Definition demo_user (id : Z) : Request :=
  set_path_params (P := Demo) Request_empty "id" (from_i64 id).

Lemma path_extract_typed_witness :
  let req := demo_user 300 in
  @from_request _ _ (Path_from_request (serde (TOption (TInt U16)))) req [] =
    (Ret (Ok (VSome (VInt 300)), req), []) ∧
  @from_request _ _ (Path_from_request (serde (TInt U8))) req [] =
    (Ret (Err (SerdeDeError "invalid digit found in string"), req), []).
Proof.
  intros req.
  destruct (path_extract_typed (P := Demo) (S := DemoStd) (X := DemoExtract)
    req [] "id" (PInt64 300) "300") as (H1 & H2 & _); [reflexivity..|].
  split.
  - apply (H1 (TOption (TInt U16)) (VSome (VInt 300))); reflexivity.
  - apply (H2 U8 300%Z). reflexivity.
Defined.

Definition demo_collect : @ReqBody Demo → M (@World Demo) (result string string) := λ b,
  mret (match b with ReqOnce s => Ok s | _ => Err "not in memory" end).

Definition demo_json (text : string) : Request :=
  Request_from_parts (P := Demo)
    (mkParts (P := Demo) POST (mkUri "/" None) HTTP_11
       [("content-type", "application/json")] tt) (ReqOnce text).

Lemma json_extract_shared_witness :
  let de := λ j : @Platform.Json Demo, @Ok string string j in
  let len := λ j : @Platform.Json Demo, @Ok nat string (String.length j) in
  let J := Json_from_request demo_collect de in
  let J' := Json_from_request demo_collect len in
  @from_request _ _ (tuple2 J J') (demo_json "42") [] =
    (Ret (Ok ("42", 2%nat), set_json_data (snd (take_body (demo_json "42"))) "42"), []) ∧
  @from_request _ _ (tuple2 (Option_from_request J) J') (demo_json "oops") [] =
    (Ret (Err (response_from_error JsonEmpty), snd (take_body (demo_json "oops"))), []).
Proof.
  intros de len J J'. split.
  - destruct (json_extract_shared (P := Demo) demo_collect de len
      (demo_json "42") [] (Ok "42") (set_json_data (snd (take_body (demo_json "42"))) "42") [])
      as [H _]; [reflexivity..|].
    destruct (H "42" eq_refl) as (v & [= ->] & Hv). exact Hv.
  - destruct (json_extract_shared (P := Demo) demo_collect de len
      (demo_json "oops") [] (Err (SerdeJsonError "bad json"))
      (snd (take_body (demo_json "oops"))) []) as [_ H]; [reflexivity..|].
    exact (H _ eq_refl eq_refl).
Defined.
