(* ===== verification/RouteSeg.v ===== *)
(** * Route segments and their matching
    (silent/src/route/handler_match.rs and the first and last parts of
    silent/src/route/route_tree.rs)

    A [&str] cut out of the request path is its address and its text: the
    captured ranges are computed from addresses, and the empty literal that
    some branches return lives elsewhere ([empty_lit]). *)

From S2P Require Import Prelude Str Platform State Error PathParam Body Message.

(** [SpecialPath]: a [<key:type>] segment of a route. *)
Inductive SpecialPath :=
| SpString (key : string)
| SpInt (key : string)
| SpI64 (key : string)
| SpI32 (key : string)
| SpU64 (key : string)
| SpU32 (key : string)
| SpUUid (key : string)
| SpPath (key : string)
| SpFullPath (key : string).

(** The [match] of [SpecialPath::from] on the type part. *)
Definition special_path_of (key path_type : string) : SpecialPath :=
  if bool_decide (path_type = "**") then SpFullPath key
  else if bool_decide (path_type = "*") then SpPath key
  else if bool_decide (path_type = "full_path") then SpFullPath key
  else if bool_decide (path_type = "path") then SpPath key
  else if bool_decide (path_type = "str") then SpString key
  else if bool_decide (path_type = "int") then SpInt key
  else if bool_decide (path_type = "i64") then SpI64 key
  else if bool_decide (path_type = "i32") then SpI32 key
  else if bool_decide (path_type = "u64") then SpU64 key
  else if bool_decide (path_type = "u32") then SpU32 key
  else if bool_decide (path_type = "uuid") then SpUUid key
  else SpString key.

(** [SpecialPath::from]: the angle brackets are sliced off, the rest is split
    once at [:]. *)
Definition SpecialPath_from (value : string) : outcome SpecialPath :=
  if (String.length value <? 1)%nat then Panic
  else
    value ← slice_range value 1 (String.length value - 1);
    let '(key, path_type) := split_once ":" value in
    mret (special_path_of key (default "" path_type)).

Inductive SpecialSeg :=
| SegRoot
| SegStatic (value : string)
| SegString (key : string)
| SegInt (key : string)
| SegI64 (key : string)
| SegI32 (key : string)
| SegU64 (key : string)
| SegU32 (key : string)
| SegUuid (key : string)
| SegPath (key : string)
| SegFullPath (key : string).

Definition is_full_path (s : SpecialSeg) : bool :=
  match s with SegFullPath _ => true | _ => false end.

Definition as_static_key (s : SpecialSeg) : option string :=
  match s with SegStatic value => Some value | _ => None end.

Definition seg_of_special (p : SpecialPath) : SpecialSeg :=
  match p with
  | SpString key => SegString key
  | SpInt key => SegInt key
  | SpI64 key => SegI64 key
  | SpI32 key => SegI32 key
  | SpU64 key => SegU64 key
  | SpU32 key => SegU32 key
  | SpUUid key => SegUuid key
  | SpPath key => SegPath key
  | SpFullPath key => SegFullPath key
  end.

Definition parse_special_seg (raw : string) : outcome SpecialSeg :=
  if bool_decide (raw = "") then mret SegRoot
  else if starts_with_char "<" raw && ends_with_char ">" raw
  then p ← SpecialPath_from raw; mret (seg_of_special p)
  else mret (SegStatic raw).

Section seg.
Context {P : Platform}.

(** ** String slices *)

Record Slice := mkSlice { ptr : Z; txt : string }.

Definition slen (s : Slice) : nat := String.length (txt s).
Definition lit_empty : Slice := mkSlice empty_lit "".
(** [&s[i..]] and [&s[..i]] keep their place in memory. *)
Definition sub_from (s : Slice) (i : nat) : outcome Slice :=
  t ← slice_from (txt s) i; mret (mkSlice (ptr s + Z.of_nat i) t).
Definition sub_to (s : Slice) (i : nat) : outcome Slice :=
  t ← slice_to (txt s) i; mret (mkSlice (ptr s) t).

Definition strip_leading_slash (path : Slice) : Slice :=
  match strip_prefix_char "/" (txt path) with
  | Some rest => mkSlice (ptr path + 1) rest
  | None => path
  end.

(** [strip_one_segment]: the segment up to the next [/] and what follows it. *)
Definition strip_one_segment (path : Slice) : outcome (Slice * Slice) :=
  let trimmed := strip_leading_slash path in
  if bool_decide (txt trimmed = "") then mret (lit_empty, lit_empty)
  else
    match memchr "/" (txt trimmed) with
    | Some idx =>
        a ← sub_to trimmed idx;
        b ← sub_from trimmed (idx + 1);
        mret (a, b)
    | None => mret (trimmed, lit_empty)
    end.

Definition match_static_segment (value : string) (path : Slice) : outcome (option Slice) :=
  if bool_decide (value = "") then mret (Some path)
  else
    let trimmed := strip_leading_slash path in
    if bool_decide (txt trimmed = value) then mret (Some lit_empty)
    else if (String.length value <? slen trimmed)%nat && starts_with value (txt trimmed) then
      rest ← sub_from trimmed (String.length value);
      match strip_prefix_char "/" (txt rest) with
      | Some rem => mret (Some (mkSlice (ptr rest + 1) rem))
      | None => mret None
      end
    else mret None.

(** [slice_range]: the place of a slice in the full path, by address. *)
Definition slice_range_of (full slice : Slice) : Range :=
  let start := Z.to_nat (saturating_sub (ptr slice) (ptr full)) in
  mkRange start (start + slen slice).

(** [remain_offset]; the [debug_assert!] and the subtraction panic alike. *)
Definition remain_offset (full remain : Slice) : outcome nat :=
  if (slen remain <=? slen full)%nat then Ret (slen full - slen remain)%nat else Panic.

(** ** Captures *)

Record CapturedStr := mkCaptured { c_range : Range }.

Definition CapturedStr_new (value full : Slice) : CapturedStr :=
  mkCaptured (slice_range_of full value).

Inductive PathMatchCapture :=
| CapStr (c : CapturedStr)
| CapPath (c : CapturedStr)
| CapFull (c : CapturedStr)
| CapI32 (v : Z)
| CapI64 (v : Z)
| CapU64 (v : Z)
| CapU32 (v : Z)
| CapUuid (u : Uuid).

Record PathMatch := mkMatch { remain : Slice; capture : option PathMatchCapture }.

(** The integer and uuid arms: the segment must be non empty and parse. *)
Definition match_parsed {A} (parse : string → option A) (cap : A → PathMatchCapture)
    (path : Slice) : outcome (option PathMatch) :=
  '(segment, remain) ← strip_one_segment path;
  mret (if bool_decide (txt segment = "") then None
        else (λ v, mkMatch remain (Some (cap v))) <$> parse (txt segment)).

(** [call_path_only]: whether one node accepts the front of the path. *)
Definition call_path_only (seg : SpecialSeg) (no_children : bool) (path full_path : Slice)
  : outcome (option PathMatch) :=
  match seg with
  | SegRoot =>
      let normalized := if bool_decide (txt path = "/") then lit_empty else path in
      if negb (bool_decide (txt normalized = "")) && no_children then mret None
      else mret (Some (mkMatch normalized None))
  | SegStatic value =>
      r ← match_static_segment value path;
      mret (option_map (λ remain, mkMatch remain None) r)
  | SegString _ =>
      '(segment, remain) ← strip_one_segment path;
      mret (if bool_decide (txt segment = "") then None
            else Some (mkMatch remain (Some (CapStr (CapturedStr_new segment full_path)))))
  | SegInt _ | SegI32 _ => match_parsed parse_i32 CapI32 path
  | SegI64 _ => match_parsed parse_i64 CapI64 path
  | SegU64 _ => match_parsed parse_u64 CapU64 path
  | SegU32 _ => match_parsed parse_u32 CapU32 path
  | SegUuid _ => match_parsed uuid_parse CapUuid path
  | SegPath _ =>
      '(segment, remain) ← strip_one_segment path;
      mret (Some (mkMatch remain (Some (CapPath (CapturedStr_new segment full_path)))))
  | SegFullPath _ =>
      let trimmed := strip_leading_slash path in
      '(_, remain) ← strip_one_segment path;
      mret (Some (mkMatch remain (Some (CapFull (CapturedStr_new trimmed full_path)))))
  end.

(** [bind_params]: the request with the parameter bound, or [None] when
    segment and capture disagree. *)
Definition bind_params (seg : SpecialSeg) (req : Request) (matched : PathMatch)
    (source : string) : option Request :=
  match seg, capture matched with
  | SegRoot, _ | SegStatic _, _ => Some req
  | SegString key, Some (CapStr c) =>
      Some (set_path_params req key (borrowed_str source (c_range c)))
  | SegInt key, Some (CapI32 v) | SegI32 key, Some (CapI32 v) =>
      Some (set_path_params req key (from_i32 v))
  | SegI64 key, Some (CapI64 v) => Some (set_path_params req key (from_i64 v))
  | SegU64 key, Some (CapU64 v) => Some (set_path_params req key (from_u64 v))
  | SegU32 key, Some (CapU32 v) => Some (set_path_params req key (from_u32 v))
  | SegUuid key, Some (CapUuid u) => Some (set_path_params req key (from_Uuid u))
  | SegPath key, Some (CapPath c) =>
      Some (set_path_params req key (borrowed_path source (c_range c)))
  | SegFullPath key, Some (CapFull c) =>
      Some (set_path_params req key (borrowed_path source (c_range c)))
  | _, _ => None
  end.

(** ** Reference: matching on texts *)

Definition strip_slash (s : string) : string :=
  match strip_prefix_char "/" s with Some rest => rest | None => s end.

Definition first_segment (s : string) : string * string :=
  let '(x, y) := split_once "/" (strip_slash s) in (x, default "" y).

Definition static_remain (value s : string) : option string :=
  if bool_decide (value = "") then Some s
  else if bool_decide (strip_slash s = value) then Some ""
  else if starts_with (value +:+ "/") (strip_slash s)
  then Some (str_drop (String.length value + 1) (strip_slash s)) else None.

(** What a segment reads as a parameter, and what it leaves. *)
Definition seg_accepts (seg : SpecialSeg) (x : string) : bool :=
  match seg with
  | SegString _ => negb (bool_decide (x = ""))
  | SegInt _ | SegI32 _ => negb (bool_decide (x = "")) && bool_decide (is_Some (parse_i32 x))
  | SegI64 _ => negb (bool_decide (x = "")) && bool_decide (is_Some (parse_i64 x))
  | SegU64 _ => negb (bool_decide (x = "")) && bool_decide (is_Some (parse_u64 x))
  | SegU32 _ => negb (bool_decide (x = "")) && bool_decide (is_Some (parse_u32 x))
  | SegUuid _ => negb (bool_decide (x = "")) && bool_decide (is_Some (uuid_parse x))
  | _ => true
  end.

Definition seg_remain (seg : SpecialSeg) (no_children : bool) (s : string) : option string :=
  match seg with
  | SegRoot =>
      let s := if bool_decide (s = "/") then "" else s in
      if negb (bool_decide (s = "")) && no_children then None else Some s
  | SegStatic value => static_remain value s
  | _ => let '(x, y) := first_segment s in if seg_accepts seg x then Some y else None
  end.

(** The parameter a segment binds, as an owned value. *)
Definition seg_param (seg : SpecialSeg) (s : string) : option (string * PathParam) :=
  let x := fst (first_segment s) in
  match seg with
  | SegRoot | SegStatic _ => None
  | SegString key => Some (key, PStr (Owned x))
  | SegInt key | SegI32 key => (λ v, (key, PInt v)) <$> parse_i32 x
  | SegI64 key => (λ v, (key, PInt64 v)) <$> parse_i64 x
  | SegU64 key => (λ v, (key, PUInt64 v)) <$> parse_u64 x
  | SegU32 key => (λ v, (key, PUInt32 v)) <$> parse_u32 x
  | SegUuid key => (λ u, (key, PUuid u)) <$> uuid_parse x
  | SegPath key => Some (key, PPath (Owned x))
  | SegFullPath key => Some (key, PPath (Owned (strip_slash s)))
  end.

(** Reading a bound parameter out of the path it borrows. *)
Definition to_owned (p : PathParam) : outcome PathParam :=
  match p with
  | PStr s => t ← as_str s; mret (PStr (Owned t))
  | PPath s => t ← as_str s; mret (PPath (Owned t))
  | p => mret p
  end.

(** A slice of the request path: its address is where its text stands. *)
Definition suffix_of (full s : Slice) : Prop :=
  ∃ p, txt full = p +:+ txt s ∧ ptr s = (ptr full + Z.of_nat (String.length p))%Z.

Definition seg_utf8 (seg : SpecialSeg) : Prop :=
  match seg with SegStatic value => utf8 value = true | _ => True end.

(** ** Lemmas: splitting at a character *)

Lemma find_split_None c s : find_char c s = None → split_once c s = (s, None).
Proof.
  induction s as [|b s IH]; cbn; [done|].
  destruct (Ascii.eqb b c); [done|]. destruct (find_char c s); [done|].
  intros _. by rewrite IH.
Qed.

Lemma find_split_Some c s i :
  find_char c s = Some i →
  ∃ x y, split_once c s = (x, Some y) ∧ s = x +:+ String c y ∧ i = String.length x.
Proof.
  revert i. induction s as [|b s IH]; cbn; [done|]. intros i.
  destruct (Ascii.eqb_spec b c) as [->|Hne].
  - intros [= <-]. by exists "", s.
  - destruct (find_char c s) as [j|]; [|done]. intros [= <-].
    destruct (IH j eq_refl) as (x & y & -> & -> & ->).
    by exists (String b x), y.
Qed.

Lemma strip_prefix_char_Some c s r : strip_prefix_char c s = Some r → s = String c r.
Proof.
  destruct s as [|b s]; cbn; [done|]. destruct (Ascii.eqb_spec b c); naive_solver.
Qed.

Lemma utf8_ascii_cons c s : lead_len c = Some 0 → utf8 (String c s) = utf8 s.
Proof. intros H. unfold utf8; cbn. by rewrite H. Qed.

Lemma strip_slash_utf8 s : utf8 s = true → utf8 (strip_slash s) = true.
Proof.
  unfold strip_slash. destruct (strip_prefix_char _ s) eqn:E; [|done].
  apply strip_prefix_char_Some in E as ->. by rewrite utf8_ascii_cons.
Qed.

Lemma starts_with_app p s : starts_with p s = true ↔ ∃ r, s = p +:+ r.
Proof.
  revert s. induction p as [|a p IH]; intros s; cbn.
  - split; [intros _; by exists s|intros _; reflexivity].
  - destruct s as [|b s]; [naive_solver|].
    rewrite andb_true_iff, IH. split.
    + intros [->%Ascii.eqb_eq [r ->]]. by exists r.
    + intros [r [= -> ->]]. split; [apply Ascii.eqb_refl|by exists r].
Qed.

(** The rest of a path after its first segment is again part of it. *)
Lemma first_segment_split s x y :
  first_segment s = (x, y) →
  (y = "" ∧ strip_slash s = x) ∨ strip_slash s = x +:+ String "/" y.
Proof.
  unfold first_segment. destruct (find_char "/" (strip_slash s)) as [i|] eqn:E.
  - destruct (find_split_Some _ _ _ E) as (x' & y' & -> & -> & _).
    intros [= <- <-]. by right.
  - rewrite find_split_None by done. intros [= <- <-]. by left.
Qed.

Lemma strip_slash_suffix s : ∃ p, s = p +:+ strip_slash s.
Proof.
  unfold strip_slash. destruct (strip_prefix_char _ s) eqn:E; [|by exists ""].
  apply strip_prefix_char_Some in E as ->. by exists "/".
Qed.

Lemma first_segment_utf8 s x y :
  utf8 s = true → first_segment s = (x, y) → utf8 x = true ∧ utf8 y = true.
Proof.
  intros Hs%strip_slash_utf8 [[-> <-]|E]%first_segment_split; [done|].
  rewrite E in Hs. by eapply utf8_ascii_split in Hs.
Qed.
Lemma first_segment_suffix s x y : first_segment s = (x, y) → ∃ p, s = p +:+ y.
Proof.
  intros H. destruct (strip_slash_suffix s) as [p Hp].
  destruct (first_segment_split _ _ _ H) as [[-> Hx]|Hx].
  - exists s. by rewrite str_app_nil_r.
  - exists (p +:+ (x +:+ "/")). rewrite Hp at 1. rewrite Hx.
    by rewrite !str_app_assoc.
Qed.

Lemma static_remain_suffix v s r : static_remain v s = Some r → ∃ p, s = p +:+ r.
Proof.
  unfold static_remain. destruct (strip_slash_suffix s) as [p Hp].
  repeat case_bool_decide; [intros [= <-]; by exists ""| |].
  { intros [= <-]. exists s. by rewrite str_app_nil_r. }
  destruct (starts_with _ _) eqn:Hs; [|done]. intros [= <-].
  apply starts_with_app in Hs as [r Hr]. exists (p +:+ (v +:+ "/")).
  rewrite Hr.
  rewrite (str_app_assoc v), <-str_drop_drop, str_drop_app. cbn.
  rewrite Hp at 1. by rewrite Hr, !str_app_assoc.
Qed.

Lemma seg_remain_suffix seg nc s r : seg_remain seg nc s = Some r → ∃ p, s = p +:+ r.
Proof.
  destruct seg; cbn -[first_segment seg_accepts];
    try (destruct (first_segment s) as [x y] eqn:E; destruct (seg_accepts _ x);
         [|done]; intros [= <-]; by eapply first_segment_suffix).
  - destruct (_ && nc); [done|]. intros [= <-].
    case_bool_decide; subst; [by exists "/"|by exists ""].
  - apply static_remain_suffix.
Qed.

Lemma seg_remain_utf8 seg nc s r :
  utf8 s = true → seg_utf8 seg → seg_remain seg nc s = Some r → utf8 r = true.
Proof.
  intros Hu Hs. destruct seg; cbn -[first_segment seg_accepts];
    try (destruct (first_segment s) as [x y] eqn:E; destruct (seg_accepts _ x);
         [|done]; intros [= <-]; by eapply first_segment_utf8).
  - destruct (_ && nc); [done|]. intros [= <-]. by case_bool_decide.
  - unfold static_remain. repeat case_bool_decide; [by intros [= <-]..|].
    destruct (starts_with _ _) eqn:E; [|done]. intros [= <-].
    apply starts_with_app in E as [r' E]. apply strip_slash_utf8 in Hu. rewrite E in *.
    rewrite (str_app_assoc value), <-str_drop_drop, str_drop_app. cbn.
    by rewrite str_app_assoc, utf8_app_r in Hu by done.
Qed.

(** ** Lemmas: the matching code computes the reference *)

Context {L : PlatformLaws P}.

Lemma strip_leading_slash_txt path : txt (strip_leading_slash path) = strip_slash (txt path).
Proof. unfold strip_leading_slash, strip_slash. by destruct (strip_prefix_char _ _). Qed.

Lemma strip_leading_slash_suffix full path :
  suffix_of full path → suffix_of full (strip_leading_slash path).
Proof.
  intros (p & Ht & Hp). unfold strip_leading_slash.
  destruct (strip_prefix_char _ _) as [r|] eqn:E; [|by exists p].
  apply strip_prefix_char_Some in E. exists (p +:+ "/"). cbn. split.
  - by rewrite Ht, E, str_app_assoc.
  - rewrite str_len_app. cbn. lia.
Qed.

(** The two slices of [strip_one_segment]: their texts, and where the first
    one is. *)
Lemma strip_one_segment_spec path :
  utf8 (txt path) = true →
  ∃ a b, strip_one_segment path = Ret (a, b) ∧
    first_segment (txt path) = (txt a, txt b) ∧
    (a = lit_empty ∨ ptr a = ptr (strip_leading_slash path)).
Proof.
  intros Hu. unfold strip_one_segment. rewrite strip_leading_slash_txt.
  assert (utf8 (strip_slash (txt path)) = true) as Hu' by by apply strip_slash_utf8.
  unfold first_segment. case_bool_decide as Hs.
  { rewrite Hs. cbn. exists lit_empty, lit_empty. cbn. by auto. }
  rewrite memchr_spec. destruct (find_char _ _) as [i|] eqn:E.
  - destruct (find_split_Some _ _ _ E) as (x & y & -> & Hx & ->).
    unfold sub_to, sub_from. rewrite strip_leading_slash_txt, Hx.
    rewrite Hx in Hu'. destruct (utf8_ascii_split "/" x y eq_refl Hu') as [Hux Huy].
    rewrite slice_to_prefix by by rewrite utf8_ascii_cons.
    replace (x +:+ String "/" y) with ((x +:+ "/") +:+ y) by by rewrite str_app_assoc.
    replace (String.length x + 1)%nat with (String.length (x +:+ "/"))
      by by rewrite str_len_app.
    rewrite slice_from_suffix by done. cbn. eexists _, _. split; [done|]. cbn. by auto.
  - rewrite find_split_None by done. exists (strip_leading_slash path), lit_empty. cbn.
    rewrite strip_leading_slash_txt. by auto.
Qed.

Lemma match_static_spec v path :
  utf8 (txt path) = true → utf8 v = true →
  ∃ r, match_static_segment v path = Ret r ∧ txt <$> r = static_remain v (txt path).
Proof.
  intros Hu Hv. unfold match_static_segment, static_remain, slen.
  rewrite strip_leading_slash_txt. apply strip_slash_utf8 in Hu.
  pose proof (strip_leading_slash_txt path) as Ht.
  generalize dependent (strip_leading_slash path). intros sl Ht. rewrite <-Ht in *.
  repeat case_bool_decide; [by eexists..|]. unfold sub_from.
  destruct (starts_with v (txt sl)) eqn:E.
  - apply starts_with_app in E as [r Hr]. rewrite Hr in *.
    rewrite utf8_app_r in Hu by done.
    rewrite slice_from_suffix by done.
    rewrite <-str_drop_drop, str_drop_app.
    replace (starts_with (v +:+ "/") (v +:+ r)) with (starts_with "/" r).
    2:{ clear. induction v as [|c v IH]; cbn [String.append starts_with]; [done|].
        rewrite <-IH. by rewrite (proj2 (Ascii.eqb_eq c c)). }
    destruct r as [|b r]; [by rewrite str_app_nil_r in *|].
    rewrite str_len_app. cbn [String.length].
    destruct (Nat.ltb_spec (String.length v) (String.length v + S (String.length r))); [|lia].
    change (starts_with "/" (String b r)) with (Ascii.eqb "/" b && true).
    cbn -[Ascii.eqb]. rewrite (Ascii.eqb_sym b).
    destruct (Ascii.eqb "/" b); cbn; by eexists.
  - rewrite andb_false_r. exists None. split; [done|].
    destruct (starts_with (v +:+ "/") (txt sl)) eqn:E'; [|done].
    apply starts_with_app in E' as [r Hr].
    rewrite str_app_assoc in Hr. by rewrite Hr, (proj2 (starts_with_app v _)) in E by by eexists.
Qed.

Lemma match_parsed_spec {A} (parse : string → option A) cap path :
  utf8 (txt path) = true →
  ∃ r, match_parsed parse cap path = Ret r ∧
    (txt ∘ remain) <$> r =
      let '(x, y) := first_segment (txt path) in
      if negb (bool_decide (x = "")) && bool_decide (is_Some (parse x)) then Some y else None.
Proof.
  intros Hu. unfold match_parsed.
  destruct (strip_one_segment_spec path Hu) as (a & b & -> & -> & _); cbn.
  eexists; split; [done|]. case_bool_decide; [done|].
  by destruct (parse (txt a)).
Qed.

(** One node: no panic, and the remaining text is the reference's. *)
Lemma call_path_only_spec seg nc path full :
  utf8 (txt path) = true → seg_utf8 seg →
  ∃ r, call_path_only seg nc path full = Ret r ∧
    (txt ∘ remain) <$> r = seg_remain seg nc (txt path).
Proof.
  intros Hu Hs. destruct (strip_one_segment_spec path Hu) as (a & b & Ho & Hf & _).
  destruct seg; cbn -[first_segment match_static_segment parse_i32 parse_i64 parse_u32 parse_u64];
    try (by apply match_parsed_spec); rewrite ?Ho, ?Hf; cbn; try by eexists.
  - destruct (bool_decide (txt path = "/")); cbn; [by eexists|].
    destruct (_ && nc); by eexists.
  - destruct (match_static_spec value path Hu Hs) as (r & -> & <-). cbn.
    eexists; split; [done|]. by destruct r.
  - case_bool_decide; by eexists.
Qed.

(** ** Lemmas: captures *)

Lemma slice_range_suffix full s :
  suffix_of full s →
  ∃ p, txt full = p +:+ txt s ∧
    start (slice_range_of full s) = String.length p.
Proof.
  intros (p & Ht & Hp). exists p. split; [done|]. cbn. unfold saturating_sub.
  rewrite Hp. lia.
Qed.

(** A slice that starts where a suffix [x ++ y] of the path stands reads back
    its text. *)
Lemma captured_reads full s x y base :
  suffix_of full base → txt base = x +:+ y → ptr s = ptr base → txt s = x →
  utf8 (x +:+ y) = true → utf8 y = true →
  let r := slice_range_of full s in
  slice_range (txt full) (start r) (end_ r) = Ret x.
Proof.
  intros (p & Ht & Hp) Hb Hs Hx Hu Huy r. subst r. unfold slice_range_of, saturating_sub, slen.
  rewrite Ht, Hb, Hs, Hp, Hx. cbn [start end_].
  replace (Z.to_nat _) with (String.length p) by lia.
  by apply slice_range_mid.
Qed.

(** The empty literal reads back as the empty text when it lies below the
    path in memory. *)
Lemma captured_reads_literal full s :
  txt s = "" → (ptr s <= ptr full)%Z →
  let r := slice_range_of full s in
  slice_range (txt full) (start r) (end_ r) = Ret "".
Proof.
  intros Ht Hp r. subst r. unfold slice_range_of, saturating_sub, slen.
  rewrite Ht. cbn [start end_ String.length].
  by replace (Z.to_nat _) with 0%nat by lia.
Qed.

Lemma first_segment_reads full path a b :
  suffix_of full path → utf8 (txt path) = true →
  strip_one_segment path = Ret (a, b) → txt a ≠ "" ∨ (empty_lit <= ptr full)%Z →
  let r := slice_range_of full a in
  slice_range (txt full) (start r) (end_ r) = Ret (txt a).
Proof.
  intros Hs Hu Ho Ha.
  destruct (strip_one_segment_spec path Hu) as (a' & b' & Ho' & Hf & [->|Hp]);
    rewrite Ho in Ho'; simplify_eq.
  { destruct Ha as [?|Ha]; [done|]. by apply captured_reads_literal. }
  pose proof (strip_leading_slash_txt path) as Ht.
  apply strip_slash_utf8 in Hu.
  destruct (first_segment_split _ _ _ Hf) as [[Hb Hx]|Hx]; rewrite Hx in Ht, Hu.
  - apply (captured_reads full a' (txt a') "" (strip_leading_slash path));
      rewrite ?str_app_nil_r; try done. by apply strip_leading_slash_suffix.
  - apply (captured_reads full a' (txt a') (String "/" (txt b')) (strip_leading_slash path));
      try done; [by apply strip_leading_slash_suffix|].
    by destruct (utf8_ascii_split "/" (txt a') (txt b') eq_refl Hu) as [_ ?].
Qed.

Lemma trimmed_reads full path :
  suffix_of full path → utf8 (txt path) = true →
  let r := slice_range_of full (strip_leading_slash path) in
  slice_range (txt full) (start r) (end_ r) = Ret (strip_slash (txt path)).
Proof.
  intros Hs Hu. apply strip_slash_utf8 in Hu.
  apply (captured_reads full _ _ "" (strip_leading_slash path));
    rewrite ?str_app_nil_r, ?strip_leading_slash_txt; try done.
  by apply strip_leading_slash_suffix.
Qed.
Lemma match_parsed_inv {A} (parse : string → option A) cap path m :
  utf8 (txt path) = true → match_parsed parse cap path = Ret (Some m) →
  ∃ v, parse (fst (first_segment (txt path))) = Some v ∧ capture m = Some (cap v).
Proof.
  intros Hu. unfold match_parsed.
  destruct (strip_one_segment_spec path Hu) as (a & b & -> & -> & _); cbn.
  case_bool_decide; [done|]. destruct (parse (txt a)) as [v|]; [|done]. cbn.
  intros [= <-]. by exists v.
Qed.

Lemma param_bound req key v : path_params (set_path_params req key v) !! key = Some v.
Proof. apply lookup_insert_eq. Qed.

(** Segment and capture always agree. *)
Lemma bind_params_total seg nc path full req m source :
  utf8 (txt path) = true → call_path_only seg nc path full = Ret (Some m) →
  is_Some (bind_params seg req m source).
Proof.
  intros Hu. pose proof (strip_one_segment_spec path Hu) as (a & b & Ho & Hf & _).
  destruct seg; cbn -[match_parsed];
    try (intros (v & _ & ->)%match_parsed_inv; by eauto); try by eauto.
  - rewrite Ho. cbn. case_bool_decide; [done|]. intros [= <-]. cbn. by eauto.
  - rewrite Ho. cbn. intros [= <-]. cbn. by eauto.
  - rewrite Ho. cbn. intros [= <-]. cbn. by eauto.
Qed.

(** What a node that accepts binds: the same for every request, and what it
    reads back as. *)
Lemma bind_params_list seg nc path full m :
  suffix_of full path → utf8 (txt path) = true →
  call_path_only seg nc path full = Ret (Some m) →
  ∃ l, (∀ req, bind_params seg req m (txt full) =
               Some (foldl (λ r kp, set_path_params r kp.1 kp.2) req l)) ∧
    Forall2 (λ kp kv, kp.1 = kv.1 ∧
               (fst (first_segment (txt path)) ≠ "" ∨ (empty_lit <= ptr full)%Z →
                to_owned kp.2 = Ret kv.2))
      l (option_list (seg_param seg (txt path))).
Proof.
  intros Hs Hu. pose proof (strip_one_segment_spec path Hu) as (a & b & Ho & Hf & _).
  destruct seg; cbn -[first_segment match_parsed parse_i32 parse_i64 parse_u32 parse_u64];
    try (intros (v & Hv & Hc)%match_parsed_inv; [|done]; rewrite Hv, Hc; cbn;
         eexists [(_, _)]; split; [done|]; by repeat constructor).
  - intros _. by exists [].
  - intros _. by exists [].
  - rewrite Ho, Hf. cbn. case_bool_decide as Ha; [done|]. intros [= <-]; cbn.
    eexists [(_, _)]; split; [done|]. repeat constructor. intros _. cbn.
    unfold PathSlice_as_str; cbn [source range c_range CapturedStr_new].
    by rewrite (first_segment_reads full path a b) by auto.
  - rewrite Ho, Hf. cbn. intros [= <-]; cbn.
    eexists [(_, _)]; split; [done|]. repeat constructor. intros Hl. cbn.
    unfold PathSlice_as_str; cbn [source range c_range CapturedStr_new].
    rewrite (first_segment_reads full path a b); [done..|]. cbn in Hl. tauto.
  - rewrite Ho. cbn. intros [= <-]; cbn.
    eexists [(_, _)]; split; [done|]. repeat constructor. intros _. cbn.
    unfold PathSlice_as_str; cbn [source range c_range CapturedStr_new].
    by rewrite trimmed_reads.
Qed.

(** C4: A node that accepts a path always binds its parameter, under its own
    key only, and what the handler later reads through the borrowed range is
    exactly the matched text or number: the first segment, or for a full path
    everything after the slash.  Ranges never panic provided the compiler
    places the empty literal below the path buffer. *)
Theorem bind_params_reads_back seg nc path full req m :
  suffix_of full path → utf8 (txt path) = true → (empty_lit <= ptr full)%Z →
  call_path_only seg nc path full = Ret (Some m) →
  ∃ req', bind_params seg req m (txt full) = Some req' ∧
    match seg_param seg (txt path) with
    | None => req' = req
    | Some (key, v) => ∃ p, req' = set_path_params req key p ∧
        path_params req' !! key = Some p ∧ to_owned p = Ret v
    end.
Proof.
  intros Hs Hu Hl Ho. destruct (bind_params_list seg nc path full m Hs Hu Ho) as (l & Hb & Hr).
  rewrite Hb. eexists; split; [done|].
  destruct (seg_param seg (txt path)) as [[key v]|]; cbn in Hr.
  - apply Forall2_cons_inv_r in Hr as ([k c] & l' & [Hk Hc] & ->%Forall2_nil_inv_r & ->).
    cbn in *. subst k. exists c. split_and!; [done|apply param_bound|by auto].
  - by apply Forall2_nil_inv_r in Hr as ->.
Qed.

(** The range a [<key:path>] segment captures from an exhausted path is
    computed from the address of the literal [""], which is no part of the
    path: if the compiler places that literal above the end of the path
    buffer, reading the parameter panics. *)
Theorem empty_path_capture_panics key nc path full req m :
  txt path = "" → (ptr full + Z.of_nat (slen full) < empty_lit)%Z →
  call_path_only (SegPath key) nc path full = Ret (Some m) →
  ∃ req', bind_params (SegPath key) req m (txt full) = Some req' ∧
    get_path_params try_String req' key = Panic.
Proof.
  intros Ht Hl. cbn. unfold strip_one_segment. rewrite strip_leading_slash_txt, Ht. cbn.
  intros [= <-]; cbn. eexists; split; [done|].
  unfold get_path_params. rewrite param_bound. cbn.
  unfold PathSlice_as_str, slice_range, slice_range_of, saturating_sub, slen in *.
  cbn [source range c_range CapturedStr_new start end_ txt lit_empty String.length ptr].
  set (i := Z.to_nat _).
  assert (String.length (txt full) < i)%nat as Hi by lia.
  assert (is_char_boundary (txt full) i = false) as ->; [|by rewrite andb_false_r].
  unfold is_char_boundary. destruct i as [|i]; [lia|].
  assert (str_drop (S i) (txt full) = "") as ->; [|apply Nat.eqb_neq; lia].
  apply str_len_0. rewrite str_drop_len. lia.
Qed.
End seg.

(** ** Witnesses *)

Lemma bind_params_reads_back_witness :
  let full := mkSlice 4096 "/users/42/x" in
  let path := mkSlice 4103 "42/x" in
  let m := mkMatch (P := Demo) (mkSlice 4106 "x") (Some (CapI64 42)) in
  ∃ req', bind_params (P := Demo) (SegI64 "id") Request_empty m (txt full) = Some req' ∧
  ∃ p, req' = set_path_params Request_empty "id" p ∧
    path_params req' !! "id" = Some p ∧ to_owned p = Ret (PInt64 42).
Proof.
  intros full path m.
  apply (bind_params_reads_back (P := Demo) (SegI64 "id") true path full Request_empty m).
  - by exists "/users/".
  - reflexivity.
  - cbn; lia.
  - reflexivity.
Defined.

Lemma empty_path_capture_panics_witness :
  let full := mkSlice 4096 "/" in
  let path := mkSlice 4097 "" in
  ∃ req', bind_params (P := DemoAt 8192) (SegPath "p") Request_empty
      (mkMatch (P := DemoAt 8192) (mkSlice 8192 "")
         (Some (CapPath (mkCaptured (mkRange 4096 4096)))))
      (txt full) = Some req' ∧
    get_path_params try_String req' "p" = Panic.
Proof.
  intros full path.
  apply (empty_path_capture_panics (P := DemoAt 8192) "p" true path full Request_empty).
  - reflexivity.
  - cbn; lia.
  - reflexivity.
Defined.
