(* ===== verification/RouteTree.v ===== *)
(** * The route tree (silent/src/route/route_tree.rs)

    Dispatch descends the tree with a lookahead: a child is entered only if
    its subtree can consume the whole path.  Middlewares wrap the rest of the
    descent at every node. *)

From S2P Require Import Prelude Str Platform State Error PathParam Body Message Next RouteSeg.

Set Warnings "-register-all".

Section tree.
Context {P : Platform}.

Inductive RouteTree := mkRouteTree {
  children : list RouteTree;
  rt_handler : gmap Method Handler;
  rt_middlewares : list MiddleWare;
  static_children : gmap string nat;
  dynamic_children : list nat;
  middleware_start : nat;
  rt_state : option State;
  segment : SpecialSeg;
  has_handler : bool;
  self_arc : option RouteTree;
}.

(** [freeze]: every node keeps a shared copy of itself (without the copy's
    own [self_arc]) for the continuations of its middlewares. *)
Fixpoint freeze (t : RouteTree) : RouteTree :=
  let children := map freeze (children t) in
  let arc := mkRouteTree children (rt_handler t) (rt_middlewares t) (static_children t)
    (dynamic_children t) (middleware_start t) (rt_state t) (segment t) (has_handler t) None in
  mkRouteTree children (rt_handler t) (rt_middlewares t) (static_children t)
    (dynamic_children t) (middleware_start t) (rt_state t) (segment t) (has_handler t)
    (Some arc).

Definition not_found_error : SilentError := NotFound.

Definition tree_path_only (t : RouteTree) (path full_path : Slice)
  : outcome (option PathMatch) :=
  call_path_only (segment t) (bool_decide (length (children t) = 0%nat)) path full_path.

(** The children worth trying for the rest of a path: the indexed static
    child and the dynamic ones; every child when nothing remains. *)
Definition candidate_indices (t : RouteTree) (remain_slice : Slice) : outcome (list nat) :=
  if bool_decide (txt remain_slice = "")
  then mret (hash_order (static_children t) ++ dynamic_children t)%list
  else
    '(segment, _) ← strip_one_segment remain_slice;
    mret (match static_children t !! txt segment with
          | Some idx => [idx]
          | None => []
          end ++ dynamic_children t)%list.

(** The loop of [path_can_resolve] over the candidates; [calls] pairs every
    child with its own lookahead. *)
Fixpoint resolve_any (calls : list (RouteTree * (nat → outcome bool))) (remain full_path : Slice)
    (cands : list nat) : outcome bool :=
  match cands with
  | [] => mret false
  | idx :: rest =>
      '(child, path_can_resolve) ← index calls idx;
      c ← tree_path_only child remain full_path;
      match c with
      | Some candidate =>
          next_offset ← remain_offset full_path (RouteSeg.remain candidate);
          b ← path_can_resolve next_offset;
          if b : bool then mret true else resolve_any calls remain full_path rest
      | None => resolve_any calls remain full_path rest
      end
  end.

Fixpoint path_can_resolve (t : RouteTree) (full_path : Slice) (offset : nat) : outcome bool :=
  let calls := map (λ child, (child, path_can_resolve child full_path)) (children t) in
  remain ← sub_from full_path offset;
  cands ← candidate_indices t remain;
  b ← resolve_any calls remain full_path cands;
  mret (b || (bool_decide (txt remain = "") || is_full_path (segment t))).

Definition enter_state (t : RouteTree) (req : Request) : Request :=
  match rt_state t with
  | Some st => set_state req (State_extend_from (req_state req) st)
  | None => req
  end.

(** [call_with_path]: [direct] is [self.call_children], [continuation] is the
    [ContinuationHandler] over the frozen copy (or over a clone). *)
Definition call_with_path_by (t : RouteTree)
    (direct continuation : nat → Request → M World (SilentResult Response))
    (offset : nat) (req : Request) : M World (SilentResult Response) :=
  let req := enter_state t req in
  if (length (rt_middlewares t) <? middleware_start t)%nat then M_lift Panic
  else
    let middleware_slice := drop (middleware_start t) (rt_middlewares t) in
    match middleware_slice with
    | [] => direct offset req
    | _ => Next_call (Next_build (continuation offset) middleware_slice) req
    end.

Definition call_handler (t : RouteTree) : Handler := HandlerMap_call (rt_handler t).

(** After the loop of [call_children]: no child takes the request. *)
Definition call_here (t : RouteTree) (remain : Slice) : Handler := λ req,
  if bool_decide (txt remain = "") then
    if has_handler t then call_handler t req else mret (Err not_found_error)
  else if is_full_path (segment t) && has_handler t then call_handler t req
  else mret (Err not_found_error).

(** The loop of [call_children]; [calls] pairs every child with its
    [call_with_path]. *)
Fixpoint dispatch_any
    (calls : list (RouteTree * (nat → Request → M World (SilentResult Response))))
    (here : Handler) (remain full_path : Slice) (cands : list nat) (req : Request)
  : M World (SilentResult Response) :=
  match cands with
  | [] => here req
  | idx :: rest =>
      '(child, call_with_path) ← M_lift (index calls idx);
      c ← M_lift (tree_path_only child remain full_path);
      match c with
      | Some candidate =>
          next_offset ← M_lift (remain_offset full_path (RouteSeg.remain candidate));
          b ← M_lift (path_can_resolve child full_path next_offset);
          if b : bool then
            match bind_params (segment child) req candidate (txt full_path) with
            | Some real_req => call_with_path next_offset real_req
            | None => mret (Err not_found_error)
            end
          else dispatch_any calls here remain full_path rest req
      | None => dispatch_any calls here remain full_path rest req
      end
  end.

Fixpoint call_children (t : RouteTree) (full_path : Slice) (offset : nat) (req : Request)
  : M World (SilentResult Response) :=
  let calls := map (λ child, (child,
    call_with_path_by child (call_children child full_path)
      (match self_arc child with
       | Some arc => call_children arc full_path
       | None => call_children child full_path
       end))) (children t) in
  remain ← M_lift (sub_from full_path offset);
  cands ← M_lift (candidate_indices t remain);
  dispatch_any calls (call_here t remain) remain full_path cands req.

Definition ContinuationHandler_call (node : RouteTree) (full_path : Slice) (offset : nat)
  : Handler := call_children node full_path offset.

Definition node_arc (t : RouteTree) : RouteTree :=
  match self_arc t with Some arc => arc | None => t end.

Definition call_with_path (t : RouteTree) (full_path : Slice) (offset : nat) (req : Request)
  : M World (SilentResult Response) :=
  call_with_path_by t (call_children t full_path)
    (ContinuationHandler_call (node_arc t) full_path) offset req.

(** [<RouteTree as Handler>::call]; [addr] is where the allocator puts the
    copy of the path. *)
Definition RouteTree_call (addr : Z) (t : RouteTree) : Handler := λ req,
  let req := match rt_state t with Some st => set_state req st | None => req end in
  let full_path := mkSlice addr (uri_path (uri req)) in
  let req := set_path_source req (txt full_path) in
  c ← M_lift (tree_path_only t full_path full_path);
  match c with
  | None => mret (Err not_found_error)
  | Some candidate =>
      match bind_params (segment t) req candidate (txt full_path) with
      | None => mret (Err not_found_error)
      | Some req =>
          offset ← M_lift (remain_offset full_path (RouteSeg.remain candidate));
          call_with_path t full_path offset req
      end
  end.

(** ** Well-formed trees *)

Definition without_arc (t : RouteTree) : RouteTree :=
  mkRouteTree (children t) (rt_handler t) (rt_middlewares t) (static_children t)
    (dynamic_children t) (middleware_start t) (rt_state t) (segment t) (has_handler t) None.

Inductive tree_ok : RouteTree → Prop := TreeOk t :
  map_Forall (λ _ i, (i < length (children t))%nat) (static_children t) →
  Forall (λ i, (i < length (children t))%nat) (dynamic_children t) →
  (middleware_start t ≤ length (rt_middlewares t))%nat →
  seg_utf8 (segment t) →
  (self_arc t = None ∨ self_arc t = Some (without_arc t)) →
  Forall tree_ok (children t) →
  tree_ok t.

Inductive no_arcs : RouteTree → Prop := NoArcs t :
  self_arc t = None → Forall no_arcs (children t) → no_arcs t.

(** ** Reference: one depth-first search

    The trail is the list of nodes below the root that the request visits. *)

Definition childless (t : RouteTree) : bool := bool_decide (length (children t) = 0%nat).

Definition cands_of (t : RouteTree) (s : string) : list nat :=
  if bool_decide (s = "") then (hash_order (static_children t) ++ dynamic_children t)%list
  else (match static_children t !! fst (first_segment s) with
        | Some idx => [idx]
        | None => []
        end ++ dynamic_children t)%list.

Definition node_remain (t : RouteTree) (s : string) : option string :=
  seg_remain (segment t) (childless t) s.

Fixpoint first_trail (kids : list (RouteTree * (string → option (list RouteTree))))
    (s : string) (cands : list nat) : option (list RouteTree) :=
  match cands with
  | [] => None
  | i :: rest =>
      match (match kids !! i with
             | Some (c, dfs) => node_remain c s ≫= λ r, cons c <$> dfs r
             | None => None
             end) with
      | Some trail => Some trail
      | None => first_trail kids s rest
      end
  end.

(** A node accepts when a child does, when nothing remains, or when it is a
    full path. *)
Fixpoint dfs (t : RouteTree) (s : string) : option (list RouteTree) :=
  match first_trail (map (λ c, (c, dfs c)) (children t)) s (cands_of t s) with
  | Some trail => Some trail
  | None => if bool_decide (s = "") || is_full_path (segment t) then Some [] else None
  end.

Definition trail_below (t : RouteTree) (s : string) : list RouteTree :=
  default [] (first_trail (map (λ c, (c, dfs c)) (children t)) s (cands_of t s)).

(** The child index of a node: every static child is under its own, slash
    free name and every other child is listed as dynamic. *)
Definition index_ok (t : RouteTree) : Prop :=
  ∀ i c, children t !! i = Some c →
    match segment c with
    | SegStatic v => v ≠ "" ∧ str_contains_char "/" v = false ∧
                     static_children t !! v = Some i
    | _ => i ∈ dynamic_children t
    end.

Inductive indexed : RouteTree → Prop := Indexed t :
  index_ok t → Forall indexed (children t) → indexed t.

(** A walk down the tree that consumes the rest of a path, through any
    children whatsoever. *)
Inductive Consumes : RouteTree → string → list RouteTree → Prop :=
| Consumes_end t s :
    s = "" ∨ is_full_path (segment t) = true → Consumes t s []
| Consumes_step t s c r trail :
    c ∈ children t → node_remain c s = Some r → Consumes c r trail →
    Consumes t s (c :: trail).

(** The rest [s] of the path as a slice of it. *)
Definition slice_at (full : Slice) (s : string) : Slice :=
  mkSlice (ptr full + Z.of_nat (slen full - String.length s)) s.

Definition bind_node (full : Slice) (t : RouteTree) (s : string) (req : Request) : Request :=
  match tree_path_only t (slice_at full s) full with
  | Ret (Some m) => default req (bind_params (segment t) req m (txt full))
  | _ => req
  end.

Definition node_middlewares (t : RouteTree) : list MiddleWare :=
  drop (middleware_start t) (rt_middlewares t).

(** Walk a trail: at each node bind the parameter, merge the node's state and
    wrap the rest of the walk in the node's own middlewares. *)
Fixpoint run_trail (full : Slice) (t : RouteTree) (s : string) (trail : list RouteTree)
  : Handler :=
  match trail with
  | [] => call_here t (slice_at full s)
  | c :: rest => λ req,
      onion (node_middlewares c) (run_trail full c (default "" (node_remain c s)) rest)
        (enter_state c (bind_node full c s req))
  end.

(** ** Lemmas *)

Fixpoint RouteTree_children_ind (Q : RouteTree → Prop)
    (H : ∀ t, Forall Q (children t) → Q t) (t : RouteTree) : Q t :=
  H t ((fix go l : Forall Q l :=
          match l with
          | [] => Forall_nil_2 Q
          | c :: l => Forall_cons_2 Q c l (RouteTree_children_ind Q H c) (go l)
          end) (children t)).

Lemma call_children_without_arc t : call_children (without_arc t) = call_children t.
Proof. by destruct t. Qed.

Context {L : PlatformLaws P}.

Lemma slice_at_suffix full p s :
  txt full = p +:+ s → suffix_of full (slice_at full s).
Proof.
  intros H. exists p. split; [done|]. unfold slice_at, slen; cbn.
  rewrite H, str_len_app. lia.
Qed.

Lemma sub_from_at full p s :
  txt full = p +:+ s → utf8 s = true →
  sub_from full (String.length p) = Ret (slice_at full s).
Proof.
  intros H Hu. unfold sub_from, slice_at, slen. rewrite H, slice_from_suffix by done.
  rewrite str_len_app. cbn. do 3 f_equal. lia.
Qed.

Lemma candidate_indices_spec t full s :
  utf8 s = true → candidate_indices t (slice_at full s) = Ret (cands_of t s).
Proof.
  intros Hu. unfold candidate_indices, cands_of. cbn [txt slice_at].
  case_bool_decide; [done|].
  destruct (strip_one_segment_spec (slice_at full s) Hu) as (a & b & -> & Hf & _).
  cbn [txt slice_at] in Hf. by rewrite Hf.
Qed.

Lemma cands_in_range t s i :
  tree_ok t → i ∈ cands_of t s → (i < length (children t))%nat.
Proof.
  intros [? Hs Hd _ _ _ _]. rewrite Forall_forall in Hd. unfold cands_of.
  case_bool_decide; rewrite elem_of_app.
  - intros [Hi|Hi]; [|by apply Hd]. rewrite hash_order_perm in Hi.
    apply list_elem_of_fmap in Hi as ([k j] & -> & Hi). apply elem_of_map_to_list in Hi.
    by apply (Hs k).
  - intros [Hi|Hi]; [|by apply Hd]. destruct (_ !! _) as [j|] eqn:E; [|by apply not_elem_of_nil in Hi].
    apply list_elem_of_singleton in Hi as ->. by eapply Hs.
Qed.

(** Matching one child against the rest of the path. *)
Lemma tree_path_only_spec t full p s :
  txt full = p +:+ s → utf8 s = true → seg_utf8 (segment t) →
  ∃ r, tree_path_only t (slice_at full s) full = Ret r ∧
    match r with
    | None => node_remain t s = None
    | Some m => ∃ q, node_remain t s = Some (txt (remain m)) ∧
        txt full = q +:+ txt (remain m) ∧ remain_offset full (remain m) = Ret (String.length q)
    end.
Proof.
  intros Hp Hu Hs. unfold tree_path_only.
  destruct (call_path_only_spec (segment t) (childless t) (slice_at full s) full Hu Hs)
    as (r & Hr & Ht).
  exists r. split; [done|]. unfold node_remain. cbn [txt slice_at] in Ht. rewrite <-Ht.
  destruct r as [m|]; [|done]. symmetry in Ht. cbn in Ht.
  destruct (seg_remain_suffix _ _ _ _ Ht) as [q Hq]. rewrite Hq in Hp.
  exists (p +:+ q). split_and!; [done|by rewrite str_app_assoc|].
  unfold remain_offset, slen. rewrite Hp, !str_len_app.
  destruct (Nat.leb_spec (String.length (txt (remain m)))
    (String.length p + (String.length q + String.length (txt (remain m))))); [|lia].
  f_equal. lia.
Qed.
Lemma node_remain_utf8 t s r :
  utf8 s = true → seg_utf8 (segment t) → node_remain t s = Some r → utf8 r = true.
Proof. apply seg_remain_utf8. Qed.

Lemma first_trail_None kids s cands :
  (∀ i, i ∈ cands → match kids !! i with
     | Some (c, dfs) => ∀ r, node_remain c s = Some r → dfs r = None
     | None => True end) →
  first_trail kids s cands = None.
Proof.
  induction cands as [|i cands IH]; intros H; [done|]. cbn.
  pose proof (H i ltac:(left)) as Hi. rewrite IH by (intros; apply H; by right).
  destruct (kids !! i) as [[c d]|]; [|done].
  destruct (node_remain c s) as [r|]; [|done]. cbn. by rewrite (Hi r).
Qed.

(** The lookahead computes whether the search succeeds. *)
Lemma resolve_any_spec full p s kids cands :
  txt full = p +:+ s → utf8 s = true →
  Forall (λ c, tree_ok c ∧ ∀ p s, txt full = p +:+ s → utf8 s = true →
    path_can_resolve c full (String.length p) = Ret (bool_decide (is_Some (dfs c s)))) kids →
  Forall (λ i, (i < length kids)%nat) cands →
  resolve_any (map (λ c, (c, path_can_resolve c full)) kids) (slice_at full s) full cands =
  Ret (bool_decide (is_Some (first_trail (map (λ c, (c, dfs c)) kids) s cands))).
Proof.
  intros Hp Hu Hk. induction 1 as [|i cands Hi Hc IH]; [done|]. cbn.
  destruct (lookup_lt_is_Some_2 kids i Hi) as [c Hci].
  unfold index. rewrite !list_lookup_fmap, Hci. cbn.
  rewrite Forall_forall in Hk. destruct (Hk c) as [Hok Hres].
  { by eapply list_elem_of_lookup_2. }
  destruct Hok as [c ???? Hseg ?].
  destruct (tree_path_only_spec c full p s Hp Hu ltac:(done)) as ([m|] & -> & Hm); cbn.
  - destruct Hm as (q & Hm & Hq & ->). cbn. rewrite Hm. cbn.
    rewrite (Hres q (txt (remain m))) by (done || by eapply node_remain_utf8).
    cbn. destruct (dfs c (txt (remain m))); cbn; done.
  - rewrite Hm. cbn. apply IH.
Qed.
Lemma cands_Forall t s :
  tree_ok t → Forall (λ i, (i < length (children t))%nat) (cands_of t s).
Proof. intros H. apply Forall_forall. intros i. by apply cands_in_range. Qed.

Lemma path_can_resolve_spec full t :
  tree_ok t → ∀ p s, txt full = p +:+ s → utf8 s = true →
  path_can_resolve t full (String.length p) = Ret (bool_decide (is_Some (dfs t s))).
Proof.
  induction t as [t IH] using RouteTree_children_ind. intros Hok p s Hp Hu.
  assert (Forall tree_ok (children t)) as Hkids by by destruct Hok.
  destruct t as [kids]; cbn in *.
  rewrite (sub_from_at full p s) by done. cbn. rewrite candidate_indices_spec by done. cbn.
  rewrite (resolve_any_spec full p s kids); [|done..| |by apply (cands_Forall _ s Hok)].
  - cbn. destruct (first_trail _ _ _); cbn; [done|]. by destruct (_ || _).
  - rewrite Forall_forall in *. intros c Hc. split; [by apply Hkids|]. by apply IH; auto.
Qed.

Lemma dispatch_any_spec full p s kids (call : RouteTree → _) here cands req :
  txt full = p +:+ s → utf8 s = true → Forall tree_ok kids →
  Forall (λ i, (i < length kids)%nat) cands →
  (∀ c p s trail, c ∈ kids → txt full = p +:+ s → utf8 s = true →
    dfs c s = Some trail →
    ∀ req, call c (String.length p) req =
      onion (node_middlewares c) (run_trail full c s trail) (enter_state c req)) →
  dispatch_any (map (λ c, (c, call c)) kids) here (slice_at full s) full cands req =
  match first_trail (map (λ c, (c, dfs c)) kids) s cands with
  | Some (c :: rest) =>
      onion (node_middlewares c) (run_trail full c (default "" (node_remain c s)) rest)
        (enter_state c (bind_node full c s req))
  | _ => here req
  end.
Proof.
  intros Hp Hu Hk Hc Hcall. induction Hc as [|i cands Hi Hc IH]; [done|]. cbn.
  destruct (lookup_lt_is_Some_2 kids i Hi) as [c Hci].
  assert (c ∈ kids) as Hin by by eapply list_elem_of_lookup_2.
  assert (tree_ok c) as Hok by by eapply Forall_forall in Hk.
  unfold index. rewrite !list_lookup_fmap, Hci. cbn.
  assert (seg_utf8 (segment c)) as Hseg by by destruct Hok.
  destruct (tree_path_only_spec c full p s Hp Hu Hseg) as (o & Ho & Hm).
  rewrite M_lift_ret, Ho. autorewrite with silent. destruct o as [m|].
  - destruct Hm as (q & Hm & Hq & ->). autorewrite with silent.
    assert (utf8 (txt (remain m)) = true) by by eapply node_remain_utf8.
    rewrite (path_can_resolve_spec full c Hok q (txt (remain m))) by done.
    autorewrite with silent. rewrite Hm. cbn.
    destruct (dfs c (txt (remain m))) as [trail|] eqn:Hd; cbn; [|apply IH].
    destruct (bind_params_total _ _ (slice_at full s) full req m (txt full) Hu Ho) as [req' Hb].
    rewrite Hb, Hm. cbn. rewrite (Hcall c q (txt (remain m)) trail) by done.
    unfold bind_node. by rewrite Ho, Hb.
  - rewrite Hm. cbn. apply IH.
Qed.

Lemma call_children_unfold t full offset req :
  call_children t full offset req =
  (remain ← M_lift (sub_from full offset);
   cands ← M_lift (candidate_indices t remain);
   dispatch_any (map (λ c, (c, call_with_path c full)) (children t)) (call_here t remain)
     remain full cands req).
Proof.
  destruct t as [kids]; cbn [children call_children].
  assert (map (λ child, (child, call_with_path_by child (call_children child full)
    (match self_arc child with
     | Some arc => call_children arc full
     | None => call_children child full
     end))) kids = map (λ c, (c, call_with_path c full)) kids) as Hm; [|by rewrite Hm].
  apply map_ext; intros c. unfold call_with_path, node_arc, ContinuationHandler_call.
  by destruct (self_arc c).
Qed.

(** The trail of a successful search from a node is the trail below it. *)
Lemma dfs_trail_below t s trail : dfs t s = Some trail → trail = trail_below t s.
Proof.
  unfold trail_below. destruct t; cbn. destruct (first_trail _ _ _); cbn; [congruence|].
  destruct (_ || _); congruence.
Qed.

Lemma node_arc_children t : tree_ok t → call_children (node_arc t) = call_children t.
Proof.
  unfold node_arc. intros [? _ _ _ _ [->| ->] _]; [done|]. apply call_children_without_arc.
Qed.

Lemma call_with_path_spec full t p s :
  tree_ok t →
  (∀ req, call_children t full (String.length p) req =
          run_trail full t s (trail_below t s) req) →
  ∀ req, call_with_path t full (String.length p) req =
    onion (node_middlewares t) (run_trail full t s (trail_below t s)) (enter_state t req).
Proof.
  intros Hok Hc req. unfold call_with_path, call_with_path_by, ContinuationHandler_call.
  rewrite node_arc_children by done.
  assert (call_children t full (String.length p) = run_trail full t s (trail_below t s)) as ->
    by by apply functional_extensionality.
  assert (middleware_start t ≤ length (rt_middlewares t))%nat by by destruct Hok.
  destruct (Nat.ltb_spec (length (rt_middlewares t)) (middleware_start t)); [lia|].
  unfold node_middlewares. destruct (drop _ _) as [|mw mws] eqn:E; [done|].
  by rewrite Next_build_call.
Qed.

Lemma call_children_spec full t :
  tree_ok t → ∀ p s req, txt full = p +:+ s → utf8 s = true →
  call_children t full (String.length p) req = run_trail full t s (trail_below t s) req.
Proof.
  induction t as [t IH] using RouteTree_children_ind. intros Hok p s req Hp Hu.
  assert (Forall tree_ok (children t)) as Hkids by by destruct Hok.
  unfold trail_below. rewrite call_children_unfold.
  rewrite (sub_from_at full p s) by done. autorewrite with silent.
  rewrite candidate_indices_spec by done. autorewrite with silent.
  rewrite (dispatch_any_spec full p s (children t)); [|done..| |].
  - by destruct (first_trail _ _ _) as [[|c rest]|].
  - by apply cands_Forall.
  - rewrite !Forall_forall in *. intros c p' s' trail Hc Hp' Hu' Hd req'.
    rewrite (dfs_trail_below _ _ _ Hd).
    apply call_with_path_spec; [by apply Hkids|]. intros. by apply IH; auto.
Qed.
(** ** The search *)

Lemma split_once_no_char c v r :
  str_contains_char c v = false →
  split_once c v = (v, None) ∧ split_once c (v +:+ String c r) = (v, Some r).
Proof.
  induction v as [|b v IH]; cbn.
  - intros _. by rewrite (proj2 (Ascii.eqb_eq c c)).
  - intros [Hb Hv]%orb_false_iff. rewrite Hb. by destruct (IH Hv) as [-> ->].
Qed.

Lemma static_remain_first v s r :
  v ≠ "" → str_contains_char "/" v = false → static_remain v s = Some r →
  fst (first_segment s) = v.
Proof.
  intros Hne Hv. unfold static_remain, first_segment. rewrite bool_decide_eq_false_2 by done.
  case_bool_decide as Hs.
  - rewrite Hs. by destruct (split_once_no_char "/" v "" Hv) as [-> _].
  - destruct (starts_with _ _) eqn:E; [|done]. intros _.
    apply starts_with_app in E as [q ->]. rewrite str_app_assoc. cbn.
    by destruct (split_once_no_char "/" v q Hv) as [_ ->].
Qed.

(** No child that could match is missed by the candidate list. *)
Lemma candidates_complete t s i c r :
  index_ok t → children t !! i = Some c → node_remain c s = Some r → i ∈ cands_of t s.
Proof.
  intros Hi Hc Hr. specialize (Hi i c Hc). unfold cands_of, node_remain in *.
  case_bool_decide; apply elem_of_app; destruct (segment c) eqn:Es; auto.
  - destruct Hi as (_ & _ & Hi). left. rewrite hash_order_perm.
    apply list_elem_of_fmap. exists (value, i). split; [done|].
    by apply elem_of_map_to_list.
  - destruct Hi as (Hv & Hs & Hi). left.
    rewrite (static_remain_first value s r) by done. rewrite Hi. by left.
Qed.

Lemma first_trail_Some kids s cands trail :
  first_trail kids s cands = Some trail →
  ∃ i c d r rest, i ∈ cands ∧ kids !! i = Some (c, d) ∧ node_remain c s = Some r ∧
    d r = Some rest ∧ trail = c :: rest.
Proof.
  induction cands as [|i cands IH]; [done|]. cbn.
  destruct (kids !! i) as [[c d]|] eqn:Ei.
  2:{ intros (j & c & d & r & rest & Hj & H)%IH. exists j, c, d, r, rest. split; [by right|done]. }
  destruct (node_remain c s) as [r|] eqn:Er; cbn; [destruct (d r) as [rest|] eqn:Ed; cbn|].
  { intros [= <-]. exists i, c, d, r, rest. split; [by left|done]. }
  all: intros (j & c' & d' & r' & rest & Hj & H)%IH; exists j, c', d', r', rest;
    split; [by right|done].
Qed.

Lemma lookup_kids {A} (f : RouteTree → A) kids i c d :
  map (λ c, (c, f c)) kids !! i = Some (c, d) → c ∈ kids ∧ d = f c.
Proof.
  rewrite list_lookup_fmap. destruct (kids !! i) as [c'|] eqn:E; [|done]. cbn.
  intros [= <- <-]. split; [by eapply list_elem_of_lookup_2|done].
Qed.

Lemma dfs_unfold t s :
  dfs t s =
  match first_trail (map (λ c, (c, dfs c)) (children t)) s (cands_of t s) with
  | Some trail => Some trail
  | None => if bool_decide (s = "") || is_full_path (segment t) then Some [] else None
  end.
Proof. by destruct t. Qed.

Lemma dfs_sound t : ∀ s trail, dfs t s = Some trail → Consumes t s trail.
Proof.
  induction t as [t IH] using RouteTree_children_ind. intros s trail. rewrite dfs_unfold.
  destruct (first_trail _ _ _) eqn:E.
  - intros [= <-]. destruct (first_trail_Some _ _ _ _ E)
      as (i & c & d & r & rest & _ & [Hc ->]%lookup_kids & Hr & Hd & ->).
    econstructor; [done..|]. rewrite Forall_forall in IH. by apply IH.
  - destruct (bool_decide (s = "")) eqn:Es; cbn.
    + intros [= <-]. constructor. left. by apply bool_decide_eq_true in Es.
    + destruct (is_full_path _) eqn:Ef; [|done]. intros [= <-]. constructor. by right.
Qed.

Lemma first_trail_None_inv kids s cands i c d r :
  first_trail kids s cands = None → i ∈ cands → kids !! i = Some (c, d) → node_remain c s = Some r →
  d r = None.
Proof.
  intros E Hin Hi Hr. induction cands as [|j cands IH]; [by apply elem_of_nil in Hin|]. cbn in E.
  apply elem_of_cons in Hin as [->|Hin].
  - rewrite Hi in E. rewrite Hr in E. cbn in E. by destruct (d r).
  - apply IH; [|done]. by destruct (match _ with Some _ => _ | None => None end) in E.
Qed.

(** A failed search tried every child that could go on. *)
Lemma search_failed t s c r :
  indexed t → first_trail (map (λ c, (c, dfs c)) (children t)) s (cands_of t s) = None →
  c ∈ children t → node_remain c s = Some r → dfs c r = None.
Proof.
  intros Hi E [i Hc]%list_elem_of_lookup_1 Hr. destruct Hi as [t Hi _].
  apply (first_trail_None_inv _ s _ i c (dfs c) r E); [|by rewrite list_lookup_fmap, Hc|done].
  by eapply candidates_complete.
Qed.

Lemma dfs_complete t s trail : indexed t → Consumes t s trail → is_Some (dfs t s).
Proof.
  intros Hi. induction 1 as [t s Hs|t s c r trail Hc Hr _ IH]; rewrite dfs_unfold.
  - destruct (first_trail _ _ _); [by eexists|].
    destruct Hs as [->| ->]; cbn; [by eexists|]. rewrite orb_true_r. by eexists.
  - destruct (first_trail _ _ _) eqn:E; [by eexists|]. exfalso.
    pose proof (search_failed t s c r Hi E Hc Hr) as Hd. destruct Hi as [t _ Hk].
    rewrite Forall_forall in Hk. destruct (IH (Hk c Hc)) as [? ?]. congruence.
Qed.
(** ** Freezing *)

Lemma tree_path_only_freeze t : tree_path_only (freeze t) = tree_path_only t.
Proof. destruct t. unfold tree_path_only. cbn. by rewrite length_map. Qed.

Lemma resolve_any_freeze full remain kids cands :
  Forall (λ c, path_can_resolve (freeze c) full = path_can_resolve c full) kids →
  resolve_any (map (λ c, (c, path_can_resolve c full)) (map freeze kids)) remain full cands =
  resolve_any (map (λ c, (c, path_can_resolve c full)) kids) remain full cands.
Proof.
  intros Hk. induction cands as [|i cands IH]; [done|]. cbn. unfold index.
  rewrite !list_lookup_fmap. destruct (kids !! i) as [c|] eqn:E; [|done]. cbn.
  assert (path_can_resolve (freeze c) full = path_can_resolve c full) as ->
    by (eapply (Forall_lookup_1 _ _ _ _ Hk E)).
  by rewrite tree_path_only_freeze, IH.
Qed.

Lemma path_can_resolve_freeze full t : path_can_resolve (freeze t) full = path_can_resolve t full.
Proof.
  induction t as [t IH] using RouteTree_children_ind.
  apply functional_extensionality; intros offset. destruct t as [kids]; cbn in *.
  destruct (sub_from full offset) as [remain|]; [|done]; cbn.
  destruct (candidate_indices _ remain) as [cands|]; [|done]; cbn.
  by rewrite resolve_any_freeze.
Qed.

Lemma call_with_path_ext t t' full :
  call_children t full = call_children t' full →
  call_children (node_arc t) full = call_children t full →
  call_children (node_arc t') full = call_children t' full →
  enter_state t = enter_state t' → rt_middlewares t = rt_middlewares t' →
  middleware_start t = middleware_start t' →
  call_with_path t full = call_with_path t' full.
Proof.
  intros Hc Ht Ht' He Hm Hs. fext. unfold call_with_path, call_with_path_by, ContinuationHandler_call.
  by rewrite Ht, Ht', Hc, He, Hm, Hs.
Qed.

Lemma no_arcs_inv t : no_arcs t → self_arc t = None ∧ Forall no_arcs (children t).
Proof. by destruct 1. Qed.

Lemma call_children_freeze full t :
  no_arcs t → call_children (freeze t) full = call_children t full.
Proof.
  induction t as [t IH] using RouteTree_children_ind. intros [Harc Hna]%no_arcs_inv.
  fext. rewrite !call_children_unfold.
  match goal with |- context [M_lift (sub_from full ?o)] =>
    destruct (sub_from full o) as [remain|] end; [|done].
  autorewrite with silent.
  replace (candidate_indices (freeze t) remain) with (candidate_indices t remain)
    by by destruct t.
  destruct (candidate_indices t remain) as [cands|]; [|done]. autorewrite with silent.
  replace (call_here (freeze t) remain) with (call_here t remain) by by destruct t.
  assert (children (freeze t) = map freeze (children t)) as -> by by destruct t.
  match goal with |- ?f ?w = ?g ?w => cut (f = g); [by intros ->|] end.
  induction cands as [|i cands IHc]; [done|]. cbn [dispatch_any]. unfold index.
  rewrite !list_lookup_fmap. destruct (children t !! i) as [c|] eqn:E; [|done].
  cbn [fmap option_fmap option_map unwrap].
  rewrite !M_lift_ret, tree_path_only_freeze, path_can_resolve_freeze, IHc.
  assert (call_with_path (freeze c) full = call_with_path c full) as ->; [|by destruct c].
  pose proof (Forall_lookup_1 _ _ _ _ Hna E) as Hc.
  pose proof (Forall_lookup_1 _ _ _ _ IH E Hc) as IHx.
  apply call_with_path_ext; [done|by destruct c| |by destruct c..].
  destruct Hc as [c Hc _]. unfold node_arc. by rewrite Hc.
Qed.

Lemma slice_at_full full : slice_at full (txt full) = full.
Proof.
  destruct full as [p s]. unfold slice_at, slen; cbn. f_equal.
  rewrite Nat.sub_diag. lia.
Qed.

(** What [call] does to the request before descending. *)
Definition root_request (t : RouteTree) (req : Request) : Request :=
  let req := match rt_state t with Some st => set_state req st | None => req end in
  set_path_source req (uri_path (uri req)).

Lemma root_request_uri t req : uri (root_request t req) = uri req.
Proof. unfold root_request. by destruct (rt_state t). Qed.

(** One depth-first search, then a walk along its trail. *)
Lemma RouteTree_call_eq addr t req :
  tree_ok t → utf8 (uri_path (uri req)) = true →
  let path := uri_path (uri req) in
  let full := mkSlice addr path in
  RouteTree_call addr t req =
  match node_remain t path with
  | None => mret (Err NotFound)
  | Some s =>
      onion (node_middlewares t) (run_trail full t s (trail_below t s))
        (enter_state t (bind_node full t path (root_request t req)))
  end.
Proof.
  intros Hok Hu path full. assert (seg_utf8 (segment t)) as Hs by by destruct Hok.
  destruct (tree_path_only_spec t full "" path eq_refl Hu Hs) as (o & Ho & Hm).
  pose proof Ho as Ho'.
  change path with (txt full) in Ho at 1. rewrite slice_at_full in Ho.
  assert (RouteTree_call addr t req =
    (c ← M_lift (tree_path_only t full full);
     match c with
     | None => mret (Err not_found_error)
     | Some candidate =>
         match bind_params (segment t) (root_request t req) candidate path with
         | None => mret (Err not_found_error)
         | Some req =>
             offset ← M_lift (remain_offset full (RouteSeg.remain candidate));
             call_with_path t full offset req
         end
     end)) as ->.
  { unfold RouteTree_call, root_request. by destruct (rt_state t). }
  rewrite Ho. autorewrite with silent. destruct o as [m|]; [|by rewrite Hm].
  destruct Hm as (q & Hm & Hq & Hr). rewrite Hm.
  destruct (bind_params_total (segment t) _ full full (root_request t req) m path Hu Ho)
    as [req' Hb].
  rewrite Hb, Hr. autorewrite with silent.
  unfold bind_node. rewrite Ho'. cbn [txt full]. rewrite Hb. cbn [default].
  apply call_with_path_spec; [done|]. intros req''. apply call_children_spec; [done..|].
  by eapply node_remain_utf8.
Qed.

(** The search tries the static child first. *)
Lemma static_child_trail t s i c r rest :
  s ≠ "" → static_children t !! fst (first_segment s) = Some i →
  children t !! i = Some c → node_remain c s = Some r → dfs c r = Some rest →
  trail_below t s = c :: rest.
Proof.
  intros Hs Hi Hc Hr Hd. unfold trail_below, cands_of. rewrite bool_decide_eq_false_2 by done.
  rewrite Hi. cbn. rewrite list_lookup_fmap, Hc. cbn. rewrite Hr. cbn. by rewrite Hd.
Qed.

(** ** Properties *)

(** C2: Routing a request is one depth-first search of the path followed by
    a walk along its result: with a well-formed tree and a UTF-8 path,
    [call] never panics on its own; the exponential-looking lookahead picks
    exactly the nodes of the search, and the handler runs inside the onion of
    every visited node's own middlewares, outermost at the root, after each
    node bound its parameter and merged its state. *)
Theorem route_call_spec addr t req :
  tree_ok t → utf8 (uri_path (uri req)) = true →
  let path := uri_path (uri req) in
  let full := mkSlice addr path in
  RouteTree_call addr t req =
  match node_remain t path with
  | None => mret (Err NotFound)
  | Some s =>
      onion (node_middlewares t) (run_trail full t s (trail_below t s))
        (enter_state t (bind_node full t path (root_request t req)))
  end.
Proof. apply RouteTree_call_eq. Qed.

(** C3: The lookahead is complete and sound: on an indexed tree it answers
    yes exactly when some walk through the children, in whatever order,
    consumes the rest of the path, and the walk the dispatch then takes is
    such a walk.  The static index and the candidate list lose no child. *)
Theorem route_search_complete full t p s :
  tree_ok t → indexed t → txt full = p +:+ s → utf8 s = true →
  ∃ b, path_can_resolve t full (String.length p) = Ret b ∧
    (b = true ↔ ∃ trail, Consumes t s trail) ∧
    (b = true → Consumes t s (trail_below t s)).
Proof.
  intros Hok Hi Hp Hu. eexists. split; [by apply path_can_resolve_spec|].
  rewrite bool_decide_eq_true. split; [split|].
  - intros [trail H]. exists trail. by apply dfs_sound.
  - intros [trail H]. by eapply dfs_complete.
  - intros [trail H]. pose proof (dfs_trail_below _ _ _ H) as <-. by apply dfs_sound.
Qed.

(** Static segments win: when something remains of the path and the
    static child named by its first segment can consume it, the request goes
    to that child, whatever the dynamic children accept. *)
Theorem route_static_first full t p s i c r rest req :
  tree_ok t → txt full = p +:+ s → utf8 s = true →
  s ≠ "" → static_children t !! fst (first_segment s) = Some i →
  children t !! i = Some c → node_remain c s = Some r → dfs c r = Some rest →
  call_children t full (String.length p) req =
  onion (node_middlewares c) (run_trail full c r rest) (enter_state c (bind_node full c s req)).
Proof.
  intros Hok Hp Hu Hs Hi Hc Hr Hd. rewrite (call_children_spec full t Hok p s) by done.
  rewrite (static_child_trail t s i c r rest) by done. cbn [run_trail]. by rewrite Hr.
Qed.

(** There is no fallback once a node consumed the path: when the static
    child named by the path exists only as an intermediate node, the request
    is answered with not found inside that node's middlewares, even where a
    dynamic sibling has a handler that accepts the same segment. *)
Theorem route_no_fallback full t p s i c req :
  tree_ok t → txt full = p +:+ s → utf8 s = true →
  s ≠ "" → static_children t !! fst (first_segment s) = Some i →
  children t !! i = Some c → node_remain c s = Some "" →
  trail_below c "" = [] → has_handler c = false →
  call_children t full (String.length p) req =
  onion (node_middlewares c) (λ _, mret (Err NotFound))
    (enter_state c (bind_node full c s req)).
Proof.
  intros Hok Hp Hu Hs Hi Hc Hr Hb Hh. rewrite (call_children_spec full t Hok p s) by done.
  assert (∃ rest, dfs c "" = Some rest) as [rest Hd].
  { rewrite dfs_unfold. destruct (first_trail _ _ _); by eexists. }
  assert (rest = []) as -> by (rewrite <-Hb; by apply dfs_trail_below).
  rewrite (static_child_trail t s i c "" []) by done.
  cbn. f_equal. f_equal. rewrite Hr. apply functional_extensionality; intros req'.
  unfold call_here; cbn. by rewrite Hh.
Qed.

(** C13: Freezing the tree, which the server does before it listens, changes
    no answer: the shared copies the middleware continuations run against
    behave as the nodes they were made from. *)
Theorem freeze_call addr t :
  no_arcs t → RouteTree_call addr (freeze t) = RouteTree_call addr t.
Proof.
  intros Hna. apply functional_extensionality; intros req. unfold RouteTree_call.
  rewrite tree_path_only_freeze.
  assert (rt_state (freeze t) = rt_state t) as -> by by destruct t.
  assert (segment (freeze t) = segment t) as -> by by destruct t.
  assert (∀ full, call_with_path (freeze t) full = call_with_path t full) as H;
    [|cbv zeta; by rewrite H].
  intros full. pose proof (call_children_freeze full t Hna).
  apply call_with_path_ext; [done|by destruct t| |by destruct t..].
  destruct Hna as [t Ht _]. unfold node_arc. by rewrite Ht.
Qed.
End tree.

(** ** Witnesses

    [GET /users/me] and [GET /users/<id:str>]; the node [me] has no handler
    of its own, only a child [posts]. *)
Section example.
Let T := RouteTree (P := Demo).

Definition demo_node (seg : SpecialSeg) (kids : list T) (sc : gmap string nat)
    (dc : list nat) (h : option string) : T :=
  mkRouteTree (P := Demo) kids
    (match h with Some s => {[ GET := λ _, mret (Ok (text s)) ]} | None => ∅ end)
    [] sc dc 0 None seg (bool_decide (is_Some h)) None.

Definition demo_posts : T := demo_node (SegStatic "posts") [] ∅ [] (Some "posts").
Definition demo_me : T := demo_node (SegStatic "me") [demo_posts] {[ "posts" := 0%nat ]} [] None.
Definition demo_id : T := demo_node (SegString "id") [] ∅ [] (Some "user").
Definition demo_users : T :=
  demo_node (SegStatic "users") [demo_me; demo_id] {[ "me" := 0%nat ]} [1%nat] None.
Definition demo_root : T := demo_node SegRoot [demo_users] {[ "users" := 0%nat ]} [] None.

Definition demo_get_req (path : string) : Request (P := Demo) :=
  Request_from_parts (P := Demo) (mkParts (P := Demo) GET (mkUri path None) HTTP_11 [] tt) ReqEmpty.
End example.

Ltac solve_node := constructor;
  [ apply (bool_decide_unpack _); vm_compute; exact I
  | apply (bool_decide_unpack _); vm_compute; exact I
  | cbn; lia | reflexivity || exact I | by left
  | repeat (apply Forall_nil_2 || apply Forall_cons_2) ].

Lemma demo_root_ok : tree_ok demo_root.
Proof.
  repeat solve_node.
Qed.

Lemma demo_root_indexed : indexed demo_root.
Proof.
  repeat constructor; intros [|[|i]] c; cbn; intros [= <-]; cbn;
    try (split_and!; [done|reflexivity|reflexivity]). repeat constructor.
Qed.

Lemma route_call_spec_witness :
  let req := demo_get_req "/users/42" in
  tree_ok demo_root ∧ trail_below demo_root "/users/42" = [demo_users; demo_id] ∧
  RouteTree_call 4096 demo_root req =
    onion [] (run_trail (mkSlice 4096 "/users/42") demo_root "/users/42" [demo_users; demo_id])
      (enter_state demo_root (bind_node (mkSlice 4096 "/users/42") demo_root "/users/42"
        (root_request demo_root req))).
Proof.
  intros req. split; [exact demo_root_ok|]. split; [reflexivity|].
  exact (route_call_spec (P := Demo) 4096 demo_root req demo_root_ok eq_refl).
Defined.

Lemma demo_users_ok : tree_ok demo_users.
Proof. repeat solve_node. Qed.

Lemma route_search_complete_witness :
  let full := mkSlice 4096 "/users/7" in
  tree_ok demo_root ∧ indexed demo_root ∧
  ∃ b, path_can_resolve demo_root full 1 = Ret b ∧
    (b = true ↔ ∃ trail, Consumes demo_root "users/7" trail) ∧
    (b = true → Consumes demo_root "users/7" (trail_below demo_root "users/7")).
Proof.
  intros full. split; [exact demo_root_ok|]. split; [exact demo_root_indexed|].
  exact (route_search_complete (P := Demo) full demo_root "/" "users/7" demo_root_ok
    demo_root_indexed eq_refl eq_refl).
Defined.

Lemma route_static_first_witness :
  let full := mkSlice 4096 "/users/me/posts" in
  let req := demo_get_req "/users/me/posts" in
  call_children demo_users full 7 req =
  onion [] (run_trail full demo_me "posts" [demo_posts])
    (enter_state demo_me (bind_node full demo_me "me/posts" req)).
Proof.
  intros full req.
  refine (route_static_first (P := Demo) full demo_users "/users/" "me/posts" 0 demo_me "posts"
    [demo_posts] req demo_users_ok _ _ _ _ _ _ _); done.
Defined.

Lemma freeze_call_witness :
  no_arcs demo_root ∧ RouteTree_call 4096 (freeze demo_root) = RouteTree_call 4096 demo_root.
Proof.
  assert (no_arcs demo_root) as H by repeat constructor.
  split; [exact H|]. exact (freeze_call (P := Demo) 4096 demo_root H).
Defined.

Lemma route_no_fallback_witness :
  let full := mkSlice 4096 "/users/me" in
  let req := demo_get_req "/users/me" in
  has_handler demo_id = true ∧ node_remain demo_id "me" = Some "" ∧
  call_children demo_users full 7 req =
    onion [] (λ _, mret (Err NotFound)) (enter_state demo_me (bind_node full demo_me "me" req)).
Proof.
  intros full req. split; [reflexivity|]. split; [reflexivity|].
  refine (route_no_fallback (P := Demo) full demo_users "/users/" "me" 0 demo_me req
    demo_users_ok _ _ _ _ _ _ _ _); done.
Defined.
