(* ===== verification/Route.v ===== *)
(** * Building routes (silent/src/route/mod.rs,
    silent/src/route/handler_append.rs, silent/src/route/route_service.rs)

    A [Route] is the builder's tree.  Methods that return [&mut Route] are
    modelled by the update they allow at the node they find; a missing node
    is an [unwrap] of [None].  [convert_to_route_tree] turns the builder into
    the tree requests are dispatched on. *)

From S2P Require Import Prelude Str Platform State Error PathParam Body Message Next RouteSeg RouteTree.

Set Warnings "-register-all".

Section route.
Context {P : Platform}.

Inductive Route := mkRoute {
  path : string;
  handlers : gmap Method Handler;
  kids : list Route;
  middlewares : list MiddleWare;
  special_match : bool;
  create_path : string;
  route_state : option State;
  session_set : bool;
}.

Definition set_kids (r : Route) (l : list Route) : Route :=
  mkRoute (path r) (handlers r) l (middlewares r) (special_match r) (create_path r)
    (route_state r) (session_set r).
Definition set_handlers (r : Route) (h : gmap Method Handler) : Route :=
  mkRoute (path r) h (kids r) (middlewares r) (special_match r) (create_path r)
    (route_state r) (session_set r).
Definition set_middlewares (r : Route) (l : list MiddleWare) : Route :=
  mkRoute (path r) (handlers r) (kids r) l (special_match r) (create_path r)
    (route_state r) (session_set r).
Definition set_route_state (r : Route) (s : option State) : Route :=
  mkRoute (path r) (handlers r) (kids r) (middlewares r) (special_match r) (create_path r)
    s (session_set r).
Definition set_session_set (r : Route) (b : bool) : Route :=
  mkRoute (path r) (handlers r) (kids r) (middlewares r) (special_match r) (create_path r)
    (route_state r) b.

Definition new_root : Route := mkRoute "" ∅ [] [] false "" (Some State_new) false.

(** ** Merging *)

(** [entry(method).or_insert(handler)] for every drained entry. *)
Definition or_insert_all (m other : gmap Method Handler) : gmap Method Handler :=
  map_fold (λ k v m, match m !! k with Some _ => m | None => <[k := v]> m end) m other.

Definition same_segment (a b : Route) : bool :=
  bool_decide (path a = path b) && Bool.eqb (special_match a) (special_match b).

(** [merge_child]: [merge] is [merge_from] of the route being added. *)
Fixpoint merge_child_by (merge : Route → Route) (children : list Route) (route : Route)
  : list Route :=
  match children with
  | [] => [route]
  | child :: rest =>
      if same_segment child route then merge child :: rest
      else child :: merge_child_by merge rest route
  end.

Definition merge_state (s other : option State) : option State :=
  match other with
  | Some other_state =>
      match s with
      | Some st => Some (State_extend_from st other_state)
      | None => Some other_state
      end
  | None => s
  end.

(** [merge_from]; its [debug_assert!] holds because [merge_child] compared
    the flags. *)
Fixpoint merge_from (other : Route) (self : Route) : Route :=
  mkRoute (path self) (or_insert_all (handlers self) (handlers other))
    (foldl (λ children child, merge_child_by (merge_from child) children child)
       (kids self) (kids other))
    (middlewares self ++ middlewares other)%list
    (special_match self || special_match other) (create_path self)
    (merge_state (route_state self) (route_state other))
    (session_set self || session_set other).

Definition merge_child (children : list Route) (route : Route) : list Route :=
  merge_child_by (merge_from route) children route.

Definition append_route (self route : Route) : Route :=
  set_kids self (merge_child (kids self) route).

(** ** Creation *)

Definition splitn2 (p : string) : string * string :=
  let '(first_path, last_path) := split_once "/" p in (first_path, default "" last_path).

(** [Route::new] with a bound on the number of segments. *)
Fixpoint Route_new_go (fuel : nat) (p : string) : Route :=
  let p := trim_start_matches "/" p in
  let '(first_path, last_path) := splitn2 p in
  let route := mkRoute first_path ∅ [] []
    (starts_with_char "<" first_path && ends_with_char ">" first_path) p None false in
  match fuel with
  | S fuel' =>
      if bool_decide (last_path = "") then route
      else append_route route (Route_new_go fuel' last_path)
  | O => route
  end.

Definition Route_new (p : string) : Route := Route_new_go (String.length p) p.

Definition Route_default : Route := Route_new "".

(** ** The node an operation applies to *)

(** [children.iter_mut().find(p).unwrap()], updated. *)
Fixpoint update_found (p : Route → bool) (calls : list (Route * outcome Route))
  : outcome (list Route) :=
  match calls with
  | [] => Panic
  | (c, upd) :: rest =>
      if p c then c' ← upd; mret (c' :: map fst rest)
      else rest' ← update_found p rest; mret (c :: rest')
  end.

(** [get_append_real_route(create_path)], then [f] through the reference. *)
Fixpoint get_append_real_route (f : Route → Route) (self : Route) (cp : string) : outcome Route :=
  if negb (str_contains_char "/" cp) then mret (f self)
  else
    let last_path := snd (splitn2 cp) in
    children ← update_found (λ r, bool_decide (create_path r = last_path))
      (map (λ r, (r, get_append_real_route f r last_path)) (kids self));
    mret (set_kids self children).

(** [get_handler_mut], then [f] through the reference. *)
Fixpoint get_handler_mut (f : gmap Method Handler → gmap Method Handler) (self : Route)
  : outcome Route :=
  if bool_decide (path self = create_path self) then mret (set_handlers self (f (handlers self)))
  else
    let last_url := snd (splitn2 (create_path self)) in
    children ← update_found (λ c, bool_decide (create_path c = last_url))
      (map (λ c, (c, get_handler_mut f c)) (kids self));
    mret (set_kids self children).

(** ** The builder's operations *)

Definition Route_append (self route : Route) : outcome Route :=
  get_append_real_route (λ r, append_route r route) self (create_path self).

Definition Route_extend (self : Route) (routes : list Route) : outcome Route :=
  get_append_real_route (λ r, foldl append_route r routes) self (create_path self).

Definition Route_push (self route : Route) : outcome Route :=
  get_append_real_route (λ r, append_route r route) self (create_path self).

(** [Debug]: the nodes with handlers or children, indented; the methods in the
    map's order. *)
Definition is_shown (r : Route) : bool :=
  negb (bool_decide (handlers r = ∅)) || negb (bool_decide (kids r = [])).
Definition methods_str (ms : list Method) : string :=
  match ms with
  | [] => ""
  | m :: ms => "(" +:+ foldl (λ acc m, acc +:+ "," +:+ m) m ms +:+ ")"
  end.
Fixpoint get_route_str (order : gmap Method Handler → list Method) (pre_fix : string) (r : Route)
  : string :=
  let space_pre_fix := "    " +:+ pre_fix in
  let route_strs :=
    (fix go (l : list Route) : list string :=
       match l with
       | [] => []
       | c :: l => if is_shown c then get_route_str order space_pre_fix c :: go l else go l
       end) (kids r) in
  let route_strs := if is_shown r
    then (pre_fix +:+ path r +:+ methods_str (order (handlers r))) :: route_strs
    else route_strs in
  match route_strs with
  | [] => ""
  | s :: l => foldl (λ acc s, acc +:+ String "010" s) s l
  end.

Definition hook (self : Route) (mw : MiddleWare) : Route :=
  set_middlewares self (middlewares self ++ [mw])%list.

Definition hook_first (self : Route) (mw : MiddleWare) : Route :=
  set_middlewares self (mw :: middlewares self).

Definition insert_handler (self : Route) (m : Method) (h : Handler) : Route :=
  set_handlers self (<[m := h]> (handlers self)).

Definition handler (self : Route) (m : Method) (h : Handler) : outcome Route :=
  get_handler_mut (λ hs, <[m := h]> hs) self.

(** [HandlerAppend::handler_append] and the [get_ex] family. *)
Definition handler_append {T} (into : T → Response) (self : Route) (m : Method)
    (h : Request → M World (SilentResult T)) : outcome Route :=
  handler self m (HandlerWrapper into h).

(** The verb methods; a handler is anything already turned into [Arc<dyn
    Handler>] by [into_handler]. *)
Definition Route_get (self : Route) (h : Handler) : outcome Route := handler self GET h.
Definition Route_post (self : Route) (h : Handler) : outcome Route := handler self POST h.
Definition Route_put (self : Route) (h : Handler) : outcome Route := handler self PUT h.
Definition Route_delete (self : Route) (h : Handler) : outcome Route := handler self DELETE h.
Definition Route_patch (self : Route) (h : Handler) : outcome Route := handler self PATCH h.
Definition Route_options (self : Route) (h : Handler) : outcome Route := handler self OPTIONS h.

(** [get_ex] ...: the function runs on extracted arguments. *)
Definition ex_append {Args R T} (extract : Request → M World (result Args R * Request))
    (reject : R → Response) (into : T → Response) (f : Args → M World (SilentResult T))
    (self : Route) (m : Method) : outcome Route :=
  handler_append (λ r, r) self m (handler_from_extractor extract reject into f).

Definition with_state (self : Route) (t : TypeId) (v : AnyVal) : Route :=
  set_route_state self
    (Some (snd (State_insert (default State_new (route_state self)) t v))).

Definition set_session_store (self : Route) (session : MiddleWare) : Route :=
  set_session_set (hook_first self session) true.

Definition check_session (self : Route) (default_session : MiddleWare) : Route :=
  if session_set self then self else hook_first self default_session.

Definition check_cookie (self : Route) (cookie : MiddleWare) : Route := hook_first self cookie.

(** [with_static_options] and [with_static_in_url_options]; the file handler
    is built by handler/static. *)
Definition with_static_options (self : Route) (static_handler : Handler) : outcome Route :=
  Route_append self (insert_handler (Route_new "<path:**>") GET static_handler).

Definition with_static_in_url_options (self : Route) (url : string) (static_handler : Handler)
  : outcome Route :=
  r ← with_static_options (Route_new url) static_handler; Route_append self r.

(** ** Conversion *)

(** The loop over [children.iter().enumerate()]. *)
Fixpoint index_children (idx : nat) (children : list RouteTree)
    (sc : gmap string nat) (dc : list nat) : gmap string nat * list nat :=
  match children with
  | [] => (sc, dc)
  | child :: rest =>
      match as_static_key (segment child) with
      | Some key => index_children (S idx) rest (<[key := idx]> sc) dc
      | None => index_children (S idx) rest sc (dc ++ [idx])%list
      end
  end.

Fixpoint into_route_tree_with_chain (self : Route) (inherited : list MiddleWare)
  : outcome RouteTree :=
  segment ← parse_special_seg (path self);
  let has_handler := negb (bool_decide (handlers self = ∅)) in
  let parent_len := length inherited in
  let current_middlewares := (inherited ++ middlewares self)%list in
  children ← mapM (λ child, into_route_tree_with_chain child current_middlewares) (kids self);
  let '(static_children, dynamic_children) := index_children 0 children ∅ [] in
  mret (mkRouteTree children (handlers self) current_middlewares static_children
    dynamic_children parent_len (route_state self) segment has_handler None).

Definition convert_to_route_tree (self : Route) : outcome RouteTree :=
  t ← into_route_tree_with_chain self []; mret (freeze t).

(** [<Route as Handler>::call]. *)
Definition Route_call (addr : Z) (self : Route) : Handler := λ req,
  let req := match route_state self with
             | Some st => set_state req (State_extend_from (req_state req) st)
             | None => req
             end in
  tree ← M_lift (convert_to_route_tree self);
  RouteTree_call addr tree req.

(** ** Well-formed routes *)

Inductive route_ok : Route → Prop := RouteOk r :
  utf8 (path r) = true → str_contains_char "/" (path r) = false →
  special_match r = starts_with_char "<" (path r) && ends_with_char ">" (path r) →
  NoDup (path <$> kids r) → Forall route_ok (kids r) →
  route_ok r.

(** Everything the builder can make from paths that are Rust strings. *)
Inductive Built : Route → Prop :=
| Built_root : Built new_root
| Built_new p : utf8 p = true → Built (Route_new p)
| Built_append r c r' : Built r → Built c → Route_append r c = Ret r' → Built r'
| Built_extend r l r' : Built r → (∀ c, c ∈ l → Built c) → Route_extend r l = Ret r' → Built r'
| Built_hook r mw : Built r → Built (hook r mw)
| Built_hook_first r mw : Built r → Built (hook_first r mw)
| Built_insert_handler r m h : Built r → Built (insert_handler r m h)
| Built_handler r m h r' : Built r → handler r m h = Ret r' → Built r'
| Built_with_state r t v : Built r → Built (with_state r t v)
| Built_set_state r st : Built r → Built (set_route_state r st)
| Built_set_session_store r mw : Built r → Built (set_session_store r mw).

(** No empty segment after the first one: no [//] and no trailing [/]. *)
Fixpoint normal_path (p : string) : bool :=
  match p with
  | "" => true
  | String c p' =>
      if Ascii.eqb c "/" then
        negb (bool_decide (p' = "")) && negb (starts_with_char "/" p') && normal_path p'
      else normal_path p'
  end.

(** One call on the route under construction. *)
Inductive BuilderOp :=
| OpAppend (c : Route)
| OpExtendR (l : list Route)
| OpHandler (m : Method) (h : Handler)
| OpHook (mw : MiddleWare)
| OpHookFirst (mw : MiddleWare)
| OpWithState (t : TypeId) (v : AnyVal).

Definition builder_step (r : Route) (op : BuilderOp) : outcome Route :=
  match op with
  | OpAppend c => Route_append r c
  | OpExtendR l => Route_extend r l
  | OpHandler m h => handler r m h
  | OpHook mw => mret (hook r mw)
  | OpHookFirst mw => mret (hook_first r mw)
  | OpWithState t v => mret (with_state r t v)
  end.

Fixpoint builder_run (r : Route) (ops : list BuilderOp) : outcome Route :=
  match ops with
  | [] => mret r
  | op :: ops' => r' ← builder_step r op; builder_run r' ops'
  end.

(** The chain of nodes [Route_new] made for the segments of its path. *)
Inductive Spine : Route → Prop :=
| Spine_end r :
    str_contains_char "/" (create_path r) = false → path r = create_path r → Spine r
| Spine_step r c l :
    str_contains_char "/" (create_path r) = true → path r ≠ create_path r →
    kids r = c :: l → create_path c = snd (splitn2 (create_path r)) → Spine c → Spine r.

(** What the first of several routes with a given path registers. *)
Definition first_registered (l : list Route) (p : string) (m : Method) : option Handler :=
  head (omap (λ r, if bool_decide (path r = p) then handlers r !! m else None) l).

(** The tree node that stands for a route, children by children. *)
Inductive Converts : Route → RouteTree → Prop := Converted r t :
  parse_special_seg (path r) = Ret (segment t) →
  rt_handler t = handlers r →
  has_handler t = negb (bool_decide (handlers r = ∅)) →
  node_middlewares t = middlewares r →
  rt_state t = route_state r →
  Forall2 Converts (kids r) (children t) →
  Converts r t.

(** ** Lemmas: merging keeps routes well formed *)

Fixpoint Route_kids_ind (Q : Route → Prop) (H : ∀ r, Forall Q (kids r) → Q r) (r : Route) : Q r :=
  H r ((fix go l : Forall Q l :=
          match l with
          | [] => Forall_nil_2 Q
          | c :: l => Forall_cons_2 Q c l (Route_kids_ind Q H c) (go l)
          end) (kids r)).

Lemma route_ok_inv r :
  route_ok r →
  utf8 (path r) = true ∧ str_contains_char "/" (path r) = false ∧
  special_match r = starts_with_char "<" (path r) && ends_with_char ">" (path r) ∧
  NoDup (path <$> kids r) ∧ Forall route_ok (kids r).
Proof. by destruct 1. Qed.

(** An update that leaves path, flag and children alone. *)
Lemma route_ok_update r r' :
  path r' = path r → special_match r' = special_match r → kids r' = kids r →
  route_ok r → route_ok r'.
Proof.
  intros Hp Hs Hk (?&?&?&?&?)%route_ok_inv. constructor; rewrite ?Hp, ?Hs, ?Hk; done.
Qed.

Lemma route_ok_set_kids r l :
  route_ok r → NoDup (path <$> l) → Forall route_ok l → route_ok (set_kids r l).
Proof. intros (?&?&?&?&?)%route_ok_inv ??. by constructor. Qed.

Lemma or_insert_all_union (m other : gmap Method Handler) : or_insert_all m other = m ∪ other.
Proof.
  unfold or_insert_all. induction other as [|k v other Hk Hf IH] using map_first_key_ind.
  - by rewrite map_fold_empty, (right_id_L ∅ (∪)).
  - rewrite map_fold_insert_first_key, IH by done.
    destruct ((m ∪ other) !! k) as [v'|] eqn:E.
    + assert (m !! k = Some v').
      { apply lookup_union_Some_raw in E as [?|[_ ?]]; [done|congruence]. }
      apply map_eq. intros i. destruct (decide (i = k)) as [->|Hne].
      * rewrite E. symmetry. by apply lookup_union_Some_l.
      * rewrite !lookup_union, lookup_insert_ne by done. done.
    + apply lookup_union_None in E as [E _]. by rewrite insert_union_r.
Qed.

Lemma merge_from_eq other self :
  merge_from other self =
  mkRoute (path self) (or_insert_all (handlers self) (handlers other))
    (foldl merge_child (kids self) (kids other))
    (middlewares self ++ middlewares other)%list
    (special_match self || special_match other) (create_path self)
    (merge_state (route_state self) (route_state other))
    (session_set self || session_set other).
Proof. by destruct other. Qed.

Lemma same_segment_path a b :
  route_ok a → route_ok b → same_segment a b = bool_decide (path a = path b).
Proof.
  intros (_&_&Ha&_)%route_ok_inv (_&_&Hb&_)%route_ok_inv. unfold same_segment.
  case_bool_decide as E; [|done]. cbn. rewrite Ha, Hb, E. apply eqb_reflx.
Qed.

Lemma merge_child_by_path merge l route :
  (∀ c, path (merge c) = path c) → Forall route_ok l → route_ok route →
  path <$> merge_child_by merge l route =
  if bool_decide (path route ∈ path <$> l) then path <$> l
  else ((path <$> l) ++ [path route])%list.
Proof.
  intros Hm Hl Hr. induction Hl as [|c l Hc Hl IH]; cbn; [done|].
  rewrite same_segment_path by done. destruct (decide (path c = path route)) as [E|E].
  - rewrite bool_decide_eq_true_2 by done. rewrite bool_decide_eq_true_2.
    { cbn. by rewrite Hm. } rewrite E. left.
  - rewrite bool_decide_eq_false_2 by done. cbn. rewrite IH.
    rewrite (bool_decide_ext (_ ∈ _ :: _) (path route ∈ path <$> l)) by set_solver.
    by case_bool_decide.
Qed.

Lemma merge_child_by_ok merge l route :
  (∀ c, path (merge c) = path c) →
  (∀ c, route_ok c → path c = path route → route_ok (merge c)) →
  Forall route_ok l → NoDup (path <$> l) → route_ok route →
  Forall route_ok (merge_child_by merge l route) ∧ NoDup (path <$> merge_child_by merge l route).
Proof.
  intros Hp Hm Hl Hd Hr. split.
  - clear Hd. induction Hl as [|c l Hc Hl IH]; cbn; [by apply Forall_singleton|].
    rewrite same_segment_path by done. case_bool_decide; constructor; auto.
  - rewrite merge_child_by_path by done. case_bool_decide as E; [done|].
    apply NoDup_app. split; [done|]. split; [|apply NoDup_singleton].
    intros x Hx ->%list_elem_of_singleton. done.
Qed.

Lemma foldl_merge_ok l new :
  (∀ c, c ∈ new → route_ok c →
     ∀ s, route_ok s → path s = path c → route_ok (merge_from c s)) →
  Forall route_ok new → Forall route_ok l → NoDup (path <$> l) →
  Forall route_ok (foldl merge_child l new) ∧ NoDup (path <$> foldl merge_child l new).
Proof.
  intros Hm Hn. revert l. induction Hn as [|c new Hc Hn IH]; intros l Hl Hd; [done|]. cbn.
  destruct (merge_child_by_ok (merge_from c) l c) as [??]; try done.
  - intros s. by rewrite merge_from_eq.
  - intros s ??. apply Hm; [left|done..].
  - apply IH; [|done..]. intros; apply Hm; [by right|done..].
Qed.

Lemma merge_from_ok other :
  route_ok other → ∀ self, route_ok self → path self = path other →
  route_ok (merge_from other self).
Proof.
  induction other as [other IH] using Route_kids_ind. intros Ho self Hs Hp.
  pose proof (route_ok_inv _ Ho) as (_&_&Hso&_&Hko).
  pose proof (route_ok_inv _ Hs) as (Hu&Hc&Hss&Hd&Hks).
  rewrite Forall_forall in IH.
  destruct (foldl_merge_ok (kids self) (kids other)) as [??]; [|done..|].
  { intros c Hin ????. by apply IH. }
  rewrite merge_from_eq. constructor; cbn; try done.
  by rewrite Hss, Hso, <-Hp, orb_diag.
Qed.

Lemma merge_children_ok l new :
  Forall route_ok new → Forall route_ok l → NoDup (path <$> l) →
  Forall route_ok (foldl merge_child l new) ∧ NoDup (path <$> foldl merge_child l new).
Proof. intros. apply foldl_merge_ok; [|done..]. intros. by apply merge_from_ok. Qed.
(** ** Lemmas: every operation keeps routes well formed *)

Lemma append_route_ok self route : route_ok self → route_ok route → route_ok (append_route self route).
Proof.
  intros Hs Hr. pose proof (route_ok_inv _ Hs) as (_&_&_&Hd&Hk).
  destruct (merge_children_ok (kids self) [route]) as [??]; try done.
  { by apply Forall_singleton. }
  by apply route_ok_set_kids.
Qed.

Lemma foldl_append_ok l self :
  route_ok self → Forall route_ok l → route_ok (foldl append_route self l).
Proof.
  intros Hs Hl. revert self Hs. induction Hl as [|c l Hc Hl IH]; intros self Hs; [done|].
  apply IH. by apply append_route_ok.
Qed.

Lemma foldl_append_path l self : path (foldl append_route self l) = path self.
Proof. revert self. induction l as [|c l IH]; intros self; [done|]. cbn. by rewrite IH. Qed.

Lemma update_found_inv p calls l :
  update_found p calls = Ret l →
  ∃ l1 c upd c' l2, calls = (l1 ++ (c, upd) :: l2)%list ∧ upd = Ret c' ∧
    l = (map fst l1 ++ c' :: map fst l2)%list.
Proof.
  revert l. induction calls as [|[c upd] calls IH]; intros l; cbn; [done|].
  destruct (p c).
  - destruct upd as [c'|]; [|done]. intros [= <-]. by exists [], c, (Ret c'), c', calls.
  - destruct (update_found p calls) as [rest|]; [|done]. intros [= <-].
    destruct (IH rest eq_refl) as (l1 & c1 & upd1 & c1' & l2 & -> & -> & ->).
    by exists ((c, upd) :: l1), c1, (Ret c1'), c1', l2.
Qed.

(** Updating the child found: a well-formed list stays so. *)
Lemma update_found_ok p (g : Route → outcome Route) l l' :
  Forall route_ok l → NoDup (path <$> l) →
  (∀ c c', c ∈ l → g c = Ret c' → route_ok c' ∧ path c' = path c) →
  update_found p (map (λ c, (c, g c)) l) = Ret l' →
  Forall route_ok l' ∧ path <$> l' = path <$> l.
Proof.
  intros Hl Hd Hg (l1 & c & upd & c' & l2 & Heq & -> & ->)%update_found_inv.
  apply map_eq_app in Heq as (k1 & k2 & -> & <- & Heq).
  destruct k2 as [|c2 k2]; [done|]. cbn in Heq. injection Heq as <- Hc <-.
  rewrite !map_map, !map_id in *. 
  destruct (Hg c2 c') as [Hok Hp]; [set_solver|done|].
  apply Forall_app in Hl as [H1 H2]. apply Forall_cons in H2 as [_ H2]. cbn. split.
  - apply Forall_app. split; [done|]. by apply Forall_cons.
  - rewrite !fmap_app. cbn. by rewrite Hp.
Qed.

Lemma get_append_real_route_ok f self :
  (∀ r, route_ok r → route_ok (f r) ∧ path (f r) = path r) →
  ∀ cp r', route_ok self → get_append_real_route f self cp = Ret r' →
  route_ok r' ∧ path r' = path self.
Proof.
  intros Hf. induction self as [self IH] using Route_kids_ind. intros cp r' Hs.
  pose proof (route_ok_inv _ Hs) as (_&_&_&Hd&Hk).
  destruct self as [pa hs ks mws sm cpa st ss]; cbn in *.
  destruct (negb _); [intros [= <-]; by apply Hf|].
  destruct (update_found _ _) as [l|] eqn:E; [|done]. intros [= <-]. split; [|done].
  rewrite Forall_forall in IH.
  assert (Forall route_ok l ∧ path <$> l = path <$> ks) as [Hl Hp].
  - eapply update_found_ok; [done|done| |exact E].
    intros c c' Hin. apply IH; [done|]. by eapply Forall_forall in Hk.
  - apply (route_ok_set_kids (mkRoute pa hs ks mws sm cpa st ss)); [done| |done]. by rewrite Hp.
Qed.

Lemma get_handler_mut_ok f self :
  ∀ r', route_ok self → get_handler_mut f self = Ret r' → route_ok r' ∧ path r' = path self.
Proof.
  induction self as [self IH] using Route_kids_ind. intros r' Hs.
  pose proof (route_ok_inv _ Hs) as (_&_&_&Hd&Hk).
  destruct self as [pa hs ks mws sm cpa st ss]; cbn in *.
  destruct (bool_decide _).
  { intros [= <-]. split; [|done].
    by apply (route_ok_update (mkRoute pa hs ks mws sm cpa st ss)). }
  destruct (update_found _ _) as [l|] eqn:E; [|done]. intros [= <-]. split; [|done].
  rewrite Forall_forall in IH.
  assert (Forall route_ok l ∧ path <$> l = path <$> ks) as [Hl Hp].
  - eapply update_found_ok; [done|done| |exact E].
    intros c c' Hin. apply IH; [done|]. by eapply Forall_forall in Hk.
  - apply (route_ok_set_kids (mkRoute pa hs ks mws sm cpa st ss)); [done| |done]. by rewrite Hp.
Qed.

Lemma trim_start_utf8 s : utf8 s = true → utf8 (trim_start_matches "/" s) = true.
Proof.
  induction s as [|c s IH]; [done|]. cbn [trim_start_matches].
  destruct (Ascii.eqb_spec c "/") as [->|_]; [|done]. by rewrite utf8_ascii_cons by done.
Qed.

(** A path split at its first slash. *)
Lemma splitn2_spec p a b :
  splitn2 p = (a, b) →
  str_contains_char "/" a = false ∧
  (str_contains_char "/" p = false ∧ p = a ∧ b = "" ∨ p = a +:+ String "/" b).
Proof.
  unfold splitn2. revert a b. induction p as [|c p IH]; cbn; intros a b; [naive_solver|].
  destruct (Ascii.eqb_spec c "/") as [->|Hne].
  - intros [= <- <-]. split; [done|]. by right.
  - destruct (split_once "/" p) as [x y] eqn:E. intros [= <- <-].
    destruct (IH x (default "" y) eq_refl) as [Hx Hp]. cbn.
    rewrite (proj2 (Ascii.eqb_neq c "/")) by done. split; [done|].
    destruct Hp as [(?&->&?)| Hp]; [left|right]; [done|by rewrite Hp at 1].
Qed.

Lemma splitn2_utf8 p a b : utf8 p = true → splitn2 p = (a, b) → utf8 a = true ∧ utf8 b = true.
Proof.
  intros Hu [_ [(_ & -> & ->)| ->]]%splitn2_spec; [done|].
  by apply (utf8_ascii_split "/" a b eq_refl).
Qed.

Lemma Route_new_go_ok fuel p : utf8 p = true → route_ok (Route_new_go fuel p).
Proof.
  revert p. induction fuel as [|fuel IH]; intros p Hu; cbn;
    destruct (splitn2 (trim_start_matches "/" p)) as [a b] eqn:E;
    (destruct (splitn2_utf8 _ _ _ (trim_start_utf8 _ Hu) E) as [Ha Hb]);
    apply splitn2_spec in E as [Hc _].
  - constructor; cbn; try done. apply NoDup_nil_2.
  - assert (∀ cp, route_ok (mkRoute a ∅ [] []
      (starts_with_char "<" a && ends_with_char ">" a) cp None false)).
    { intros cp. constructor; cbn; try done. apply NoDup_nil_2. }
    case_bool_decide; [done|]. apply append_route_ok; auto.
Qed.

Lemma Built_ok r : Built r → route_ok r.
Proof.
  induction 1 as [|p Hp|r c r' _ Hr _ Hc Ha|r l r' _ Hr _ Hl Ha|r mw _ Hr|r mw _ Hr|r m h _ Hr
    |r m h r' _ Hr Ha|r t v _ Hr|r st _ Hr|r mw _ Hr];
    try (by apply (route_ok_update r)).
  - constructor; cbn; try done. apply NoDup_nil_2.
  - by apply Route_new_go_ok.
  - eapply get_append_real_route_ok in Ha; [by apply Ha| |done].
    intros x Hx. split; [by apply append_route_ok|done].
  - eapply get_append_real_route_ok in Ha; [by apply Ha| |done].
    intros x Hx. split; [apply foldl_append_ok; [done|by apply Forall_forall]|].
    apply foldl_append_path.
  - eapply get_handler_mut_ok in Ha; [by apply Ha|done].
Qed.
(** ** Lemmas: conversion *)

Lemma ends_with_char_app c s : ends_with_char c s = true → ∃ m, s = m +:+ String c "".
Proof.
  induction s as [|b s IH]; [done|]. destruct s as [|b' s].
  - cbn. intros ->%Ascii.eqb_eq. by exists "".
  - intros [m Hm]%IH. exists (String b m). by rewrite Hm.
Qed.

Lemma parse_special_seg_total raw :
  utf8 raw = true →
  ∃ seg, parse_special_seg raw = Ret seg ∧ seg_utf8 seg ∧
    ∀ v, seg = SegStatic v → v = raw ∧ raw ≠ "".
Proof.
  intros Hu. unfold parse_special_seg. case_bool_decide as He; [by exists SegRoot|].
  destruct (starts_with_char "<" raw && ends_with_char ">" raw) eqn:Eb.
  2:{ exists (SegStatic raw). split_and!; [done..|]. by intros v [= ->]. }
  apply andb_true_iff in Eb as [Es Ee].
  destruct raw as [|c raw]; [done|]. cbn in Es. apply Ascii.eqb_eq in Es as ->.
  destruct raw as [|c raw]; [done|].
  assert (∃ m, String c raw = m +:+ ">") as [m Hm] by by apply ends_with_char_app.
  rewrite Hm in *. unfold SpecialPath_from. cbn [String.length Nat.ltb Nat.leb].
  assert (slice_range (String "<" (m +:+ ">")) 1 (S (String.length (m +:+ ">")) - 1) = Ret m) as ->.
  { rewrite str_len_app. cbn [String.length].
    replace (S _ - 1)%nat with (String.length "<" + String.length m)%nat by (cbn; lia).
    apply (slice_range_mid "<" m ">"); [|done]. by rewrite utf8_ascii_cons in Hu. }
  cbn. destruct (split_once ":" m) as [k pt]. cbn. unfold special_path_of.
  repeat (case_bool_decide; [by eexists|]). by eexists.
Qed.

Lemma mapM_total {A B} (f : A → outcome B) (Q : A → B → Prop) l :
  Forall (λ x, ∃ y, f x = Ret y ∧ Q x y) l → ∃ ys, mapM f l = Ret ys ∧ Forall2 Q l ys.
Proof.
  induction 1 as [|x l (y & Hy & Hq) _ (ys & Hys & Hqs)]; [by exists []|].
  exists (y :: ys). cbn. rewrite Hy. cbn. rewrite Hys. cbn. split; [done|by constructor].
Qed.

(** The index built by the loop: every position is recorded once. *)
Lemma index_children_spec ts : ∀ i sc dc sc' dc',
  (∀ j1 j2 c1 c2 v, ts !! j1 = Some c1 → ts !! j2 = Some c2 →
     segment c1 = SegStatic v → segment c2 = SegStatic v → j1 = j2) →
  map_Forall (λ _ k, (k < i)%nat) sc → Forall (λ k, (k < i)%nat) dc →
  index_children i ts sc dc = (sc', dc') →
  map_Forall (λ _ k, (k < i + length ts)%nat) sc' ∧
  Forall (λ k, (k < i + length ts)%nat) dc' ∧
  (∀ k, k ∈ dc → k ∈ dc') ∧
  (∀ v n, sc !! v = Some n → (∀ c, c ∈ ts → segment c ≠ SegStatic v) → sc' !! v = Some n) ∧
  (∀ j c, ts !! j = Some c →
     match as_static_key (segment c) with
     | Some v => sc' !! v = Some (i + j)%nat
     | None => (i + j)%nat ∈ dc'
     end).
Proof.
  induction ts as [|t ts IH]; intros i sc dc sc' dc' Hinj Hsc Hdc; cbn.
  { intros [= <- <-]. rewrite Nat.add_0_r. split_and!; done. }
  assert (∀ j1 j2 c1 c2 v, ts !! j1 = Some c1 → ts !! j2 = Some c2 →
    segment c1 = SegStatic v → segment c2 = SegStatic v → j1 = j2) as Hinj'.
  { intros j1 j2 c1 c2 v H1 H2 E1 E2.
    by assert (S j1 = S j2) as [= ->] by by eapply (Hinj (S j1) (S j2)). }
  assert (map_Forall (λ _ k, (k < S i)%nat) sc) as Hsc'.
  { eapply map_Forall_impl; [exact Hsc|]. cbn; lia. }
  assert (Forall (λ k, (k < S i)%nat) dc) as Hdc'.
  { eapply Forall_impl; [exact Hdc|]. cbn; lia. }
  replace (i + S (length ts))%nat with (S i + length ts)%nat by lia.
  destruct (as_static_key (segment t)) as [key|] eqn:Ek; intros E.
  - assert (segment t = SegStatic key) as Eseg by (destruct (segment t); by simplify_eq/=).
    eapply IH in E as (H1 & H2 & H3 & H4 & H5); [|done| |done].
    2:{ apply map_Forall_insert_2; [lia|done]. }
    split_and!; try done.
    + intros v n Hv Hn. apply H4; [|intros c Hc; apply Hn; by right].
      rewrite lookup_insert_ne; [done|]. intros ->. apply (Hn t); [left|done].
    + intros [|j] c.
      * intros [= <-]. rewrite Ek, Nat.add_0_r. apply H4; [apply lookup_insert_eq|].
        intros c [j Hj]%list_elem_of_lookup Hs.
        by assert (0 = S j)%nat by by eapply (Hinj 0%nat (S j)).
      * intros Hc%H5. by replace (i + S j)%nat with (S i + j)%nat by lia.
  - eapply IH in E as (H1 & H2 & H3 & H4 & H5); [|done|done|].
    2:{ apply Forall_app. split; [done|]. apply Forall_singleton. lia. }
    split_and!; try done.
    + intros k Hk. apply H3, elem_of_app. by left.
    + intros v n Hv Hn. apply H4; [done|]. intros c Hc; apply Hn; by right.
    + intros [|j] c.
      * intros [= <-]. rewrite Ek, Nat.add_0_r. apply H3, elem_of_app. right. by left.
      * intros Hc%H5. by replace (i + S j)%nat with (S i + j)%nat by lia.
Qed.
Definition tree_facts (r : Route) (t : RouteTree) : Prop :=
  tree_ok t ∧ indexed t ∧ no_arcs t ∧ Converts r t ∧
  (∀ v, segment t = SegStatic v → v = path r ∧ path r ≠ "").

(** Two static children of a converted node have different names. *)
Lemma static_names_inj l ts :
  NoDup (path <$> l) → Forall2 tree_facts l ts →
  ∀ j1 j2 c1 c2 v, ts !! j1 = Some c1 → ts !! j2 = Some c2 →
    segment c1 = SegStatic v → segment c2 = SegStatic v → j1 = j2.
Proof.
  intros Hd Hf j1 j2 c1 c2 v H1 H2 E1 E2.
  destruct (Forall2_lookup_r _ _ _ _ _ Hf H1) as (r1 & Hr1 & _ & _ & _ & _ & Hs1).
  destruct (Forall2_lookup_r _ _ _ _ _ Hf H2) as (r2 & Hr2 & _ & _ & _ & _ & Hs2).
  apply (NoDup_lookup _ j1 j2 v Hd); rewrite list_lookup_fmap, ?Hr1, ?Hr2; cbn.
  - by destruct (Hs1 v E1) as [-> _].
  - by destruct (Hs2 v E2) as [-> _].
Qed.

Lemma static_name_no_slash r t v :
  route_ok r → tree_facts r t → segment t = SegStatic v →
  v ≠ "" ∧ str_contains_char "/" v = false.
Proof. intros (_&Hc&_)%route_ok_inv (_&_&_&_&Hs) E. by destruct (Hs v E) as [-> ?]. Qed.

Lemma drop_inherited (inh own : list MiddleWare) : drop (length inh) (inh ++ own)%list = own.
Proof. apply drop_app_length. Qed.

Lemma into_route_tree_unfold r inh :
  into_route_tree_with_chain r inh =
  (segment ← parse_special_seg (path r);
   children ← mapM (λ c, into_route_tree_with_chain c (inh ++ middlewares r)%list) (kids r);
   let '(sc, dc) := index_children 0 children ∅ [] in
   mret (mkRouteTree children (handlers r) (inh ++ middlewares r)%list sc dc (length inh)
     (route_state r) segment (negb (bool_decide (handlers r = ∅))) None)).
Proof. by destruct r. Qed.

Lemma into_route_tree_ok r : route_ok r → ∀ inh,
  ∃ t, into_route_tree_with_chain r inh = Ret t ∧ tree_facts r t.
Proof.
  induction r as [r IH] using Route_kids_ind. intros Hok inh.
  pose proof (route_ok_inv _ Hok) as (Hu & Hc & _ & Hd & Hk).
  destruct (parse_special_seg_total _ Hu) as (seg & Hseg & Hsu & Hss).
  set (cur := (inh ++ middlewares r)%list).
  destruct (mapM_total (λ c, into_route_tree_with_chain c cur) tree_facts (kids r))
    as (ts & Hts & Hf).
  { rewrite Forall_forall in *. intros c Hin. apply IH; auto. }
  destruct (index_children 0 ts ∅ []) as [sc dc] eqn:Ei.
  destruct (index_children_spec ts 0 ∅ [] sc dc) as (Hsc & Hdc & _ & _ & Hidx); [|done|done|done|].
  { by eapply static_names_inj. }
  exists (mkRouteTree ts (handlers r) cur sc dc (length inh) (route_state r) seg
    (negb (bool_decide (handlers r = ∅))) None). split.
  { rewrite into_route_tree_unfold, Hseg. cbn. fold cur. rewrite Hts. cbn. by rewrite Ei. }
  unfold tree_facts; cbn. split_and!.
  - constructor; cbn; try done.
    + unfold cur. rewrite length_app. lia.
    + by left.
    + eapply Forall2_Forall_r; [exact Hf|]. apply Forall_forall. intros c _ t Ht. apply Ht.
  - constructor; cbn; [|eapply Forall2_Forall_r; [exact Hf|]; apply Forall_forall; intros c _ t Ht; apply Ht].
    intros i c Hi. specialize (Hidx i c Hi). cbn in Hidx |- *.
    destruct (Forall2_lookup_r _ _ _ _ _ Hf Hi) as (rc & Hrc & Hfc).
    destruct (segment c) eqn:Es; cbn in Hidx; try done.
    destruct (static_name_no_slash rc c value); [|done|done|by split_and!].
    by eapply Forall_lookup_1 in Hk.
  - constructor; cbn; [done|].
    eapply Forall2_Forall_r; [exact Hf|]. apply Forall_forall. intros c _ t Ht. apply Ht.
  - constructor; cbn; try done.
    + unfold node_middlewares; cbn. apply drop_inherited.
    + eapply Forall2_impl; [exact Hf|]. intros c t Ht. apply Ht.
  - done.
Qed.

(** Freezing keeps all of it, arcs apart. *)
Lemma freeze_facts t : ∀ r,
  tree_ok t → indexed t → Converts r t →
  tree_ok (freeze t) ∧ indexed (freeze t) ∧ Converts r (freeze t).
Proof.
  induction t as [t IH] using RouteTree_children_ind. intros r Ho Hi Hc.
  destruct Ho as [t Hsc Hdc Hm Hu _ Hk]. destruct Hi as [t Hx Hxk].
  destruct Hc as [r t H1 H2 H3 H4 H5 Hck].
  rewrite Forall_forall in IH.
  destruct t as [ts hs mws sc dc ms st seg hh arc]; cbn in *.
  split_and!.
  - constructor; cbn; rewrite ?length_map; try done; [by right|].
    apply Forall_map, Forall_forall. intros c Hin. cbn.
    destruct (list_elem_of_lookup_1 _ _ Hin) as [i Hci].
    destruct (Forall2_lookup_r _ _ _ _ _ Hck Hci) as (rc & _ & Hrc).
    rewrite Forall_forall in Hk, Hxk. by apply (IH c Hin rc); auto.
  - constructor; cbn.
    + intros i c. cbn. rewrite list_lookup_fmap. destruct (ts !! i) as [c'|] eqn:E; [|done].
      cbn. intros [= <-]. specialize (Hx i c' E).
      assert (segment (freeze c') = segment c') as -> by by destruct c'. done.
    + apply Forall_map, Forall_forall. intros c Hin. cbn.
      destruct (list_elem_of_lookup_1 _ _ Hin) as [i Hci].
      destruct (Forall2_lookup_r _ _ _ _ _ Hck Hci) as (rc & _ & Hrc).
      rewrite Forall_forall in Hk, Hxk. by apply (IH c Hin rc); auto.
  - constructor; cbn; try done.
    apply Forall2_fmap_r. apply Forall2_same_length_lookup_2.
    { by eapply Forall2_length. }
    intros i rc c Hrc Hci. cbn.
    destruct (Forall2_lookup_r _ _ _ _ _ Hck Hci) as (rc' & Hrc' & Hcc). simplify_eq.
    rewrite Forall_forall in Hk, Hxk. apply list_elem_of_lookup_2 in Hci.
    by apply (IH c Hci rc); auto.
Qed.
Lemma convert_ok r :
  route_ok r →
  ∃ t, convert_to_route_tree r = Ret t ∧ tree_ok t ∧ indexed t ∧ Converts r t.
Proof.
  intros Hr. destruct (into_route_tree_ok r Hr []) as (t & Ht & Ho & Hi & _ & Hc & _).
  exists (freeze t). unfold convert_to_route_tree. rewrite Ht. split; [done|].
  by apply freeze_facts.
Qed.

(** ** Lemmas: the order of the children

    The dynamic children are listed in the order of the children, and the
    static index holds static children only. *)

Fixpoint dynamic_from (i : nat) (ts : list RouteTree) : list nat :=
  match ts with
  | [] => []
  | c :: ts =>
      match as_static_key (segment c) with
      | Some _ => dynamic_from (S i) ts
      | None => i :: dynamic_from (S i) ts
      end
  end.

Definition index_exact (t : RouteTree) : Prop :=
  dynamic_children t = dynamic_from 0 (children t) ∧
  ∀ v i, static_children t !! v = Some i → ∃ c, children t !! i = Some c ∧ segment c = SegStatic v.

Inductive ordered : RouteTree → Prop := Ordered t :
  index_exact t → Forall ordered (children t) → ordered t.

Lemma index_children_exact ts : ∀ i sc dc sc' dc',
  index_children i ts sc dc = (sc', dc') →
  dc' = (dc ++ dynamic_from i ts)%list ∧
  ∀ v n, sc' !! v = Some n →
    sc !! v = Some n ∨ ∃ j c, ts !! j = Some c ∧ segment c = SegStatic v ∧ n = (i + j)%nat.
Proof.
  induction ts as [|t ts IH]; intros i sc dc sc' dc'; cbn.
  { intros [= <- <-]. rewrite app_nil_r. split; [done|]. by left. }
  destruct (as_static_key (segment t)) as [key|] eqn:Ek; intros [H1 H2]%IH.
  - split; [done|]. intros v n [Hn|(j & c & Hj & Hc & ->)]%H2.
    + apply lookup_insert_Some in Hn as [[<- <-]|[_ Hn]]; [|by left].
      right. exists 0%nat, t. split_and!; [done| |lia]. by destruct (segment t); simplify_eq/=.
    + right. exists (S j), c. split_and!; [done..|lia].
  - split; [by rewrite H1, <-app_assoc|]. intros v n [Hn|(j & c & Hj & Hc & ->)]%H2; [by left|].
    right. exists (S j), c. split_and!; [done..|lia].
Qed.

Lemma into_route_tree_ordered r : ∀ inh t, into_route_tree_with_chain r inh = Ret t → ordered t.
Proof.
  induction r as [r IH] using Route_kids_ind. intros inh t. rewrite into_route_tree_unfold.
  destruct (parse_special_seg (path r)) as [seg|]; [|done]. cbn.
  destruct (mapM _ (kids r)) as [ts|] eqn:Em; [|done]. cbn.
  destruct (index_children 0 ts ∅ []) as [sc dc] eqn:Ei. intros [= <-].
  destruct (index_children_exact _ _ _ _ _ _ Ei) as [-> Hs]. constructor; cbn.
  - split; [done|]. intros v i [?|(j & c & Hj & Hc & ->)]%Hs; [done|]. by exists c.
  - clear Ei Hs. revert ts Em. induction IH as [|c l Hc _ IH]; intros ts; cbn; [by intros [= <-]|].
    destruct (into_route_tree_with_chain c _) as [t|] eqn:Et; [|done]. cbn.
    destruct (mapM _ l) as [ts'|] eqn:Em; [|done]. cbn. intros [= <-].
    constructor; [by eapply Hc|by apply IH].
Qed.

Lemma dynamic_from_freeze ts : ∀ i, dynamic_from i (map freeze ts) = dynamic_from i ts.
Proof.
  induction ts as [|t ts IH]; intros i; [done|]. cbn.
  assert (segment (freeze t) = segment t) as -> by by destruct t. by rewrite !IH.
Qed.

Lemma freeze_ordered t : ordered t → ordered (freeze t).
Proof.
  induction t as [t IH] using RouteTree_children_ind. rewrite Forall_forall in IH. intros Ho.
  inversion_clear Ho as [? [Hd Hs] Hk]. destruct t as [ts hs mws sc dc ms st seg hh arc]; cbn in *.
  constructor; cbn.
  - split; cbn; [by rewrite dynamic_from_freeze|]. intros v i (c & Hc & Hv)%Hs.
    exists (freeze c). rewrite list_lookup_fmap, Hc. split; [done|]. by destruct c.
  - apply Forall_map, Forall_forall. intros c Hc. rewrite Forall_forall in Hk. cbn. auto.
Qed.

Lemma convert_ordered r t : convert_to_route_tree r = Ret t → ordered t.
Proof.
  unfold convert_to_route_tree. destruct (into_route_tree_with_chain r []) as [t'|] eqn:E; [|done].
  cbn. intros [= <-]. by eapply freeze_ordered, into_route_tree_ordered.
Qed.

(** ** Lemmas: the spine of a new route *)

Lemma Spine_update r r' :
  Spine r → path r' = path r → create_path r' = create_path r → kids r' = kids r → Spine r'.
Proof.
  destruct 1 as [r Hc Hp|r c l Hc Hp Hk Hcc Hs]; intros Ep Ec Ek.
  - apply Spine_end; congruence.
  - apply (Spine_step r' c l); congruence.
Qed.

Lemma Spine_append f r :
  (∀ r, path (f r) = path r ∧ create_path (f r) = create_path r) → Spine r →
  ∃ r', get_append_real_route f r (create_path r) = Ret r' ∧ Spine r' ∧
    create_path r' = create_path r ∧ path r' = path r.
Proof.
  intros Hf. induction 1 as [r Hc Hp|r c l Hc Hp Hk Hcc _ (c' & Hr' & Hs' & Hc' & Hp')].
  - exists (f r). destruct (Hf r) as [Ep Ec]. destruct r; cbn in *. rewrite Hc. cbn.
    split_and!; try done. apply Spine_end; congruence.
  - exists (set_kids r (c' :: l)). destruct r as [pa hs ks mws sm cp st ss]; cbn in *. subst ks.
    rewrite Hc. cbn. rewrite bool_decide_eq_true_2 by done. rewrite <-Hcc, Hr'. cbn.
    rewrite map_map, map_id. split_and!; try done.
    eapply Spine_step; [done..| |done]. cbn. congruence.
Qed.

Lemma Spine_handler f r :
  Spine r → ∃ r', get_handler_mut f r = Ret r' ∧ Spine r' ∧
    create_path r' = create_path r ∧ path r' = path r.
Proof.
  induction 1 as [r Hc Hp|r c l Hc Hp Hk Hcc _ (c' & Hr' & Hs' & Hc' & Hp')].
  - exists (set_handlers r (f (handlers r))). destruct r; cbn in *.
    rewrite bool_decide_eq_true_2 by done. split_and!; try done. by apply Spine_end.
  - exists (set_kids r (c' :: l)). destruct r as [pa hs ks mws sm cp st ss]; cbn in *. subst ks.
    rewrite bool_decide_eq_false_2 by done. cbn. rewrite bool_decide_eq_true_2 by done.
    rewrite Hr'. cbn. rewrite map_map, map_id. split_and!; try done.
    eapply Spine_step; [done..| |done]. cbn. congruence.
Qed.

Lemma foldl_append_create l self : create_path (foldl append_route self l) = create_path self.
Proof. revert self. induction l as [|c l IH]; intros self; [done|]. cbn. by rewrite IH. Qed.

Lemma Spine_step_op r op : Spine r → ∃ r', builder_step r op = Ret r' ∧ Spine r'.
Proof.
  intros Hs. destruct op; cbn.
  - destruct (Spine_append (λ r, append_route r c) r) as (r' & ? & ? & _); [done..|eauto].
  - destruct (Spine_append (λ r, foldl append_route r l) r) as (r' & ? & ? & _); [|done|eauto].
    intros x. by rewrite foldl_append_path, foldl_append_create.
  - destruct (Spine_handler (λ hs, <[m:=h]> hs) r Hs) as (r' & ? & ? & _). eauto.
  - eexists; split; [done|]. by apply (Spine_update r).
  - eexists; split; [done|]. by apply (Spine_update r).
  - eexists; split; [done|]. by apply (Spine_update r).
Qed.

Lemma trim_start_id s : starts_with_char "/" s = false → trim_start_matches "/" s = s.
Proof. destruct s as [|c s]; cbn; [done|]. by intros ->. Qed.

Lemma trim_start_starts s : starts_with_char "/" (trim_start_matches "/" s) = false.
Proof.
  induction s as [|c s IH]; [done|]. cbn [trim_start_matches].
  destruct (Ascii.eqb c "/") eqn:E; [done|]. cbn. by rewrite E.
Qed.

Lemma trim_start_len s : (String.length (trim_start_matches "/" s) ≤ String.length s)%nat.
Proof.
  induction s as [|c s IH]; [done|]. cbn [trim_start_matches].
  destruct (Ascii.eqb c "/"); cbn; lia.
Qed.

Lemma normal_app a b :
  str_contains_char "/" a = false →
  normal_path (a +:+ String "/" b) =
  negb (bool_decide (b = "")) && negb (starts_with_char "/" b) && normal_path b.
Proof. induction a as [|c a IH]; cbn; [done|]. intros [-> Ha]%orb_false_iff. by apply IH. Qed.

Lemma no_slash_normal p : str_contains_char "/" p = false → normal_path p = true.
Proof. induction p as [|c p IH]; cbn; [done|]. intros [-> Ha]%orb_false_iff. by apply IH. Qed.

Lemma contains_mid c a b : str_contains_char c (a +:+ String c b) = true.
Proof.
  induction a as [|d a IH]; cbn; [by rewrite (proj2 (Ascii.eqb_eq c c))|].
  by rewrite IH, orb_true_r.
Qed.

Lemma app_slash_ne a b : a ≠ a +:+ String "/" b.
Proof. intros H%(f_equal String.length). rewrite str_len_app in H. cbn in H. lia. Qed.

(** The shape of [Route_new]: one node, or one node and one child. *)
Lemma Route_new_shape fuel p a b :
  (String.length p ≤ fuel)%nat → splitn2 (trim_start_matches "/" p) = (a, b) →
  let p' := trim_start_matches "/" p in
  let r := Route_new_go fuel p in
  path r = a ∧ create_path r = p' ∧ handlers r = ∅ ∧
  (b = "" ∧ kids r = [] ∨
   b ≠ "" ∧ (String.length b ≤ pred fuel)%nat ∧ kids r = [Route_new_go (pred fuel) b]).
Proof.
  intros Hl E. cbn. pose proof (trim_start_len p) as Ht.
  destruct fuel as [|fuel]; cbn; rewrite E.
  - assert (b = "") as ->; [|split_and!; by auto].
    apply splitn2_spec in E as [_ [(_&_&->)|E]]; [done|].
    rewrite E, str_len_app in Ht. cbn in Ht. lia.
  - case_bool_decide; cbn; [split_and!; by auto|]. split_and!; try done. right. split_and!; try done.
    apply splitn2_spec in E as [_ [(_&_&->)|E]]; [done|].
    rewrite E, str_len_app in Ht. cbn in Ht. lia.
Qed.

Lemma Route_new_Spine fuel p :
  (String.length p ≤ fuel)%nat → normal_path (trim_start_matches "/" p) = true →
  Spine (Route_new_go fuel p).
Proof.
  revert p. induction fuel as [fuel IH] using lt_wf_ind. intros p Hl Hn.
  destruct (splitn2 (trim_start_matches "/" p)) as [a b] eqn:E.
  destruct (Route_new_shape fuel p a b Hl E) as (Hp & Hc & _ & Hk).
  apply splitn2_spec in E as [Ha [(Hs & Hpa & _)|E]].
  - apply Spine_end; congruence.
  - rewrite E, normal_app in Hn by done. apply andb_true_iff in Hn as [[H1 H2]%andb_true_iff Hn].
    apply negb_true_iff in H1, H2. apply bool_decide_eq_false in H1.
    destruct Hk as [[? _]|(_ & Hlb & Hk)]; [done|].
    assert (0 < fuel)%nat.
    { pose proof (trim_start_len p). rewrite E, str_len_app in *. cbn in *. lia. }
    apply (Spine_step _ (Route_new_go (pred fuel) b) []); rewrite ?Hc, ?Hp, ?E.
    + apply contains_mid.
    + apply app_slash_ne.
    + done.
    + destruct (splitn2 b) as [x y] eqn:Eb.
      destruct (Route_new_shape (pred fuel) b x y) as (_ & -> & _); [done|by rewrite trim_start_id|].
      rewrite trim_start_id by done. unfold splitn2.
      by destruct (split_once_no_char "/" a b Ha) as [_ ->].
    + apply IH; [lia|done|]. by rewrite trim_start_id.
Qed.
Lemma trim_start_ne_starts b : starts_with_char "/" b = true → trim_start_matches "/" b ≠ b.
Proof.
  destruct b as [|c b]; [done|]. cbn [starts_with_char trim_start_matches]. intros ->.
  intros H%(f_equal String.length). pose proof (trim_start_len b). cbn in *. lia.
Qed.

(** The lookup along the spine fails when a segment is empty. *)
Lemma Route_new_panics fuel p :
  (String.length p ≤ fuel)%nat → normal_path (trim_start_matches "/" p) = false →
  (∀ f, get_append_real_route f (Route_new_go fuel p) (trim_start_matches "/" p) = Panic) ∧
  (∀ f, get_handler_mut f (Route_new_go fuel p) = Panic).
Proof.
  revert p. induction fuel as [fuel IH] using lt_wf_ind. intros p Hl Hn.
  destruct (splitn2 (trim_start_matches "/" p)) as [a b] eqn:E.
  destruct (Route_new_shape fuel p a b Hl E) as (Hp & Hc & _ & Hk).
  pose proof E as Esp. apply splitn2_spec in E as [Ha [(Hs & Hpa & _)|E]].
  { by rewrite no_slash_normal in Hn. }
  assert (a ≠ trim_start_matches "/" p) as Hne by (rewrite E; apply app_slash_ne).
  assert (str_contains_char "/" (trim_start_matches "/" p) = true) as Hslash
    by (rewrite E; apply contains_mid).
  rewrite E, normal_app in Hn by done.
  (* the update of the children panics, whatever runs on the child *)
  assert (∀ g, (∀ c, kids (Route_new_go fuel p) = [c] → create_path c = b → g c = Panic) →
    update_found (λ c, bool_decide (create_path c = b))
      (map (λ c, (c, g c)) (kids (Route_new_go fuel p))) = Panic) as Hupd.
  { intros g Hg. destruct Hk as [[_ ->]|(_ & _ & Hk)]; [done|]. specialize (Hg _ Hk).
    rewrite Hk. cbn.
    destruct (bool_decide_reflect (create_path (Route_new_go (pred fuel) b) = b)); [|done].
    by rewrite Hg. }
  assert (∀ c, kids (Route_new_go fuel p) = [c] → create_path c = b →
    (∀ f, get_append_real_route f c b = Panic) ∧ (∀ f, get_handler_mut f c = Panic)) as Hchild.
  { intros c Hkc Hcb. destruct Hk as [[_ Hk]|(Hb & Hlb & Hk)]; [congruence|].
    rewrite Hk in Hkc. injection Hkc as <-.
    destruct (splitn2 (trim_start_matches "/" b)) as [x y] eqn:Eb.
    destruct (Route_new_shape (pred fuel) b x y) as (_ & Hcp & _); [done..|].
    rewrite Hcp in Hcb.
    assert (starts_with_char "/" b = false) as Hsb by (rewrite <-Hcb; apply trim_start_starts).
    rewrite Hsb in Hn. rewrite (bool_decide_eq_false_2 (b = "")) in Hn by done. cbn in Hn.
    assert (0 < fuel)%nat.
    { pose proof (trim_start_len p). rewrite E, str_len_app in *. cbn in *. lia. }
    destruct (IH (pred fuel) ltac:(lia) b) as [H1 H2]; [done|by rewrite Hcb|].
    rewrite Hcb in H1. done. }
  split; intros f.
  - destruct (Route_new_go fuel p) as [pa hs ks mws sm cp st ss]; cbn in *. rewrite Hslash. cbn.
    rewrite Esp. cbn. rewrite Hupd; [done|]. intros c H1 H2. by apply Hchild.
  - destruct (Route_new_go fuel p) as [pa hs ks mws sm cp st ss]; cbn in *.
    rewrite bool_decide_eq_false_2 by congruence. rewrite Hc, Esp. cbn.
    rewrite Hupd; [done|]. intros c H1 H2. by apply Hchild.
Qed.

(** ** Lemmas: registration order *)

Definition lookup_kid (l : list Route) (p : string) : option Route :=
  list_find (λ r, path r = p) l ≫= λ x, Some x.2.

Lemma lookup_kid_cons c l p :
  lookup_kid (c :: l) p = if decide (path c = p) then Some c else lookup_kid l p.
Proof.
  unfold lookup_kid. cbn. destruct (decide (path c = p)); [done|].
  by destruct (list_find _ l) as [[]|].
Qed.

Lemma lookup_kid_merge l r p :
  Forall route_ok l → route_ok r →
  lookup_kid (merge_child l r) p =
  if decide (path r = p) then
    Some (match lookup_kid l p with Some c => merge_from r c | None => r end)
  else lookup_kid l p.
Proof.
  intros Hl Hr. unfold merge_child.
  induction Hl as [|c l Hc Hl IH]; cbn [merge_child_by].
  { rewrite lookup_kid_cons. by case_decide. }
  rewrite same_segment_path by done. case_bool_decide as E.
  - assert (path (merge_from r c) = path c) as Hp by by rewrite merge_from_eq.
    rewrite !lookup_kid_cons, Hp, E. by case_decide.
  - rewrite !lookup_kid_cons, IH. repeat case_decide; congruence.
Qed.

Lemma first_registered_cons r l p m :
  first_registered (r :: l) p m =
  match (if bool_decide (path r = p) then handlers r !! m else None) with
  | Some h => Some h
  | None => first_registered l p m
  end.
Proof. unfold first_registered. cbn. by destruct (if bool_decide (path r = p) then _ else None). Qed.

Lemma foldl_registered new : ∀ l p m,
  Forall route_ok l → NoDup (path <$> l) → Forall route_ok new →
  (lookup_kid (foldl merge_child l new) p ≫= λ c, handlers c !! m) =
  match (lookup_kid l p ≫= λ c, handlers c !! m) with
  | Some h => Some h
  | None => first_registered new p m
  end.
Proof.
  induction new as [|r new IH]; intros l p m Hl Hd Hn; cbn [foldl].
  { by destruct (lookup_kid l p ≫= λ c, handlers c !! m). }
  apply Forall_cons in Hn as [Hr Hn].
  destruct (merge_children_ok l [r]) as [Hl' Hd']; try done.
  { by apply Forall_singleton. } cbn in Hl', Hd'.
  rewrite IH by done. rewrite lookup_kid_merge, first_registered_cons by done.
  destruct (decide (path r = p)) as [E|E].
  - rewrite bool_decide_eq_true_2 by done.
    destruct (lookup_kid l p) as [c|]; cbn.
    + rewrite merge_from_eq, or_insert_all_union. cbn. rewrite lookup_union.
      by destruct (handlers c !! m), (handlers r !! m).
    + by destruct (handlers r !! m).
  - rewrite bool_decide_eq_false_2 by done. by destruct (lookup_kid l p ≫= λ c, handlers c !! m).
Qed.

(** ** Lemmas: what stands at a path of segments *)

Definition merged (self other : option Route) : option Route :=
  match self, other with
  | Some s, Some o => Some (merge_from o s)
  | Some s, None => Some s
  | None, o => o
  end.

(** The node reached from [r] through children of the given paths. *)
Fixpoint route_at (r : Route) (q : list string) : option Route :=
  match q with
  | [] => Some r
  | p :: q => lookup_kid (kids r) p ≫= λ c, route_at c q
  end.

(** What a route offers at a path of the node it is appended to. *)
Definition offers (r : Route) (q : list string) : option Route :=
  match q with
  | [] => None
  | p :: q => if decide (path r = p) then route_at r q else None
  end.

Definition handler_at (o : option Route) (m : Method) : option Handler := o ≫= λ r, handlers r !! m.
Definition middlewares_at (o : option Route) : list MiddleWare := default [] (middlewares <$> o).

Lemma lookup_kid_elem l p c : lookup_kid l p = Some c → c ∈ l ∧ path c = p.
Proof.
  unfold lookup_kid. destruct (list_find _ l) as [[i c']|] eqn:E; [|done].
  apply list_find_Some in E as (E & Hp & _). cbn. intros [= <-].
  split; [by eapply list_elem_of_lookup_2|done].
Qed.

Lemma lookup_kid_in l c : NoDup (path <$> l) → c ∈ l → lookup_kid l (path c) = Some c.
Proof.
  induction l as [|c' l IH]; intros Hd Hc; [by apply elem_of_nil in Hc|].
  rewrite lookup_kid_cons. cbn in Hd. apply NoDup_cons in Hd as [Hn Hd].
  apply elem_of_cons in Hc as [->|Hc]; [by rewrite decide_True|].
  rewrite decide_False; [by apply IH|]. intros E. apply Hn. rewrite E. by apply list_elem_of_fmap_2.
Qed.

Lemma lookup_kid_foldl new : ∀ l p,
  Forall route_ok l → NoDup (path <$> l) → Forall route_ok new → NoDup (path <$> new) →
  lookup_kid (foldl merge_child l new) p = merged (lookup_kid l p) (lookup_kid new p).
Proof.
  induction new as [|r new IH]; intros l p Hl Hd Hn Hdn; cbn [foldl].
  { by destruct (lookup_kid l p). }
  apply Forall_cons in Hn as [Hr Hn]. cbn in Hdn. apply NoDup_cons in Hdn as [Hnr Hdn].
  destruct (merge_children_ok l [r]) as [Hl' Hd']; [by apply Forall_singleton|done..|]. cbn in Hl', Hd'.
  rewrite IH, lookup_kid_merge, lookup_kid_cons by done.
  destruct (decide (path r = p)) as [E|E]; [|done].
  assert (lookup_kid new p = None) as ->; [|by destruct (lookup_kid l p)].
  destruct (lookup_kid new p) as [c|] eqn:F; [|done]. apply lookup_kid_elem in F as [Hc Hp].
  destruct Hnr. rewrite E, <-Hp. by apply list_elem_of_fmap_2.
Qed.

Lemma route_ok_kid r p c : route_ok r → lookup_kid (kids r) p = Some c → route_ok c ∧ path c = p.
Proof.
  intros (_&_&_&_&Hk)%route_ok_inv [Hc Hp]%lookup_kid_elem. rewrite Forall_forall in Hk. auto.
Qed.

(** Merging two routes merges them at every path. *)
Lemma route_at_merge q : ∀ self other,
  route_ok self → route_ok other →
  route_at (merge_from other self) q = merged (route_at self q) (route_at other q).
Proof.
  induction q as [|p q IH]; intros self other Hs Ho; [done|]. cbn.
  rewrite merge_from_eq. cbn [kids].
  pose proof (route_ok_inv _ Hs) as (_&_&_&Hd&Hk). pose proof (route_ok_inv _ Ho) as (_&_&_&Hd'&Hk').
  rewrite lookup_kid_foldl by done.
  destruct (lookup_kid (kids self) p) as [s|] eqn:E1, (lookup_kid (kids other) p) as [o|] eqn:E2; cbn;
    [|by destruct (route_at s q)|done..].
  apply IH; [exact (proj1 (route_ok_kid _ _ _ Hs E1))|exact (proj1 (route_ok_kid _ _ _ Ho E2))].
Qed.

Lemma route_at_append r c q :
  route_ok r → route_ok c → q ≠ [] →
  route_at (append_route r c) q = merged (route_at r q) (offers c q).
Proof.
  intros Hr Hc Hq. destruct q as [|p q]; [done|]. cbn [route_at append_route offers kids set_kids].
  pose proof (route_ok_inv _ Hr) as (_&_&_&Hd&Hk).
  rewrite lookup_kid_merge by done. case_decide as E.
  - destruct (lookup_kid (kids r) p) as [a|] eqn:F; [|done].
    cbn. apply route_at_merge; [exact (proj1 (route_ok_kid _ _ _ Hr F))|done].
  - destruct (lookup_kid (kids r) p) as [a|]; [|done]. cbn. by destruct (route_at a q).
Qed.

Lemma route_at_extend l : ∀ r q,
  route_ok r → Forall route_ok l → q ≠ [] →
  route_at (foldl append_route r l) q = foldl merged (route_at r q) (map (λ c, offers c q) l).
Proof.
  induction l as [|c l IH]; intros r q Hr Hl Hq; [done|]. apply Forall_cons in Hl as [Hc Hl]. cbn.
  rewrite IH, route_at_append by auto using append_route_ok. done.
Qed.

Lemma handler_at_merged a b m :
  handler_at (merged a b) m =
  match handler_at a m with Some h => Some h | None => handler_at b m end.
Proof.
  unfold handler_at. destruct a as [s|], b as [o|]; cbn; [|by destruct (handlers s !! m)|done..].
  rewrite merge_from_eq. cbn. rewrite or_insert_all_union, lookup_union.
  by destruct (handlers s !! m), (handlers o !! m).
Qed.

Lemma middlewares_at_merged a b : middlewares_at (merged a b) = (middlewares_at a ++ middlewares_at b)%list.
Proof.
  destruct a as [s|], b as [o|]; cbn; rewrite ?app_nil_r; try done. by rewrite merge_from_eq.
Qed.

(** What a route offers together: the first handler, all middlewares in order. *)
Lemma merged_handlers m l : ∀ o,
  handler_at (foldl merged o l) m = head (omap (λ o, handler_at o m) (o :: l)).
Proof.
  induction l as [|o' l IH]; intros o; cbn [foldl].
  - cbn. by destruct (handler_at o m).
  - rewrite IH. cbn [omap list_omap]. rewrite handler_at_merged.
    by destruct (handler_at o m), (handler_at o' m).
Qed.

Lemma merged_middlewares l : ∀ o,
  middlewares_at (foldl merged o l) = (middlewares_at o ++ concat (map middlewares_at l))%list.
Proof.
  induction l as [|o' l IH]; intros o; cbn [foldl].
  - cbn. by rewrite app_nil_r.
  - rewrite IH. cbn [map concat]. by rewrite middlewares_at_merged, app_assoc.
Qed.

(** Nothing is offered at the node that is appended to. *)
Lemma merged_nothing l o : foldl merged o (map (λ c, offers c []) l) = o.
Proof. induction l as [|c l IH]; [done|]. cbn. by destruct o. Qed.

Lemma foldl_append_self l : ∀ r,
  handlers (foldl append_route r l) = handlers r ∧ middlewares (foldl append_route r l) = middlewares r ∧
  route_state (foldl append_route r l) = route_state r.
Proof. induction l as [|c l IH]; intros r; [done|]. apply (IH (append_route r c)). Qed.

Lemma route_at_app q q' r : route_at r (q ++ q')%list = route_at r q ≫= λ n, route_at n q'.
Proof.
  revert r. induction q as [|p q IH]; intros r; [done|]. cbn.
  destruct (lookup_kid (kids r) p) as [c|]; [apply IH|done].
Qed.

(** ** Properties *)

(** C5: Whatever the builder produced, converting it for the server never
    panics and gives a tree fit for dispatch: indices in range, every static
    child under its own name in the index, frozen copies in place; and the
    tree stands node by node for the routes, each node's own middlewares
    (those after [middleware_start]) being exactly those hooked on its
    route. *)
Theorem built_route_converts r :
  Built r →
  ∃ t, convert_to_route_tree r = Ret t ∧ tree_ok t ∧ indexed t ∧ Converts r t.
Proof. intros Hr%Built_ok. by apply convert_ok. Qed.

(** C12: Appending is the union of tries, left before right: at every path of
    segments and for every method, the handler found below a route that was
    extended is the one it had before, or else that of the first appended
    route that offers one there; and the middlewares at every path are those
    of all of them, in the order they were appended.  The receiver is a root or
    a route made from one segment. *)
Theorem extend_unites (l : list Route) r r' :
  str_contains_char "/" (create_path r) = false →
  Built r → (∀ c, c ∈ l → Built c) → Route_extend r l = Ret r' →
  ∀ q m,
    let offered := route_at r q :: map (λ c, offers c q) l in
    handler_at (route_at r' q) m = head (omap (λ o, handler_at o m) offered) ∧
    middlewares_at (route_at r' q) = concat (map middlewares_at offered).
Proof.
  intros Hs Hr%Built_ok Hl He q m offered.
  assert (Forall route_ok l) as Hlok.
  { apply Forall_forall. intros c Hc. by apply Built_ok, Hl. }
  assert (r' = foldl append_route r l) as ->.
  { unfold Route_extend in He. destruct r; cbn in *. rewrite Hs in He. by injection He. }
  unfold offered. cbn [map concat]. rewrite <-merged_handlers, <-merged_middlewares.
  destruct (decide (q = [])) as [->|Hq].
  - rewrite merged_nothing. destruct (foldl_append_self l r) as (H1 & H2 & _).
    unfold handler_at, middlewares_at. cbn. by rewrite H1, H2.
  - by rewrite route_at_extend.
Qed.

(** Routes appended in any order share one child per path: for every path
    and method the handler registered first wins, and it is found at the only
    child with that path. *)
Theorem append_first_wins (l : list Route) r r' p m :
  str_contains_char "/" (create_path r) = false →
  Built r → kids r = [] → (∀ c, c ∈ l → Built c) → Route_extend r l = Ret r' →
  NoDup (path <$> kids r') ∧
  (lookup_kid (kids r') p ≫= λ c, handlers c !! m) = first_registered l p m.
Proof.
  intros Hs Hr%Built_ok Hk Hl He.
  assert (Forall route_ok l) as Hlok.
  { apply Forall_forall. intros c Hc. by apply Built_ok, Hl. }
  assert (r' = foldl append_route r l) as ->.
  { unfold Route_extend in He. destruct r; cbn in *. rewrite Hs in He. by injection He. }
  assert (∀ l x, kids (foldl append_route x l) = foldl merge_child (kids x) l) as Hkids.
  { clear. induction l as [|c l IH]; intros x; [done|]. cbn. by rewrite IH. }
  rewrite Hkids, Hk. split.
  - destruct (merge_children_ok [] l) as [_ H]; done || by constructor.
  - rewrite foldl_registered; [done|done|by constructor|done].
Qed.

(** C11: Registering on a route made from a path works exactly for paths
    without empty segments: then no sequence of builder calls panics; with a
    trailing slash or a double slash inside, already the first [append] or
    verb method does, on the [unwrap] of a child that was never created under
    that name. *)
Theorem builder_panics_iff p :
  (normal_path (trim_start_matches "/" p) = true →
     ∀ ops, ∃ r, builder_run (Route_new p) ops = Ret r) ∧
  (normal_path (trim_start_matches "/" p) = false →
     (∀ c, Route_append (Route_new p) c = Panic) ∧
     (∀ m h, handler (Route_new p) m h = Panic)).
Proof.
  split; intros Hn.
  - assert (Spine (Route_new p)) as Hs by (apply Route_new_Spine; [done|done]).
    intros ops. revert Hs. generalize (Route_new p).
    induction ops as [|op ops IH]; intros r Hs; [by eexists|]. cbn.
    destruct (Spine_step_op r op Hs) as (r' & -> & Hs'). by apply IH.
  - destruct (Route_new_panics (String.length p) p) as [H1 H2]; [done|done|].
    destruct (splitn2 (trim_start_matches "/" p)) as [a b] eqn:E.
    destruct (Route_new_shape (String.length p) p a b) as (_ & Hc & _); [done..|].
    split; intros.
    + unfold Route_append, Route_new. rewrite Hc. apply H1.
    + apply H2.
Qed.
End route.

(** ** Witnesses *)

Section examples.
Let h : Handler (P := Demo) := λ _, mret (Ok (text "x")).

Lemma built_route_converts_witness :
  Built (P := Demo) (Route_new "users/<id:i64>/posts") ∧
  ∃ t, convert_to_route_tree (P := Demo) (Route_new "users/<id:i64>/posts") = Ret t ∧
    tree_ok t ∧ indexed t ∧ Converts (Route_new "users/<id:i64>/posts") t.
Proof.
  assert (Built (P := Demo) (Route_new "users/<id:i64>/posts")) as H.
  { apply Built_new. reflexivity. }
  split; [exact H|]. exact (built_route_converts (P := Demo) _ H).
Defined.

Lemma append_first_wins_witness :
  let a := insert_handler (P := Demo) (Route_new "a") GET h in
  let l := [a; insert_handler (Route_new "a") POST h] in
  ∃ r', Route_extend (P := Demo) new_root l = Ret r' ∧ NoDup (path <$> kids r') ∧
    (lookup_kid (kids r') "a" ≫= λ c, handlers c !! POST) = first_registered l "a" POST.
Proof.
  intros a l. eexists. split; [reflexivity|].
  refine (append_first_wins (P := Demo) l new_root _ "a" POST eq_refl _ eq_refl _ eq_refl).
  - apply Built_root.
  - intros c [->|[->|[]%not_elem_of_nil]%elem_of_cons]%elem_of_cons;
      apply Built_insert_handler, Built_new; reflexivity.
Defined.

Let guard : MiddleWare (P := Demo) := λ req next, next req.

(** Two routes that share [users/<id>]: [GET] of the first, [POST] of both. *)
Lemma extend_unites_witness :
  let node (m : Method) := insert_handler (P := Demo) (Route_new "<id>") m h in
  let users c := append_route (Route_new "users") c in
  let l := [users (hook (node GET) guard); users (insert_handler (node GET) POST h)] in
  ∃ r', Route_extend (P := Demo) new_root l = Ret r' ∧
    handler_at (route_at r' ["users"; "<id>"]) POST = Some h ∧
    middlewares_at (route_at r' ["users"; "<id>"]) = [guard].
Proof.
  intros node users l. eexists. split; [reflexivity|].
  assert (∀ c, Built c → Built (users c)) as Hu.
  { intros c Hc. refine (Built_append (Route_new "users") c _ (Built_new "users" eq_refl) Hc eq_refl). }
  assert (∀ m, Built (node m)) as Hn by (intros m; apply Built_insert_handler, Built_new; reflexivity).
  refine (extend_unites (P := Demo) l new_root _ eq_refl _ _ eq_refl ["users"; "<id>"] POST).
  - apply Built_root.
  - intros c [->|[->|[]%not_elem_of_nil]%elem_of_cons]%elem_of_cons;
      apply Hu; [apply Built_hook|apply Built_insert_handler]; apply Hn.
Defined.

Lemma builder_panics_iff_witness :
  normal_path (trim_start_matches "/" "api/") = false ∧
  Route_append (P := Demo) (Route_new "api/") (Route_new "users") = Panic ∧
  handler (P := Demo) (Route_new "api/") GET h = Panic.
Proof.
  split; [reflexivity|].
  destruct (builder_panics_iff (P := Demo) "api/") as [_ [H1 H2]]; [reflexivity|].
  split; [apply H1|apply H2].
Defined.
End examples.
