(* ===== verification/Streams.v ===== *)
(** * Connections and byte streams
    (silent/src/server/stream.rs, silent/src/server/connection.rs,
    silent/src/server/connection_service.rs, silent/src/server/quic/connection.rs,
    silent/src/grpc/stream.rs)

    What listeners hand to the services: a byte stream of one of two kinds, or
    an erased connection that is taken back to its type.  tokio's traits
    [AsyncRead] and [AsyncWrite] are the class [AsyncIo]; the sockets behind
    them are parameters. *)

From stdpp Require Import relations.
From S2P Require Import Prelude Str Platform Error Addr.

(** [AsyncRead] and [AsyncWrite]: a poll may change the stream.  A read yields
    the bytes it put into the buffer, of which there is room for [room]. *)
Class AsyncIo (S : Type) := {
  poll_read : S → nat → Poll (result string string) * S;
  poll_write : S → string → Poll (result nat string) * S;
  poll_flush : S → Poll (result () string) * S;
  poll_shutdown : S → Poll (result () string) * S;
}.

(** ** stream.rs *)

Section stream.
Context {T : Ipv6Text} {Tcp_ Unix_ : Type} {IoT : AsyncIo Tcp_} {IoU : AsyncIo Unix_}.

Inductive Stream := TcpStream (s : Tcp_) | UnixStream (s : Unix_).

Definition is_tcp (s : Stream) : bool := match s with TcpStream _ => true | _ => false end.
Definition is_unix (s : Stream) : bool := match s with UnixStream _ => true | _ => false end.

Definition peer_addr (tcp_peer : Tcp_ → result NetAddr string)
    (unix_peer : Unix_ → result (option string) string) (s : Stream) : result SocketAddr string :=
  match s with
  | TcpStream s => result_bind (tcp_peer s) (λ a, Ok (Tcp a))
  | UnixStream s => result_bind (unix_peer s) (λ a, Ok (Unix a))
  end.

#[export] Instance Stream_io : AsyncIo Stream := {|
  poll_read s room :=
    match s with
    | TcpStream s => let '(r, s) := poll_read s room in (r, TcpStream s)
    | UnixStream s => let '(r, s) := poll_read s room in (r, UnixStream s)
    end;
  poll_write s buf :=
    match s with
    | TcpStream s => let '(r, s) := poll_write s buf in (r, TcpStream s)
    | UnixStream s => let '(r, s) := poll_write s buf in (r, UnixStream s)
    end;
  poll_flush s :=
    match s with
    | TcpStream s => let '(r, s) := poll_flush s in (r, TcpStream s)
    | UnixStream s => let '(r, s) := poll_flush s in (r, UnixStream s)
    end;
  poll_shutdown s :=
    match s with
    | TcpStream s => let '(r, s) := poll_shutdown s in (r, TcpStream s)
    | UnixStream s => let '(r, s) := poll_shutdown s in (r, UnixStream s)
    end;
|}.
End stream.
Arguments Stream : clear implicits.

(** Anything that is done to a stream, and what came of it. *)
Inductive IoOp := OpRead (room : nat) | OpWrite (buf : string) | OpFlush | OpShutdown.
Inductive IoRes :=
| ResRead (r : Poll (result string string))
| ResWrite (r : Poll (result nat string))
| ResUnit (r : Poll (result () string)).

Definition io_step {S} `{AsyncIo S} (s : S) (op : IoOp) : IoRes * S :=
  match op with
  | OpRead room => let '(r, s) := poll_read s room in (ResRead r, s)
  | OpWrite buf => let '(r, s) := poll_write s buf in (ResWrite r, s)
  | OpFlush => let '(r, s) := poll_flush s in (ResUnit r, s)
  | OpShutdown => let '(r, s) := poll_shutdown s in (ResUnit r, s)
  end.
Fixpoint io_run {S} `{AsyncIo S} (s : S) (ops : list IoOp) : list IoRes * S :=
  match ops with
  | [] => ([], s)
  | op :: ops =>
      let '(r, s) := io_step s op in
      let '(rs, s) := io_run s ops in (r :: rs, s)
  end.

(** A stream does what its socket does, and stays of its kind. *)
Lemma stream_forwards {T U} `{AsyncIo T} `{AsyncIo U} (s : Stream T U) ops :
  io_run s ops =
  match s with
  | TcpStream s => let '(rs, s) := io_run s ops in (rs, TcpStream s)
  | UnixStream s => let '(rs, s) := io_run s ops in (rs, UnixStream s)
  end.
Proof.
  revert s. induction ops as [|op ops IH]; intros [s|s]; [done..| |]; cbn [io_run].
  - assert (io_step (TcpStream (Unix_ := U) s) op =
        let '(r, s) := io_step s op in (r, TcpStream s)) as ->.
    { destruct op; cbn; repeat case_match; by simplify_eq. }
    destruct (io_step s op) as [r s']. rewrite IH. by destruct (io_run s' ops).
  - assert (io_step (UnixStream (Tcp_ := T) s) op =
        let '(r, s) := io_step s op in (r, UnixStream s)) as ->.
    { destruct op; cbn; repeat case_match; by simplify_eq. }
    destruct (io_step s op) as [r s']. rewrite IH. by destruct (io_run s' ops).
Qed.

(** ** connection.rs *)

(** [Box<dyn Connection>]: a value with its type, of those that [TypeOf]
    names. *)
Section connection.
Context {TypeId : Type} `{!EqDecision TypeId} (TypeOf : TypeId → Type).

Record BoxedConnection := mkBoxed { conn_type : TypeId; conn_value : TypeOf conn_type }.

(** [downcast]: the value if it is of type [t], else the connection back. *)
Definition downcast (t : TypeId) (c : BoxedConnection) : result (TypeOf t) BoxedConnection :=
  match decide (conn_type c = t) with
  | left E => Ok (eq_rect (conn_type c) TypeOf (conn_value c) t E)
  | right _ => Err c
  end.

(** Nothing is lost either way: success gives the very connection, failure
    gives the box back for the next try. *)
Lemma downcast_spec t c :
  match downcast t c with
  | Ok v => c = mkBoxed t v
  | Err c' => c' = c ∧ conn_type c ≠ t
  end.
Proof.
  unfold downcast. destruct (decide (conn_type c = t)) as [<-|Hn]; [|done]. by destruct c.
Qed.

(** [RouteConnectionService::call] tries QUIC first and serves the rest as
    HTTP: exactly the QUIC connections go to QUIC. *)
Lemma downcast_boxed t t' (v : TypeOf t) :
  match downcast t' (mkBoxed t v) with
  | Ok _ => t = t'
  | Err c => c = mkBoxed t v ∧ t ≠ t'
  end.
Proof.
  pose proof (downcast_spec t' (mkBoxed t v)) as H. destruct (downcast t' _) as [v'|c]; [|done].
  by inversion H.
Qed.
End connection.

(** ** quic/connection.rs *)

Record QuicConnection {Incoming_ : Type} := QuicConnection_new { into_incoming : Incoming_ }.
Arguments QuicConnection : clear implicits.

(** Reading and writing are refused; flushing and closing do nothing. *)
#[export] Instance QuicConnection_io {I} : AsyncIo (QuicConnection I) := {|
  poll_read s _ := (Ready (Err "QuicConnection does not support AsyncRead"), s);
  poll_write s _ := (Ready (Err "QuicConnection does not support AsyncWrite"), s);
  poll_flush s := (Ready (Ok ()), s);
  poll_shutdown s := (Ready (Ok ()), s);
|}.

(** No use as a byte stream touches the connection, moves a byte or blocks. *)
Lemma quic_connection_inert {I} (s : QuicConnection I) ops :
  snd (io_run s ops) = s ∧
  Forall (λ r, match r with
               | ResRead r => ∃ e, r = Ready (Err e)
               | ResWrite r => ∃ e, r = Ready (Err e)
               | ResUnit r => r = Ready (Ok ())
               end) (fst (io_run s ops)).
Proof.
  induction ops as [|op ops [IH1 IH2]]; [by split; [|constructor]|].
  destruct op; cbn; destruct (io_run s ops) as [rs s']; cbn in *; subst s';
    (split; [done|constructor; [by try eexists|done]]).
Qed.

(** ** grpc/stream.rs *)

(** [GrpcStream::poll_next] over the body's frames: a trailers frame or an
    error looks like the end. *)
Definition grpc_poll_next {B} (poll_frame : B → Poll (option (result Frame string)) * B) (b : B)
  : Poll (option (result string string)) * B :=
  let '(r, b) := poll_frame b in
  (match r with
   | Ready (Some (Ok chunk)) =>
       match frame_data chunk with Some chunk => Ready (Some (Ok chunk)) | None => Ready None end
   | Pending => Pending
   | _ => Ready None
   end, b).

(** [size_hint] *)
Definition grpc_size_hint (h : SizeHint) : Z * option Z := (lower h, upper h).

(** The items a reader takes until the end. *)
Fixpoint grpc_items (frames : list (Poll (option (result Frame string)))) : list string :=
  match frames with
  | [] => []
  | _ =>
      match grpc_poll_next script_poll frames with
      | (Ready (Some (Ok c)), _) =>
          match frames with [] => [] | _ :: frames => c :: grpc_items frames end
      | (Pending, _) => match frames with [] => [] | _ :: frames => grpc_items frames end
      | _ => []
      end
  end.

Definition data_frame (f : Poll (option (result Frame string))) : option string :=
  match f with Ready (Some (Ok (FrameData c))) => Some c | _ => None end.

(** The data frames before the first trailers or error come out, in order, and
    nothing tells a body that broke off from one that was complete. *)
Lemma grpc_items_spec frames rest :
  Forall (λ f, f = Pending ∨ is_Some (data_frame f)) frames →
  ∀ e, grpc_items (frames ++ Ready (Some (Err e)) :: rest) = omap (M := list) data_frame frames ∧
       grpc_items (frames ++ [Ready None])%list = omap (M := list) data_frame frames.
Proof.
  intros H e. induction H as [|f frames Hf _ [IH1 IH2]]; [done|].
  destruct Hf as [->|[c Hc]]; [by split|].
  destruct f as [[[[c'|]|]|]|]; try done. cbn. by rewrite IH1, IH2.
Qed.

(** [title_case]: the first letter and the letters after a dash are
    capitals. *)
Definition upper_ascii (c : ascii) : ascii :=
  let n := N_of_ascii c in
  if ((97 <=? n) && (n <=? 122))%N then ascii_of_N (n - 32) else c.
Fixpoint title_case (prev : ascii) (name : string) : string :=
  match name with
  | "" => ""
  | String c name =>
      let c := if Ascii.eqb prev "-" then upper_ascii c else c in
      String c (title_case c name)
  end.

Lemma title_case_example : title_case "-" "grpc-status-details-bin" = "Grpc-Status-Details-Bin".
Proof. reflexivity. Qed.
