(* ===== verification/Listener.v ===== *)
(** * Listeners and accept back-off (silent/src/server/listener.rs)

    Time is in nanoseconds.  The sockets themselves are parameters: binding
    one, and polling one for a connection.  [Listeners::accept] is modelled
    poll by poll, with the state its future keeps between polls. *)

From S2P Require Import Prelude Str.

(** ** Back-off *)

Record BackoffState := mkBackoff { current : Z; max_backoff : Z; next_ready : Z }.

Definition BASE : Z := 50 * 1000000.
Definition MAX : Z := 2 * 1000000000.

Definition BackoffState_new (now : Z) : BackoffState := mkBackoff BASE MAX now.

Definition is_ready (b : BackoffState) (now : Z) : bool := (next_ready b <=? now)%Z.

Definition on_success (now : Z) (b : BackoffState) : BackoffState :=
  mkBackoff BASE (max_backoff b) now.

Definition on_error (now : Z) (b : BackoffState) : BackoffState :=
  mkBackoff (Z.min (current b * 2) (max_backoff b)) (max_backoff b) (now + current b).

Section listener.
(** The bound sockets, their addresses, what accepting yields, and errors. *)
Context {L Addr Path Conn LocalAddr IoError : Type}.

(** ** The builder *)

Record ListenersBuilder := mkBuilder {
  b_listeners : list L;
  tcp_addrs : list Addr;
  unix_paths : list Path;
}.

Definition ListenersBuilder_new : ListenersBuilder := mkBuilder [] [] [].

Definition add_listener (b : ListenersBuilder) (l : L) : ListenersBuilder :=
  mkBuilder (b_listeners b ++ [l])%list (tcp_addrs b) (unix_paths b).

Definition builder_bind (b : ListenersBuilder) (a : Addr) : result ListenersBuilder IoError :=
  Ok (mkBuilder (b_listeners b) (tcp_addrs b ++ [a])%list (unix_paths b)).

Definition builder_bind_unix (b : ListenersBuilder) (p : Path) : result ListenersBuilder IoError :=
  Ok (mkBuilder (b_listeners b) (tcp_addrs b) (unix_paths b ++ [p])%list).

Record Listeners := mkListeners {
  listeners : list L;
  local_addrs : list LocalAddr;
  backoff_states : list BackoffState;
  next_index : nat;
}.

(** Binding and converting one address after the other; the first failure
    ends it. *)
Fixpoint bind_all {A} (bind : A → result L IoError) (addrs : list A) (acc : list L)
  : result (list L) IoError :=
  match addrs with
  | [] => Ok acc
  | a :: rest => l <-! bind a ;; bind_all bind rest (acc ++ [l])%list
  end.

(** [listen]: with nothing bound a default loopback socket is opened;
    addresses that cannot be read are dropped from [local_addrs]. *)
Definition builder_listen (bind_tcp : Addr → result L IoError)
    (bind_unix : Path → result L IoError) (bind_default : result L IoError)
    (local_addr : L → result LocalAddr IoError) (now : Z) (b : ListenersBuilder)
  : result Listeners IoError :=
  ls <-! bind_all bind_tcp (tcp_addrs b) (b_listeners b) ;;
  ls <-! bind_all bind_unix (unix_paths b) ls ;;
  ls <-! (match ls with [] => l <-! bind_default ;; Ok [l] | _ => Ok ls end) ;;
  Ok (mkListeners ls (omap (λ l, ok (local_addr l)) ls) (map (λ _, BackoffState_new now) ls) 0).

(** ** Accepting *)

(** The [for offset in 0..len] scan: the first listener out of its back-off,
    or the earliest time one will be. *)
Fixpoint scan (states : list BackoffState) (len next : nat) (now : Z) (offsets : list nat)
    (earliest : option Z) : outcome (option nat * option Z) :=
  match offsets with
  | [] => Ret (None, earliest)
  | offset :: rest =>
      let idx := ((next + offset) mod len)%nat in
      state ← index states idx;
      if is_ready state now then Ret (Some idx, earliest)
      else scan states len next now rest
             (Some (match earliest with
                    | Some inst => Z.min inst (next_ready state)
                    | None => next_ready state
                    end))
  end.

(** Where the future of [accept] is suspended. *)
Inductive AcceptPhase :=
| Scanning
| Accepting (idx : nat)
| Sleeping (until : Z).

Definition set_backoff (ls : Listeners) (i : nat) (f : BackoffState → BackoffState) : Listeners :=
  mkListeners (listeners ls) (local_addrs ls) (alter f i (backoff_states ls)) (next_index ls).

Definition set_next (ls : Listeners) (i : nat) : Listeners :=
  mkListeners (listeners ls) (local_addrs ls) (backoff_states ls) i.

(** Awaiting [self.listeners[idx].accept()]. *)
Definition poll_accepting (poll : nat → Poll (result Conn IoError)) (now : Z) (ls : Listeners)
    (idx : nat) : Poll (option (result Conn IoError)) * AcceptPhase * Listeners :=
  match poll idx with
  | Pending => (Pending, Accepting idx, ls)
  | Ready (Ok conn) => (Ready (Some (Ok conn)), Scanning, set_backoff ls idx (on_success now))
  | Ready (Err e) => (Ready (Some (Err e)), Scanning, set_backoff ls idx (on_error now))
  end.

(** One pass of the loop body from its top. *)
Definition poll_scan (poll : nat → Poll (result Conn IoError)) (now : Z) (ls : Listeners)
  : outcome (Poll (option (result Conn IoError)) * AcceptPhase * Listeners) :=
  let len := length (listeners ls) in
  '(selected, earliest_ready) ← scan (backoff_states ls) len (next_index ls) now
    (seq 0 len) None;
  match selected with
  | Some idx =>
      mret (poll_accepting poll now (set_next ls ((idx + 1) mod len)%nat) idx)
  | None =>
      match earliest_ready with
      | Some next => mret (Pending, Sleeping next, ls)
      | None => mret (Ready None, Scanning, ls)
      end
  end.

(** One poll of the future at time [now]; [poll i] is what listener [i]
    answers at that time.  A sleep that is over starts the loop again. *)
Definition accept_poll (poll : nat → Poll (result Conn IoError)) (now : Z) (phase : AcceptPhase)
    (ls : Listeners) : outcome (Poll (option (result Conn IoError)) * AcceptPhase * Listeners) :=
  if bool_decide (length (listeners ls) = 0%nat) then mret (Ready None, Scanning, ls)
  else
    match phase with
    | Scanning => poll_scan poll now ls
    | Accepting idx => mret (poll_accepting poll now ls idx)
    | Sleeping until =>
        if (until <=? now)%Z then poll_scan poll now ls else mret (Pending, Sleeping until, ls)
    end.

(** ** Well-formed listeners *)

Definition listeners_ok (ls : Listeners) : Prop :=
  length (backoff_states ls) = length (listeners ls) ∧
  (next_index ls < length (listeners ls))%nat ∧ listeners ls ≠ [].

Definition phase_ok (ls : Listeners) (p : AcceptPhase) : Prop :=
  match p with Accepting i => (i < length (listeners ls))%nat | _ => True end.

(** Polls of one [accept] future until it completes: time and answers of the
    listeners at each poll. *)
Fixpoint accept_run (events : list (Z * (nat → Poll (result Conn IoError))))
    (phase : AcceptPhase) (ls : Listeners)
  : outcome (Poll (option (result Conn IoError)) * AcceptPhase * Listeners) :=
  match events with
  | [] => mret (Pending, phase, ls)
  | (now, poll) :: rest =>
      '(r, phase, ls) ← accept_poll poll now phase ls;
      match r with
      | Ready _ => mret (r, phase, ls)
      | Pending => accept_run rest phase ls
      end
  end.

(** The [select!] of the server's loop (server/net_server.rs) makes a new
    [accept] future every time and polls it before the connection tasks; when
    one of those ended while the future is pending, the future is dropped.  A
    round is its polls: the first, and the later ones. *)
Definition Round : Type :=
  (Z * (nat → Poll (result Conn IoError))) * list (Z * (nat → Poll (result Conn IoError))).

Fixpoint serve_rounds (rounds : list Round) (ls : Listeners)
  : outcome (list (Poll (option (result Conn IoError))) * Listeners) :=
  match rounds with
  | [] => mret ([], ls)
  | (ev, evs) :: rest =>
      '(r, _, ls) ← accept_run (ev :: evs) Scanning ls;
      '(rs, ls) ← serve_rounds rest ls;
      mret (r :: rs, ls)
  end.

Definition ready_at (ls : Listeners) (now : Z) (i : nat) : bool :=
  match backoff_states ls !! i with Some b => is_ready b now | None => false end.

(** The round-robin order from [next_index]. *)
Definition order (ls : Listeners) : list nat :=
  let len := length (listeners ls) in
  map (λ o, ((next_index ls + o) mod len)%nat) (seq 0 len).

(** The listener whose turn it is at [now]: the first one out of its back-off
    in round-robin order. *)
Definition turn (ls : Listeners) (now : Z) : option nat :=
  find (ready_at ls now) (order ls).

(** Successive accepts at one instant where every socket has a connection
    waiting: which listeners they took. *)
Fixpoint accepts (n : nat) (conn : nat → Conn) (now : Z) (ls : Listeners)
  : outcome (list Conn * Listeners) :=
  match n with
  | O => mret ([], ls)
  | S n =>
      '(r, _, ls) ← accept_poll (λ i, Ready (Ok (conn i))) now Scanning ls;
      '(rest, ls) ← accepts n conn now ls;
      mret (match r with Ready (Some (Ok c)) => [c] | _ => [] end ++ rest, ls)%list
  end.

(** One listener's outcomes over time: an error or a success, when. *)
Definition backoff_step (b : BackoffState) (ev : Z * bool) : BackoffState :=
  if ev.2 then on_success ev.1 b else on_error ev.1 b.

(** Errors since the last success. *)
Definition trailing_errors (evs : list (Z * bool)) : nat :=
  foldl (λ n ev, if ev.2 : bool then 0 else S n)%nat 0%nat evs.

(** ** Lemmas *)

Lemma scan_spec states len next now offs e :
  Forall (λ o, ((next + o) mod len < length states)%nat) offs →
  ∃ r e', scan states len next now offs e = Ret (r, e') ∧
    r = find (λ i, match states !! i with Some b => is_ready b now | None => false end)
          (map (λ o, ((next + o) mod len)%nat) offs) ∧
    (r = None → (offs ≠ [] ∨ is_Some e) → is_Some e') ∧
    (∀ t, e' = Some t → e = Some t ∨
      ∃ i b, states !! i = Some b ∧ next_ready b = t ∧
        i ∈ map (λ o, ((next + o) mod len)%nat) offs).
Proof.
  revert e. induction offs as [|o offs IH]; intros e Ho; cbn.
  { eexists None, e. split_and!; try done; [by intros _ []|by left]. }
  apply Forall_cons in Ho as [Ho Hos]. unfold index.
  destruct (lookup_lt_is_Some_2 states _ Ho) as [b Hb]. rewrite Hb. cbn.
  destruct (is_ready b now) eqn:Er.
  { eexists _, e. split_and!; try done. by left. }
  destruct (IH (Some (match e with Some inst => Z.min inst (next_ready b) | None => next_ready b end)) Hos)
    as (r & e' & Hr & Hrs & Hs & Ht).
  exists r, e'. split_and!; try done.
  - intros -> _. apply Hs; [done|right]. by eexists.
  - intros t ->. destruct (Ht t eq_refl) as [[= <-]|(i & b' & ? & ? & ?)].
    + destruct e as [inst|].
      * destruct (Z.min_spec inst (next_ready b)) as [[_ ->]|[_ ->]]; [by left|].
        right. eexists _, b. split_and!; [done..|left].
      * right. eexists _, b. split_and!; [done..|left].
    + right. exists i, b'. split_and!; [done..|by right].
Qed.

Lemma mod_bound len next n :
  len ≠ 0%nat → Forall (λ o, ((next + o) mod len < len)%nat) (seq 0 n).
Proof. intros H. apply Forall_forall. intros o _. by apply Nat.mod_upper_bound. Qed.

Lemma order_In ls i : i ∈ order ls → listeners ls ≠ [] → (i < length (listeners ls))%nat.
Proof.
  intros Hi Hne. unfold order in Hi. apply list_elem_of_In, in_map_iff in Hi as (o & <- & _).
  apply Nat.mod_upper_bound. by destruct (listeners ls).
Qed.
Lemma poll_scan_turn poll now ls :
  listeners_ok ls →
  match turn ls now with
  | Some i =>
      (i < length (listeners ls))%nat ∧
      poll_scan poll now ls =
        Ret (poll_accepting poll now (set_next ls ((i + 1) mod length (listeners ls))%nat) i)
  | None =>
      ∃ t, poll_scan poll now ls = Ret (Pending, Sleeping t, ls) ∧
        ∀ now', (t <= now')%Z → is_Some (turn ls now')
  end.
Proof.
  intros (Hlen & Hn & Hne). unfold poll_scan.
  destruct (scan_spec (backoff_states ls) (length (listeners ls)) (next_index ls) now
    (seq 0 (length (listeners ls))) None) as (r & e' & -> & Hr & Hs & Ht).
  { rewrite Hlen. apply mod_bound. by destruct (listeners ls). }
  unfold turn. change (r = find (ready_at ls now) (order ls)) in Hr. rewrite <-Hr. cbn.
  destruct r as [i|].
  - split; [|done]. symmetry in Hr. apply find_some in Hr as [Hr _].
    apply order_In; [|done]. by apply list_elem_of_In.
  - destruct Hs as [t ->]; [done| |].
    { left. by destruct (listeners ls). }
    exists t. split; [done|]. intros now' Hle.
    destruct (Ht t eq_refl) as [?|(i & b & Hb & Hnr & Hi)]; [done|].
    destruct (find (ready_at ls now') (order ls)) eqn:E; [by eexists|]. exfalso.
    apply list_elem_of_In, (find_none _ _ E) in Hi.
    unfold ready_at in Hi. rewrite Hb in Hi. unfold is_ready in Hi.
    apply Z.leb_gt in Hi. lia.
Qed.

Lemma poll_accepting_ok poll now ls i :
  listeners_ok ls → (i < length (listeners ls))%nat →
  let '(_, p, ls') := poll_accepting poll now ls i in listeners_ok ls' ∧ phase_ok ls' p.
Proof.
  intros (Hlen & Hn & Hne) Hi. unfold poll_accepting, listeners_ok.
  destruct (poll i) as [[c|e]|]; cbn; rewrite ?length_alter; done.
Qed.

Lemma set_next_ok ls i :
  listeners_ok ls → listeners_ok (set_next ls (i mod length (listeners ls))%nat).
Proof.
  intros (Hlen & Hn & Hne). unfold listeners_ok; cbn. split_and!; try done.
  apply Nat.mod_upper_bound. by destruct (listeners ls).
Qed.

Lemma listeners_ok_nonempty ls :
  listeners_ok ls → bool_decide (length (listeners ls) = 0%nat) = false.
Proof. intros (_ & _ & H). apply bool_decide_eq_false. by destruct (listeners ls). Qed.

Lemma poll_accepting_result poll now ls i :
  (poll_accepting poll now ls i).1.1 ≠ Ready None.
Proof. unfold poll_accepting. by destruct (poll i) as [[c|e]|]. Qed.

Lemma accept_poll_ok poll now p ls :
  listeners_ok ls → phase_ok ls p →
  ∃ r p' ls', accept_poll poll now p ls = Ret (r, p', ls') ∧ r ≠ Ready None ∧
    listeners_ok ls' ∧ phase_ok ls' p'.
Proof.
  intros Hok Hp. unfold accept_poll. rewrite listeners_ok_nonempty by done.
  assert (∀ i ls, listeners_ok ls → (i < length (listeners ls))%nat →
    ∃ r p' ls', Ret (poll_accepting poll now ls i) = Ret (r, p', ls') ∧ r ≠ Ready None ∧
      listeners_ok ls' ∧ phase_ok ls' p') as Hacc.
  { intros i ls1 H1 H2. pose proof (poll_accepting_ok poll now ls1 i H1 H2) as H.
    pose proof (poll_accepting_result poll now ls1 i).
    destruct (poll_accepting _ _ _ _) as [[r p'] ls']. by exists r, p', ls'. }
  assert (∃ r p' ls', poll_scan poll now ls = Ret (r, p', ls') ∧ r ≠ Ready None ∧
    listeners_ok ls' ∧ phase_ok ls' p') as Hscan.
  { pose proof (poll_scan_turn poll now ls Hok) as H. destruct (turn ls now) as [i|].
    - destruct H as [Hi ->]. apply Hacc; [by apply set_next_ok|done].
    - destruct H as (t & -> & _). by exists Pending, (Sleeping t), ls. }
  destruct p as [|i|t]; [done|by apply Hacc|].
  destruct (t <=? now)%Z; [done|]. by exists Pending, (Sleeping t), ls.
Qed.

Lemma backoff_run t0 evs :
  let b := foldl backoff_step (BackoffState_new t0) evs in
  max_backoff b = MAX ∧ current b = Z.min (BASE * 2 ^ Z.of_nat (trailing_errors evs)) MAX.
Proof.
  induction evs as [|[t ok] evs IH] using rev_ind; [done|].
  unfold trailing_errors in *. rewrite !foldl_app. cbn in *. destruct IH as [Hm Hc].
  destruct ok; cbn; [by rewrite Hm|]. rewrite Hm, Hc. split; [done|].
  rewrite Nat2Z.inj_succ, Z.pow_succ_r by lia. unfold BASE, MAX. lia.
Qed.
Lemma order_head ls now :
  listeners_ok ls → ready_at ls now (next_index ls) = true → turn ls now = Some (next_index ls).
Proof.
  intros (Hlen & Hn & Hne) Hr. unfold turn, order.
  destruct (length (listeners ls)) as [|n] eqn:E; [lia|]. cbn [seq map find].
  rewrite Nat.add_0_r, Nat.mod_small by lia. by rewrite Hr.
Qed.

Lemma accepts_spec n conn now ls :
  listeners_ok ls → (∀ i, (i < length (listeners ls))%nat → ready_at ls now i = true) →
  ∃ ls', accepts n conn now ls =
    Ret (map (λ k, conn ((next_index ls + k) mod length (listeners ls))%nat) (seq 0 n), ls').
Proof.
  revert ls. induction n as [|n IH]; intros ls Hok Hr; [by eexists|].
  pose proof Hok as (Hlen & Hn & Hne). cbn [accepts].
  unfold accept_poll. rewrite listeners_ok_nonempty by done.
  set (poll := λ i : nat, Ready (Ok (conn i))).
  pose proof (poll_scan_turn poll now ls Hok) as H.
  rewrite order_head in H by auto. destruct H as [_ ->]. cbn.
  set (ls1 := set_backoff _ _ _).
  destruct (IH ls1) as [ls' Hls'].
  - apply (poll_accepting_ok poll now (set_next ls _) (next_index ls)); [by apply set_next_ok|done].
  - intros i Hi. unfold ready_at, ls1; cbn.
    destruct (decide (i = next_index ls)) as [->|Hne'].
    + rewrite list_lookup_alter_eq. specialize (Hr _ Hn). unfold ready_at in Hr.
      destruct (backoff_states ls !! next_index ls); [|done]. cbn. unfold is_ready; cbn.
      apply Z.leb_refl.
    + rewrite list_lookup_alter_ne by done. by apply Hr.
  - rewrite Hls'. cbn. eexists. f_equal. f_equal. cbn [ls1 set_backoff set_next next_index listeners].
    rewrite Nat.add_0_r, (Nat.mod_small (next_index ls)) by done. f_equal.
    rewrite <-seq_shift, map_map. apply map_ext. intros k.
    rewrite Nat.Div0.add_mod_idemp_l. f_equal. f_equal. lia.
Qed.

(** ** Lemmas: rounds *)

(** Every listener is out of its back-off from [t] on. *)
Definition ready_from (t : Z) (ls : Listeners) : Prop :=
  Forall (λ b, (next_ready b <= t)%Z) (backoff_states ls).

(** The polls of a round as the time goes on, none of which finds an error. *)
Fixpoint calm (t : Z) (evs : list (Z * (nat → Poll (result Conn IoError)))) : Prop :=
  match evs with
  | [] => True
  | (now, poll) :: evs => (t <= now)%Z ∧ (∀ i e, poll i ≠ Ready (Err e)) ∧ calm now evs
  end.

Definition last_time (t : Z) (evs : list (Z * (nat → Poll (result Conn IoError)))) : Z :=
  foldl (λ _ ev, fst ev) t evs.

Fixpoint calm_rounds (t : Z) (rounds : list Round) : Prop :=
  match rounds with
  | [] => True
  | (ev, evs) :: rest => calm t (ev :: evs) ∧ calm_rounds (last_time t (ev :: evs)) rest
  end.

Lemma calm_last t evs : calm t evs → (t <= last_time t evs)%Z.
Proof.
  revert t. induction evs as [|[now poll] evs IH]; intros t; cbn; [lia|].
  intros (? & _ & H). specialize (IH _ H). unfold last_time in IH. lia.
Qed.

Lemma ready_from_le t t' ls : (t <= t')%Z → ready_from t ls → ready_from t' ls.
Proof. intros Ht H. eapply Forall_impl; [exact H|]. intros b ?. cbn in *. lia. Qed.

Lemma ready_from_at t now ls i :
  listeners_ok ls → ready_from t ls → (t <= now)%Z → (i < length (listeners ls))%nat →
  ready_at ls now i = true.
Proof.
  intros (Hlen & _) Hr Ht Hi. unfold ready_at.
  destruct (lookup_lt_is_Some_2 (backoff_states ls) i) as [b Hb]; [lia|]. rewrite Hb.
  apply (Forall_lookup_1 _ _ _ _ Hr) in Hb. apply Z.leb_le. cbn in *. lia.
Qed.

(** Waiting on listener [i]: a connection of its own ends the wait, and the
    turn stays where the scan put it. *)
Lemma accepting_calm i evs : ∀ t ls,
  listeners_ok ls → ready_from t ls → calm t evs → (i < length (listeners ls))%nat →
  ∃ r p ls', accept_run evs (Accepting i) ls = Ret (r, p, ls') ∧ listeners_ok ls' ∧
    ready_from (last_time t evs) ls' ∧ next_index ls' = next_index ls ∧
    length (listeners ls') = length (listeners ls) ∧
    (∀ c now poll evs', evs = (now, poll) :: evs' → poll i = Ready (Ok c) → r = Ready (Some (Ok c))).
Proof.
  induction evs as [|[now poll] evs IH]; intros t ls Hok Hr Hc Hi; cbn [accept_run].
  { eexists _, _, ls. split; [done|]. split_and!; done. }
  destruct Hc as (Ht & He & Hc). unfold accept_poll. rewrite listeners_ok_nonempty by done.
  unfold poll_accepting. cbn [mbind outcome_bind mret].
  destruct (poll i) as [[c|e]|] eqn:Ep; [|by destruct (He i e)|].
  - eexists _, _, _. split; [done|]. split_and!; try done.
    + destruct Hok as (? & ? & ?). unfold listeners_ok; cbn. by rewrite length_alter.
    + pose proof (calm_last _ _ Hc) as Hl. unfold ready_from; cbn.
      apply Forall_alter; [|intros b _ _; cbn; exact Hl].
      apply (ready_from_le t); [|done]. unfold last_time in *. lia.
    + intros c' now' poll' evs' [= <- <- _] Hp. congruence.
  - destruct (IH now ls Hok (ready_from_le _ _ _ Ht Hr) Hc Hi) as (r & p & ls' & Ha & H1 & H2 & H3 & H4 & _).
    exists r, p, ls'. split; [exact Ha|]. split_and!; try done.
    intros c' now' poll' evs' [= <- <- _] Hp. congruence.
Qed.

(** A round awaits the listener whose turn it is and moves the turn on,
    however it ends. *)
Lemma round_turn t ev evs ls :
  listeners_ok ls → ready_from t ls → calm t (ev :: evs) →
  ∃ r p ls', accept_run (ev :: evs) Scanning ls = Ret (r, p, ls') ∧ listeners_ok ls' ∧
    ready_from (last_time t (ev :: evs)) ls' ∧
    next_index ls' = ((next_index ls + 1) mod length (listeners ls))%nat ∧
    length (listeners ls') = length (listeners ls) ∧
    (∀ c, snd ev (next_index ls) = Ready (Ok c) → r = Ready (Some (Ok c))).
Proof.
  intros Hok Hr Hc. destruct ev as [now poll]. destruct (Hc) as (Ht & _).
  assert ((next_index ls < length (listeners ls))%nat) as Hn by apply Hok.
  pose proof (poll_scan_turn poll now ls Hok) as Hs.
  rewrite order_head in Hs by (done || by eapply ready_from_at). destruct Hs as [_ Hs].
  set (ls1 := set_next ls _) in *.
  destruct (accepting_calm (next_index ls) ((now, poll) :: evs) t ls1)
    as (r & p & ls' & Ha & H1 & H2 & H3 & H4 & H5); [by apply set_next_ok|done..|].
  exists r, p, ls'. split_and!; [|done..|intros c; by apply (H5 c now poll evs)].
  cbn [accept_run] in *. unfold accept_poll in *. rewrite listeners_ok_nonempty by done.
  rewrite listeners_ok_nonempty in Ha by (by apply set_next_ok).
  by rewrite Hs.
Qed.

(** How many rounds are left until it is the turn of [j]. *)
Definition distance (ls : Listeners) (j : nat) : nat :=
  ((j + length (listeners ls) - next_index ls) mod length (listeners ls))%nat.

Lemma distance_next len next j d :
  (next < len)%nat → (j < len)%nat →
  ((j + len - next) mod len = S d)%nat → ((j + len - (next + 1) mod len) mod len = d)%nat.
Proof.
  intros Hn Hj. destruct (decide (next <= j)%nat) as [Hle|Hgt].
  - replace (j + len - next)%nat with ((j - next) + 1 * len)%nat by lia.
    rewrite Nat.Div0.mod_add, Nat.mod_small by lia. intros Hd.
    rewrite (Nat.mod_small (next + 1)) by lia.
    replace (j + len - (next + 1))%nat with ((j - next - 1) + 1 * len)%nat by lia.
    rewrite Nat.Div0.mod_add, Nat.mod_small by lia. lia.
  - rewrite Nat.mod_small by lia. intros Hd. destruct (decide (next + 1 = len)%nat) as [He|Hne].
    + rewrite He, Nat.Div0.mod_same, Nat.sub_0_r.
      replace (j + len)%nat with (j + 1 * len)%nat by lia.
      rewrite Nat.Div0.mod_add, Nat.mod_small by lia. lia.
    + rewrite (Nat.mod_small (next + 1)), Nat.mod_small by lia. lia.
Qed.

Lemma distance_zero len next j :
  (next < len)%nat → (j < len)%nat → ((j + len - next) mod len = 0)%nat → j = next.
Proof.
  intros Hn Hj. destruct (decide (next <= j)%nat).
  - replace (j + len - next)%nat with ((j - next) + 1 * len)%nat by lia.
    rewrite Nat.Div0.mod_add, Nat.mod_small by lia. lia.
  - rewrite Nat.mod_small by lia. lia.
Qed.

Lemma rounds_reach j c d : ∀ rounds t ls,
  listeners_ok ls → ready_from t ls → calm_rounds t rounds → (j < length (listeners ls))%nat →
  Forall (λ rd : Round, snd (fst rd) j = Ready (Ok c)) rounds →
  distance ls j = d → (d < length rounds)%nat →
  ∃ rs ls', serve_rounds rounds ls = Ret (rs, ls') ∧ rs !! d = Some (Ready (Some (Ok c))).
Proof.
  induction d as [|d IH]; intros [|[ev evs] rounds] t ls Hok Hr Hc Hj Hw Hd Hl; cbn in Hl; try lia.
  all: destruct Hc as [Hc Hcs]; apply Forall_cons in Hw as [Hp Hw]; cbn [serve_rounds].
  all: destruct (round_turn t ev evs ls Hok Hr Hc) as (r & p & ls1 & -> & Hok1 & Hr1 & Hn1 & Hl1 & Hres).
  all: cbn [mbind outcome_bind].
  - assert (j = next_index ls) as -> by (eapply distance_zero; [apply Hok|done|exact Hd]).
    rewrite (Hres c Hp).
    assert (∃ rs ls', serve_rounds rounds ls1 = Ret (rs, ls')) as (rs & ls' & Hs).
    { clear -Hok1 Hr1 Hcs. revert ls1 Hok1 Hr1 Hcs. generalize (last_time t (ev :: evs)).
      induction rounds as [|[ev' evs'] rounds IH]; intros t' ls1 Hok1 Hr1 Hcs; [by eexists _, _|].
      destruct Hcs as [Hc Hcs]. cbn [serve_rounds].
      destruct (round_turn t' ev' evs' ls1 Hok1 Hr1 Hc) as (r & p & ls2 & -> & Hok2 & Hr2 & _).
      destruct (IH _ ls2 Hok2 Hr2 Hcs) as (rs & ls' & Hs). eexists _, _. cbn. by rewrite Hs. }
    eexists _, _. by rewrite Hs.
  - destruct (IH rounds _ ls1 Hok1 Hr1 Hcs) as (rs & ls' & Hs & Hg); [by rewrite Hl1|done| |lia|].
    + unfold distance. rewrite Hl1, Hn1. eapply distance_next; [apply Hok|done|exact Hd].
    + eexists _, _. rewrite Hs. by split.
Qed.

(** ** Properties *)

(** A failing listener is retried later and later: after [k] errors in a
    row the next retry waits [min(50ms * 2^k, 2s)], one success resets it,
    and an error makes the listener wait exactly the delay reached so far. *)
Theorem backoff_delays t0 evs t :
  let b := foldl backoff_step (BackoffState_new t0) evs in
  current b = Z.min (BASE * 2 ^ Z.of_nat (trailing_errors evs)) MAX ∧
  (BASE <= current b <= MAX)%Z ∧
  next_ready (on_error t b) = (t + Z.min (BASE * 2 ^ Z.of_nat (trailing_errors evs)) MAX)%Z ∧
  (∀ now, is_ready (on_error t b) now = true ↔ (t + current b <= now)%Z) ∧
  is_ready (on_success t b) t = true.
Proof.
  intros b. destruct (backoff_run t0 evs) as [_ Hc]. fold b in Hc.
  assert (1 <= 2 ^ Z.of_nat (trailing_errors evs))%Z as Hp.
  { apply Z.lt_pred_le. cbn. apply Z.pow_pos_nonneg; lia. }
  split; [done|]. split; [rewrite Hc; unfold BASE, MAX; lia|]. split_and!.
  - cbn. by rewrite Hc.
  - intros now. unfold is_ready; cbn. apply Z.leb_le.
  - unfold is_ready; cbn. apply Z.leb_refl.
Qed.

(** [accept] never panics and never reports closed listeners, however it
    is polled, cancelled and restarted; when every listener backs off it
    sleeps, and after the sleep one pass finds a listener whose time has
    come, so the loop does not spin. *)
Theorem accept_progress poll now p ls :
  listeners_ok ls → phase_ok ls p →
  ∃ r p' ls', accept_poll poll now p ls = Ret (r, p', ls') ∧ r ≠ Ready None ∧
    listeners_ok ls' ∧ phase_ok ls' p' ∧
    (p = Scanning → ∀ t, p' = Sleeping t → r = Pending →
       ∀ now', (t <= now')%Z → is_Some (turn ls' now')).
Proof.
  intros Hok Hp. destruct (accept_poll_ok poll now p ls Hok Hp) as (r & p' & ls' & Ha & Hr & H1 & H2).
  exists r, p', ls'. split_and!; try done. intros -> t -> ->.
  unfold accept_poll in Ha. rewrite listeners_ok_nonempty in Ha by done.
  pose proof (poll_scan_turn poll now ls Hok) as H. destruct (turn ls now) as [i|].
  - destruct H as [_ H]. rewrite H in Ha. unfold poll_accepting in Ha.
    by destruct (poll i) as [[c|e]|].
  - destruct H as (t' & Ht & Hw). rewrite Ht in Ha. by injection Ha as <- <-.
Qed.

(** [accept] waits on one listener only: once the scan settled on
    listener [i], the future stays pending for as long as listener [i] has no
    connection, whatever connections wait at the others and however often it
    is polled. *)
Theorem accept_waits_on_one (poll0 : nat → Poll (result Conn IoError)) now i ls events :
  listeners_ok ls → turn ls now = Some i → poll0 i = Pending →
  Forall (λ ev, ev.2 i = Pending) events →
  ∃ ls', accept_run ((now, poll0) :: events) Scanning ls = Ret (Pending, Accepting i, ls').
Proof.
  intros Hok Ht Hp He. pose proof (poll_scan_turn poll0 now ls Hok) as H. rewrite Ht in H.
  destruct H as [Hi H]. cbn [accept_run]. unfold accept_poll.
  rewrite listeners_ok_nonempty, H by done. cbn. unfold poll_accepting. rewrite Hp. cbn.
  pose proof (set_next_ok ls (i + 1) Hok) as Hok'. clear H.
  generalize dependent (set_next ls ((i + 1) mod length (listeners ls))). intros ls1 Hok1.
  induction He as [|[t q] events Hq _ IH]; [by eexists|].
  cbn [accept_run]. unfold accept_poll. rewrite listeners_ok_nonempty by done. cbn.
  unfold poll_accepting. cbn in Hq. rewrite Hq. cbn. apply IH.
Qed.

(** With connections waiting everywhere, successive accepts serve the
    listeners in rotation, none twice before every other once. *)
Theorem accept_round_robin n conn now ls :
  listeners_ok ls → (∀ i, (i < length (listeners ls))%nat → ready_at ls now i = true) →
  ∃ ls', accepts n conn now ls =
    Ret (map (λ k, conn ((next_index ls + k) mod length (listeners ls))%nat) (seq 0 n), ls').
Proof. apply accepts_spec. Qed.

(** A server that was built always has a listener: [listen] either fails
    with the first error of a bind, or gives at least one listener, each with
    a fresh back-off state, in the order they were added. *)
Theorem listen_ok (bind_tcp : Addr → result L IoError) (bind_unix : Path → result L IoError)
    bind_default (local_addr : L → result LocalAddr IoError) now b ls :
  builder_listen bind_tcp bind_unix bind_default local_addr now b = Ok ls →
  listeners_ok ls ∧ next_index ls = 0%nat ∧
  (∀ i, (i < length (listeners ls))%nat → ready_at ls now i = true) ∧
  ∃ l, listeners ls = (b_listeners b ++ l)%list.
Proof.
  assert (∀ A (bind : A → result L IoError) addrs acc l,
    bind_all bind addrs acc = Ok l → ∃ r, l = (acc ++ r)%list) as Hb.
  { intros A bind addrs. induction addrs as [|a addrs IH]; cbn; intros acc l.
    - intros [= <-]. exists []. by rewrite app_nil_r.
    - unfold result_bind. destruct (bind a); [|done]. intros [r ->]%IH.
      eexists. by rewrite <-app_assoc. }
  unfold builder_listen, result_bind.
  destruct (bind_all bind_tcp _ _) as [l1|] eqn:E1; [|done].
  destruct (bind_all bind_unix _ _) as [l2|] eqn:E2; [|done].
  destruct (Hb _ _ _ _ _ E1) as [r1 ->]. destruct (Hb _ _ _ _ _ E2) as [r2 ->].
  destruct (match ((b_listeners b ++ r1) ++ r2)%list with [] => _ | _ => _ end) as [l3|] eqn:E3; [|done].
  intros [= <-]. assert (l3 ≠ [] ∧ ∃ l, l3 = (b_listeners b ++ l)%list) as [Hne Hl].
  { destruct ((b_listeners b ++ r1) ++ r2)%list as [|x l4] eqn:E4.
    - destruct bind_default; [|done]. injection E3 as <-. split; [done|].
      apply app_nil in E4 as [[E4 _]%app_nil _]. rewrite E4. by eexists.
    - injection E3 as <-. split; [done|]. rewrite <-E4, <-app_assoc. by eexists. }
  unfold listeners_ok; cbn. rewrite length_map. split_and!; try done.
  - destruct l3; [done|]. cbn; lia.
  - intros i Hi. unfold ready_at; cbn. rewrite list_lookup_fmap.
    destruct (lookup_lt_is_Some_2 _ _ Hi) as [x ->]. cbn. unfold is_ready; cbn.
    apply Z.leb_refl.
Qed.
(** C31: No listener is starved for good.  While no listener fails, in the
    rounds of the server's loop, each of which ends with a connection or
    because a connection task ended, the listeners take turns; so a
    connection that waits at listener [j] is accepted within as many rounds as
    there are listeners.  But a round waits for the listener whose turn it is,
    and for no other: it lasts until that one has a connection or a task ends,
    whatever waits elsewhere. *)
Theorem accept_turns (rounds : list Round) t j c ls :
  listeners_ok ls → ready_from t ls → calm_rounds t rounds → (j < length (listeners ls))%nat →
  Forall (λ rd : Round, snd (fst rd) j = Ready (Ok c)) rounds →
  (length (listeners ls) <= length rounds)%nat →
  (∃ rs ls' k, serve_rounds rounds ls = Ret (rs, ls') ∧ (k < length (listeners ls))%nat ∧
     rs !! k = Some (Ready (Some (Ok c)))) ∧
  ∀ now i (poll0 : nat → Poll (result Conn IoError)) events,
    turn ls now = Some i → poll0 i = Pending → Forall (λ ev, ev.2 i = Pending) events →
    ∃ ls', accept_run ((now, poll0) :: events) Scanning ls = Ret (Pending, Accepting i, ls').
Proof.
  intros Hok Hr Hc Hj Hw Hl. split; [|intros now i poll0 events; by apply accept_waits_on_one].
  assert (distance ls j < length (listeners ls))%nat as Hd by (apply Nat.mod_upper_bound; lia).
  destruct (rounds_reach j c _ rounds t ls Hok Hr Hc Hj Hw eq_refl) as (rs & ls' & Hs & Hg); [lia|].
  by exists rs, ls', (distance ls j).
Qed.
End listener.

(** ** Witnesses: two listeners *)

Section examples.
Let two : Listeners (L := nat) (LocalAddr := nat) :=
  mkListeners [0%nat; 1%nat] [] [BackoffState_new 0; BackoffState_new 0] 0.

Lemma two_ok : listeners_ok two.
Proof. split_and!; cbn; done || lia. Qed.

Lemma accept_progress_witness :
  ∃ r p' ls', accept_poll (Conn := nat) (IoError := nat) (λ _, Pending) 5 Scanning two =
      Ret (r, p', ls') ∧ r ≠ Ready None ∧ listeners_ok ls' ∧ phase_ok ls' p' ∧
    (Scanning = Scanning → ∀ t, p' = Sleeping t → r = Pending →
       ∀ now', (t <= now')%Z → is_Some (turn ls' now')).
Proof. apply (accept_progress (λ _, Pending) 5 Scanning two); [exact two_ok|exact I]. Defined.

Lemma accept_round_robin_witness :
  ∃ ls', accepts (IoError := nat) 3 (λ i, i) 5 two = Ret ([0; 1; 0]%nat, ls').
Proof.
  apply (accept_round_robin (IoError := nat) 3 (λ i, i) 5 two); [exact two_ok|].
  intros [|[|i]] Hi; cbn in Hi; [reflexivity|reflexivity|lia].
Defined.

Lemma accept_waits_on_one_witness :
  let busy := λ i : nat, if bool_decide (i = 0%nat) then Pending else Ready (@Ok nat nat 7%nat) in
  ∃ ls', accept_run [(5%Z, busy); (6%Z, busy); (7%Z, busy)] Scanning two =
    Ret (Pending, Accepting 0, ls').
Proof.
  intros busy. apply (accept_waits_on_one busy 5 0 two [(6%Z, busy); (7%Z, busy)]).
  - exact two_ok.
  - reflexivity.
  - reflexivity.
  - repeat constructor.
Defined.

Lemma accept_turns_witness :
  let busy := λ i : nat, if bool_decide (i = 1%nat) then Ready (@Ok nat nat 7%nat) else Pending in
  let rounds : list (Round (Conn := nat) (IoError := nat)) :=
    [((5%Z, busy), [(6%Z, busy)]); ((7%Z, busy), [])] in
  ∃ rs ls' k, serve_rounds rounds two = Ret (rs, ls') ∧ (k < 2)%nat ∧
    rs !! k = Some (Ready (Some (Ok 7%nat))).
Proof.
  intros busy rounds. apply (accept_turns rounds 0 1 7%nat two).
  - exact two_ok.
  - repeat constructor; cbn; lia.
  - cbn. split_and!; try lia; intros i e; unfold busy; by case_bool_decide.
  - cbn. lia.
  - repeat constructor.
  - cbn. lia.
Defined.

Lemma listen_ok_witness :
  let b := add_listener (Addr := nat) (Path := nat) ListenersBuilder_new 8%nat in
  let ls := mkListeners [8%nat] [8%nat] [BackoffState_new 3] 0 in
  builder_listen (λ a, @Ok nat nat a) (λ p, Ok p) (Ok 0%nat) (λ l, Ok l) 3 b = Ok ls ∧
  listeners_ok ls ∧ next_index ls = 0%nat ∧
  (∀ i, (i < length (listeners ls))%nat → ready_at ls 3 i = true) ∧
  ∃ l, listeners ls = (b_listeners b ++ l)%list.
Proof.
  intros b ls. split; [reflexivity|].
  apply (listen_ok (λ a, @Ok nat nat a) (λ p, Ok p) (Ok 0%nat) (λ l, Ok l) 3 b ls). reflexivity.
Defined.
End examples.
