(* ===== verification/Tls.v ===== *)
(** * TLS: certificates and listeners
    (silent/src/server/tls.rs, the TLS listeners of
    silent/src/server/listener.rs)

    Files, PEM parsing and rustls are parameters.  The accept future of a TLS
    listener is modelled poll by poll, inside the accept future of
    [Listener] and the [select!] of the server's loop, which drops it whenever
    a connection's task ends. *)

From S2P Require Import Prelude Str Platform Addr Form Listener Streams.

(** ** Certificate stores *)

Inductive KeyDer := Pkcs8 (der : string) | Pkcs1 (der : string).

Record CertificateStore := mkStore {
  cert_chain : list string;
  key_der : KeyDer;
  client_root : string;
}.

Record CertificateStoreBuilder := mkStoreBuilder {
  b_cert_path : option string;
  b_key_path : option string;
  b_root_ca_path : option string;
}.

Definition StoreBuilder_new : CertificateStoreBuilder := mkStoreBuilder None None None.
Definition set_cert_path (b : CertificateStoreBuilder) (p : string) : CertificateStoreBuilder :=
  mkStoreBuilder (Some p) (b_key_path b) (b_root_ca_path b).
Definition set_key_path (b : CertificateStoreBuilder) (p : string) : CertificateStoreBuilder :=
  mkStoreBuilder (b_cert_path b) (Some p) (b_root_ca_path b).
Definition set_root_ca_path (b : CertificateStoreBuilder) (p : string) : CertificateStoreBuilder :=
  mkStoreBuilder (b_cert_path b) (b_key_path b) (Some p).

(** The messages of the errors. *)
Inductive CertError :=
| NoCertPath | NoKeyPath
| CertNotFound (p : string) | KeyNotFound (p : string)
| ReadFailed (p : string) | CertUnreadable | NoCerts (p : string)
| KeyUnreadable | NoKeys (p : string) | EmptyChain
| RustlsError (e : string).

(** What rustls is configured with: no client authentication. *)
Record RustlsConfig := mkRustls {
  rc_chain : list string;
  rc_key : KeyDer;
  rc_alpn : list string;
}.

Definition looks_like_pem (data : string) : bool := starts_with "-----BEGIN" data.
Definition is_pem_path (path : string) : bool := bool_decide (path_extension path = Some "pem").

Section certificates.
(** The file system and rustls-pemfile. *)
Context (path_exists : string → bool) (fs_read : string → option string).
Context (pem_certs pkcs8_private_keys rsa_private_keys : string → option (list string)).
(** [with_single_cert]: whether rustls takes the chain and the key. *)
Context (with_single_cert : list string → KeyDer → result () string).

Definition is_pem (path data : string) : bool := looks_like_pem data || is_pem_path path.

Definition load_cert_chain (cert_path : string) : result (list string) CertError :=
  match fs_read cert_path with
  | None => Err (ReadFailed cert_path)
  | Some data =>
      if is_pem cert_path data then
        match pem_certs data with
        | None => Err CertUnreadable
        | Some [] => Err (NoCerts cert_path)
        | Some certs => Ok certs
        end
      else Ok [data]
  end.

(** [keys.pop()] takes the last key of the file. *)
Definition load_private_key (key_path : string) : result KeyDer CertError :=
  match fs_read key_path with
  | None => Err (ReadFailed key_path)
  | Some data =>
      if is_pem key_path data then
        match pkcs8_private_keys data with
        | None => Err KeyUnreadable
        | Some keys =>
            match last keys with
            | Some key => Ok (Pkcs8 key)
            | None =>
                match rsa_private_keys data with
                | None => Err KeyUnreadable
                | Some rsa_keys =>
                    match last rsa_keys with
                    | Some key => Ok (Pkcs1 key)
                    | None => Err (NoKeys key_path)
                    end
                end
            end
        end
      else Ok (Pkcs8 data)
  end.

(** One round of the loop over the root's certificates. *)
Definition push_new (chain : list string) (cert : string) : list string :=
  if existsb (λ existing, bool_decide (existing = cert)) chain then chain
  else (chain ++ [cert])%list.

Definition load_cert_chain_with_root (chain : list string) (root_ca_path : option string)
  : result (list string * string) CertError :=
  match chain with
  | [] => Err EmptyChain
  | first :: _ =>
      match root_ca_path with
      | None => Ok (chain, first)
      | Some path =>
          if path_exists path then
            root_chain <-! load_cert_chain path ;;
            Ok (foldl push_new chain root_chain, default first (head root_chain))
          else Ok (chain, first)
      end
  end.

Definition StoreBuilder_build (b : CertificateStoreBuilder) : result CertificateStore CertError :=
  match b_cert_path b, b_key_path b with
  | None, _ => Err NoCertPath
  | _, None => Err NoKeyPath
  | Some cert_path, Some key_path =>
      if negb (path_exists cert_path) then Err (CertNotFound cert_path)
      else if negb (path_exists key_path) then Err (KeyNotFound key_path)
      else
        chain <-! load_cert_chain cert_path ;;
        key <-! load_private_key key_path ;;
        r <-! load_cert_chain_with_root chain (b_root_ca_path b) ;;
        Ok (mkStore (fst r) key (snd r))
  end.

Definition rustls_server_config (s : CertificateStore) (alpn : list string)
  : result RustlsConfig CertError :=
  match with_single_cert (cert_chain s) (key_der s) with
  | Ok _ => Ok (mkRustls (cert_chain s) (key_der s) alpn)
  | Err e => Err (RustlsError e)
  end.

Definition https_config (s : CertificateStore) : result RustlsConfig CertError :=
  rustls_server_config s ["h2"; "http/1.1"].

(** The store behind its lock; a writer that panicked poisons it. *)
Record ReloadableCertificateStore := mkReloadable {
  rl_store : CertificateStore;
  rl_poisoned : bool;
  rl_cert_path : string;
  rl_key_path : string;
  rl_root_ca_path : option string;
}.

Definition builder_of (cert_path key_path : string) (root : option string)
  : CertificateStoreBuilder :=
  let b := set_key_path (set_cert_path StoreBuilder_new cert_path) key_path in
  match root with Some root => set_root_ca_path b root | None => b end.

Definition from_paths (cert_path key_path : string) (root : option string)
  : result ReloadableCertificateStore CertError :=
  store <-! StoreBuilder_build (builder_of cert_path key_path root) ;;
  Ok (mkReloadable store false cert_path key_path root).

(** A poisoned lock is silently not written. *)
Definition reload (r : ReloadableCertificateStore)
  : result () CertError * ReloadableCertificateStore :=
  match StoreBuilder_build (builder_of (rl_cert_path r) (rl_key_path r) (rl_root_ca_path r)) with
  | Err e => (Err e, r)
  | Ok store =>
      (Ok (), if rl_poisoned r then r
              else mkReloadable store false (rl_cert_path r) (rl_key_path r) (rl_root_ca_path r))
  end.

Definition https_acceptor (r : ReloadableCertificateStore) : outcome (result RustlsConfig CertError) :=
  if rl_poisoned r then Panic else Ret (https_config (rl_store r)).

(** ** Lemmas: certificates *)

Lemma push_new_prefix chain l : chain `prefix_of` foldl push_new chain l.
Proof.
  revert chain. induction l as [|c l IH]; intros chain; [done|]. cbn. etrans; [|apply IH].
  unfold push_new. destruct (existsb _ chain); [done|]. by exists [c].
Qed.

Lemma push_new_elem chain l c : c ∈ foldl push_new chain l ↔ c ∈ chain ∨ c ∈ l.
Proof.
  revert chain. induction l as [|x l IH]; intros chain; cbn; [set_solver|].
  rewrite IH. unfold push_new. destruct (existsb _ chain) eqn:E; [|set_solver].
  apply existsb_exists in E as (y & Hy%list_elem_of_In & ->%bool_decide_eq_true). set_solver.
Qed.

Lemma push_new_nodup chain l : NoDup chain → NoDup (foldl push_new chain l).
Proof.
  revert chain. induction l as [|x l IH]; intros chain Hn; [done|]. cbn. apply IH.
  unfold push_new. destruct (existsb _ chain) eqn:E; [done|]. apply NoDup_app.
  split_and!; [done| |by apply NoDup_singleton]. intros y Hy ->%list_elem_of_singleton.
  enough (existsb (λ e, bool_decide (e = x)) chain = true) by congruence.
  apply existsb_exists. exists x. split; [by apply list_elem_of_In|by apply bool_decide_eq_true].
Qed.

Lemma load_cert_chain_nonempty path chain : load_cert_chain path = Ok chain → chain ≠ [].
Proof.
  unfold load_cert_chain. repeat case_match; try done; intros [= <-]; done.
Qed.

(** A store that was built: its own certificates come first and in order, the
    root's follow without repeating any, and the client root is the root
    file's first certificate, or else the server's own. *)
Lemma store_build_ok b s :
  StoreBuilder_build b = Ok s →
  ∃ cert_path key_path own,
    b_cert_path b = Some cert_path ∧ b_key_path b = Some key_path ∧
    load_cert_chain cert_path = Ok own ∧ load_private_key key_path = Ok (key_der s) ∧
    own ≠ [] ∧ own `prefix_of` cert_chain s ∧ (NoDup own → NoDup (cert_chain s)) ∧
    match b_root_ca_path b with
    | Some root =>
        if path_exists root then
          ∃ certs, load_cert_chain root = Ok certs ∧ head certs = Some (client_root s) ∧
            ∀ c, c ∈ cert_chain s ↔ c ∈ own ∨ c ∈ certs
        else cert_chain s = own ∧ head own = Some (client_root s)
    | None => cert_chain s = own ∧ head own = Some (client_root s)
    end.
Proof.
  unfold StoreBuilder_build.
  destruct (b_cert_path b) as [cp|]; [|done]. destruct (b_key_path b) as [kp|]; [|done].
  destruct (path_exists cp); [|done]. destruct (path_exists kp); [|done]. cbn [negb].
  destruct (load_cert_chain cp) as [own|] eqn:Eo; [|done]. cbn [result_bind].
  destruct (load_private_key kp) as [key|] eqn:Ek; [|done]. cbn [result_bind].
  destruct (load_cert_chain_with_root own (b_root_ca_path b)) as [[chain root]|] eqn:Er; [|done].
  cbn [result_bind fst snd]. intros [= <-]. cbn [key_der cert_chain client_root].
  exists cp, kp, own. pose proof (load_cert_chain_nonempty _ _ Eo) as Hne.
  do 5 (split; [done|]). unfold load_cert_chain_with_root in Er.
  destruct own as [|first rest]; [done|].
  destruct (b_root_ca_path b) as [rp|]; [|by injection Er as <- <-].
  destruct (path_exists rp); [|by injection Er as <- <-].
  destruct (load_cert_chain rp) as [certs|] eqn:Ec; [|done]. cbn [result_bind] in Er.
  injection Er as <- <-. split_and!; [apply push_new_prefix|apply push_new_nodup|].
  exists certs. pose proof (load_cert_chain_nonempty _ _ Ec).
  split_and!; [done|by destruct certs|apply push_new_elem].
Qed.

(** Reloading replaces the store as a whole or leaves it alone: a store that
    cannot be built anew stays in service. *)
Lemma reload_atomic r :
  match reload r with
  | (Err _, r') => r' = r
  | (Ok _, r') =>
      (rl_cert_path r', rl_key_path r', rl_root_ca_path r', rl_poisoned r') =
        (rl_cert_path r, rl_key_path r, rl_root_ca_path r, rl_poisoned r) ∧
      if rl_poisoned r then r' = r
      else StoreBuilder_build (builder_of (rl_cert_path r) (rl_key_path r) (rl_root_ca_path r)) =
             Ok (rl_store r')
  end.
Proof.
  unfold reload. destruct (StoreBuilder_build _) as [s|]; [|done].
  destruct (rl_poisoned r) eqn:E; cbn; by rewrite ?E.
Qed.
End certificates.

(** ** Accepting TLS connections *)

Section accepting.
Context {L LocalAddr IoError Stream Tls : Type}.

(** Where [TlsListener::accept] is suspended: waiting for a TCP connection, or
    in the handshake of one. *)
Inductive TlsPhase :=
| TlsAccept
| TlsHandshake (s : Stream).

(** One poll of [TlsListener::accept].  [backlog] is what the TCP listener
    has; [hs] is what the handshake answers now. *)
Definition tls_poll (hs : Stream → Poll (result Tls IoError)) (phase : TlsPhase)
    (backlog : list (result Stream IoError))
  : Poll (result Tls IoError) * TlsPhase * list (result Stream IoError) :=
  let handshake s rest :=
    match hs s with
    | Pending => (Pending, TlsHandshake s, rest)
    | Ready r => (Ready r, TlsAccept, rest)
    end in
  match phase, backlog with
  | TlsHandshake s, _ => handshake s backlog
  | TlsAccept, [] => (Pending, TlsAccept, [])
  | TlsAccept, Err e :: rest => (Ready (Err e), TlsAccept, rest)
  | TlsAccept, Ok s :: rest => handshake s rest
  end.

(** What became of a connection. *)
Inductive Fate :=
| Served (t : Tls)
| Failed (e : IoError)
| Dropped.

(** The server's loop with one TLS listener. *)
Record TlsLoop := mkTlsLoop {
  tl_listeners : Listeners (L := L) (LocalAddr := LocalAddr);
  tl_accept : AcceptPhase;
  tl_phase : TlsPhase;
  tl_backlog : list (result Stream IoError);
  tl_fates : list (Stream * Fate);
}.

(** One wake-up of the loop: the time, the connections that arrived, the state
    of the handshakes, and whether a connection's task has ended. *)
Record TlsEvent := mkTlsEvent {
  te_now : Z;
  te_arrivals : list (result Stream IoError);
  te_handshake : Stream → Poll (result Tls IoError);
  te_task_done : bool;
}.

(** The connection [tls_poll] works on. *)
Definition handshaking (phase : TlsPhase) (backlog : list (result Stream IoError)) : list Stream :=
  match phase, backlog with
  | TlsHandshake s, _ => [s]
  | TlsAccept, Ok s :: _ => [s]
  | _, _ => []
  end.
Definition suspended (phase : TlsPhase) : list Stream :=
  match phase with TlsHandshake s => [s] | TlsAccept => [] end.

(** The [select!] of [NetServer::serve_connection_loop], shutdown aside: the
    accept future is polled first; if it is pending and a task has ended, it
    is dropped, and a new one is made for the next round. *)
Definition tls_loop_step (s : TlsLoop) (e : TlsEvent) : outcome TlsLoop :=
  let backlog := (tl_backlog s ++ te_arrivals e)%list in
  let '(answer, phase, rest) := tls_poll (te_handshake e) (tl_phase s) backlog in
  let current := handshaking (tl_phase s) backlog in
  '(res, accept, ls) ← accept_poll (λ _, answer) (te_now e) (tl_accept s) (tl_listeners s);
  let slept := match res, accept with Pending, Sleeping _ => true | _, _ => false end in
  let '(phase, backlog) := if slept then (tl_phase s, backlog) else (phase, rest) in
  mret (match res with
        | Ready (Some (Ok c)) =>
            mkTlsLoop ls Scanning TlsAccept backlog
              (tl_fates s ++ map (λ x, (x, Served c)) current)%list
        | Ready (Some (Err e)) =>
            mkTlsLoop ls Scanning TlsAccept backlog
              (tl_fates s ++ map (λ x, (x, Failed e)) current)%list
        | Ready None => mkTlsLoop ls Scanning phase backlog (tl_fates s)
        | Pending =>
            if te_task_done e
            then mkTlsLoop ls Scanning TlsAccept backlog
                   (tl_fates s ++ map (λ x, (x, Dropped)) (suspended phase))%list
            else mkTlsLoop ls accept phase backlog (tl_fates s)
        end).

Fixpoint tls_loop_run (s : TlsLoop) (evs : list TlsEvent) : outcome TlsLoop :=
  match evs with
  | [] => mret s
  | e :: evs => s ← tls_loop_step s e; tls_loop_run s evs
  end.

(** [Listeners] of one listener, just bound. *)
Definition tls_loop_init (l : L) (addrs : list LocalAddr) (now : Z) : TlsLoop :=
  mkTlsLoop (mkListeners [l] addrs [BackoffState_new now] 0) Scanning TlsAccept [] [].

(** ** Lemmas *)

Record tls_ok (s : TlsLoop) : Prop := {
  tls_one : ∃ l b addrs, tl_listeners s = mkListeners [l] addrs [b] 0;
  tls_phases : match tl_accept s with
               | Accepting i => i = 0%nat
               | _ => tl_phase s = TlsAccept
               end;
}.

Definition the_backoff (s : TlsLoop) : BackoffState :=
  default (BackoffState_new 0) (head (backoff_states (tl_listeners s))).

(** One listener: either it is polled, or it is in its back-off. *)
Lemma accept_one (poll : nat → Poll (result Tls IoError)) now phase (l : L) b (addrs : list LocalAddr) :
  (match phase with Accepting i => i = 0%nat | _ => True end) →
  accept_poll poll now phase (mkListeners [l] addrs [b] 0) =
    if match phase with
       | Accepting _ => true
       | Scanning => is_ready b now
       | Sleeping until => (until <=? now)%Z && is_ready b now
       end
    then Ret (poll_accepting poll now (mkListeners [l] addrs [b] 0) 0)
    else Ret (Pending, Sleeping (match phase with
                                 | Sleeping until => if (until <=? now)%Z then next_ready b else until
                                 | _ => next_ready b
                                 end), mkListeners [l] addrs [b] 0).
Proof.
  intros Hp. unfold accept_poll. cbn [listeners length Nat.eqb].
  assert (poll_scan poll now (mkListeners [l] addrs [b] 0) =
    if is_ready b now then Ret (poll_accepting poll now (mkListeners [l] addrs [b] 0) 0)
    else Ret (Pending, Sleeping (next_ready b), mkListeners [l] addrs [b] 0)) as Hscan.
  { unfold poll_scan. cbn. unfold index. cbn. by destruct (is_ready b now). }
  rewrite bool_decide_eq_false_2 by done. destruct phase as [|i|u]; [exact Hscan|by subst|].
  destruct (u <=? now)%Z; cbn [andb]; [exact Hscan|done].
Qed.

(** Whether a wake-up polls the listener. *)
Definition polled (s : TlsLoop) (now : Z) : bool :=
  match tl_accept s with
  | Accepting _ => true
  | Scanning => is_ready (the_backoff s) now
  | Sleeping until => (until <=? now)%Z && is_ready (the_backoff s) now
  end.

Definition set_the_backoff (s : TlsLoop) (f : BackoffState → BackoffState) : Listeners :=
  set_backoff (tl_listeners s) 0 f.

(** The step of the loop, case by case. *)
Lemma tls_step_eq s e :
  tls_ok s →
  let backlog := (tl_backlog s ++ te_arrivals e)%list in
  let current := handshaking (tl_phase s) backlog in
  let '(answer, phase, rest) := tls_poll (te_handshake e) (tl_phase s) backlog in
  ∃ s', tls_loop_step s e = Ret s' ∧ tls_ok s' ∧
  if polled s (te_now e) then
    match answer with
    | Ready r =>
        tl_fates s' = (tl_fates s ++ map (λ x, (x, match r with Ok c => Served c | Err e => Failed e end))
                                       current)%list ∧
        tl_phase s' = TlsAccept ∧ tl_backlog s' = rest ∧ tl_accept s' = Scanning ∧
        the_backoff s' = (if is_ok r then on_success else on_error) (te_now e) (the_backoff s)
    | Pending =>
        tl_fates s' = (tl_fates s ++ if te_task_done e then map (λ x, (x, Dropped)) (suspended phase)
                                     else [])%list ∧
        tl_phase s' = (if te_task_done e then TlsAccept else phase) ∧ tl_backlog s' = rest ∧
        the_backoff s' = the_backoff s
    end
  else
    tl_fates s' = tl_fates s ∧ tl_phase s' = TlsAccept ∧ tl_backlog s' = backlog ∧
    the_backoff s' = the_backoff s.
Proof.
  intros [(l & b & addrs & Hls) Hph] backlog current.
  destruct (tls_poll (te_handshake e) (tl_phase s) backlog) as [[answer phase] rest] eqn:Et.
  assert (the_backoff s = b) as Hb by by unfold the_backoff; rewrite Hls.
  unfold tls_loop_step. fold backlog. rewrite Et, Hls. fold current.
  rewrite accept_one by by destruct (tl_accept s).
  unfold polled. rewrite Hb.
  destruct (match tl_accept s with Scanning => _ | Accepting _ => _ | Sleeping _ => _ end) eqn:Hp.
  - unfold poll_accepting. destruct answer as [[c|err]|]; cbn.
    1-2: eexists; split; [reflexivity|]; split; [constructor; [by eexists _, _, _|by cbn]|];
      by split_and!.
    destruct (te_task_done e); (eexists; split; [reflexivity|]);
      (split; [constructor; [by eexists _, _, _|by cbn]|]); cbn; rewrite ?app_nil_r; by split_and!.
  - assert (tl_phase s = TlsAccept) as Hta by by destruct (tl_accept s). rewrite Hta. cbn.
    destruct (te_task_done e); (eexists; split; [reflexivity|]);
      (split; [constructor; [by eexists _, _, _|by cbn]|]); cbn; rewrite ?app_nil_r; by split_and!.
Qed.
Lemma tls_poll_conserves hs phase backlog :
  let '(answer, phase', rest) := tls_poll hs phase backlog in
  (suspended phase ++ omap (M := list) ok backlog =
   match answer with Ready _ => handshaking phase backlog | Pending => suspended phase' end ++
   omap (M := list) ok rest)%list.
Proof.
  unfold tls_poll. destruct phase as [|s].
  - destruct backlog as [|[s|e] rest]; [done| |done]. by destruct (hs s) as [[]|].
  - by destruct (hs s) as [[]|].
Qed.

Definition is_dropped (f : Stream * Fate) : bool := match snd f with Dropped => true | _ => false end.

Definition arrived (evs : list TlsEvent) : list Stream :=
  omap (M := list) ok (concat (map te_arrivals evs)).

(** The connections a state knows of, in the order they arrived. *)
Definition known (s : TlsLoop) : list Stream :=
  (map fst (tl_fates s) ++ suspended (tl_phase s) ++ omap (M := list) ok (tl_backlog s))%list.

Definition dropped (s : TlsLoop) : nat := length (List.filter is_dropped (tl_fates s)).

Lemma map_fst_pair {A B} (b : B) (l : list A) : map fst (map (λ x, (x, b)) l) = l.
Proof. rewrite map_map. apply map_id. Qed.

Lemma tls_step_accounts s e :
  tls_ok s → ∃ s', tls_loop_step s e = Ret s' ∧ tls_ok s' ∧
    known s' = (known s ++ omap (M := list) ok (te_arrivals e))%list ∧
    (dropped s' <= dropped s + if te_task_done e then 1 else 0)%nat.
Proof.
  intros Hok. pose proof (tls_step_eq s e Hok) as H. cbv zeta in H.
  pose proof (tls_poll_conserves (te_handshake e) (tl_phase s) (tl_backlog s ++ te_arrivals e)%list) as Hc.
  destruct (tls_poll _ _ _) as [[answer phase] rest]. destruct H as (s' & Hs & Hok' & H).
  exists s'. split; [done|]. split; [done|]. unfold known, dropped.
  assert (∀ x (f : Fate), f ≠ Dropped → List.filter is_dropped (map (λ y : Stream, (y, f)) x) = []) as Hnd.
  { intros x f Hf. induction x as [|y x IH]; [done|]. cbn. by destruct f. }
  rewrite omap_app in Hc. destruct (polled s (te_now e)) eqn:Hp.
  - destruct answer as [r|].
    + destruct H as (-> & -> & -> & _ & _). rewrite map_app, map_fst_pair, List.filter_app, Hnd by by destruct r.
      rewrite app_nil_r. split; [|lia]. rewrite <- !app_assoc. f_equal. cbn [suspended app]. by rewrite <-Hc.
    + destruct H as (-> & -> & -> & _). destruct (te_task_done e).
      * rewrite map_app, map_fst_pair, List.filter_app, length_app. split.
        { rewrite <- !app_assoc. f_equal. cbn [suspended app]. by rewrite <-Hc. }
        destruct phase; cbn; lia.
      * rewrite app_nil_r. split; [|lia]. rewrite <- !app_assoc. f_equal. by rewrite <-Hc.
  - destruct H as (-> & Hph & -> & _). split; [|lia]. rewrite Hph, omap_app, <- !app_assoc.
    assert (tl_phase s = TlsAccept) as ->; [|done].
    pose proof (tls_phases _ Hok) as Hq. unfold polled in Hp. by destruct (tl_accept s).
Qed.

Lemma tls_run_accounts s evs :
  tls_ok s → ∃ s', tls_loop_run s evs = Ret s' ∧ tls_ok s' ∧
    known s' = (known s ++ arrived evs)%list ∧
    (dropped s' <= dropped s + length (List.filter te_task_done evs))%nat.
Proof.
  revert s. induction evs as [|e evs IH]; intros s Hok.
  { exists s. unfold arrived. cbn. rewrite app_nil_r. split_and!; [done..|lia]. }
  destruct (tls_step_accounts s e Hok) as (s1 & H1 & Hok1 & Hk1 & Hd1).
  destruct (IH s1 Hok1) as (s2 & H2 & Hok2 & Hk2 & Hd2). exists s2. cbn [tls_loop_run].
  rewrite H1. cbn [mbind outcome_bind]. split_and!; [done|done| |].
  - rewrite Hk2, Hk1. unfold arrived. cbn [map concat]. by rewrite omap_app, app_assoc.
  - cbn [List.filter]. destruct (te_task_done e); cbn; lia.
Qed.

(** C36: Connections on a TLS listener, under the server's loop and whatever
    arrives: the loop never panics, and every connection is accounted for in
    the order it arrived: served, failed, dropped, in its handshake, or still
    waiting; at most one is dropped for each connection task that ends.  But
    accepting includes the handshake: while a handshake is under way nothing
    else is accepted, when some other connection's task ends in the meantime
    the handshaking connection is dropped, though its client did nothing
    wrong, and a handshake that fails keeps everybody out for the listener's
    back-off time. *)
Theorem tls_listener_accounts l addrs t0 evs :
  ∃ s, tls_loop_run (tls_loop_init l addrs t0) evs = Ret s ∧
    arrived evs = (map fst (tl_fates s) ++ suspended (tl_phase s) ++
                   omap (M := list) ok (tl_backlog s))%list ∧
    (length (List.filter is_dropped (tl_fates s)) <= length (List.filter te_task_done evs))%nat ∧
    ∀ e c, tl_phase s = TlsHandshake c →
    ∃ s', tls_loop_step s e = Ret s' ∧ tl_backlog s' = (tl_backlog s ++ te_arrivals e)%list ∧
      match te_handshake e c with
      | Pending => tl_fates s' = (tl_fates s ++ if te_task_done e then [(c, Dropped)] else [])%list
      | Ready (Ok t) => tl_fates s' = (tl_fates s ++ [(c, Served t)])%list
      | Ready (Err err) =>
          tl_fates s' = (tl_fates s ++ [(c, Failed err)])%list ∧
          ∀ e', (te_now e' < te_now e + current (the_backoff s))%Z →
            ∃ s'', tls_loop_step s' e' = Ret s'' ∧ tl_fates s'' = tl_fates s' ∧
              tl_backlog s'' = (tl_backlog s' ++ te_arrivals e')%list
      end.
Proof.
  assert (tls_ok (tls_loop_init l addrs t0)) as Hinit by (split; [by eexists _, _, _|done]).
  destruct (tls_run_accounts _ evs Hinit) as (s & Hrun & Hok & Hk & Hd).
  exists s. split_and!; [done|by unfold known in Hk|done|]. intros e c Hc.
  pose proof (tls_step_eq s e Hok) as H. cbv zeta in H.
  assert (polled s (te_now e) = true) as Hp.
  { pose proof (tls_phases _ Hok) as Hq. unfold polled. by destruct (tl_accept s); rewrite ?Hc in Hq. }
  unfold tls_poll, handshaking in H. rewrite Hc, Hp in H.
  destruct (te_handshake e c) as [[t|err]|]; destruct H as (s' & Hs & Hok' & H); exists s'.
  - destruct H as (Hf & _ & Hb & _). by split_and!.
  - destruct H as (Hf & Hph & Hb & Ha & Hbk). split_and!; [done..|]. intros e' He'.
    pose proof (tls_step_eq s' e' Hok') as H'. cbv zeta in H'.
    destruct (tls_poll _ _ _) as [[a' ph'] r']. destruct H' as (s'' & Hs'' & _ & H').
    assert (polled s' (te_now e') = false) as Hp'.
    { unfold polled. rewrite Ha, Hbk. unfold is_ready. cbn. by apply Z.leb_gt. }
    rewrite Hp' in H'. exists s''. by destruct H' as (-> & _ & -> & _).
  - destruct H as (Hf & _ & Hb & _). by split_and!.
Qed.
End accepting.

(** ** The other listeners *)

Section listeners.
Context {P : Platform} {T : Ipv6Text}.
Context {TcpSock UnixSock TlsStream IoError : Type}.

(** What a plain listener hands over. *)
Abbreviation Plain := (Stream TcpSock UnixSock).

(** [Listener::accept] of a TCP socket: a connection whose [set_nodelay] fails
    is an error of the listener.  *)
Definition tcp_accept (set_nodelay : TcpSock → result () IoError)
    (accepted : result (TcpSock * NetAddr) IoError) : result (Plain * SocketAddr) IoError :=
  a <-! accepted;;
  _ <-! set_nodelay (fst a);;
  Ok (TcpStream (fst a), Tcp (snd a)).

(** Of a Unix socket: the address reported is the local one of the
    connection. *)
Definition unix_accept {A} (local_addr : UnixSock → result (option string) IoError)
    (accepted : result (UnixSock * A) IoError) : result (Plain * SocketAddr) IoError :=
  a <-! accepted;;
  local <-! local_addr (fst a);;
  Ok (UnixStream (fst a), Unix local).

(** [TlsListener::local_addr] *)
Definition tls_local_addr (local_addr : result SocketAddr IoError) : result SocketAddr IoError :=
  a <-! local_addr;; Ok (SocketAddr_tls a).

(** [ReloadableTlsListener::accept]: the acceptor is made from the store when
    the TCP connection is there, and kept for its handshake. *)
Inductive ReloadPhase {Acceptor : Type} :=
| ReloadAccept
| ReloadHandshake (a : Acceptor) (s : Plain).
#[global] Arguments ReloadPhase : clear implicits.

Definition reload_poll {Acceptor} (acceptor : outcome (result Acceptor IoError))
    (hs : Acceptor → Plain → Poll (result TlsStream IoError)) (phase : ReloadPhase Acceptor)
    (backlog : list (result Plain IoError))
  : outcome (Poll (result TlsStream IoError) * ReloadPhase Acceptor * list (result Plain IoError)) :=
  let handshake a s rest :=
    match hs a s with
    | Pending => (Pending, ReloadHandshake a s, rest)
    | Ready r => (Ready r, ReloadAccept, rest)
    end in
  match phase, backlog with
  | ReloadHandshake a s, _ => mret (handshake a s backlog)
  | ReloadAccept, [] => mret (Pending, ReloadAccept, [])
  | ReloadAccept, Err e :: rest => mret (Ready (Err e), ReloadAccept, rest)
  | ReloadAccept, Ok s :: rest =>
      r ← acceptor;
      mret (match r with
            | Ok a => handshake a s rest
            | Err e => (Ready (Err e), ReloadAccept, rest)
            end)
  end.

(** [HybridListener::accept]: [select!] polls QUIC and TLS in either order;
    the future that is not ready is dropped with the other's answer. *)
Inductive Hybrid {Quic : Type} := FromQuic (c : Quic) | FromTls (c : TlsStream).
#[global] Arguments Hybrid : clear implicits.

Definition hybrid_poll {Quic} (quic_first : bool) (quic : Poll (result Quic IoError))
    (hs : Plain → Poll (result TlsStream IoError)) (phase : TlsPhase)
    (backlog : list (result Plain IoError))
  : Poll (result (Hybrid Quic) IoError) * TlsPhase * list (result Plain IoError) :=
  let from_quic r := match r with Ok c => Ok (FromQuic c) | Err e => Err e end in
  let from_tls r := match r with Ok c => Ok (FromTls c) | Err e => Err e end in
  let '(http, phase', rest) := tls_poll hs phase backlog in
  match quic_first, quic, http with
  | true, Ready r, _ => (Ready (from_quic r), TlsAccept, backlog)
  | _, _, Ready r => (Ready (from_tls r), phase', rest)
  | false, Ready r, Pending => (Ready (from_quic r), TlsAccept, rest)
  | _, Pending, Pending => (Pending, phase', rest)
  end.

(** A new certificate applies to the connections accepted after it; a
    handshake goes on with the certificate it started with. *)
Lemma reload_keeps_handshake {Acceptor} acceptor acceptor' hs (a : Acceptor) s backlog :
  reload_poll acceptor hs (ReloadHandshake a s) backlog =
  reload_poll acceptor' hs (ReloadHandshake a s) backlog.
Proof. done. Qed.

(** A store that can not make an acceptor costs every new connection; only a
    poisoned one panics. *)
Lemma reload_poll_fails {Acceptor} acceptor hs s backlog :
  match acceptor with
  | Panic => reload_poll (Acceptor := Acceptor) acceptor hs ReloadAccept (Ok s :: backlog) = Panic
  | Ret (Err e) =>
      reload_poll acceptor hs ReloadAccept (Ok s :: backlog) = Ret (Ready (Err e), ReloadAccept, backlog)
  | Ret (Ok a) => ∃ r phase, reload_poll acceptor hs ReloadAccept (Ok s :: backlog) = Ret (r, phase, backlog)
  end.
Proof.
  destruct acceptor as [[a|e]|]; cbn; [|done..]. destruct (hs a s); by eexists _, _.
Qed.

(** A QUIC connection that arrives during a TLS handshake drops it: the
    answer is QUIC's and the TLS connection is in none of the places left. *)
Lemma hybrid_drops_handshake {Quic} quic_first r hs s backlog :
  hs s = Pending →
  ∃ a, hybrid_poll (Quic := Quic) quic_first (Ready r) hs (TlsHandshake s) backlog =
    (Ready a, TlsAccept, backlog).
Proof. intros Hs. unfold hybrid_poll, tls_poll. rewrite Hs. destruct quic_first; by eexists. Qed.
End listeners.

(** ** Example: another connection's end drops a handshake *)

Example handshake_dropped :
  let slow : nat → Poll (result nat string) := λ _, Pending in
  let fast : nat → Poll (result nat string) := λ c, Ready (Ok c) in
  tl_fates <$> tls_loop_run (tls_loop_init (LocalAddr := ()) () [] 0)
    [mkTlsEvent 0 [Ok 1; Ok 2] slow false; mkTlsEvent 5 [Ok 3] slow true;
     mkTlsEvent 6 [] fast false]
  = Ret [(1, Dropped); (2, Served 2)].
Proof. reflexivity. Qed.
