(* ===== verification/NetServer.v ===== *)
(** * The network server (silent/src/server/net_server.rs,
    silent/src/server/mod.rs, silent/src/server/config.rs,
    silent/src/server/metrics.rs)

    The accept loop is a state machine driven by what the [select!] of
    [serve_connection_loop] reacts to.  The limiter is a semaphore with a
    refill task; the semaphore is tokio's, a parameter with its documented
    laws. *)

From S2P Require Import Prelude Str Listener.
From stdpp Require Import gmap.

(** ** server/config.rs *)

Record ConnectionLimits := mkLimits {
  handler_timeout : option Z;
  max_body_size : option Z;
  h3_read_timeout : option Z;
  max_webtransport_frame_size : option Z;
  webtransport_read_timeout : option Z;
  max_webtransport_sessions : option Z;
  webtransport_datagram_max_size : option Z;
  webtransport_datagram_rate : option Z;
  webtransport_datagram_drop_metric : bool;
  h3_chunk_size : option Z;
  h3_yield_bytes : option Z;
}.

Definition ConnectionLimits_default : ConnectionLimits :=
  mkLimits None None None None None None None None false None None.

(** [QuicTransportConfig] is quinn's business. *)
Record ServerConfig := mkConfig { connection_limits : ConnectionLimits }.
Definition ServerConfig_default : ServerConfig := mkConfig ConnectionLimits_default.

(** The registry behind its lock; a writer that panicked poisons it. *)
Record ServerConfigRegistry := mkRegistry { inner_config : ServerConfig; poisoned : bool }.
Definition CONFIG_REGISTRY : ServerConfigRegistry := mkRegistry ServerConfig_default false.

Definition set_global_server_config (config : ServerConfig) (r : ServerConfigRegistry)
  : ServerConfigRegistry :=
  if poisoned r then r else mkRegistry config false.

Definition global_server_config (r : ServerConfigRegistry) : outcome ServerConfig :=
  if poisoned r then Panic else Ret (inner_config r).

(** ** server/metrics.rs: the counters, and how often each histogram was fed *)

Inductive Metric :=
| accept_ok | accept_err | rate_limiter_closed | rate_limiter_timeout
| handler_ok | handler_err | handler_timed_out | graceful_shutdowns | forced_shutdowns
| http3_body_oversize | webtransport_accept | webtransport_error
| handler_duration | wait_duration | shutdown_duration.

#[export] Instance Metric_eq_dec : EqDecision Metric.
Proof. solve_decision. Defined.

Definition ServerMetrics : Type := Metric → Z.
Definition server_metrics : ServerMetrics := λ _, 0%Z.

(** [fetch_add] wraps around. *)
Definition inc (k : Metric) (m : ServerMetrics) : ServerMetrics :=
  λ k', if decide (k = k') then wrap_u64 (m k' + 1) else m k'.

Definition record_accept_ok := inc accept_ok.
Definition record_accept_err := inc accept_err.
Definition record_rate_limiter_closed := inc rate_limiter_closed.
Definition record_rate_limiter_timeout := inc rate_limiter_timeout.
Definition record_handler_ok := inc handler_ok.
Definition record_handler_err := inc handler_err.
Definition record_handler_timeout := inc handler_timed_out.
Definition record_graceful_shutdown := inc graceful_shutdowns.
Definition record_forced_shutdown := inc forced_shutdowns.
Definition record_http3_body_oversize := inc http3_body_oversize.
Definition record_webtransport_accept := inc webtransport_accept.
Definition record_webtransport_error := inc webtransport_error.
Definition record_handler_duration := inc handler_duration.
Definition record_wait_duration := inc wait_duration.
Definition record_shutdown_duration := inc shutdown_duration.

(** ** The rate limiter *)

Record RateLimiterConfig := mkRateConfig { rc_capacity : nat; rc_refill_every : Z; rc_max_wait : Z }.

(** Remove one entry. *)
Fixpoint remove_first (id : nat) (l : list nat) : list nat :=
  match l with
  | [] => []
  | x :: l => if decide (x = id) then l else x :: remove_first id l
  end.

(** [tokio::sync::Semaphore], with the tasks named by numbers. *)
Class SemaphoreCrate := {
  Semaphore : Type;
  (** [Semaphore::new] *)
  sem_new : nat → Semaphore;
  available_permits : Semaphore → nat;
  (** A task awaits [acquire_owned]: whether it has a permit at once. *)
  sem_acquire_owned : nat → Semaphore → bool * Semaphore;
  (** [add_permits(1)], or a permit being dropped: the task it goes to. *)
  sem_add_permits : Semaphore → option nat * Semaphore;
  (** The future of [acquire_owned] is dropped. *)
  sem_cancel : nat → Semaphore → Semaphore;
  (** The tasks that wait, for the laws alone. *)
  sem_waiting : Semaphore → list nat;
}.

(** What tokio documents: permits are given out in the order they were asked
    for, and one that nobody waits for stays available. *)
Class SemaphoreLaws (SC : SemaphoreCrate) : Prop := {
  sem_new_spec n : available_permits (sem_new n) = n ∧ sem_waiting (sem_new n) = [];
  sem_acquire_now id q : available_permits q ≠ 0%nat → sem_waiting q = [] →
    ∃ q', sem_acquire_owned id q = (true, q') ∧
      S (available_permits q') = available_permits q ∧ sem_waiting q' = [];
  sem_acquire_wait id q : available_permits q = 0%nat ∨ sem_waiting q ≠ [] →
    ∃ q', sem_acquire_owned id q = (false, q') ∧
      available_permits q' = available_permits q ∧ sem_waiting q' = (sem_waiting q ++ [id])%list;
  sem_add_free q : sem_waiting q = [] →
    ∃ q', sem_add_permits q = (None, q') ∧
      available_permits q' = S (available_permits q) ∧ sem_waiting q' = [];
  sem_add_waiter q w ws : sem_waiting q = w :: ws →
    ∃ q', sem_add_permits q = (Some w, q') ∧
      available_permits q' = available_permits q ∧ sem_waiting q' = ws;
  sem_cancel_spec id q :
    available_permits (sem_cancel id q) = available_permits q ∧
    sem_waiting (sem_cancel id q) = remove_first id (sem_waiting q);
}.

Section limiter.
Context {SC : SemaphoreCrate}.

Record RateLimiter := mkLimiter {
  semaphore : Semaphore;
  max_wait : Z;
  capacity : nat;
  refill_every : Z;
}.

Definition RateLimiter_new (capacity : nat) (refill_every max_wait : Z) : RateLimiter :=
  mkLimiter (sem_new capacity) max_wait capacity refill_every.

(** Connections under the limiter: those holding a permit, how many ever got
    one, how many gave it back, and the ticks that added a permit. *)
Record LimiterState := mkLimState {
  limiter : RateLimiter;
  holding : list nat;
  admitted : nat;
  returned : nat;
  refills : nat;
}.

Definition set_sem (s : LimiterState) (q : Semaphore) : LimiterState :=
  mkLimState (mkLimiter q (max_wait (limiter s)) (capacity (limiter s)) (refill_every (limiter s)))
    (holding s) (admitted s) (returned s) (refills s).

Definition grant (s : LimiterState) (id : nat) : LimiterState :=
  mkLimState (limiter s) (id :: holding s) (S (admitted s)) (returned s) (refills s).

(** A permit is put into the semaphore, and a waiting connection may go on. *)
Definition put_permit (s : LimiterState) : LimiterState :=
  let '(woken, q) := sem_add_permits (semaphore (limiter s)) in
  match woken with
  | Some w => grant (set_sem s q) w
  | None => set_sem s q
  end.

(** A connection's task asks for its permit. *)
Definition ask_permit (s : LimiterState) (id : nat) : LimiterState :=
  let '(got, q) := sem_acquire_owned id (semaphore (limiter s)) in
  if got : bool then grant (set_sem s q) id else set_sem s q.

(** The refill task, after one [tick]. *)
Definition refill_tick (s : LimiterState) : LimiterState :=
  if (available_permits (semaphore (limiter s)) <? capacity (limiter s))%nat then
    let s := put_permit s in
    mkLimState (limiter s) (holding s) (admitted s) (returned s) (S (refills s))
  else s.

(** The handler is done: its permit is dropped. *)
Definition release (s : LimiterState) (id : nat) : LimiterState :=
  if bool_decide (id ∈ holding s) then
    put_permit (mkLimState (limiter s)
      (remove_first id (holding s)) (admitted s) (S (returned s)) (refills s))
  else s.

(** [max_wait] is over for a waiter. *)
Definition abandon (s : LimiterState) (id : nat) : LimiterState :=
  set_sem s (sem_cancel id (semaphore (limiter s))).

Inductive LimiterEvent :=
| Arrive (id : nat)
| Tick
| Finish (id : nat)
| GiveUp (id : nat).

Definition limiter_step (s : LimiterState) (ev : LimiterEvent) : LimiterState :=
  match ev with
  | Arrive id => ask_permit s id
  | Tick => refill_tick s
  | Finish id => release s id
  | GiveUp id => abandon s id
  end.

Definition limiter_init (c : RateLimiterConfig) : LimiterState :=
  mkLimState (RateLimiter_new (rc_capacity c) (rc_refill_every c) (rc_max_wait c)) [] 0 0 0.

(** The free permits, and the ticks of a run. *)
Definition free (s : LimiterState) : nat := available_permits (semaphore (limiter s)).
Definition waiting (s : LimiterState) : list nat := sem_waiting (semaphore (limiter s)).
Definition ticks (evs : list LimiterEvent) : nat :=
  length (List.filter (λ ev, match ev with Tick => true | _ => false end) evs).
End limiter.

(** ** One connection task *)

(** How waiting for a permit ended, and how the handler did. *)
Inductive Acquired := Permit | SemClosed | WaitTimeout.
Inductive HandlerEnd := HandlerOk | HandlerErr | HandlerTimedOut.

(** The task spawned for a connection, as far as the counters see it; a
    handler can only time out when a limit is configured. *)
Definition conn_task (rate : option Acquired) (limit : option Z) (h : HandlerEnd)
    (m : ServerMetrics) : ServerMetrics :=
  match rate with
  | Some Permit =>
      let m := record_wait_duration m in
      match limit with
      | Some _ =>
          match h with
          | HandlerErr => m
          | HandlerOk => record_handler_duration m
          | HandlerTimedOut => record_handler_timeout m
          end
      | None =>
          match h with
          | HandlerErr => record_handler_err m
          | _ => record_handler_duration (record_handler_ok m)
          end
      end
  | Some SemClosed => record_rate_limiter_closed m
  | Some WaitTimeout => record_rate_limiter_timeout m
  | None =>
      match limit with
      | Some _ =>
          match h with
          | HandlerErr => record_handler_err m
          | HandlerOk => record_handler_duration (record_handler_ok m)
          | HandlerTimedOut => record_handler_timeout m
          end
      | None =>
          match h with
          | HandlerErr => record_handler_err m
          | _ => record_handler_ok m
          end
      end
  end.

(** ** The accept loop *)

Record ShutdownConfig := mkShutdown { graceful_wait : Z }.
Definition ShutdownConfig_default : ShutdownConfig := mkShutdown 0.

Inductive Phase := Running | Graceful | Stopped.

Record LoopState := mkLoop {
  phase : Phase;
  tasks : gset nat;
  next_task : nat;
  finished : gset nat;
  aborted : gset nat;
  callbacks : nat;
  refilling : bool;
  metrics : ServerMetrics;
}.

Inductive LoopEvent :=
| Signal
| AcceptNone
| AcceptOk
| AcceptErr
| TaskDone (id : nat)
| GraceOver.

Definition set_phase (s : LoopState) (p : Phase) : LoopState :=
  mkLoop p (tasks s) (next_task s) (finished s) (aborted s) (callbacks s) (refilling s) (metrics s).

(** Forced shutdown: the refill task and what is left are aborted. *)
Definition force (s : LoopState) : LoopState :=
  mkLoop Stopped ∅ (next_task s) (finished s) (aborted s ∪ tasks s) (callbacks s) false
    (record_shutdown_duration (record_forced_shutdown (metrics s))).

(** The graceful wait is over, by time or because nothing is left. *)
Definition end_grace (s : LoopState) : LoopState :=
  force (mkLoop Graceful (tasks s) (next_task s) (finished s) (aborted s) (callbacks s)
    (refilling s) (record_shutdown_duration (record_graceful_shutdown (metrics s)))).

Definition check_grace (s : LoopState) : LoopState :=
  if bool_decide (tasks s = ∅) then end_grace s else s.

(** After the [break]. *)
Definition leave_loop (cfg : ShutdownConfig) (s : LoopState) : LoopState :=
  if (0 <? graceful_wait cfg)%Z then check_grace (set_phase s Graceful) else force s.

Definition run_callback (has_callback : bool) (s : LoopState) : LoopState :=
  mkLoop (phase s) (tasks s) (next_task s) (finished s) (aborted s)
    (callbacks s + (if has_callback then 1 else 0)) (refilling s) (metrics s).

Definition spawn (s : LoopState) : LoopState :=
  mkLoop (phase s) ({[ next_task s ]} ∪ tasks s) (S (next_task s)) (finished s) (aborted s)
    (callbacks s) (refilling s) (record_accept_ok (metrics s)).

Definition task_done (s : LoopState) (id : nat) : LoopState :=
  if bool_decide (id ∈ tasks s) then
    mkLoop (phase s) (tasks s ∖ {[ id ]}) (next_task s) ({[ id ]} ∪ finished s) (aborted s)
      (callbacks s) (refilling s) (metrics s)
  else s.

Definition count_err (s : LoopState) : LoopState :=
  mkLoop (phase s) (tasks s) (next_task s) (finished s) (aborted s) (callbacks s) (refilling s)
    (record_accept_err (metrics s)).

Definition loop_step (cfg : ShutdownConfig) (has_callback : bool) (s : LoopState) (ev : LoopEvent)
  : LoopState :=
  match phase s with
  | Running =>
      match ev with
      | Signal => leave_loop cfg (run_callback has_callback s)
      | AcceptNone => leave_loop cfg s
      | AcceptOk => spawn s
      | AcceptErr => count_err s
      | TaskDone id => task_done s id
      | GraceOver => s
      end
  | Graceful =>
      match ev with
      | TaskDone id => check_grace (task_done s id)
      | GraceOver => end_grace s
      | _ => s
      end
  | Stopped => s
  end.

Definition loop_init (limited : bool) : LoopState :=
  mkLoop Running ∅ 0 ∅ ∅ 0 limited server_metrics.

(** ** The builders *)

Section builders.
Context {SC : SemaphoreCrate}.
Context {L Addr Path Conn LocalAddr IoError : Type}.
(** Callbacks. *)
Context {Callback ListenCallback : Type}.

Record NetServer := mkServer {
  listeners_builder : ListenersBuilder (L := L) (Addr := Addr) (Path := Path);
  shutdown_callback : option Callback;
  listen_callback : option ListenCallback;
  rate_limiter : option RateLimiter;
  shutdown_cfg : ShutdownConfig;
  config : ServerConfig;
}.

Definition NetServer_new : NetServer :=
  mkServer ListenersBuilder_new None None None ShutdownConfig_default ServerConfig_default.

Definition from_parts (b : ListenersBuilder) (cb : option Callback) (lcb : option ListenCallback)
    (c : ServerConfig) : NetServer :=
  mkServer b cb lcb None ShutdownConfig_default c.

Definition NetServer_bind (s : NetServer) (a : Addr) : result NetServer IoError :=
  b <-! builder_bind (listeners_builder s) a ;;
  Ok (mkServer b (shutdown_callback s) (listen_callback s) (rate_limiter s) (shutdown_cfg s)
        (config s)).

Definition NetServer_bind_unix (s : NetServer) (p : Path) : result NetServer IoError :=
  b <-! builder_bind_unix (listeners_builder s) p ;;
  Ok (mkServer b (shutdown_callback s) (listen_callback s) (rate_limiter s) (shutdown_cfg s)
        (config s)).

Definition NetServer_listen (s : NetServer) (l : L) : NetServer :=
  mkServer (add_listener (listeners_builder s) l) (shutdown_callback s) (listen_callback s)
    (rate_limiter s) (shutdown_cfg s) (config s).

Definition NetServer_on_listen (s : NetServer) (cb : ListenCallback) : NetServer :=
  mkServer (listeners_builder s) (shutdown_callback s) (Some cb) (rate_limiter s) (shutdown_cfg s)
    (config s).

Definition NetServer_set_shutdown_callback (s : NetServer) (cb : Callback) : NetServer :=
  mkServer (listeners_builder s) (Some cb) (listen_callback s) (rate_limiter s) (shutdown_cfg s)
    (config s).

Definition NetServer_with_rate_limiter (s : NetServer) (c : RateLimiterConfig) : NetServer :=
  mkServer (listeners_builder s) (shutdown_callback s) (listen_callback s)
    (Some (RateLimiter_new (rc_capacity c) (rc_refill_every c) (rc_max_wait c))) (shutdown_cfg s)
    (config s).

Definition NetServer_with_shutdown (s : NetServer) (wait : Z) : NetServer :=
  mkServer (listeners_builder s) (shutdown_callback s) (listen_callback s) (rate_limiter s)
    (mkShutdown wait) (config s).

(** [serve_connection_loop]: the listeners are opened, then the loop runs to
    its end on the events of the run. *)
Definition serve_connection_loop (bind_tcp : Addr → result L IoError)
    (bind_unix : Path → result L IoError) (bind_default : result L IoError)
    (local_addr : L → result LocalAddr IoError) (now : Z) (s : NetServer) (evs : list LoopEvent)
  : result LoopState IoError :=
  _ <-! builder_listen bind_tcp bind_unix bind_default local_addr now (listeners_builder s) ;;
  Ok (runs (loop_step (shutdown_cfg s) (bool_decide (is_Some (shutdown_callback s))))
        (loop_init (bool_decide (is_Some (rate_limiter s)))) evs).

(** The user-facing [Server] of server/mod.rs. *)
Record Server := mkUserServer {
  u_listeners_builder : ListenersBuilder (L := L) (Addr := Addr) (Path := Path);
  u_shutdown_callback : option Callback;
  u_listen_callback : option ListenCallback;
  u_rate_limiter_config : option RateLimiterConfig;
  u_graceful_shutdown_duration : option Z;
  u_config : ServerConfig;
}.

Definition Server_new : Server :=
  mkUserServer ListenersBuilder_new None None None None ServerConfig_default.

Definition Server_bind (s : Server) (a : Addr) : outcome Server :=
  match builder_bind (IoError := IoError) (u_listeners_builder s) a with
  | Ok b => Ret (mkUserServer b (u_shutdown_callback s) (u_listen_callback s)
                   (u_rate_limiter_config s) (u_graceful_shutdown_duration s) (u_config s))
  | Err _ => Panic
  end.

Definition Server_bind_unix (s : Server) (p : Path) : outcome Server :=
  match builder_bind_unix (IoError := IoError) (u_listeners_builder s) p with
  | Ok b => Ret (mkUserServer b (u_shutdown_callback s) (u_listen_callback s)
                   (u_rate_limiter_config s) (u_graceful_shutdown_duration s) (u_config s))
  | Err _ => Panic
  end.

Definition Server_listen (s : Server) (l : L) : Server :=
  mkUserServer (add_listener (u_listeners_builder s) l) (u_shutdown_callback s)
    (u_listen_callback s) (u_rate_limiter_config s) (u_graceful_shutdown_duration s) (u_config s).

Definition Server_set_shutdown_callback (s : Server) (cb : Callback) : Server :=
  mkUserServer (u_listeners_builder s) (Some cb) (u_listen_callback s) (u_rate_limiter_config s)
    (u_graceful_shutdown_duration s) (u_config s).

Definition Server_on_listen (s : Server) (cb : ListenCallback) : Server :=
  mkUserServer (u_listeners_builder s) (u_shutdown_callback s) (Some cb)
    (u_rate_limiter_config s) (u_graceful_shutdown_duration s) (u_config s).

Definition Server_with_rate_limiter (s : Server) (c : RateLimiterConfig) : Server :=
  mkUserServer (u_listeners_builder s) (u_shutdown_callback s) (u_listen_callback s) (Some c)
    (u_graceful_shutdown_duration s) (u_config s).

Definition Server_with_shutdown (s : Server) (wait : Z) : Server :=
  mkUserServer (u_listeners_builder s) (u_shutdown_callback s) (u_listen_callback s)
    (u_rate_limiter_config s) (Some wait) (u_config s).

Definition Server_with_config (s : Server) (c : ServerConfig) : Server :=
  mkUserServer (u_listeners_builder s) (u_shutdown_callback s) (u_listen_callback s)
    (u_rate_limiter_config s) (u_graceful_shutdown_duration s) c.

Definition Server_with_connection_limits (s : Server) (l : ConnectionLimits) : Server :=
  Server_with_config s (mkConfig l).

(** [serve] and [run] up to handing over to [NetServer]. *)
Definition Server_serve (s : Server) (r : ServerConfigRegistry) : NetServer * ServerConfigRegistry :=
  let r := set_global_server_config (u_config s) r in
  let net := from_parts (u_listeners_builder s) (u_shutdown_callback s) (u_listen_callback s)
    (u_config s) in
  let net := match u_rate_limiter_config s with
             | Some c => NetServer_with_rate_limiter net c
             | None => net
             end in
  let net := match u_graceful_shutdown_duration s with
             | Some d => NetServer_with_shutdown net d
             | None => net
             end in
  (net, r).
End builders.

(** ** Lemmas: the limiter *)

Lemma remove_first_length id l :
  id ∈ l → S (length (remove_first id l)) = length l.
Proof.
  induction l as [|x l IH]; cbn; [by intros ?%not_elem_of_nil|].
  intros [->|H]%elem_of_cons; [by rewrite decide_True|]. destruct (decide _); [done|].
  cbn. by rewrite IH.
Qed.

Lemma remove_first_nil id l : remove_first id l ≠ [] → l ≠ [].
Proof. by destruct l. Qed.

Section limiter_lemmas.
Context {SC : SemaphoreCrate} {SL : SemaphoreLaws SC}.

Record limiter_ok (c : RateLimiterConfig) (s : LimiterState) : Prop := LimiterOk {
  lim_capacity : capacity (limiter s) = rc_capacity c;
  lim_permits : (free s + length (holding s) = rc_capacity c + refills s)%nat;
  lim_admitted : admitted s = (length (holding s) + returned s)%nat;
  lim_fair : waiting s ≠ [] → free s = 0%nat;
  (** No refill without a connection that was let in. *)
  lim_refills : (refills s <= admitted s)%nat;
}.

(** A permit that is put back is handed out or kept. *)
Lemma put_permit_facts s :
  (waiting s ≠ [] → free s = 0%nat) →
  let s' := put_permit s in
  capacity (limiter s') = capacity (limiter s) ∧ returned s' = returned s ∧ refills s' = refills s ∧
  (waiting s' ≠ [] → free s' = 0%nat) ∧
  match waiting s with
  | [] => holding s' = holding s ∧ admitted s' = admitted s ∧ free s' = S (free s) ∧ waiting s' = []
  | w :: ws => holding s' = w :: holding s ∧ admitted s' = S (admitted s) ∧ free s' = free s ∧
      waiting s' = ws
  end.
Proof.
  intros Hw. unfold put_permit, free, waiting in *.
  destruct (sem_waiting (semaphore (limiter s))) as [|w ws] eqn:E.
  - destruct (sem_add_free _ E) as (q & -> & Ha & Hq). cbn. rewrite Hq. by split_and!.
  - destruct (sem_add_waiter _ _ _ E) as (q & -> & Ha & Hq). cbn. rewrite Ha, Hq.
    split_and!; try done. intros _. by apply Hw.
Qed.

Lemma ask_permit_facts s id :
  (waiting s ≠ [] → free s = 0%nat) →
  let s' := ask_permit s id in
  capacity (limiter s') = capacity (limiter s) ∧ returned s' = returned s ∧ refills s' = refills s ∧
  (waiting s' ≠ [] → free s' = 0%nat) ∧
  if decide (free s = 0%nat)
  then holding s' = holding s ∧ admitted s' = admitted s ∧ free s' = free s ∧
       waiting s' = (waiting s ++ [id])%list
  else holding s' = id :: holding s ∧ admitted s' = S (admitted s) ∧ S (free s') = free s ∧
       waiting s' = waiting s.
Proof.
  intros Hw. unfold ask_permit, free, waiting in *. case_decide as Hf.
  - destruct (sem_acquire_wait id _ (or_introl Hf)) as (q & -> & Ha & Hq). cbn. rewrite Ha, Hq.
    by split_and!.
  - assert (sem_waiting (semaphore (limiter s)) = []) as E.
    { destruct (sem_waiting _); [done|]. by rewrite Hw in Hf. }
    destruct (sem_acquire_now id _ Hf E) as (q & -> & Ha & Hq). cbn. rewrite Hq, E. by split_and!.
Qed.

Lemma limiter_init_ok c : limiter_ok c (limiter_init c).
Proof.
  destruct (sem_new_spec (rc_capacity c)) as [Ha Hq].
  constructor; unfold free, waiting; cbn; rewrite ?Ha, ?Hq; try done; lia.
Qed.

(** The guard of the refill: a permit is added only if one is missing. *)
Lemma refill_ok c s : limiter_ok c s → limiter_ok c (refill_tick s).
Proof.
  intros [Hc Hp Ha Hw Hr]. unfold refill_tick. fold (free s).
  destruct (Nat.ltb_spec (free s) (capacity (limiter s))) as [Hlt|]; [|by constructor].
  pose proof (put_permit_facts s Hw) as H. cbv zeta in H. generalize dependent (put_permit s).
  intros [l h a d n] (H1 & H2 & H3 & H4 & H5). cbn in H1, H2, H3, H5.
  assert (free s = 0%nat ∨ waiting s = []) as Hf.
  { destruct (waiting s); [by right|]. left. by apply Hw. }
  destruct (waiting s); destruct H5 as (H5 & H6 & H7 & _); constructor; unfold free in *; cbn in *; try done;
    subst; cbn [length]; rewrite ?H7; lia.
Qed.

Lemma release_ok c s id : limiter_ok c s → limiter_ok c (release s id).
Proof.
  intros [Hc Hp Ha Hw Hr]. unfold release. case_bool_decide as Hin; [|by constructor].
  apply remove_first_length in Hin. set (s' := mkLimState _ _ _ _ _).
  pose proof (put_permit_facts s' Hw) as H. cbv zeta in H. generalize dependent (put_permit s').
  intros [l h a d n] (H1 & H2 & H3 & H4 & H5). cbn in H1, H2, H3, H5.
  change (waiting s') with (waiting s) in H5. change (free s') with (free s) in H5.
  destruct (waiting s); destruct H5 as (H5 & H6 & H7 & _); constructor; unfold free in *; cbn in *;
    try done; subst; cbn [length]; rewrite ?H7; lia.
Qed.

Lemma limiter_step_ok c s ev : limiter_ok c s → limiter_ok c (limiter_step s ev).
Proof.
  intros Hok. destruct ev as [id| |id|id]; cbn; [|by apply refill_ok|by apply release_ok|].
  - destruct Hok as [Hc Hp Ha Hw Hr]. pose proof (ask_permit_facts s id Hw) as (H1 & H2 & H3 & H4 & H5).
    case_decide; destruct H5 as (H5 & H6 & H7 & _);
      constructor; rewrite ?H1, ?H2, ?H3, ?H5, ?H6, ?H7; try done; cbn [length]; lia.
  - destruct Hok as [Hc Hp Ha Hw Hr]. destruct (sem_cancel_spec id (semaphore (limiter s))) as [H1 H2].
    constructor; unfold free, waiting in *; cbn; rewrite ?H1, ?H2; try done.
    intros H%remove_first_nil. by apply Hw.
Qed.

Lemma limiter_run_ok c evs : limiter_ok c (runs limiter_step (limiter_init c) evs).
Proof. apply runs_invariant; [apply limiter_init_ok|intros; by apply limiter_step_ok]. Qed.

(** Only ticks refill. *)
Lemma limiter_step_refills s ev :
  (refills (limiter_step s ev) <= refills s + ticks [ev])%nat.
Proof.
  assert (∀ s, refills (put_permit s) = refills s) as Hput.
  { intros x. unfold put_permit. by destruct (sem_add_permits _) as [[] ?]. }
  destruct ev as [id| |id|id]; cbn.
  - unfold ask_permit. destruct (sem_acquire_owned _ _) as [[] ?]; cbn; lia.
  - unfold refill_tick. destruct (_ <? _)%nat; cbn; rewrite ?Hput; lia.
  - unfold release. case_bool_decide; rewrite ?Hput; cbn; lia.
  - lia.
Qed.

Lemma limiter_run_refills evs : ∀ s,
  (refills (runs limiter_step s evs) <= refills s + ticks evs)%nat.
Proof.
  induction evs as [|ev evs IH]; intros s; [cbn; lia|]. cbn [runs foldl].
  change (foldl limiter_step (limiter_step s ev) evs) with (runs limiter_step (limiter_step s ev) evs).
  pose proof (IH (limiter_step s ev)). pose proof (limiter_step_refills s ev).
  unfold ticks in *. cbn in *. destruct ev; cbn in *; lia.
Qed.
End limiter_lemmas.

(** ** Lemmas: the loop *)

Lemma inc_ne k k' m : k ≠ k' → inc k m k' = m k'.
Proof. intros H. unfold inc. by rewrite decide_False. Qed.

Lemma inc_eq k m : inc k m k = wrap_u64 (m k + 1).
Proof. unfold inc. by rewrite decide_True. Qed.

Lemma wrap_u64_succ n : wrap_u64 (wrap_u64 n + 1) = wrap_u64 (n + 1).
Proof. unfold wrap_u64. by rewrite Zplus_mod_idemp_l. Qed.

Record loop_ok (cfg : ShutdownConfig) (s : LoopState) : Prop := {
  lo_parts : tasks s ∪ finished s ∪ aborted s = set_seq 0 (next_task s);
  lo_tf : tasks s ## finished s;
  lo_af : aborted s ## finished s;
  lo_accept : metrics s accept_ok = wrap_u64 (Z.of_nat (next_task s));
  lo_callbacks : (callbacks s ≤ 1)%nat ∧ (phase s = Running → callbacks s = 0%nat);
  lo_phase :
    match phase s with
    | Running => aborted s = ∅ ∧ metrics s forced_shutdowns = 0%Z ∧ metrics s graceful_shutdowns = 0%Z
    | Graceful => aborted s = ∅ ∧ metrics s forced_shutdowns = 0%Z ∧
        metrics s graceful_shutdowns = 0%Z ∧ (0 < graceful_wait cfg)%Z
    | Stopped => tasks s = ∅ ∧ refilling s = false ∧ metrics s forced_shutdowns = 1%Z ∧
        metrics s graceful_shutdowns = if (0 <? graceful_wait cfg)%Z then 1%Z else 0%Z
    end;
}.

Lemma loop_init_ok cfg limited : loop_ok cfg (loop_init limited).
Proof. constructor; cbn; try done; set_solver. Qed.

(** The forced part, from any state that has not counted it yet. *)
Lemma force_ok cfg s :
  tasks s ∪ finished s ∪ aborted s = set_seq 0 (next_task s) →
  tasks s ## finished s → aborted s ## finished s →
  metrics s accept_ok = wrap_u64 (Z.of_nat (next_task s)) → (callbacks s ≤ 1)%nat →
  metrics s forced_shutdowns = 0%Z →
  metrics s graceful_shutdowns = (if (0 <? graceful_wait cfg)%Z then 1 else 0)%Z →
  loop_ok cfg (force s).
Proof.
  intros H1 H2 H3 H4 H5 H6 H7. unfold force, record_shutdown_duration, record_forced_shutdown.
  constructor; cbn; rewrite ?inc_ne by done; try done.
  - rewrite <-H1. set_solver.
  - intros x [?|?]%elem_of_union ?; [by apply (H3 x)|by apply (H2 x)].
  - split_and!; try done. by rewrite inc_eq, H6.
Qed.

Lemma end_grace_ok cfg s : loop_ok cfg s → phase s = Graceful → loop_ok cfg (end_grace s).
Proof.
  intros [H1 H2 H3 H4 H5 H6] Hp. rewrite Hp in *. destruct H6 as (Ha & Hf & Hg & Hw).
  unfold end_grace, record_shutdown_duration, record_graceful_shutdown.
  apply force_ok; cbn; rewrite ?inc_ne by done; try done; try lia.
  rewrite inc_eq, Hg. apply Z.ltb_lt in Hw. by rewrite Hw.
Qed.

Lemma check_grace_ok cfg s : loop_ok cfg s → phase s = Graceful → loop_ok cfg (check_grace s).
Proof. intros. unfold check_grace. case_bool_decide; [by apply end_grace_ok|done]. Qed.

Lemma leave_loop_ok cfg s :
  loop_ok cfg (mkLoop Running (tasks s) (next_task s) (finished s) (aborted s) 0 (refilling s)
    (metrics s)) →
  (callbacks s ≤ 1)%nat → loop_ok cfg (leave_loop cfg s).
Proof.
  intros [H1 H2 H3 H4 H5 (Ha & Hf & Hg)] Hc; cbn in *. unfold leave_loop.
  destruct (0 <? graceful_wait cfg)%Z eqn:Ew.
  - apply check_grace_ok; [|done]. constructor; cbn; try done.
    split_and!; try done. by apply Z.ltb_lt.
  - apply force_ok; try done. by rewrite Ew.
Qed.

Lemma task_done_ok cfg s id :
  loop_ok cfg s → phase s ≠ Stopped → loop_ok cfg (task_done s id).
Proof.
  intros [H1 H2 H3 H4 H5 H6] Hp. unfold task_done. case_bool_decide as Hin; [|done].
  assert (id ∉ aborted s).
  { destruct (phase s); [destruct H6 as [-> _]|destruct H6 as [-> _]|done]; set_solver. }
  constructor; cbn; try done.
  - rewrite <-H1. apply set_eq. intros x.
    rewrite !elem_of_union, elem_of_difference, elem_of_singleton.
    destruct (decide (x = id)) as [->|]; tauto.
  - intros x [Hx Hne]%elem_of_difference [?|?]%elem_of_union; [done|]. by apply (H2 x).
  - intros x Hx [->%elem_of_singleton|?]%elem_of_union; [done|]. by apply (H3 x).
  - by destruct (phase s).
Qed.

Lemma set_seq_S n : ({[ n ]} : gset nat) ∪ set_seq 0 n = set_seq 0 (S n).
Proof. rewrite set_seq_S_end_union_L. by rewrite Nat.add_0_l. Qed.

Lemma spawn_ok cfg s : loop_ok cfg s → phase s = Running → loop_ok cfg (spawn s).
Proof.
  intros [H1 H2 H3 H4 H5 H6] Hp. rewrite Hp in *. destruct H6 as (Ha & Hf & Hg).
  assert (∀ x, x ∈ finished s → (x < next_task s)%nat) as Hlt.
  { intros x Hx. assert (x ∈ (set_seq 0 (next_task s) : gset nat)) as Hs by set_solver.
    apply elem_of_set_seq in Hs. lia. }
  unfold spawn, record_accept_ok. constructor; cbn -[set_seq]; rewrite ?inc_ne by done; try done.
  - rewrite <-set_seq_S, <-H1. set_solver.
  - intros x [->%elem_of_singleton|Hx]%elem_of_union Hf'; [|set_solver].
    apply Hlt in Hf'. lia.
  - rewrite inc_eq, H4, wrap_u64_succ. f_equal. lia.
  - done || by rewrite Hp.
  - by rewrite Hp.
Qed.

Lemma loop_step_ok cfg cb s ev : loop_ok cfg s → loop_ok cfg (loop_step cfg cb s ev).
Proof.
  intros Hok. pose proof Hok as [H1 H2 H3 H4 [H5 H5'] H6]. unfold loop_step.
  destruct (phase s) eqn:Hp; [|..|done]; try rewrite Hp in H6.
  - specialize (H5' eq_refl). destruct ev as [| | | |id|]; [..|done].
    + apply leave_loop_ok; cbn; [constructor; cbn; auto|]. rewrite H5'. destruct cb; lia.
    + apply leave_loop_ok; [constructor; cbn; auto|lia].
    + by apply spawn_ok.
    + unfold count_err, record_accept_err.
      constructor; cbn; rewrite ?inc_ne by done; try done. by rewrite Hp.
    + apply task_done_ok; [done|by rewrite Hp].
  - destruct ev as [| | | |id|]; try done.
    + apply check_grace_ok; [apply task_done_ok; [done|by rewrite Hp]|].
      unfold task_done. by case_bool_decide.
    + by apply end_grace_ok.
Qed.

Lemma loop_run_ok cfg cb limited evs : loop_ok cfg (runs (loop_step cfg cb) (loop_init limited) evs).
Proof. apply runs_invariant; [apply loop_init_ok|intros; by apply loop_step_ok]. Qed.

(** ** Lemmas: filling the bucket past its capacity *)

(** [n] rounds of a connection arriving and the refill task ticking. *)
Fixpoint held_rounds (n : nat) : list LimiterEvent :=
  match n with
  | O => []
  | S n => (held_rounds n ++ [Arrive n; Tick])%list
  end.

Section burst.
Context {SC : SemaphoreCrate} {SL : SemaphoreLaws SC}.

Definition full_state (c : RateLimiterConfig) (s : LimiterState) (p : nat) (h : list nat) : Prop :=
  capacity (limiter s) = rc_capacity c ∧ free s = p ∧ waiting s = [] ∧ holding s = h.

Lemma arrive_full c s p h id : full_state c s (S p) h → full_state c (ask_permit s id) p (id :: h).
Proof.
  intros (H1 & H2 & H3 & H4). pose proof (ask_permit_facts s id) as Hf.
  rewrite H3, H2 in Hf. destruct (Hf ltac:(done)) as (F1 & _ & _ & _ & F5 & _ & F6 & F7).
  unfold full_state. rewrite F1, F5, F7, H4. split_and!; try done. lia.
Qed.

Lemma put_full c s p h : full_state c s p h → full_state c (put_permit s) (S p) h.
Proof.
  intros (H1 & H2 & H3 & H4). pose proof (put_permit_facts s) as Hf.
  rewrite H3, H2 in Hf. destruct (Hf ltac:(done)) as (F1 & _ & _ & _ & F5 & _ & F6 & F7).
  unfold full_state. by rewrite F1, F5, F6, F7, H4.
Qed.

Lemma held_rounds_state c n :
  (1 <= rc_capacity c)%nat →
  full_state c (runs limiter_step (limiter_init c) (held_rounds n)) (rc_capacity c) (rev (seq 0 n)).
Proof.
  intros Hc. induction n as [|n IH].
  { destruct (sem_new_spec (rc_capacity c)) as [Ha Hq]. by split_and!. }
  cbn [held_rounds]. rewrite runs_app. generalize dependent (runs limiter_step (limiter_init c) (held_rounds n)).
  intros s Hs. rewrite seq_S, rev_app_distr. cbn. destruct (rc_capacity c) as [|k] eqn:Ek; [lia|].
  apply (arrive_full _ _ _ _ n) in Hs. unfold refill_tick.
  destruct Hs as (H1 & H2 & H3 & H4). fold (free (ask_permit s n)).
  rewrite H1, H2, Ek, (proj2 (Nat.ltb_lt k (S k))) by lia.
  destruct (put_full c (ask_permit s n) k (n :: rev (seq 0 n))) as (F1 & F2 & F3 & F4); [done|].
  by split_and!.
Qed.

Lemma finish_all_state c s p h :
  full_state c s p h → full_state c (runs limiter_step s (map Finish h)) (p + length h) [].
Proof.
  revert s p. induction h as [|x h IH]; intros s p Hs; cbn.
  { by rewrite Nat.add_0_r. }
  replace (p + S (length h))%nat with (S p + length h)%nat by lia. apply IH.
  destruct Hs as (H1 & H2 & H3 & H4). unfold release. rewrite H4, bool_decide_eq_true_2 by by left.
  apply put_full. unfold full_state; cbn. by rewrite decide_True.
Qed.

Lemma arrive_all_state c s p h ids :
  full_state c s (p + length ids) h →
  full_state c (runs limiter_step s (map Arrive ids)) p (rev ids ++ h)%list.
Proof.
  revert s h. induction ids as [|x ids IH]; intros s h Hs; cbn.
  { by rewrite Nat.add_0_r in Hs. }
  rewrite <-app_assoc. cbn. apply IH. apply arrive_full.
  by replace (S (p + length ids))%nat with (p + length (x :: ids))%nat by (cbn; lia).
Qed.
End burst.

(** ** Properties *)

(** C32: The limiter's books balance, over any semaphore that behaves as
    tokio documents and in every run of connections arriving, giving up and
    finishing and of the refill task's ticks.  Free permits and connections
    holding one add up to the capacity and the refills; nobody waits while a
    permit is free; the connections ever let in are at most capacity + refills
    + permits given back.  A tick adds a permit exactly when fewer than the
    capacity are free, for the first that waits if there is one, and changes
    nothing otherwise, so that there are never more refills than connections
    let in (nor than ticks): an idle server gathers no permits, and the free
    ones exceed the capacity at most by those given back. *)
Theorem limiter_conserves `{SL : SemaphoreLaws} c evs :
  let s := runs limiter_step (limiter_init c) evs in
  (free s + length (holding s) = rc_capacity c + refills s)%nat ∧
  (waiting s ≠ [] → free s = 0%nat) ∧
  (admitted s <= rc_capacity c + refills s + returned s)%nat ∧
  (refills s <= admitted s)%nat ∧ (refills s <= ticks evs)%nat ∧
  (free s <= rc_capacity c + returned s)%nat ∧
  let s' := limiter_step s Tick in
  if decide (free s < rc_capacity c)%nat
  then match waiting s with
       | [] => free s' = S (free s) ∧ holding s' = holding s
       | w :: ws => free s' = free s ∧ holding s' = w :: holding s ∧ waiting s' = ws
       end
  else s' = s.
Proof.
  cbv zeta. pose proof (limiter_run_refills evs (limiter_init c)) as Ht.
  destruct (limiter_run_ok c evs) as [Hc Hp Ha Hw Hr].
  set (s := runs limiter_step (limiter_init c) evs) in *.
  split_and!; [done|done|lia|done|exact Ht|lia|].
  cbn [limiter_step]. unfold refill_tick. fold (free s). rewrite Hc. case_decide as Hlt.
  - rewrite (proj2 (Nat.ltb_lt _ _) Hlt). pose proof (put_permit_facts s Hw) as (_ & _ & _ & _ & H).
    destruct (waiting s); destruct H as (H1 & _ & H3 & H4); by split_and!.
  - by rewrite (proj2 (Nat.ltb_ge _ _)) by lia.
Qed.

(** The configured capacity does not bound bursts: permits are both
    refilled while connections hold them and given back at the end, so for
    every [n] there is a run after which no connection is active and a burst
    of capacity + [n] connections arriving at one instant is admitted without
    waiting. *)
Theorem limiter_burst_unbounded `{SL : SemaphoreLaws} c n :
  (1 <= rc_capacity c)%nat →
  ∃ evs, let s := runs limiter_step (limiter_init c) evs in
    holding s = [] ∧
    let burst := runs limiter_step s (map Arrive (seq 0 (rc_capacity c + n))) in
    length (holding burst) = (rc_capacity c + n)%nat ∧ waiting burst = [].
Proof.
  intros Hc. exists (held_rounds n ++ map Finish (rev (seq 0 n)))%list. cbn. rewrite runs_app.
  pose proof (finish_all_state _ _ _ _ (held_rounds_state c n Hc)) as Hf.
  rewrite length_rev, length_seq in Hf. split; [apply Hf|].
  replace (rc_capacity c + n)%nat with (0 + length (seq 0 (rc_capacity c + n)))%nat in Hf
    by by rewrite length_seq.
  destruct (arrive_all_state _ _ _ _ _ Hf) as (_ & _ & H2 & H3). rewrite H2, H3.
  split; [|done]. by rewrite app_nil_r, length_rev, length_seq.
Qed.

(** Connection accounting: every connection task counts in exactly one of
    the five outcome counters, except under a limiter with a handler time
    limit, where a handler that ends in time, well or not, counts in none. *)
Theorem conn_task_accounting rate limit h m k :
  (limit = None → h ≠ HandlerTimedOut) →
  k ∈ [handler_ok; handler_err; handler_timed_out; rate_limiter_closed; rate_limiter_timeout] →
  let outcome :=
    match rate with
    | Some SemClosed => Some rate_limiter_closed
    | Some WaitTimeout => Some rate_limiter_timeout
    | _ =>
        match h with
        | HandlerTimedOut => Some handler_timed_out
        | _ =>
            if bool_decide (is_Some rate ∧ is_Some limit) then None
            else Some (match h with HandlerErr => handler_err | _ => handler_ok end)
        end
    end in
  conn_task rate limit h m k = if decide (outcome = Some k) then wrap_u64 (m k + 1) else m k.
Proof.
  intros Hh Hk. cbn.
  assert (k ≠ wait_duration ∧ k ≠ handler_duration) as [Hw Hd] by by split; intros ->; set_solver.
  unfold conn_task, record_wait_duration, record_handler_duration, record_handler_timeout,
    record_handler_err, record_handler_ok, record_rate_limiter_closed, record_rate_limiter_timeout.
  destruct rate as [[]|], limit as [t|], h; try (by destruct (Hh eq_refl)); cbn;
    rewrite ?(inc_ne wait_duration), ?(inc_ne handler_duration) by done;
    unfold inc; repeat case_decide; congruence || (by simplify_eq/=) || done.
Qed.

(** C33: Shutdown accounts for every connection: in any run every accepted
    connection is running, finished or aborted, never two of them; nothing is
    aborted before the loop was left; once stopped nothing runs, the refill
    task is gone, one forced shutdown and (with a graceful wait) one graceful
    shutdown were counted, and the callback ran at most once. *)
Theorem shutdown_accounts cfg cb limited evs :
  let s := runs (loop_step cfg cb) (loop_init limited) evs in
  tasks s ∪ finished s ∪ aborted s = set_seq 0 (next_task s) ∧
  tasks s ## finished s ∧ aborted s ## finished s ∧
  metrics s accept_ok = wrap_u64 (Z.of_nat (next_task s)) ∧ (callbacks s ≤ 1)%nat ∧
  (phase s ≠ Stopped → aborted s = ∅ ∧ metrics s forced_shutdowns = 0%Z) ∧
  (phase s = Stopped →
     tasks s = ∅ ∧ refilling s = false ∧ metrics s forced_shutdowns = 1%Z ∧
     metrics s graceful_shutdowns = if (0 <? graceful_wait cfg)%Z then 1%Z else 0%Z).
Proof.
  cbn. destruct (loop_run_ok cfg cb limited evs) as [H1 H2 H3 H4 [H5 _] H6].
  split_and!; try done; intros Hp; destruct (phase _); naive_solver.
Qed.

Lemma runs_stopped cfg cb s evs :
  phase s = Stopped → runs (loop_step cfg cb) s evs = s.
Proof.
  intros Hp. induction evs as [|ev evs IH]; [done|]. cbn.
  assert (loop_step cfg cb s ev = s) as -> by (unfold loop_step; by rewrite Hp). apply IH.
Qed.

Lemma grace_finish cfg cb l s :
  phase s = Graceful → tasks s = list_to_set l → NoDup l → l ≠ [] → aborted s = ∅ →
  let s' := runs (loop_step cfg cb) s (map TaskDone l) in phase s' = Stopped ∧ aborted s' = ∅.
Proof.
  revert s. induction l as [|x l IH]; [done|]. intros s Hp Ht [Hx Hd]%NoDup_cons _ Ha.
  assert (loop_step cfg cb s (TaskDone x) = check_grace (mkLoop Graceful (list_to_set l)
    (next_task s) ({[ x ]} ∪ finished s) ∅ (callbacks s) (refilling s) (metrics s))) as Hs.
  { unfold loop_step, task_done. rewrite Hp, bool_decide_eq_true_2 by set_solver.
    assert (tasks s ∖ {[ x ]} = list_to_set l) as -> by set_solver. by rewrite Ha. }
  cbn [map runs foldl]. rewrite Hs. unfold check_grace. cbn [tasks]. destruct l as [|y l].
  - rewrite bool_decide_eq_true_2 by done. split; [done|]. cbn. set_solver.
  - rewrite bool_decide_eq_false_2 by set_solver. by apply IH.
Qed.

(** C34: Shutdown ends: from any point of any run, a signal and the end of the
    grace period stop the server, and with a graceful wait a run in which all
    connections finish in time stops without aborting any. *)
Theorem shutdown_ends cfg cb limited evs :
  let s := runs (loop_step cfg cb) (loop_init limited) evs in
  phase (runs (loop_step cfg cb) s [Signal; GraceOver]) = Stopped ∧
  ((0 < graceful_wait cfg)%Z → phase s = Running →
     let s' := runs (loop_step cfg cb) s (Signal :: map TaskDone (elements (tasks s))) in
     phase s' = Stopped ∧ aborted s' = ∅).
Proof.
  intros s. pose proof (loop_run_ok cfg cb limited evs) as [_ _ _ _ _ H6]. fold s in H6.
  split.
  - assert (∀ s, phase (leave_loop cfg s) = Stopped ∨ phase (leave_loop cfg s) = Graceful) as Hl.
    { intros x. unfold leave_loop, check_grace. destruct (_ <? _)%Z; [|by left].
      case_bool_decide; [by left|by right]. }
    assert (∀ x, phase x = Stopped ∨ phase x = Graceful → phase (loop_step cfg cb x GraceOver) = Stopped)
      as Hg by (intros x [Hx|Hx]; unfold loop_step; by rewrite Hx).
    cbn. apply Hg. unfold loop_step. destruct (phase s) eqn:Hp; [apply Hl|by right|by left].
  - intros Hw Hp. rewrite Hp in H6. destruct H6 as (Ha & _). cbn.
    unfold loop_step at 2 4. rewrite Hp. unfold leave_loop. rewrite (proj2 (Z.ltb_lt _ _) Hw).
    unfold check_grace; cbn. case_bool_decide as Ht.
    + rewrite Ht, elements_empty. cbn. rewrite Ht, Ha. split; [done|set_solver].
    + apply grace_finish; cbn; [done| | | |done].
      * symmetry. apply list_to_set_elements_L.
      * apply NoDup_elements.
      * intros He. apply Ht. by apply elements_empty_inv in He; apply leibniz_equiv.
Qed.

(** ** Witnesses *)

(** A semaphore that behaves so. *)
#[local] Instance DemoSem : SemaphoreCrate := {|
  Semaphore := nat * list nat;
  sem_new n := (n, []);
  available_permits := fst;
  sem_acquire_owned id q :=
    match q with
    | (S n, []) => (true, (n, []))
    | (n, l) => (false, (n, l ++ [id])%list)
    end;
  sem_add_permits q :=
    match q with
    | (n, w :: ws) => (Some w, (n, ws))
    | (n, []) => (None, (S n, []))
    end;
  sem_cancel id q := (q.1, remove_first id q.2);
  sem_waiting := snd;
|}.

#[local] Instance DemoSemLaws : SemaphoreLaws DemoSem.
Proof.
  split; try done.
  - intros id [[|n] [|w ws]] ??; cbn in *; try done. by eexists.
  - intros id [[|n] [|w ws]] [?|?]; cbn in *; try done; by eexists.
  - intros [n [|w ws]] ?; cbn in *; try done. by eexists.
  - intros [n [|w' ws']] w ws [= -> ->]. by eexists.
Qed.

(** Two permits and three connections: one waits and gets the refill. *)
Lemma limiter_conserves_witness :
  let c := mkRateConfig 2 10 1000 in
  let evs := [Tick; Arrive 0; Arrive 1; Arrive 2] in
  let s := runs limiter_step (limiter_init c) evs in
  waiting s = [2%nat] ∧ refills s = 0%nat ∧
  (holding (limiter_step s Tick) = 2%nat :: holding s ∧ waiting (limiter_step s Tick) = []).
Proof.
  intros c evs s. split; [reflexivity|]. split; [reflexivity|].
  destruct (limiter_conserves c evs) as (_ & _ & _ & _ & _ & _ & H). exact (proj2 H).
Defined.

Lemma limiter_burst_unbounded_witness :
  let c := mkRateConfig 2 10 1000 in
  ∃ evs, let s := runs limiter_step (limiter_init c) evs in
    holding s = [] ∧
    let burst := runs limiter_step s (map Arrive (seq 0 (rc_capacity c + 5))) in
    length (holding burst) = (rc_capacity c + 5)%nat ∧ waiting burst = [].
Proof. intros c. apply (limiter_burst_unbounded c 5). cbn. lia. Defined.

Lemma conn_task_accounting_witness :
  conn_task (Some Permit) (Some 5%Z) HandlerErr server_metrics handler_err = 0%Z.
Proof.
  rewrite (conn_task_accounting (Some Permit) (Some 5%Z) HandlerErr server_metrics handler_err).
  - reflexivity.
  - discriminate.
  - right; left.
Defined.
