(* ===== verification/Quic.v ===== *)
(** * HTTP/3 and WebTransport (silent/src/server/quic/core.rs,
    silent/src/server/quic/service.rs, silent/src/server/quic/middleware.rs)

    The QUIC connection is a parameter: what it hands over is a list of
    events, what it is asked to do is a list of actions.  Time is in
    nanoseconds.  Counters that live only in the metrics exporter are left
    out. *)

From S2P Require Import Prelude Str Platform State Error PathParam Body Message Next.

(** ** Datagrams of a WebTransport session *)

Record WebTransportStream := mkWt {
  max_frame_size : option Z;
  max_datagram_size : option Z;
  datagram_per_sec : option Z;
  datagram_tokens : Z;
  last_refill : Z;
  record_drop : bool;
  has_conn : bool;
}.

Definition WebTransportStream_new (max_frame max_dgram rate : option Z) (drop conn : bool) (now : Z)
  : WebTransportStream :=
  mkWt max_frame max_dgram rate (default 0%Z rate) now drop conn.

Definition set_tokens (s : WebTransportStream) (tokens last : Z) : WebTransportStream :=
  mkWt (max_frame_size s) (max_datagram_size s) (datagram_per_sec s) tokens last (record_drop s)
    (has_conn s).

(** [Duration::as_secs]: whole seconds. *)
Definition as_secs (d : Z) : Z := d / 1000000000.

Definition wt_refill (now : Z) (s : WebTransportStream) : WebTransportStream :=
  match datagram_per_sec s with
  | Some rate =>
      let elapsed := saturating_sub now (last_refill s) in
      let refill := saturating_mul u64_max rate (as_secs elapsed) in
      set_tokens s (Z.min (wrap_u64 (datagram_tokens s + refill)) rate) now
  | None => s
  end.

Inductive DatagramError := ExceedsLimit | RateLimited | SendFailed | NotSupported | RecvFailed.

Definition exceeds (max : option Z) (len : Z) : bool :=
  match max with Some max => (max <? len)%Z | None => false end.

(** [try_send_datagram] of [len] bytes at time [now]; [sent] is whether the
    connection takes the datagram. *)
Definition try_send_datagram (now len : Z) (sent : bool) (s : WebTransportStream)
  : result () DatagramError * WebTransportStream :=
  let s := wt_refill now s in
  if exceeds (max_datagram_size s) len then (Err ExceedsLimit, s)
  else
    let limited := bool_decide (is_Some (datagram_per_sec s)) in
    if limited && bool_decide (datagram_tokens s = 0%Z) then (Err RateLimited, s)
    else
      let s := if limited then set_tokens s (datagram_tokens s - 1) (last_refill s) else s in
      if has_conn s then (if sent then (Ok (), s) else (Err SendFailed, s))
      else (Err NotSupported, s).

(** What [read_datagram] gives: a closed connection ends the datagrams, any
    other error is reported. *)
Inductive RawDatagram := RawBytes (bytes : string) | RawClosed | RawErr.

(** [recv_datagram] called at time [now]; with [record_drop] a datagram over a
    limit is dropped, which looks like the end of the session's datagrams. *)
Definition recv_datagram (now : Z) (raw : RawDatagram) (s : WebTransportStream)
  : result (option string) DatagramError * WebTransportStream :=
  if negb (has_conn s) then (Err NotSupported, s)
  else
    let s := wt_refill now s in
    match raw with
    | RawClosed => (Ok None, s)
    | RawErr => (Err RecvFailed, s)
    | RawBytes raw =>
        if exceeds (max_datagram_size s) (Z.of_nat (String.length raw)) then
          (if record_drop s then Ok None else Err ExceedsLimit, s)
        else
          match datagram_per_sec s with
          | Some _ =>
              if bool_decide (datagram_tokens s = 0%Z)
              then (if record_drop s then Ok None else Err RateLimited, s)
              else (Ok (Some raw), set_tokens s (datagram_tokens s - 1) (last_refill s))
          | None => (Ok (Some raw), s)
          end
    end.

(** [recv_data]: what the stream yields, checked against the frame limit. *)
Definition wt_recv_data (now : Z) (frame : result (option string) string) (s : WebTransportStream)
  : result (option string) string * WebTransportStream :=
  match frame with
  | Err e => (Err e, s)
  | Ok maybe =>
      let s := wt_refill now s in
      match maybe with
      | Some data =>
          if exceeds (max_frame_size s) (Z.of_nat (String.length data))
          then (Err "WebTransport frame exceeds limit", s)
          else (Ok (Some data), s)
      | None => (Ok None, s)
      end
  end.

(** ** The request body of an HTTP/3 request *)

(** One round of [recv_data] under the read timeout. *)
Inductive H3Recv :=
| RecvData (bytes : string)
| RecvEnd
| RecvErr (e : string)
| RecvTimeout.

(** [let _ = sender.send(..)]: what the channel takes. *)
Definition try_send {A} (open : nat) (item : A) : list A :=
  match open with O => [] | S _ => [item] end.

(** [read_http3_body]: the items sent to the body channel, and how reading
    ended.  [open] is how many more items the consumer takes before it closes
    the channel; the peer finishes the stream after [recvs]. *)
Fixpoint read_http3_body (max : option Z) (total : Z) (open : nat) (recvs : list H3Recv)
  : list (result string string) * result () string :=
  match recvs with
  | [] => ([], Ok ())
  | RecvEnd :: _ => ([], Ok ())
  | RecvTimeout :: _ =>
      (try_send open (Err "HTTP/3 body read timeout"), Err "HTTP/3 body read timeout")
  | RecvErr e :: _ => (try_send open (Err ("HTTP/3 body read failed: " +:+ e)), Err e)
  | RecvData bytes :: rest =>
      if bool_decide (bytes = "") then read_http3_body max total open rest
      else
        let total := saturating_add usize_max total (Z.of_nat (String.length bytes)) in
        if exceeds max total then
          (try_send open (Err "HTTP/3 request body exceeds limit"),
           Err "HTTP/3 request body exceeds limit")
        else
          match open with
          | O => ([], Ok ())
          | S open =>
              let '(items, r) := read_http3_body max total open rest in
              (Ok bytes :: items, r)
          end
  end.

(** ** The response *)

Section response.
Context {P : Platform}.

(** The status line and the headers of the answer. *)
Definition Head : Type := StatusCode * Version * HeaderMap * Extensions.

Inductive H3Action :=
| SendHead (head : Head)
| SendData (chunk : string)
| YieldNow
| FinishStream.

(** The writing side of the stream: what its calls report ([send_response],
    [send_data] and [finish]), in the order they are made. *)
Definition StreamIo := nat → result () string.

(** [while !buf.is_empty()]: [None] when [fuel] chunks were not enough.
    Returned are what the stream took and, unless a call failed, the number of
    the next call and [sent_since_yield]. *)
Fixpoint send_chunks (io : StreamIo) (fuel : nat) (chunk_size yield_bytes since : Z) (n : nat)
    (buf : string) : option (list H3Action * result (nat * Z) string) :=
  if bool_decide (buf = "") then Some ([], Ok (n, since))
  else
    match fuel with
    | O => None
    | S fuel =>
        let chunk_len := Z.min (Z.of_nat (String.length buf)) chunk_size in
        let k := Z.to_nat chunk_len in
        match io n with
        | Err e => Some ([], Err e)
        | Ok _ =>
            let since := saturating_add usize_max since chunk_len in
            let '(acts, since) :=
              if (yield_bytes <=? since)%Z then ([YieldNow], 0%Z) else ([], since) in
            match send_chunks io fuel chunk_size yield_bytes since (S n) (str_drop k buf) with
            | Some (rest, r) => Some (SendData (str_take k buf) :: acts ++ rest, r)%list
            | None => None
            end
        end
    end.

(** [while let Some(frame) = body.frame().await], and the [finish] behind it:
    [None] when [fuel] polls of the body were not enough. *)
Fixpoint send_frames (io : StreamIo) (fuel : nat) (chunk_size yield_bytes since : Z) (n : nat)
    (body : ResBody) : option (list H3Action * result () string) :=
  match fuel with
  | O => None
  | S fuel =>
      match ResBody_poll_frame body with
      | (Pending, body) => send_frames io fuel chunk_size yield_bytes since n body
      | (Ready None, _) =>
          match io n with
          | Err e => Some ([], Err e)
          | Ok _ => Some ([FinishStream], Ok ())
          end
      | (Ready (Some (Err err)), _) => Some ([], Err ("读取响应体失败: " +:+ err))
      | (Ready (Some (Ok FrameTrailers)), body) =>
          send_frames io fuel chunk_size yield_bytes since n body
      | (Ready (Some (Ok (FrameData data))), body) =>
          if bool_decide (data = "") then send_frames io fuel chunk_size yield_bytes since n body
          else
            match send_chunks io (String.length data) chunk_size yield_bytes since n data with
            | None => None
            | Some (acts, Err e) => Some (acts, Err e)
            | Some (acts, Ok (n, since)) =>
                (λ '(acts', r), (acts ++ acts', r)%list) <$>
                  send_frames io fuel chunk_size yield_bytes since n body
            end
      end
  end.

(** [handle_http3_request_impl] once the body reader is joined: what the
    stream took, and the request's result. *)
Definition respond_http3 (io : StreamIo) (h3_chunk_size h3_yield_bytes : option Z) (fuel : nat)
    (head : Head) (body : ResBody) : option (list H3Action * result () string) :=
  match io 0%nat with
  | Err e => Some ([], Err e)
  | Ok _ =>
      let chunk_size := default (16 * 1024)%Z h3_chunk_size in
      let yield_bytes := default (256 * 1024)%Z h3_yield_bytes in
      (λ '(acts, r), (SendHead head :: acts, r)) <$>
        send_frames io fuel chunk_size yield_bytes 0 1 body
  end.

(** ** Reference: an answer and the stream it goes to *)

(** Doing [acts] in order up to the first call that fails, the [n]-th call
    being the next one; yielding makes no call. *)
Fixpoint perform (io : StreamIo) (n : nat) (acts : list H3Action)
  : list H3Action * result nat string :=
  match acts with
  | [] => ([], Ok n)
  | YieldNow :: acts => let '(sent, r) := perform io n acts in (YieldNow :: sent, r)
  | a :: acts =>
      match io n with
      | Err e => ([], Err e)
      | Ok _ => let '(sent, r) := perform io (S n) acts in (a :: sent, r)
      end
  end.

(** What [fuel] polls get from the body, up to its end or its first error. *)
Fixpoint body_frames (fuel : nat) (b : ResBody) : option (list (result Frame string)) :=
  match fuel with
  | O => None
  | S fuel =>
      match ResBody_poll_frame b with
      | (Ready None, _) => Some []
      | (Ready (Some (Err e)), _) => Some [Err e]
      | (Ready (Some f), b) => cons f <$> body_frames fuel b
      | (Pending, b) => body_frames fuel b
      end
  end.

(** The data up to the first error, and that error. *)
Fixpoint readable (frames : list (result Frame string)) : string * result () string :=
  match frames with
  | [] => ("", Ok ())
  | Err e :: _ => ("", Err e)
  | Ok (FrameData d) :: rest => let '(s, r) := readable rest in (d +:+ s, r)
  | Ok FrameTrailers :: rest => readable rest
  end.

(** The data a list of actions puts on the stream. *)
Definition sent_data (acts : list H3Action) : string :=
  foldr (λ a s, match a with SendData c => c +:+ s | _ => s end) "" acts.

(** Nonempty chunks of at most [size] bytes, and nothing else but yields. *)
Definition chunks_within (size : Z) (acts : list H3Action) : Prop :=
  Forall (λ a, match a with
               | SendData c => c ≠ "" ∧ (Z.of_nat (String.length c) <= size)%Z
               | YieldNow => True
               | _ => False
               end) acts.

(** The task yields whenever [yield_bytes] were sent since it last did, and only
    then; returned is what was sent since. *)
Fixpoint paced (yield_bytes since : Z) (acts : list H3Action) : option Z :=
  match acts with
  | [] => Some since
  | SendData c :: rest =>
      let since := saturating_add usize_max since (Z.of_nat (String.length c)) in
      if (yield_bytes <=? since)%Z
      then match rest with YieldNow :: rest => paced yield_bytes 0 rest | _ => None end
      else paced yield_bytes since rest
  | _ => None
  end.

(** The head, then [acts], then the end of the stream or the error of the
    body, as far as the stream goes along. *)
Definition h3_answer (io : StreamIo) (head : Head) (acts : list H3Action) (read : result () string)
  : list H3Action * result () string :=
  let finish := match read with Ok _ => [FinishStream] | Err _ => [] end in
  match perform io 0 (SendHead head :: acts ++ finish)%list with
  | (sent, Ok _) => (sent, map_err (λ err, "读取响应体失败: " +:+ err) read)
  | (sent, Err e) => (sent, Err e)
  end.
End response.

(** ** Traces of a session *)

Inductive WtEvent :=
| WtSend (now len : Z) (sent : bool)
| WtRecv (now : Z) (raw : RawDatagram)
| WtData (now : Z) (frame : result (option string) string).

Definition wt_time (e : WtEvent) : Z :=
  match e with WtSend now _ _ => now | WtRecv now _ => now | WtData now _ => now end.

Definition wt_step (s : WebTransportStream) (e : WtEvent) : WebTransportStream :=
  match e with
  | WtSend now len sent => snd (try_send_datagram now len sent s)
  | WtRecv now raw => snd (recv_datagram now raw s)
  | WtData now frame => snd (wt_recv_data now frame s)
  end.

(** Whether the event passed a datagram, to the peer or to the handler. *)
Definition wt_passed (s : WebTransportStream) (e : WtEvent) : Z :=
  match e with
  | WtSend now len sent =>
      match fst (try_send_datagram now len sent s) with Ok _ => 1 | Err _ => 0 end
  | WtRecv now raw =>
      match fst (recv_datagram now raw s) with Ok (Some _) => 1 | _ => 0 end
  | WtData _ _ => 0
  end.

(** Whether the call reaches [refill]. *)
Definition refills (s : WebTransportStream) (e : WtEvent) : Prop :=
  match e with
  | WtSend _ _ _ => True
  | WtRecv _ _ => has_conn s = true
  | WtData _ frame => is_ok frame = true
  end.

Fixpoint wt_total (s : WebTransportStream) (evs : list WtEvent) : Z :=
  match evs with
  | [] => 0
  | e :: evs => wt_passed s e + wt_total (wt_step s e) evs
  end.

(** Every event at most [gap] after the one before, and not before it. *)
Fixpoint within (gap : option Z) (t : Z) (evs : list WtEvent) : Prop :=
  match evs with
  | [] => True
  | e :: evs =>
      (t <= wt_time e)%Z ∧ (match gap with Some g => wt_time e - t <= g | None => True end)%Z ∧
      within gap (wt_time e) evs
  end.

Definition end_time (t : Z) (evs : list WtEvent) : Z := foldl (λ _ e, wt_time e) t evs.

Definition received (recvs : list H3Recv) : list (result string string) :=
  omap (λ r, match r with
             | RecvData b => if bool_decide (b = "") then None else Some (Ok b)
             | _ => None
             end) recvs.

Definition ok_bytes (items : list (result string string)) : Z :=
  foldr (λ i n, match i with Ok b => Z.of_nat (String.length b) + n | Err _ => n end)%Z 0%Z items.

(** ** The handshake and Alt-Svc *)

Section quic.
Context {P : Platform}.

Definition build_webtransport_handshake_response (h : HeaderMap) : StatusCode * HeaderMap :=
  match hm_get h "sec-webtransport-http3-draft" with
  | Some value => (OK, hm_append hm_empty "sec-webtransport-http3-draft" value)
  | None => (OK, hm_empty)
  end.

Definition alt_svc_value (port : Z) : string :=
  "h3=" +:+ String dquote (":" +:+ show_Z port +:+ String dquote "; ma=86400").

Definition AltSvcMiddleware (quic_port : Z) : MiddleWare := λ req next,
  response <-? next req ;;
  mret (Ok (if bool_decide (quic_port ≠ 0%Z) && header_value_ok (alt_svc_value quic_port)
            then set_res_headers response
                   (hm_insert (r_headers response) "alt-svc" (alt_svc_value quic_port))
            else response)).
End quic.

(** ** Lemmas: tokens *)

(** What one event does to the tokens: at most one is used, after a refill. *)
Lemma wt_step_tokens s e rate :
  datagram_per_sec s = Some rate → (0 <= datagram_tokens s)%Z →
  (0 <= datagram_tokens (wt_refill (wt_time e) s))%Z →
  let s' := wt_step s e in
  datagram_per_sec s' = Some rate ∧
  ((datagram_tokens s' + wt_passed s e <= datagram_tokens (wt_refill (wt_time e) s))%Z ∧
     last_refill s' = wt_time e ∨ s' = s ∧ wt_passed s e = 0%Z) ∧
  (0 <= datagram_tokens s')%Z.
Proof.
  intros Hr H0 H1. cbn.
  assert (datagram_per_sec (wt_refill (wt_time e) s) = Some rate) as Hr'.
  { unfold wt_refill. by rewrite Hr. }
  assert (last_refill (wt_refill (wt_time e) s) = wt_time e) as Hl.
  { unfold wt_refill. by rewrite Hr. }
  destruct e as [now len sent|now raw|now frame]; cbn in *.
  - unfold wt_passed, try_send_datagram. cbn. destruct (exceeds _ _); cbn.
    { split_and!; [done|(left; split; [lia|done])|done]. }
    rewrite Hr'. cbn. case_bool_decide as Ht; cbn; [split_and!; [done|(left; split; [lia|done])|done]|].
    destruct (has_conn _), sent; cbn; split_and!; try done; try lia; (left; split; [lia|done]).
  - unfold wt_passed, recv_datagram. destruct (has_conn s); cbn.
    2:{ split_and!; [done|by right|done]. }
    destruct raw as [raw| |]; cbn; [|split_and!; [done|(left; split; [lia|done])|done]..].
    destruct (exceeds _ _); cbn.
    { destruct (record_drop _); split_and!; try done; (left; split; [lia|done]). }
    rewrite Hr'. case_bool_decide as Ht; cbn.
    { destruct (record_drop _); split_and!; try done; (left; split; [lia|done]). }
    split_and!; [done|(left; split; [lia|done])|lia].
  - unfold wt_recv_data. destruct frame as [[data|]|err]; cbn.
    + destruct (exceeds _ _); cbn; split_and!; try done; (left; split; [lia|done]).
    + split_and!; [done|(left; split; [lia|done])|done].
    + split_and!; [done|by right|done].
Qed.

Lemma wt_step_has_conn s e : has_conn (wt_step s e) = has_conn s.
Proof.
  destruct e as [now len sent|now raw|now frame]; cbn;
    [unfold try_send_datagram|unfold recv_datagram|unfold wt_recv_data]; unfold wt_refill;
    repeat (case_match; cbn in *; simplify_eq; try done).
Qed.

Lemma refills_step s e e' : refills (wt_step s e) e' ↔ refills s e'.
Proof. unfold refills. by rewrite wt_step_has_conn. Qed.

(** Every call that reaches [refill] resets the clock. *)
Lemma wt_step_refills s e rate :
  datagram_per_sec s = Some rate → refills s e → last_refill (wt_step s e) = wt_time e.
Proof.
  intros Hr. assert (last_refill (wt_refill (wt_time e) s) = wt_time e) as Hl.
  { unfold wt_refill. by rewrite Hr. }
  destruct e as [now len sent|now raw|now frame]; cbn in *; intros Hf;
    [unfold try_send_datagram|unfold recv_datagram; rewrite Hf|unfold wt_recv_data];
    repeat (case_match; cbn in *; simplify_eq; try done).
Qed.

Lemma as_secs_add a b : (0 <= a)%Z → (0 <= b)%Z → (as_secs a + as_secs b <= as_secs (a + b))%Z.
Proof.
  intros Ha Hb. unfold as_secs. apply Z.div_le_lower_bound; [lia|].
  pose proof (Z.mul_div_le a 1000000000 ltac:(lia)).
  pose proof (Z.mul_div_le b 1000000000 ltac:(lia)). lia.
Qed.

Lemma as_secs_nonneg a : (0 <= a)%Z → (0 <= as_secs a)%Z.
Proof. intros. apply Z.div_pos; lia. Qed.

Lemma wt_refill_tokens now s rate :
  datagram_per_sec s = Some rate → (0 <= rate)%Z → (0 <= datagram_tokens s)%Z →
  (last_refill s <= now)%Z →
  let t := datagram_tokens (wt_refill now s) in
  (0 <= t)%Z ∧ (t <= datagram_tokens s + rate * as_secs (now - last_refill s))%Z.
Proof.
  intros Hr H0 Ht Hn. unfold wt_refill. rewrite Hr. cbn.
  assert (saturating_sub now (last_refill s) = now - last_refill s)%Z as ->
    by (unfold saturating_sub; lia).
  pose proof (Z.mul_nonneg_nonneg _ _ H0 (as_secs_nonneg (now - last_refill s) ltac:(lia))) as Hm.
  unfold saturating_mul. revert Hm. generalize (rate * as_secs (now - last_refill s))%Z.
  intros x Hx. unfold wrap_u64.
  pose proof (Z.mod_pos_bound (datagram_tokens s + Z.min u64_max x) (u64_max + 1) ltac:(done)).
  pose proof (Z.mod_le (datagram_tokens s + Z.min u64_max x) (u64_max + 1)) as Hl.
  unfold u64_max in *. lia.
Qed.

Lemma end_time_le gap t evs : within gap t evs → (t <= end_time t evs)%Z.
Proof.
  revert t. induction evs as [|e evs IH]; intros t; cbn; [lia|].
  intros (H1 & _ & H2). apply IH in H2. unfold end_time in H2. lia.
Qed.

Lemma wt_total_bound rate s t evs :
  datagram_per_sec s = Some rate → (0 <= rate)%Z → (0 <= datagram_tokens s)%Z →
  (last_refill s <= t)%Z → within None t evs →
  (wt_total s evs <= datagram_tokens s + rate * as_secs (end_time t evs - last_refill s))%Z.
Proof.
  intros Hr H0. revert s t Hr. induction evs as [|e evs IH]; intros s t Hr Ht Hl; cbn [wt_total within].
  { intros _. pose proof (as_secs_nonneg (t - last_refill s) ltac:(lia)).
    pose proof (Z.mul_nonneg_nonneg _ _ H0 H). unfold end_time. cbn. lia. }
  intros (H1 & _ & Hw). pose proof (end_time_le _ _ _ Hw) as He.
  change (end_time t (e :: evs)) with (end_time (wt_time e) evs).
  destruct (wt_refill_tokens (wt_time e) s rate) as [Hp Hb]; [done|done|done|lia|].
  destruct (wt_step_tokens s e rate Hr Ht Hp) as (Hr' & [[Hs Hlast]|[-> ->]] & Ht').
  - specialize (IH (wt_step s e) (wt_time e) Hr' Ht' ltac:(lia) Hw). rewrite Hlast in IH.
    pose proof (as_secs_add (wt_time e - last_refill s) (end_time (wt_time e) evs - wt_time e)
      ltac:(lia) ltac:(lia)) as Ha.
    replace (wt_time e - last_refill s + (end_time (wt_time e) evs - wt_time e))%Z
      with (end_time (wt_time e) evs - last_refill s)%Z in Ha by lia.
    pose proof (Z.mul_le_mono_nonneg_l _ _ _ H0 Ha). lia.
  - specialize (IH s (wt_time e) Hr Ht ltac:(lia) Hw). lia.
Qed.

(** Refills less than a second apart add nothing. *)
Lemma wt_total_starved rate s evs :
  datagram_per_sec s = Some rate → (0 <= rate)%Z → (0 <= datagram_tokens s)%Z →
  Forall (λ e, refills s e) evs → within (Some 999999999)%Z (last_refill s) evs →
  (wt_total s evs <= datagram_tokens s)%Z.
Proof.
  intros Hr H0. revert s Hr. induction evs as [|e evs IH]; intros s Hr Ht Hf; cbn; [lia|].
  intros (H1 & H2 & Hw). apply Forall_cons in Hf as [Hfe Hf].
  destruct (wt_refill_tokens (wt_time e) s rate) as [Hp Hb]; [done..|].
  assert (as_secs (wt_time e - last_refill s) = 0)%Z as E by (apply Z.div_small; lia).
  rewrite E, Z.mul_0_r, Z.add_0_r in Hb.
  destruct (wt_step_tokens s e rate Hr Ht Hp) as (Hr' & Hs & Ht').
  assert (last_refill (wt_step s e) = wt_time e) as Hlast by by apply wt_step_refills with rate.
  assert (wt_passed s e + datagram_tokens (wt_step s e) <= datagram_tokens s)%Z as Hc.
  { destruct Hs as [[Hs _]|[-> ->]]; lia. }
  specialize (IH (wt_step s e) Hr' Ht'). rewrite Hlast in IH.
  assert (wt_total (wt_step s e) evs <= datagram_tokens (wt_step s e))%Z; [|lia].
  apply IH; [|done]. eapply Forall_impl; [exact Hf|]. intros e'. by rewrite refills_step.
Qed.

(** ** Lemmas: chunks *)

Section response_lemmas.
Context {P : Platform}.

Lemma sent_data_cons a b : sent_data (a :: b) = sent_data [a] +:+ sent_data b.
Proof. destruct a; cbn; by rewrite ?str_app_nil_r. Qed.

Lemma sent_data_app a b : sent_data (a ++ b)%list = sent_data a +:+ sent_data b.
Proof.
  induction a as [|x a IH]; [done|].
  change ((x :: a) ++ b)%list with (x :: (a ++ b))%list.
  by rewrite sent_data_cons, (sent_data_cons x a), IH, str_app_assoc.
Qed.

Lemma perform_app io n a b :
  perform io n (a ++ b)%list =
  match perform io n a with
  | (sent, Ok n') => let '(sent', r) := perform io n' b in (sent ++ sent', r)%list
  | (sent, Err e) => (sent, Err e)
  end.
Proof.
  revert n. induction a as [|x a IH]; intros n; [by cbn; destruct (perform io n b)|].
  destruct x; cbn; rewrite IH; try destruct (io n); try done;
    destruct (perform io _ a) as [? [?|?]]; try done; by destruct (perform io _ b).
Qed.

Lemma paced_app yb a : ∀ since since' b,
  paced yb since a = Some since' → paced yb since (a ++ b)%list = paced yb since' b.
Proof.
  assert (∀ n a, (length a < n)%nat → ∀ since since' b,
    paced yb since a = Some since' → paced yb since (a ++ b)%list = paced yb since' b) as H.
  { clear a. intros n. induction n as [|n IH]; intros a Hl; [lia|]. intros since since' b.
    destruct a as [|[| c | |] a]; cbn in *; [by intros [= ->]|done| |done..].
    destruct (yb <=? _)%Z; [|apply IH; lia]. destruct a as [|[] a]; try done. cbn in *. apply IH. lia. }
  apply (H (S (length a))). lia.
Qed.

(** With a positive chunk size, as many chunks as bytes are enough. *)
Lemma send_chunks_total fuel size yb since buf :
  (0 < size)%Z → (String.length buf ≤ fuel)%nat →
  ∃ acts since', sent_data acts = buf ∧ chunks_within size acts ∧ paced yb since acts = Some since' ∧
    ∀ io n, send_chunks io fuel size yb since n buf =
      Some (let '(sent, r) := perform io n acts in (sent, match r with Ok n' => Ok (n', since') | Err e => Err e end)).
Proof.
  intros Hs. revert buf since. induction fuel as [|fuel IH]; intros buf since Hl; cbn [send_chunks].
  { destruct buf; [|cbn in Hl; lia]. exists [], since. by repeat constructor. }
  case_bool_decide as Hb; [subst; exists [], since; by repeat constructor|].
  assert (0 < String.length buf)%nat as Hlen by (destruct buf; cbn; [done|lia]).
  set (k := Z.to_nat (Z.min (Z.of_nat (String.length buf)) size)).
  assert (0 < k ≤ String.length buf)%nat as Hk by lia.
  set (sy := saturating_add _ _ _).
  destruct (if (yb <=? sy)%Z then ([YieldNow], 0%Z) else ([], sy)) as [ys s1] eqn:Ey.
  destruct (IH (str_drop k buf) s1) as (acts & s2 & Hd & Hf & Hp & Hc); [rewrite str_drop_len; lia|].
  pose proof (str_take_len k buf ltac:(lia)) as Ht.
  assert (ys = [] ∨ ys = [YieldNow]) as Hys.
  { destruct (yb <=? sy)%Z; injection Ey as <- <-; auto. }
  exists (SendData (str_take k buf) :: ys ++ acts)%list, s2. split_and!.
  - rewrite sent_data_cons, sent_data_app, Hd. cbn. rewrite str_app_nil_r.
    destruct Hys as [->| ->]; apply str_take_drop.
  - apply Forall_cons. split.
    + split; [|lia].
      intros He. rewrite He in Ht. cbn in Ht. lia.
    + apply Forall_app. split; [|done]. destruct Hys as [->| ->]; by repeat constructor.
  - cbn [paced]. rewrite Ht. unfold k. rewrite Z2Nat.id by lia. fold sy.
    destruct (yb <=? sy)%Z; injection Ey as <- <-; exact Hp.
  - intros io n. rewrite Hc. cbn [perform]. destruct (io n); [|done].
    rewrite perform_app. destruct Hys as [->| ->]; cbn; by destruct (perform io (S n) acts).
Qed.

(** With a chunk size of 0 every call sends nothing, until one fails. *)
Lemma send_chunks_zero io fuel yb since n buf :
  (∀ k, is_ok (io k) = true) → buf ≠ "" → send_chunks io fuel 0 yb since n buf = None.
Proof.
  intros Hio. revert since n. induction fuel as [|fuel IH]; intros since n Hb; cbn [send_chunks];
    rewrite bool_decide_eq_false_2 by done; [done|].
  specialize (Hio n) as Hn. destruct (io n); [|done].
  rewrite Z.min_r by lia. cbn [Z.to_nat str_drop].
  destruct (if (yb <=? _)%Z then _ else _) as [ys s1]. by rewrite IH.
Qed.

(** The frame loop performs the readable data in chunks, and ends the stream
    or reports the body's error. *)
Lemma send_frames_total size yb fuel : ∀ since body frames,
  (0 < size)%Z → body_frames fuel body = Some frames →
  ∃ acts, sent_data acts = (readable frames).1 ∧ chunks_within size acts ∧
    is_Some (paced yb since acts) ∧
    ∀ io n, send_frames io fuel size yb since n body =
      Some (let finish := match (readable frames).2 with Ok _ => [FinishStream] | Err _ => [] end in
            match perform io n (acts ++ finish)%list with
            | (sent, Ok _) => (sent, map_err (λ err, "读取响应体失败: " +:+ err) (readable frames).2)
            | (sent, Err e) => (sent, Err e)
            end).
Proof.
  induction fuel as [|fuel IH]; intros since body frames Hs Hb; [done|].
  cbn [body_frames send_frames] in *. destruct (ResBody_poll_frame body) as [[[[[data|]|e]|]|] body'].
  - destruct (body_frames fuel body') as [rest|] eqn:Hr; [|done]. injection Hb as <-.
    cbn [readable]. destruct (readable rest) as [d r] eqn:Hd.
    case_bool_decide as He.
    { subst. destruct (IH since body' rest Hs Hr) as (acts & Ha). rewrite Hd in Ha. by exists acts. }
    destruct (send_chunks_total (String.length data) size yb since data Hs ltac:(lia))
      as (acts & since' & Ha & Hc & Hp & Hio).
    destruct (IH since' body' rest Hs Hr) as (acts' & Ha' & Hc' & Hp' & Hio'). rewrite Hd in Ha', Hio'.
    exists (acts ++ acts')%list.
    split_and!; [by rewrite sent_data_app, Ha, Ha'|by apply Forall_app|by rewrite (paced_app _ _ _ _ _ Hp)|].
    intros io n. rewrite Hio, <- app_assoc, perform_app. destruct (perform io n acts) as [sent [n'|e]]; [|done].
    cbn. rewrite Hio'. cbn. by destruct (perform io n' _) as [? []].
  - destruct (body_frames fuel body') as [rest|] eqn:Hr; [|done]. injection Hb as <-.
    exact (IH since body' rest Hs Hr).
  - injection Hb as <-. exists []. split_and!; [done|by constructor|by eexists|done].
  - injection Hb as <-. exists []. split_and!; [done|by constructor|by eexists|]. intros io n. cbn. by destruct (io n).
  - exact (IH since body' frames Hs Hb).
Qed.

(** The whole answer. *)
Lemma respond_http3_answers size yb fuel body frames :
  (match size with Some n => 0 < n | None => True end)%Z → body_frames fuel body = Some frames →
  ∃ acts, sent_data acts = (readable frames).1 ∧ chunks_within (default 16384 size)%Z acts ∧
    is_Some (paced (default 262144 yb)%Z 0 acts) ∧
    ∀ io head, respond_http3 io size yb fuel head body =
      Some (h3_answer io head acts (readable frames).2).
Proof.
  intros Hs Hb.
  destruct (send_frames_total (default 16384%Z size) (default (256 * 1024)%Z yb) fuel 0 body frames)
    as (acts & Ha & Hc & Hp & Hio); [destruct size; cbn; lia|done|].
  exists acts. split_and!; [done..|]. intros io head. unfold respond_http3, h3_answer.
  change (16 * 1024)%Z with 16384%Z. rewrite Hio. cbn. destruct (io 0%nat); [|done]. cbn.
  by destruct (perform io 1 _) as [sent []].
Qed.

(** In-memory bodies give all they hold. *)
Lemma body_frames_drain b cs fuel :
  in_memory b = Some cs → (length cs < fuel)%nat →
  body_frames fuel b = Some ((λ c, Ok (FrameData c)) <$> cs).
Proof.
  assert (∀ fuel cs, (length cs < fuel)%nat →
    body_frames fuel (ResChunks cs) = Some ((λ c, Ok (FrameData c)) <$> cs)) as Hc.
  { clear. intros fuel. induction fuel as [|fuel IH]; intros [|c cs] Hf; cbn in Hf; [lia|lia|done|].
    change (body_frames (S fuel) (ResChunks (c :: cs)))
      with (cons (Ok (FrameData c)) <$> body_frames fuel (ResChunks cs)).
    rewrite IH by lia. done. }
  destruct fuel as [|fuel]; [lia|].
  destruct b as [|bytes|l| | |]; cbn [in_memory]; intros [= <-] Hf; [done| |by apply Hc].
  cbn. case_bool_decide as E; subst; [done|]. destruct fuel as [|fuel]; [cbn in Hf; lia|]. done.
Qed.

Lemma readable_concat cs :
  readable ((λ c, Ok (FrameData c)) <$> cs) = (String.concat "" cs, Ok ()).
Proof.
  induction cs as [|c [|c' cs] IH]; [done| |].
  - cbn. by rewrite str_app_nil_r.
  - change (readable ((λ c, Ok (FrameData c)) <$> c :: c' :: cs)) with
      (let '(s, r) := readable ((λ c, Ok (FrameData c)) <$> c' :: cs) in (c +:+ s, r)). by rewrite IH.
Qed.
End response_lemmas.

(** ** Lemmas: the upload *)

Lemma ok_bytes_try_send open e : ok_bytes (try_send open (Err e)) = 0%Z.
Proof. by destruct open. Qed.

Lemma read_http3_body_bound m total open recvs :
  (total <= m)%Z → (m < usize_max)%Z →
  (total + ok_bytes (fst (read_http3_body (Some m) total open recvs)) <= m)%Z.
Proof.
  intros Ht Hm. revert total open Ht.
  induction recvs as [|[bytes| |e|] recvs IH]; intros total open Ht;
    cbn [read_http3_body fst]; rewrite ?ok_bytes_try_send; try (cbn; lia).
  case_bool_decide; [by apply IH|]. unfold saturating_add, exceeds.
  destruct (Z.ltb_spec m (Z.min usize_max (total + Z.of_nat (String.length bytes))));
    cbn [fst]; [rewrite ok_bytes_try_send; lia|].
  destruct open as [|open]; [cbn; lia|].
  specialize (IH (Z.min usize_max (total + Z.of_nat (String.length bytes))) open ltac:(lia)).
  destruct (read_http3_body _ _ _ recvs) as [items r].
  change (total + (Z.of_nat (String.length bytes) + ok_bytes items) <= m)%Z.
  cbn [fst] in IH. lia.
Qed.

(** Everything forwarded is an unmodified prefix of what was received; a
    failure is reported last, to a consumer that still listens. *)
Lemma read_http3_body_prefix max total open recvs :
  let '(items, r) := read_http3_body max total open recvs in
  match r with
  | Ok _ => items `prefix_of` received recvs
  | Err _ => ∃ l e, items = (l ++ try_send (open - length l) (Err e))%list ∧
      l `prefix_of` received recvs ∧ (length l ≤ open)%nat
  end.
Proof.
  assert (∀ (open : nat) (e : string) (q : list (result string string)),
    ∃ (l : list (result string string)) e', try_send open (Err e)
      = (l ++ try_send (open - length l) (Err e'))%list ∧ l `prefix_of` q ∧ (length l ≤ open)%nat)
    as Hnil.
  { intros o e q. exists [], e. rewrite Nat.sub_0_r. split_and!; [done|apply prefix_nil|cbn; lia]. }
  revert total open. induction recvs as [|[bytes| |e|] recvs IH]; intros total open; cbn;
    [done| |apply prefix_nil|apply Hnil..].
  case_bool_decide as Hb; cbn; [apply IH|].
  destruct (exceeds _ _); [apply Hnil|].
  destruct open as [|open]; [apply prefix_nil|].
  specialize (IH (saturating_add usize_max total (Z.of_nat (String.length bytes))) open).
  destruct (read_http3_body _ _ _ recvs) as [items [|e]].
  - by apply prefix_cons.
  - destruct IH as (l & e' & -> & Hl & Hle). exists (Ok bytes :: l), e'.
    split_and!; [done|by apply prefix_cons|cbn; lia].
Qed.

(** ** Properties *)

(** The datagram limit holds: a session limited to [rate] datagrams per
    second passes, in both directions together and whatever the calls, at
    most [rate] for the burst and [rate] for every whole second since it was
    opened. *)
Theorem datagram_rate_bound rate max_frame max_dgram drop conn t0 evs :
  (0 <= rate)%Z → within None t0 evs →
  (wt_total (WebTransportStream_new max_frame max_dgram (Some rate) drop conn t0) evs
   <= rate * (1 + as_secs (end_time t0 evs - t0)))%Z.
Proof.
  intros H0 Hw.
  pose proof (wt_total_bound rate
    (WebTransportStream_new max_frame max_dgram (Some rate) drop conn t0) t0 evs
    eq_refl H0 H0 (Z.le_refl t0) Hw) as H. cbn [datagram_tokens last_refill
      WebTransportStream_new default from_option id] in H. lia.
Qed.

Definition busy : list WtEvent :=
  [WtSend 1000000000 3 true; WtRecv 1000000000 (RawBytes "a"); WtSend 1500000000 3 true;
   WtSend 2500000000 3 true].

Lemma datagram_rate_bound_witness :
  wt_total (WebTransportStream_new None None (Some 2%Z) true true 0) busy = 3%Z ∧
  (wt_total (WebTransportStream_new None None (Some 2%Z) true true 0) busy
   <= 2 * (1 + as_secs (end_time 0 busy - 0)))%Z.
Proof.
  split; [reflexivity|]. apply (datagram_rate_bound 2); [lia|]. vm_compute.
  repeat split; discriminate.
Defined.

(** A busy session starves.  The refill counts whole seconds but always
    resets the clock, so a session whose calls come less than a second apart
    passes [rate] datagrams in its whole life, however long it lasts. *)
Theorem datagram_starvation rate max_frame max_dgram drop t0 evs :
  (0 <= rate)%Z →
  Forall (refills (WebTransportStream_new max_frame max_dgram (Some rate) drop true t0)) evs →
  within (Some 999999999)%Z t0 evs →
  (wt_total (WebTransportStream_new max_frame max_dgram (Some rate) drop true t0) evs <= rate)%Z.
Proof.
  intros H0 Hf Hw. 
  exact (wt_total_starved rate (WebTransportStream_new max_frame max_dgram (Some rate) drop true t0)
    evs eq_refl H0 H0 Hf Hw).
Qed.

(** A call every half second for [n] half seconds. *)
Fixpoint half_seconds (n : nat) (t : Z) : list WtEvent :=
  match n with
  | O => []
  | S n => WtSend t 3 true :: half_seconds n (t + 500000000)%Z
  end.

Lemma datagram_starvation_witness :
  end_time 0 (half_seconds 41 0) = 20000000000%Z ∧
  wt_total (WebTransportStream_new None None (Some 2%Z) true true 0) (half_seconds 41 0) = 2%Z ∧
  (wt_total (WebTransportStream_new None None (Some 2%Z) true true 0) (half_seconds 41 0) <= 2)%Z.
Proof.
  split_and!; [reflexivity|reflexivity|]. apply datagram_starvation; [lia| |].
  - repeat constructor.
  - vm_compute. repeat split; discriminate.
Defined.

(** Reading an HTTP/3 body with a limit forwards at most that many bytes,
    as an unmodified prefix of what the peer sent; when reading fails, a
    consumer that still listens gets the failure as the last item. *)
Theorem read_http3_body_ok m open recvs :
  (0 <= m < usize_max)%Z →
  let '(items, r) := read_http3_body (Some m) 0 open recvs in
  (ok_bytes items <= m)%Z ∧
  match r with
  | Ok _ => items `prefix_of` received recvs
  | Err _ => ∃ l e, items = (l ++ try_send (open - length l) (Err e))%list ∧
      l `prefix_of` received recvs ∧ (length l ≤ open)%nat
  end.
Proof.
  intros Hm. pose proof (read_http3_body_bound m 0 open recvs ltac:(lia) ltac:(lia)) as H1.
  pose proof (read_http3_body_prefix (Some m) 0 open recvs) as H2.
  destruct (read_http3_body _ _ _ _) as [items r]. by split.
Qed.

Lemma read_http3_body_ok_witness :
  read_http3_body (Some 5%Z) 0 8 [RecvData "abc"; RecvData ""; RecvData "de"; RecvData "f"; RecvEnd]
  = ([Ok "abc"; Ok "de"; Err "HTTP/3 request body exceeds limit"],
     Err "HTTP/3 request body exceeds limit") ∧
  let '(items, r) := read_http3_body (Some 5%Z) 0 8
    [RecvData "abc"; RecvData ""; RecvData "de"; RecvData "f"; RecvEnd] in
  (ok_bytes items <= 5)%Z ∧
  match r with
  | Ok _ => items `prefix_of`
      received [RecvData "abc"; RecvData ""; RecvData "de"; RecvData "f"; RecvEnd]
  | Err _ => ∃ l e, items = (l ++ try_send (8 - length l) (Err e))%list ∧
      l `prefix_of` received [RecvData "abc"; RecvData ""; RecvData "de"; RecvData "f"; RecvEnd] ∧
      (length l ≤ 8)%nat
  end.
Proof.
  split; [reflexivity|]. apply (read_http3_body_ok 5 8). vm_compute. split; discriminate || done.
Defined.

(** The HTTP/3 response.  With a positive chunk size (the default is 16 KiB)
    the head, the body's readable data whole and in order, in nonempty chunks
    of at most that size and with a yield after every [h3_yield_bytes], and
    the end of the stream are sent, up to the first call the stream fails, whose error is the request's; a body that fails
    leaves the stream unfinished and its error is the request's.  A chunk size
    of 0 never finishes a nonempty body on a stream that takes everything. *)
Theorem respond_http3_ok `{P : Platform} size yb fuel body frames :
  body_frames fuel body = Some frames →
  (match size with Some n => 0 < n | None => True end)%Z →
  (∃ acts, sent_data acts = (readable frames).1 ∧ chunks_within (default 16384 size)%Z acts ∧
     is_Some (paced (default 262144 yb)%Z 0 acts) ∧
     ∀ io head, respond_http3 io size yb fuel head body =
       Some (h3_answer io head acts (readable frames).2)) ∧
  (∀ io n fuel' buf since yield_bytes, (∀ k, is_ok (io k) = true) → buf ≠ "" →
     send_chunks io fuel' 0 yield_bytes since n buf = None).
Proof.
  intros Hf Hs. split; [by apply respond_http3_answers|]. intros. by apply send_chunks_zero.
Qed.

Section response_examples.
Let head : Head (P := Demo) := (OK, HTTP_11, hm_empty, ext_empty).
Let io : StreamIo := λ n, if bool_decide (n = 3)%nat then Err "reset" else Ok ().

Lemma respond_http3_ok_witness :
  respond_http3 (λ _, Ok ()) (Some 2%Z) (Some 4%Z) 2 head (ResOnce (P := Demo) "abcde")
    = Some ([SendHead head; SendData "ab"; SendData "cd"; YieldNow; SendData "e"; FinishStream], Ok ()) ∧
  respond_http3 io (Some 2%Z) (Some 4%Z) 2 head (ResOnce (P := Demo) "abcde")
    = Some ([SendHead head; SendData "ab"; SendData "cd"; YieldNow], Err "reset") ∧
  ∃ acts, sent_data acts = "abcde" ∧
    respond_http3 io (Some 2%Z) (Some 4%Z) 2 head (ResOnce (P := Demo) "abcde")
    = Some (h3_answer io head acts (Ok ())).
Proof.
  split_and!; [reflexivity|reflexivity|].
  destruct (respond_http3_ok (P := Demo) (Some 2%Z) (Some 4%Z) 2 (ResOnce "abcde")
    [Ok (FrameData "abcde")]) as [(acts & Ha & _ & _ & Hio) _]; [reflexivity|lia|].
  exists acts. split; [exact Ha|apply Hio].
Defined.
End response_examples.
