(* ===== verification/Cookies.v ===== *)
(** * Cookies and the scheduler in a request
    (silent/src/cookie/middleware.rs, silent/src/cookie/cookie_ext.rs,
    silent/src/scheduler/middleware.rs)

    The [cookie] crate is a parameter: a jar remembers the cookies that came
    and the changes made to it, its delta.  Jars travel in the extensions. *)

From S2P Require Import Prelude Str Platform Ext State Error PathParam Body Message Next.

Class CookieCrate (P : Platform) := {
  Cookie : Type;
  CookieJar : Type;
  jar_new : CookieJar;
  cookie_parse_encoded : string → option Cookie;
  jar_add_original : CookieJar → Cookie → CookieJar;
  jar_add : CookieJar → Cookie → CookieJar;
  jar_delta : CookieJar → list Cookie;
  (** [cookie.encoded().to_string()]. *)
  cookie_encoded : Cookie → string;
  #[global] jar_slot :: ExtSlot P CookieJar;
  (** [CookieJar::get] and [iter]: changes hide originals of their name. *)
  jar_get : CookieJar → string → option Cookie;
  jar_iter : CookieJar → list Cookie;
  cookie_name : Cookie → string;
  cookie_value : Cookie → string;
}.

(** What the crate documents of its jars. *)
Class CookieLaws {P : Platform} (C : CookieCrate P) : Prop := {
  #[global] jar_slot_laws :: ExtSlotLaws jar_slot;
  jar_delta_new : jar_delta jar_new = [];
  jar_delta_original j c : jar_delta (jar_add_original j c) = jar_delta j;
  jar_delta_add j c d :
    d ∈ jar_delta (jar_add j c) ↔ d = c ∨ (d ∈ jar_delta j ∧ cookie_name d ≠ cookie_name c);
  jar_get_new n : jar_get jar_new n = None;
  jar_get_add j c n :
    jar_get (jar_add j c) n = if bool_decide (cookie_name c = n) then Some c else jar_get j n;
}.

Section cookies.
Context {P : Platform} {C : CookieCrate P}.

Definition set_res_extensions (r : Response) (e : Extensions) : Response :=
  mkResponse (r_status r) (r_version r) (r_headers r) (r_body r) e (r_state r).

(** [CookieExt::cookies] of a request and of a response. *)
Definition req_cookies (r : Request) : CookieJar := default jar_new (ext_get (T := CookieJar) (extensions r)).
Definition res_cookies (r : Response) : CookieJar := default jar_new (ext_get (T := CookieJar) (r_extensions r)).

(** Writing through [cookies_mut]: a missing jar is put there first. *)
Definition req_cookies_mut (f : CookieJar → CookieJar) (r : Request) : Request :=
  let r := match ext_get (T := CookieJar) (extensions r) with
           | None => set_extensions r (ext_insert (extensions r) jar_new)
           | Some _ => r
           end in
  set_extensions r (ext_insert (extensions r) (f (default jar_new (ext_get (extensions r))))).
Definition res_cookies_mut (f : CookieJar → CookieJar) (r : Response) : Response :=
  let r := match ext_get (T := CookieJar) (r_extensions r) with
           | None => set_res_extensions r (ext_insert (r_extensions r) jar_new)
           | Some _ => r
           end in
  set_res_extensions r (ext_insert (r_extensions r) (f (default jar_new (ext_get (r_extensions r))))).

(** [CookieExt::cookie] *)
Definition req_cookie (r : Request) (name : string) : option Cookie :=
  ext_get (T := CookieJar) (extensions r) ≫= λ jar, jar_get jar name.
Definition res_cookie (r : Response) (name : string) : option Cookie :=
  ext_get (T := CookieJar) (r_extensions r) ≫= λ jar, jar_get jar name.

(** The loop over the pieces of the header; pieces that do not parse are
    skipped. *)
Definition parse_cookies (cookies : string) : CookieJar :=
  foldl (λ jar cookie_str,
           match cookie_parse_encoded cookie_str with
           | Some cookie => jar_add_original jar cookie
           | None => jar
           end) jar_new (map trim (split_char ";" cookies)).

(** The jar of the [cookie] header; [code] answers a header that is no text. *)
Definition header_cookies (code : StatusCode) (h : HeaderMap) : SilentResult CookieJar :=
  match hm_get h "cookie" with
  | None => Ok jar_new
  | Some v =>
      match header_to_str v with
      | Some cookies => Ok (parse_cookies cookies)
      | None => Err (business_error code
                  "Failed to parse cookie: failed to convert header to a str")
      end
  end.

(** The changes of the answer's jar are added to the request's. *)
Definition cookie_answer (jar : CookieJar) (res : Response) : Response :=
  let jar := match ext_get (T := CookieJar) (r_extensions res) with
             | Some cookie_jar => foldl jar_add jar (jar_delta cookie_jar)
             | None => jar
             end in
  set_res_extensions res (ext_insert (r_extensions res) jar).

Definition CookieMiddleware_handle : MiddleWare := λ req next,
  match header_cookies BAD_REQUEST (headers req) with
  | Err e => mret (Err e)
  | Ok jar =>
      let req := set_extensions req (ext_insert (extensions req) jar) in
      res <-? next req ;;
      mret (Ok (cookie_answer jar res))
  end.

(** [insert] puts the shared scheduler into the extensions. *)
Definition SchedulerMiddleware_handle (insert : Extensions → Extensions) : MiddleWare :=
  λ req next, next (set_extensions req (insert (extensions req))).

(** [Request::scheduler]: the scheduler in the extensions. *)
Definition req_scheduler {Scheduler : Type} {S : ExtSlot P Scheduler} (req : Request)
  : result Scheduler SilentError :=
  match ext_get (extensions req) with
  | Some s => Ok s
  | None => Err (business_error INTERNAL_SERVER_ERROR "No scheduler found")
  end.

(** Behind the middleware every handler finds the scheduler it installs. *)
Lemma scheduler_reaches {Scheduler : Type} {S : ExtSlot P Scheduler} `{!ExtSlotLaws S} s req next :
  ∃ req', req_scheduler req' = Ok s ∧
    SchedulerMiddleware_handle (λ e, ext_insert e s) req next = next req'.
Proof.
  eexists. split; [|done]. unfold req_scheduler. cbn. by rewrite ext_get_insert.
Qed.
End cookies.

(** ** A concrete jar: the originals and the changes, newest first *)

Definition demo_jar_add (j : list (string * string) * list (string * string)) (c : string * string) :=
  (fst j, c :: List.filter (λ d, negb (bool_decide (fst d = fst c))) (snd j)).
Definition demo_jar_get (j : list (string * string) * list (string * string)) (n : string) :=
  find (λ c, bool_decide (fst c = n)) (snd j ++ fst j).

Definition DemoCookies (P : Platform)
    (slot : ExtSlot P (list (string * string) * list (string * string))) : CookieCrate P := {|
  Cookie := string * string;
  CookieJar := list (string * string) * list (string * string);
  jar_new := ([], []);
  cookie_parse_encoded s :=
    match split_once "=" s with (n, Some v) => Some (n, v) | _ => None end;
  jar_add_original j c := ((c :: fst j)%list, snd j);
  jar_add := demo_jar_add;
  jar_delta j := snd j;
  cookie_encoded c := fst c +:+ "=" +:+ snd c;
  jar_slot := slot;
  jar_get := demo_jar_get;
  jar_iter j := (snd j ++ List.filter
    (λ c, negb (existsb (λ d, bool_decide (fst d = fst c)) (snd j))) (fst j))%list;
  cookie_name := fst;
  cookie_value := snd;
|}.

Lemma DemoCookiesLaws P slot : ExtSlotLaws slot → CookieLaws (DemoCookies P slot).
Proof.
  intros HL. split; cbn; try done.
  - intros [o j] [n v] [n' v']. cbn. rewrite elem_of_cons, list_elem_of_In, filter_In, list_elem_of_In. cbn.
    rewrite negb_true_iff, bool_decide_eq_false. done.
  - intros [o j] [n v] n'. unfold demo_jar_get, demo_jar_add. cbn.
    case_bool_decide as Hn; [done|]. induction j as [|[m x] j IH]; cbn; [done|].
    destruct (decide (m = n)) as [->|Hm].
    + rewrite bool_decide_true by done. cbn. rewrite (bool_decide_false (n = n')) by done. exact IH.
    + rewrite (bool_decide_false (m = n)) by done. cbn. by case_bool_decide.
Qed.

(** Extensions of the plain demonstration platform hold nothing. *)
Definition NoCookies : CookieCrate Demo := DemoCookies Demo {|
  ext_get _ := None;
  ext_insert e _ := e;
  ext_remove e := e;
|}.
