(* ===== verification/Sessions.v ===== *)
(** * Sessions
    (silent/src/session/middleware.rs, silent/src/session/session_ext.rs)

    Sessions and their store are the [async_session] crate's, here a
    parameter.  The middleware finds or creates the session of a request, puts
    it into the extensions of request and response, and hands its id to the
    client in a cookie when the client did not bring one that loads. *)

From S2P Require Import Prelude Str Platform Ext State Error PathParam Body Message Next Cookies.

Class SessionCrate (P : Platform) := {
  Session : Type;
  (** [Session::new] and [default] draw an id and a cookie value. *)
  session_new : M World Session;
  (** The clone has the session's data but not its cookie value. *)
  session_clone : Session → Session;
  (** [Session::get], the value still serialised. *)
  session_get : Session → string → option Json;
  #[global] session_slot :: ExtSlot P Session;
  (** [SessionStore]. *)
  store_session : Session → M World (result (option string) string);
  load_session : string → M World (result (option Session) string);
}.

Section sessions.
Context {P : Platform} {C : CookieCrate P} {S : SessionCrate P}.
(** The cookie of [Cookie::build] with the two hours and [secure] set. *)
Context (build : string → string → Cookie).

Definition session_cookie_name : string := "silent-web-session".
Definition session_cookie (value : string) : Cookie := build session_cookie_name value.

(** [store_session(Session::new()).await?.ok_or_else(...)?] *)
Definition create_session : M World (SilentResult string) :=
  session_new ≫= λ s, store_session s ≫= λ r,
  mret (match r with
        | Err e => Err (AnyhowError e)
        | Ok None => Err (business_error INTERNAL_SERVER_ERROR "failed to create session")
        | Ok (Some value) => Ok value
        end).

(** The value of the client's cookie, or of a new session; and whether the
    client had one. *)
Definition session_value (cookies : CookieJar) : M World (SilentResult (string * bool)) :=
  match jar_get cookies session_cookie_name with
  | Some cookie => mret (Ok (cookie_value cookie, true))
  | None => value <-? create_session ;; mret (Ok (value, false))
  end.

(** The session, its cookie value, and whether the client has that value. *)
Definition session_for (value : string) (had : bool)
  : M World (SilentResult (Session * string * bool)) :=
  load_session value ≫= λ r,
  match r with
  | Ok (Some session) => mret (Ok (session, value, had))
  | _ =>
      value <-? create_session ;;
      load_session value ≫= λ r,
      mret (match r with
            | Err e => Err (AnyhowError e)
            | Ok None => Err (business_error INTERNAL_SERVER_ERROR "failed to load session")
            | Ok (Some session) => Ok (session, value, false)
            end)
  end.

(** The session of a request. *)
Definition find_session (cookies : CookieJar) : M World (SilentResult (Session * string * bool)) :=
  v <-? session_value cookies ;;
  session_for (fst v) (snd v).

(** What happens to the handler's answer. *)
Definition session_answer (session : Session) (cookies : CookieJar) (res : Response) : Response :=
  let res := match ext_get (T := Session) (r_extensions res) with
             | None => set_res_extensions res (ext_insert (r_extensions res) session)
             | Some _ => res
             end in
  match ext_get (T := CookieJar) (r_extensions res) with
  | None => set_res_extensions res (ext_insert (r_extensions res) cookies)
  | Some cookie_jar =>
      set_res_extensions res
        (ext_insert (r_extensions res) (foldl jar_add cookies (jar_iter cookie_jar)))
  end.

(** The read lock on the store is held to the end. *)
Definition SessionMiddleware_handle : MiddleWare := λ req next,
  let cookies := req_cookies req in
  x <-? find_session cookies ;;
  let '(session, value, had) := x in
  let req := set_extensions req (ext_insert (extensions req) (session_clone session)) in
  let cookies := if had : bool then cookies else jar_add cookies (session_cookie value) in
  res <-? next req ;;
  mret (Ok (session_answer (session_clone session) cookies res)).

(** [SessionExt]: a missing session is answered by a new one, which
    [sessions_mut] also keeps. *)
Definition req_sessions (r : Request) : M World Session :=
  match ext_get (T := Session) (extensions r) with
  | Some s => mret (session_clone s)
  | None => session_new
  end.
Definition res_sessions (r : Response) : M World Session :=
  match ext_get (T := Session) (r_extensions r) with
  | Some s => mret (session_clone s)
  | None => session_new
  end.
Definition req_sessions_mut (r : Request) : M World (Session * Request) :=
  match ext_get (T := Session) (extensions r) with
  | Some s => mret (s, r)
  | None => session_new ≫= λ s, mret (s, set_extensions r (ext_insert (extensions r) s))
  end.
Definition res_sessions_mut (r : Response) : M World (Session * Response) :=
  match ext_get (T := Session) (r_extensions r) with
  | Some s => mret (s, r)
  | None => session_new ≫= λ s, mret (s, set_res_extensions r (ext_insert (r_extensions r) s))
  end.
Definition req_session {V} (de : Json → option V) (r : Request) (name : string) : M World (option V) :=
  req_sessions r ≫= λ s, mret (session_get s name ≫= de).
Definition res_session {V} (de : Json → option V) (r : Response) (name : string) : M World (option V) :=
  res_sessions r ≫= λ s, mret (session_get s name ≫= de).

(** ** Lemmas *)

Context {CL : CookieLaws C} {SL : ExtSlotLaws session_slot}.
Context {Apart : ExtApart jar_slot session_slot} {Apart' : ExtApart session_slot jar_slot}.

Lemma session_run req next w s value had w2 :
  find_session (req_cookies req) w = (Ret (Ok (s, value, had)), w2) →
  SessionMiddleware_handle req next w =
    match next (set_extensions req (ext_insert (extensions req) (session_clone s))) w2 with
    | (Ret (Ok res), w3) =>
        (Ret (Ok (session_answer (session_clone s)
           (if had : bool then req_cookies req
            else jar_add (req_cookies req) (session_cookie value)) res)), w3)
    | (Ret (Err e), w3) => (Ret (Err e), w3)
    | (Panic, w3) => (Panic, w3)
    end.
Proof.
  intros H. unfold SessionMiddleware_handle, M_try. rewrite (M_bind_run _ _ _ _ _ H).
  unfold mbind, M_bind. by destruct (next _ _) as [[[res|e]|] w3].
Qed.

Lemma cookie_run req next w jar :
  header_cookies BAD_REQUEST (headers req) = Ok jar →
  CookieMiddleware_handle req next w =
    match next (set_extensions req (ext_insert (extensions req) jar)) w with
    | (Ret (Ok res), w1) => (Ret (Ok (cookie_answer jar res)), w1)
    | (Ret (Err e), w1) => (Ret (Err e), w1)
    | (Panic, w1) => (Panic, w1)
    end.
Proof.
  intros H. unfold CookieMiddleware_handle. rewrite H. unfold M_try, mbind, M_bind.
  by destruct (next _ _) as [[[res|e]|] w1].
Qed.

Lemma session_answer_jar s cookies res :
  ext_get (T := CookieJar) (r_extensions res) = None →
  ext_get (T := CookieJar) (r_extensions (session_answer s cookies res)) = Some cookies.
Proof.
  intros Hj. unfold session_answer.
  destruct (ext_get (T := Session) (r_extensions res)); cbn [r_extensions set_res_extensions];
    [|rewrite ext_apart_insert]; rewrite Hj; apply ext_get_insert.
Qed.

Lemma session_answer_session s cookies res :
  ext_get (T := Session) (r_extensions (session_answer s cookies res)) =
    Some (default s (ext_get (r_extensions res))).
Proof.
  unfold session_answer.
  destruct (ext_get (T := Session) (r_extensions res)) as [x|] eqn:E;
    destruct (ext_get (T := CookieJar) _); cbn [r_extensions set_res_extensions];
    rewrite ext_apart_insert; try done; apply ext_get_insert.
Qed.

(** Where a session comes from: from the client's cookie, or new. *)
Lemma find_session_ok jar w s value had w2 :
  find_session jar w = (Ret (Ok (s, value, had)), w2) →
  if had : bool
  then (∃ c, jar_get jar session_cookie_name = Some c ∧ cookie_value c = value) ∧
       load_session value w = (Ret (Ok (Some s)), w2)
  else ∃ w0 w1, create_session w0 = (Ret (Ok value), w1) ∧
       load_session value w1 = (Ret (Ok (Some s)), w2).
Proof.
  assert (∀ v h w0, session_for v h w0 = (Ret (Ok (s, value, had)), w2) →
    (load_session v w0 = (Ret (Ok (Some s)), w2) ∧ value = v ∧ had = h) ∨
    (had = false ∧ ∃ wa wb, create_session wa = (Ret (Ok value), wb) ∧
       load_session value wb = (Ret (Ok (Some s)), w2))) as Hfor.
  { intros v h w0. unfold session_for, M_try, mbind, M_bind, mret, M_ret.
    destruct (load_session v w0) as [[[[x|]|e]|] wa];
      [by intros [= -> -> -> ->]; left| | |done];
      (destruct (create_session wa) as [[[v'|e']|] wb] eqn:Hc; [|done|done];
       destruct (load_session v' wb) as [[[[x|]|e']|] wc] eqn:Hl; try done;
       intros [= -> -> <- ->]; right; eauto). }
  unfold find_session, session_value, M_try.
  destruct (jar_get jar session_cookie_name) as [c|].
  - rewrite M_bind_ret_l. cbn [fst snd]. intros H. destruct (Hfor _ _ _ H) as [(Hl & -> & ->)|(-> & Hx)];
      [|exact Hx]. split; [by exists c|done].
  - unfold mbind at 1, M_bind at 1. unfold mbind at 1, M_bind at 1.
    destruct (create_session w) as [[[v|e]|] w1] eqn:Hc; [|done|done].
    cbn. intros H. destruct (Hfor _ _ _ H) as [(Hl & -> & ->)|(-> & Hx)]; [|exact Hx].
    exists w, w1. done.
Qed.

(** *** Reference: which session a request gets *)

(** A new session, stored and loaded. *)
Definition fresh_session : M World (SilentResult (Session * string * bool)) := λ w,
  match create_session w with
  | (Ret (Ok value), w1) =>
      match load_session value w1 with
      | (Ret (Ok (Some s)), w2) => (Ret (Ok (s, value, false)), w2)
      | (Ret (Ok None), w2) =>
          (Ret (Err (business_error INTERNAL_SERVER_ERROR "failed to load session")), w2)
      | (Ret (Err e), w2) => (Ret (Err (AnyhowError e)), w2)
      | (Panic, w2) => (Panic, w2)
      end
  | (Ret (Err e), w1) => (Ret (Err e), w1)
  | (Panic, w1) => (Panic, w1)
  end.

(** The session a cookie value stands for: loaded, or a fresh one. *)
Definition loaded_or_fresh (value : string) (had : bool) : M World (SilentResult (Session * string * bool)) := λ w,
  match load_session value w with
  | (Ret (Ok (Some s)), w1) => (Ret (Ok (s, value, had)), w1)
  | (Ret _, w1) => fresh_session w1
  | (Panic, w1) => (Panic, w1)
  end.

Lemma session_for_spec value had w : session_for value had w = loaded_or_fresh value had w.
Proof.
  unfold session_for, loaded_or_fresh, fresh_session, M_try, mbind, M_bind, mret, M_ret.
  destruct (load_session value w) as [[[[s|]|e]|] w1]; try done;
    (destruct (create_session w1) as [[[v|e']|] w2]; [|done|done]);
    by destruct (load_session v w2) as [[[[s|]|e'']|] w3].
Qed.

Lemma find_session_cookie jar c w :
  jar_get jar session_cookie_name = Some c →
  find_session jar w = loaded_or_fresh (cookie_value c) true w.
Proof.
  intros H. unfold find_session, session_value, M_try. rewrite H, M_bind_ret_l. apply session_for_spec.
Qed.

Lemma find_session_none jar w :
  jar_get jar session_cookie_name = None →
  find_session jar w =
    match create_session w with
    | (Ret (Ok value), w1) => loaded_or_fresh value false w1
    | (Ret (Err e), w1) => (Ret (Err e), w1)
    | (Panic, w1) => (Panic, w1)
    end.
Proof.
  intros H. unfold find_session, session_value. rewrite H. unfold M_try at 1 2, mbind at 1 2, M_bind at 1 2.
  destruct (create_session w) as [[[v|e]|] w1]; [|done|done]. apply session_for_spec.
Qed.

(** The request's own cookies are no changes. *)
Lemma parse_cookies_delta cookies : jar_delta (parse_cookies cookies) = [].
Proof.
  unfold parse_cookies. assert (jar_delta jar_new = []) as H0 by apply jar_delta_new.
  revert H0. generalize jar_new. induction (map trim (split_char ";" cookies)) as [|x l IH];
    intros j Hj; cbn; [done|]. apply IH.
  destruct (cookie_parse_encoded x); [by rewrite jar_delta_original|done].
Qed.

Lemma header_cookies_delta code h jar : header_cookies code h = Ok jar → jar_delta jar = [].
Proof.
  unfold header_cookies. destruct (hm_get h "cookie") as [v|]; [|intros [= <-]; apply jar_delta_new].
  destruct (header_to_str v); [|done]. intros [= <-]. apply parse_cookies_delta.
Qed.

Lemma jar_delta_foldl l j c :
  jar_delta j = [] → (∀ d, d ∈ l ↔ d = c) →
  ∀ d, d ∈ jar_delta (foldl jar_add j l) ↔ d = c.
Proof.
  intros Hj Hl. assert (∀ l, l ≠ [] → (∀ d, d ∈ l → d = c) →
    ∀ d, d ∈ jar_delta (foldl jar_add j l) ↔ d = c) as H.
  { clear l Hl. intros l. induction l as [|x l IH] using rev_ind; intros Hne Hl d; [done|].
    rewrite foldl_app. cbn [foldl]. rewrite jar_delta_add.
    assert (x = c) as -> by (apply Hl; set_solver). destruct (decide (l = [])) as [->|Hnl].
    - cbn. rewrite Hj, elem_of_nil. tauto.
    - rewrite IH by (try done; intros; apply Hl; set_solver). naive_solver. }
  apply H; [|intros; by apply Hl]. intros ->. by apply (not_elem_of_nil c), Hl.
Qed.

End sessions.

(** ** On the demonstration platform: the store is the list of its ids *)

Section examples.
Let Jar : Type := list (string * string) * list (string * string).
#[local] Instance DemoP : Platform := DemoTwo Jar string (list string).
#[local] Instance DemoC : CookieCrate DemoP := DemoCookies DemoP slot1.
#[local] Instance DemoS : SessionCrate DemoP := {|
  Session := string;
  session_new := λ w, (Ret ("s" +:+ show_Z (Z.of_nat (length w))), w);
  session_clone s := s;
  session_get _ _ := None;
  session_slot := slot2;
  store_session s := λ w, (Ret (Ok (Some s)), s :: w);
  load_session v := λ w, (Ret (Ok (if bool_decide (v ∈ w) then Some v else None)), w);
|}.
Let build : string → string → Cookie := λ n v, (n, v).
Let ask (hs : list (string * string)) : Request :=
  Request_from_parts (mkParts GET (mkUri "/" None) HTTP_11 hs (None, None)) ReqEmpty.
(** Answers with the session it finds. *)
Let next : Handler := λ req w, (Ret (Ok (text (default "none" (ext_get (T := Session) (extensions req))))), w).
Let visit (hs : list (string * string)) (w : list string) :=
  CookieMiddleware_handle (ask hs) (λ r, SessionMiddleware_handle build r next) w.

End examples.
