(* ===== verification/Tower.v ===== *)
(** * Tower layers as middlewares (silent/src/middleware/tower_compat.rs)

    [Route::hook_layer] wraps a [tower] layer.  The layer is code of another
    crate: any function from the inner service to a service.  What the model
    holds is the adapter: how a request and an answer are carried over as
    [http] values, and what is lost on the way. *)

From S2P Require Import Prelude Str Platform Ext State Error PathParam Body Form Message Next Route.

Section tower.
Context {P : Platform}.

(** What [http::Request] has no place for. *)
Record SilentExtras := mkExtras {
  x_state : State;
  x_path_params : gmap string PathParam;
}.

(** [http::Request<ReqBody>] and [http::Response] of some body. *)
Definition HttpRequest : Type := Parts * ReqBody.
Record HttpResponse (B : Type) := mkHttpResponse {
  h_status : StatusCode;
  h_version : Version;
  h_headers : HeaderMap;
  h_extensions : Extensions;
  h_body : B;
}.
#[global] Arguments mkHttpResponse {B}.
#[global] Arguments h_status {B}.
#[global] Arguments h_version {B}.
#[global] Arguments h_headers {B}.
#[global] Arguments h_extensions {B}.
#[global] Arguments h_body {B}.

(** A service; its boxed error is carried as its [Display] text. *)
Definition TowerService (B : Type) : Type :=
  HttpRequest → M World (result (HttpResponse B) string).

Context {X : ExtSlot P SilentExtras}.

Definition map_extensions (f : Extensions → Extensions) (p : Parts) : Parts :=
  mkParts (p_method p) (p_uri p) (p_version p) (p_headers p) (f (p_extensions p)).

Definition into_http_request (req : Request) : HttpRequest :=
  let '(p, b) := into_http req in
  (map_extensions (λ e, ext_insert e (mkExtras (req_state req) (path_params req))) p, b).

(** The loop over the parameters: a map, in any order. *)
Definition from_http_request (req : HttpRequest) : Request :=
  let extras := ext_get (T := SilentExtras) (p_extensions (fst req)) in
  let silent_req := Request_from_parts
    (map_extensions (ext_remove (T := SilentExtras)) (fst req)) (snd req) in
  match extras with
  | Some x => map_fold (λ k v r, set_path_params r k v)
                (set_state silent_req (x_state x)) (x_path_params x)
  | None => silent_req
  end.

(** The builder starts without extensions. *)
Definition into_http_response (res : Response) : HttpResponse ResBody :=
  let '(b, res) := res_take_body res in
  mkHttpResponse (r_status res) (r_version res) (r_headers res) ext_empty b.

(** [box_body]: [map_err] and boxing of a body. *)
Definition into_silent_response {B} (box_body : B → BoxedBody) (res : HttpResponse B) : Response :=
  mkResponse (h_status res) (h_version res) (h_headers res) (ResBoxed (box_body (h_body res)))
    ext_empty State_new.

(** [NextServicePublic::call] *)
Definition NextService_call (next : Handler) : TowerService ResBody := λ req,
  next (from_http_request req) ≫= λ r,
  mret (match r with
        | Ok res => Ok (into_http_response res)
        | Err e => Err (error_display e)
        end).

(** [TowerLayerAdapter::handle]: the layer's service answers once. *)
Definition TowerLayerAdapter_handle {B} (box_body : B → BoxedBody)
    (layer : TowerService ResBody → TowerService B) : MiddleWare := λ req next,
  let svc := layer (NextService_call next) in
  svc (into_http_request req) ≫= λ r,
  mret (match r with
        | Ok res => Ok (into_silent_response box_body res)
        | Err e => Err (business_error INTERNAL_SERVER_ERROR e)
        end).

(** [Route::hook_layer] *)
Definition hook_layer {B} (box_body : B → BoxedBody) (self : Route)
    (layer : TowerService ResBody → TowerService B) : Route :=
  hook self (TowerLayerAdapter_handle box_body layer).

(** ** Lemmas *)

(** What is left of a request on the inner side of a layer. *)
Definition across (req : Request) : Request :=
  mkRequest (parts req) (path_params req) ∅ (body req) None None None None (req_state req).

Lemma set_path_params_all m r :
  path_params r = ∅ →
  map_fold (λ k v r, set_path_params r k v) r m =
  mkRequest (parts r) m (params r) (body r) (path_source r) (form_data r) (json_data r)
    (form_body_cache r) (req_state r).
Proof.
  intros Hr. apply (map_fold_weak_ind (λ r' m, r' = mkRequest (parts r) m (params r) (body r)
    (path_source r) (form_data r) (json_data r) (form_body_cache r) (req_state r))).
  - destruct r. cbn in *. by subst.
  - intros k v m' r' _ ->. done.
Qed.

Lemma http_request_across `{!ExtSlotLaws X} req :
  ext_get (T := SilentExtras) (extensions req) = None →
  from_http_request (into_http_request req) = across req.
Proof.
  intros Hx. unfold from_http_request, into_http_request, into_http. cbn [fst snd].
  unfold map_extensions. cbn. rewrite ext_get_insert. rewrite set_path_params_all by done.
  cbn. rewrite ext_remove_insert by done. by destruct req as [[]].
Qed.

Lemma across_content_type req : content_type (across req) = content_type req.
Proof. done. Qed.

(** C39: The tower adapter, for requests that come from the server (their
    extensions hold none of the adapter's own data).  Method, URI, version,
    headers, extensions, body, path parameters and state of a request reach
    the handler through any layer that passes them on; the forms parsed so far
    do not: a JSON body that an outer middleware has parsed can not be parsed
    again inside.  Of an answer, status, version, headers and body come
    through an identity layer, but not its extensions (cookies, sessions) nor
    its state; and an error of the handler, whatever its status, becomes an
    internal server error with the error's text. *)
Theorem tower_layer_spec `{!PlatformLaws P} `{!ExtSlotLaws X} (box_body : ResBody → BoxedBody) req next w
    (Hx : ext_get (T := SilentExtras) (extensions req) = None) :
  from_http_request (into_http_request req) = across req ∧
  TowerLayerAdapter_handle box_body (λ svc, svc) req next w =
    match next (across req) w with
    | (Ret (Ok res), w') =>
        (Ret (Ok (mkResponse (r_status res) (r_version res) (r_headers res)
                    (ResBoxed (box_body (r_body res))) ext_empty State_new)), w')
    | (Ret (Err e), w') =>
        (Ret (Err (BusinessError INTERNAL_SERVER_ERROR (error_display e))), w')
    | (Panic, w') => (Panic, w')
    end ∧
  (∀ T collect (de : Json → result T string) r1 v w1,
     json_data req = None → content_type req = Some "json" →
     json_parse collect de req w = (Ret (Ok v, r1), w1) →
     json_parse collect de r1 w1 = (Ret (Ok v, r1), w1) ∧
     fst (json_parse collect de (across r1) w1) = Ret (Err JsonEmpty, across r1)).
Proof.
  split_and!; [by apply http_request_across| |].
  - unfold TowerLayerAdapter_handle, NextService_call.
    rewrite http_request_across by done. unfold mbind, M_bind, mret, M_ret.
    by destruct (next (across req) w) as [[[res|e]|] w'].
  - intros T collect de r1 v w1 Hj Hc H.
    destruct (json_parse_again collect de de _ _ _ _ _ w1 Hj Hc H) as (Ha & Hb & Hs).
    destruct (json_parse_cases _ _ _ _ _ _ _ Hj Hc H) as (_ & Hc' & Hd).
    split.
    + rewrite Ha. destruct (Hs v eq_refl) as [x Hx1]. rewrite Hx1 in Hd |- *. by rewrite <-Hd.
    + unfold json_parse. cbn [json_data across]. rewrite (across_content_type r1), Hc'.
      cbn. rewrite Hb. unfold across. cbn. by rewrite Hb.
Qed.
End tower.

(** ** On the demonstration platform *)

(** Extensions can not mention the platform they belong to, so they hold a
    copy of [SilentExtras] without it. *)
Section examples.
Let ParamCopy : Type := PathString + PathString + (Z * Z) + string.
Let Copy : Type := option (gmap TypeId (TypeId * Z)) * gmap string ParamCopy.
#[local] Instance DemoT : Platform := DemoTwo Copy string (list string).
#[local] Instance DemoTLaws : PlatformLaws DemoT := DemoExtLaws _ _ _ _ _.

Let enc_param (p : PathParam) : ParamCopy :=
  match p with
  | PStr s => inl (inl (inl s))
  | PPath s => inl (inl (inr s))
  | PInt v => inl (inr (0, v)%Z)
  | PInt64 v => inl (inr (1, v)%Z)
  | PInt32 v => inl (inr (2, v)%Z)
  | PUInt64 v => inl (inr (3, v)%Z)
  | PUInt32 v => inl (inr (4, v)%Z)
  | PUuid u => inr u
  end.
Let dec_param (p : ParamCopy) : PathParam :=
  match p with
  | inl (inl (inl s)) => PStr s
  | inl (inl (inr s)) => PPath s
  | inl (inr (t, v)) =>
      if (t =? 0)%Z then PInt v else if (t =? 1)%Z then PInt64 v
      else if (t =? 2)%Z then PInt32 v else if (t =? 3)%Z then PUInt64 v else PUInt32 v
  | inr u => PUuid (P := DemoT) u
  end.
Let enc (x : SilentExtras) : Copy :=
  (fmap (M := gmap TypeId) (λ a, (any_type a, any_val a)) <$> st_map (x_state x), enc_param <$> x_path_params x).
Let dec (c : Copy) : SilentExtras :=
  mkExtras (mkState (fmap (M := gmap TypeId) (λ a, mkAny (P := DemoT) (fst a) (snd a)) <$> fst c)) (dec_param <$> snd c).

Lemma dec_enc x : dec (enc x) = x.
Proof.
  destruct x as [[st] ps]. unfold dec, enc; cbn. f_equal.
  - f_equal. destruct st as [m|]; cbn; [f_equal|done]. rewrite <-map_fmap_compose.
    rewrite <-(map_fmap_id m) at 2. apply map_fmap_ext. by intros i [] _.
  - rewrite <-map_fmap_compose. rewrite <-(map_fmap_id ps) at 2. apply map_fmap_ext.
    by intros i [] _.
Qed.

#[local] Instance DemoX : ExtSlot DemoT SilentExtras := {|
  ext_get e := dec <$> ext_get (ExtSlot := slot1) e;
  ext_insert e x := ext_insert (ExtSlot := slot1) e (enc x);
  ext_remove e := ext_remove (ExtSlot := slot1) e;
|}.
#[local] Instance DemoXLaws : ExtSlotLaws DemoX.
Proof.
  split.
  - done.
  - intros e v. cbn. by rewrite dec_enc.
  - done.
  - intros [[] ?] [[] ?]; reflexivity.
  - intros [[] ?] v; [done|reflexivity].
Qed.

Lemma tower_layer_spec_witness :
  let box (b : ResBody) : @BoxedBody DemoT :=
    match b with ResOnce s => [Ready (Some (Ok (FrameData s)))] | _ => [] end in
  let req := set_path_params (Request_from_parts (P := DemoT)
    (mkParts (P := DemoT) GET (mkUri "/a/7" None) HTTP_11 [("host", "x")] (None, Some "mine")) ReqEmpty)
    "id" (PInt 7) in
  let show : Handler (P := DemoT) := λ r, mret (Ok (text (show_Z (Z.of_nat (size (path_params r)))))) in
  let fail : Handler (P := DemoT) := λ _, mret (Err (BusinessError NOT_FOUND "gone")) in
  (∃ res, TowerLayerAdapter_handle box (λ svc, svc) req show [] = (Ret (Ok res), []) ∧
     r_body res = ResBoxed [Ready (Some (Ok (FrameData "1")))]) ∧
  TowerLayerAdapter_handle box (λ svc, svc) req fail [] =
    (Ret (Err (BusinessError INTERNAL_SERVER_ERROR "business error: gone (404)")), []).
Proof.
  intros box req show fail.
  pose proof (λ next, proj1 (proj2 (tower_layer_spec box req next [] eq_refl))) as H. split.
  - eexists. split; [exact (H show)|]. reflexivity.
  - exact (H fail).
Defined.
End examples.
