(* ===== verification/Templates.v ===== *)
(** * Templates and password hashes
    (silent/src/templates/middleware.rs, silent/src/security/argon2.rs,
    silent/src/security/pbkdf2.rs)

    tera and the hashing crates are parameters. *)

From S2P Require Import Prelude Str Platform Ext State Error PathParam Body Form Message Next Route.

Section templates.
Context {P : Platform}.

Record TemplateResponse := mkTemplate { template : string; data : Json }.

(** Tera: loading a directory, [Context::from_serialize], rendering. *)
Class TeraCrate := {
  Tera : Type;
  Context_ : Type;
  load_from_glob : string → result Tera string;
  context_of : Json → result Context_ string;
  render : Tera → string → Context_ → result string string;
  json_null : Json;
  #[global] template_slot :: ExtSlot P TemplateResponse;
}.
Context {C : TeraCrate}.

(** [From<(S, T)>]: data that does not serialise is null. *)
Definition template_response (template : string) (ser : result Json string) : TemplateResponse :=
  mkTemplate template (match ser with Ok v => v | Err _ => json_null end).

(** [From<TemplateResponse> for Response] *)
Definition response_from_template (value : TemplateResponse) : Response :=
  let res := Response_empty in
  mkResponse (r_status res) (r_version res) (r_headers res) (r_body res)
    (ext_insert (r_extensions res) value) (r_state res).

Definition TemplateMiddleware_try_new (template_path : string) : SilentResult Tera :=
  map_err (λ e, business_error INTERNAL_SERVER_ERROR ("Failed to load templates: " +:+ e))
    (load_from_glob template_path).

(** [expect] *)
Definition TemplateMiddleware_new (template_path : string) : outcome Tera :=
  match TemplateMiddleware_try_new template_path with Ok t => Ret t | Err _ => Panic end.

Definition TemplateMiddleware_handle (tera : Tera) : MiddleWare := λ req next,
  res <-? next req ;;
  mret (match ext_get (T := TemplateResponse) (r_extensions res) with
        | None => Err (business_error INTERNAL_SERVER_ERROR "template response missing")
        | Some t =>
            ctx <-! map_err (λ e, business_error INTERNAL_SERVER_ERROR
                               ("Failed to render template: " +:+ e)) (context_of (data t)) ;;
            text <-! map_err (λ e, business_error INTERNAL_SERVER_ERROR
                               ("Failed to render template: " +:+ e)) (render tera (template t) ctx) ;;
            Ok (set_typed_header (set_body res (full text)) "content-type" ct_html)
        end).

(** [Route::set_template_dir] *)
Definition set_template_dir (self : Route) (dir : string) : outcome Route :=
  tera ← TemplateMiddleware_new dir;
  mret (hook self (TemplateMiddleware_handle tera)).

(** A handler that answers with a template gets it rendered, with the status
    and the other headers it chose; the middleware refuses every other
    answer, also a finished page, an error page or a redirection. *)
Lemma template_spec `{!PlatformLaws P} `{!ExtSlotLaws template_slot} tera req next w res w' :
  next req w = (Ret (Ok res), w') →
  ∃ r, TemplateMiddleware_handle tera req next w = (Ret r, w') ∧
  match ext_get (T := TemplateResponse) (r_extensions res) with
  | None => r = Err (BusinessError INTERNAL_SERVER_ERROR "template response missing")
  | Some t =>
      ∀ ctx text, context_of (data t) = Ok ctx → render tera (template t) ctx = Ok text →
      ∃ res', r = Ok res' ∧ r_body res' = full text ∧ r_status res' = r_status res ∧
        hm_get (r_headers res') "content-type" = Some ct_html ∧
        ∀ k, header_eq "content-type" k = false → hm_get (r_headers res') k = hm_get (r_headers res) k
  end.
Proof.
  intros H. unfold TemplateMiddleware_handle, M_try. rewrite (M_bind_run _ _ _ _ _ H).
  eexists. split; [reflexivity|].
  destruct (ext_get (T := TemplateResponse) (r_extensions res)) as [t|]; [|done].
  intros ctx text Hc Hr. rewrite Hc. cbn [map_err result_bind]. rewrite Hr. cbn [map_err result_bind].
  eexists. split; [reflexivity|]. split_and!; [done|done|apply hm_get_insert_eq|].
  intros k Hk. cbn. by rewrite hm_get_insert, Hk.
Qed.
End templates.

(** ** Passwords *)

Section passwords.
(** The hashing crate: hashing (with a fresh salt), parsing a hash, and
    verifying a password against a parsed one. *)
Context {W Hash : Type}.
Context (hash_password : string → M W (result string string)).
Context (parse_hash : string → result Hash string) (verifies : string → Hash → bool).

Definition make_password (password : string) : M W (SilentResult string) :=
  hash_password password ≫= λ r,
  mret (map_err (λ e, business_error INTERNAL_SERVER_ERROR ("make password failed: " +:+ e)) r).

Definition verify_password (password_hash password : string) : SilentResult bool :=
  parsed <-! map_err (λ e, business_error INTERNAL_SERVER_ERROR ("read password hash failed: " +:+ e))
               (parse_hash password_hash) ;;
  Ok (verifies password parsed).

(** The same functions of security/pbkdf2.rs, around that crate. *)
Definition pbkdf2_make_password : string → M W (SilentResult string) := make_password.
Definition pbkdf2_verify_password : string → string → SilentResult bool := verify_password.

(** What was made verifies, when the crate's own hashes do. *)
Lemma password_round p w h w' :
  (∀ p h w w', hash_password p w = (Ret (Ok h), w') →
     ∃ x, parse_hash h = Ok x ∧ verifies p x = true) →
  make_password p w = (Ret (Ok h), w') → verify_password h p = Ok true.
Proof.
  intros Hlaw. unfold make_password, mbind, M_bind. destruct (hash_password p w) as [[[h'|e]|] w1] eqn:E;
    cbn; try done. intros [= <- <-]. destruct (Hlaw _ _ _ _ E) as (x & Hx & Hv).
  unfold verify_password. rewrite Hx. cbn. by rewrite Hv.
Qed.
End passwords.
