(* ===== verification/Grpc.v ===== *)
(** * gRPC services as handlers
    (silent/src/grpc/handler.rs, silent/src/grpc/utils.rs,
    silent/src/grpc/service.rs, silent/src/grpc/register.rs)

    A tonic service is a parameter: a function from [http] requests to
    responses whose bodies can be boxed.  Its mutex only orders the calls.
    Serving an upgraded connection is hyper's. *)

From S2P Require Import Prelude Str Platform Ext State Error PathParam Body Form Message Next RouteSeg RouteTree Route Tower.

Section grpc.
Context {P : Platform}.
Context {OnUpgrade TonicBody : Type} {U : ExtSlot P OnUpgrade}.
(** [tonic::body::Body::new] of a request body, and boxing of a response's. *)
Context (body_new : ReqBody → TonicBody) (box_body : TonicBody → BoxedBody).

(** [S::call]; errors by their [Display] text. *)
Definition GrpcService_ : Type :=
  Parts * TonicBody → M World (result (HttpResponse TonicBody) string).

(** [merge_grpc_response] *)
Definition merge_grpc_response (res : Response) (grpc_res : HttpResponse TonicBody) : Response :=
  mkResponse (h_status grpc_res) (h_version grpc_res)
    (hm_extend (r_headers res) (h_headers grpc_res)) (ResBoxed (box_body (h_body grpc_res)))
    (ext_extend (r_extensions res) (h_extensions grpc_res)) (r_state res).

Definition into_grpc_request (req : Request) : Parts * TonicBody :=
  let '(parts, body) := into_http req in (parts, body_new body).

(** [GrpcHandler::call]; [spawn] starts the task that serves the upgraded
    connection. *)
Definition GrpcHandler_call (service : GrpcService_) (spawn : OnUpgrade → M World ()) : Handler :=
  λ req,
  match ext_get (T := OnUpgrade) (extensions req) with
  | Some on_upgrade =>
      spawn on_upgrade ≫= λ _,
      mret (Ok (set_header (set_status Response_empty SWITCHING_PROTOCOLS) "upgrade" "h2c"))
  | None =>
      let req := set_extensions req (ext_remove (T := OnUpgrade) (extensions req)) in
      service (into_grpc_request req) ≫= λ r,
      mret (match r with
            | Err e => Err (business_error INTERNAL_SERVER_ERROR ("grpc call failed: " +:+ e))
            | Ok grpc_res => Ok (merge_grpc_response Response_empty grpc_res)
            end)
  end.

(** [GrpcService::call], on an upgraded connection: an error is unwrapped. *)
Definition GrpcService_call (incoming_body : Incoming → TonicBody) (service : GrpcService_)
    (req : Parts * Incoming) : M World (HttpResponse TonicBody) :=
  service (fst req, incoming_body (snd req)) ≫= λ r,
  M_lift (match r with Ok res => Ret res | Err _ => Panic end).

(** [GrpcRegister::service] and [register], for a service named [name]. *)
Definition grpc_service (name : string) (h : Handler) : outcome Route :=
  Route_append (Route_new name)
    (insert_handler (insert_handler (Route_new "<path:**>") POST h) GET h).

Definition grpc_register (name : string) (h : Handler) (route : Route) : outcome Route :=
  r ← grpc_service name h;
  Route_push route r.

(** ** What a caller sees *)

(** Without an upgrade the service's answer arrives whole: status, version,
    every header and the body; a failure is an internal server error. *)
Lemma grpc_answer_spec `{!PlatformLaws P} service spawn req w :
  ext_get (T := OnUpgrade) (extensions req) = None →
  let sent := into_grpc_request (set_extensions req (ext_remove (T := OnUpgrade) (extensions req))) in
  GrpcHandler_call service spawn req w =
    match service sent w with
    | (Ret (Ok r), w') => (Ret (Ok (merge_grpc_response Response_empty r)), w')
    | (Ret (Err e), w') =>
        (Ret (Err (BusinessError INTERNAL_SERVER_ERROR ("grpc call failed: " +:+ e))), w')
    | (Panic, w') => (Panic, w')
    end ∧
  p_method (fst sent) = method req ∧ p_uri (fst sent) = uri req ∧ p_headers (fst sent) = headers req ∧
  snd sent = body_new (body req) ∧
  ∀ r, r_status (merge_grpc_response Response_empty r) = h_status r ∧
    r_body (merge_grpc_response Response_empty r) = ResBoxed (box_body (h_body r)) ∧
    ∀ k, hm_get (r_headers (merge_grpc_response Response_empty r)) k = hm_get (h_headers r) k.
Proof.
  intros Hu sent. split_and!; try done.
  - unfold GrpcHandler_call. rewrite Hu. fold sent. unfold mbind, M_bind.
    by destruct (service sent w) as [[[r|e]|] w'].
  - intros r. split_and!; [done..|]. intros k. cbn.
    rewrite hm_get_extend, hm_get_empty. by destruct (hm_get (h_headers r) k).
Qed.

(** An upgraded connection whose service fails takes the task down. *)
Lemma grpc_service_panics incoming_body service req w e w' :
  service (fst req, incoming_body (snd req)) w = (Ret (Err e), w') →
  GrpcService_call incoming_body service req w = (Panic, w').
Proof.
  intros H. unfold GrpcService_call. by rewrite (M_bind_run _ _ _ _ _ H).
Qed.

(** A service with an ordinary name (no empty segments) becomes a route that
    can be pushed onto any application. *)
Lemma grpc_service_built name h :
  utf8 name = true → normal_path (trim_start_matches "/" name) = true →
  ∃ r, grpc_service name h = Ret r ∧ Built r.
Proof.
  intros Hu Hn. unfold grpc_service, Route_append.
  set (c := insert_handler _ GET h).
  destruct (Spine_append (λ r, append_route r c) (Route_new name)) as (r & Hr & _);
    [done|by apply Route_new_Spine|].
  exists r. split; [done|]. eapply Built_append; [by apply Built_new| |exact Hr].
  unfold c. apply Built_insert_handler, Built_insert_handler, Built_new. done.
Qed.
End grpc.
