(* ===== verification/Ws.v ===== *)
(** * WebSockets
    (silent/src/ws/handler.rs, upgrade.rs, message.rs, websocket.rs,
    websocket_handler.rs, handler_wrapper_websocket.rs, route.rs)

    The handshake answer, the one-shot hand-over of the upgraded connection,
    and the two tasks of a connection: one sends what user code puts into an
    unbounded channel, one receives until the peer closes.  The tasks run
    concurrently: [ws_step] is one step of either, or of user code holding a
    sender of the channel. *)

From S2P Require Import Prelude Str Platform Ext State Error PathParam Body Form Message Next Route.

(** ** Messages (message.rs) *)

(** [tungstenite::protocol::Message]; a close frame is its code and reason. *)
Inductive WsMessage :=
| Text (s : string)
| Binary (v : string)
| Ping (v : string)
| Pong (v : string)
| Close (frame : option (Z * string))
| RawFrame (payload : string).

#[export] Instance WsMessage_eq_dec : EqDecision WsMessage.
Proof. solve_decision. Defined.

Definition ws_text (s : string) : WsMessage := Text s.
Definition ws_binary (v : string) : WsMessage := Binary v.
Definition ws_ping (v : string) : WsMessage := Ping v.
Definition ws_pong (v : string) : WsMessage := Pong v.
Definition ws_close : WsMessage := Close None.
Definition close_with (code : Z) (reason : string) : WsMessage := Close (Some (code, reason)).
Definition is_text_msg (m : WsMessage) : bool := match m with Text _ => true | _ => false end.
Definition is_binary (m : WsMessage) : bool := match m with Binary _ => true | _ => false end.
Definition is_close (m : WsMessage) : bool := match m with Close _ => true | _ => false end.
Definition is_ping (m : WsMessage) : bool := match m with Ping _ => true | _ => false end.
Definition is_pong (m : WsMessage) : bool := match m with Pong _ => true | _ => false end.
Definition close_frame (m : WsMessage) : option (Z * string) :=
  match m with Close (Some f) => Some f | _ => None end.
Definition as_bytes (m : WsMessage) : string :=
  match m with
  | Text s => s
  | Binary v | Ping v | Pong v => v
  | Close _ => ""
  | RawFrame v => v
  end.

(** ** Handshake (handler.rs) *)

(** [AsyncUpgradeRx]: a slot shared by all clones, by its identity. *)
Record AsyncUpgradeRx := mkAsyncUpgradeRx { rx_slot : nat }.

Class WsCrates (P : Platform) := {
  (** [typed_get::<SecWebsocketKey>] and the accept value derived from it. *)
  sec_websocket_key : HeaderMap → option string;
  sec_websocket_accept : string → string;
  (** [protocol::Message::to_text] and [into_data]. *)
  to_text : WsMessage → option string;
  into_data : WsMessage → string;
  (** An upgraded connection and the channel it arrives on. *)
  WsIo : Type;
  Receiver : Type;
  rx_await : Receiver → M World (result WsIo string);
  #[global] upgrade_slot :: ExtSlot P AsyncUpgradeRx;
  (** What is behind the [Arc<Mutex<Option<..>>>]s of the program. *)
  get_slots : World → gmap nat (option Receiver);
  put_slots : gmap nat (option Receiver) → World → World;
  (** [async_global_executor::spawn(..).detach()]. *)
  spawn : M World unit → M World unit;
}.

Section ws.
Context {P : Platform} {C : WsCrates P}.

Definition to_str (m : WsMessage) : SilentResult string :=
  ok_or (to_text m) (WsError "not a text message").
Definition into_bytes (m : WsMessage) : string := into_data m.

(** [websocket_handler] *)
Definition websocket_handler (req : Request) : SilentResult Response :=
  let h := headers req in
  match hm_get h "upgrade" with
  | None => Err (business_error BAD_REQUEST "bad request: not upgrade")
  | Some v =>
      match header_to_str v with
      | Some s =>
          if bool_decide (to_ascii_lowercase s = "websocket") then
            match sec_websocket_key h with
            | None => Err (business_error BAD_REQUEST
                "bad request: sec_websocket_key is not exist in request headers")
            | Some key =>
                let res := set_status Response_empty SWITCHING_PROTOCOLS in
                let res := set_typed_header res "connection" "upgrade" in
                let res := set_typed_header res "upgrade" "websocket" in
                Ok (set_typed_header res "sec-websocket-accept" (sec_websocket_accept key))
            end
          else Err (business_error BAD_REQUEST "bad request: not websocket")
      | None => Err (business_error BAD_REQUEST "bad request: not websocket")
      end
  end.

(** ** Upgrading (upgrade.rs) *)

Record WebSocketParts := mkWsParts {
  ws_path_params : gmap string PathParam;
  ws_params : gmap string string;
  ws_headers : HeaderMap;
  ws_extensions : Extensions;
}.
Record Upgraded := mkUpgraded { head : WebSocketParts; upgrade_io : WsIo }.

Definition Upgraded_into_parts (u : Upgraded) : WebSocketParts * WsIo := (head u, upgrade_io u).

(** [AsyncUpgradeRx::new] and [take]: the clones of a receiver share one slot,
    which is emptied by the first [take]. *)
Definition AsyncUpgradeRx_new (rx : Receiver) : M World AsyncUpgradeRx := λ w,
  let slot := fresh (dom (get_slots w)) in
  (Ret (mkAsyncUpgradeRx slot), put_slots (<[slot := Some rx]> (get_slots w)) w).
Definition AsyncUpgradeRx_take (r : AsyncUpgradeRx) : M World (option Receiver) := λ w,
  (Ret (mjoin (get_slots w !! rx_slot r)), put_slots (<[rx_slot r := None]> (get_slots w)) w).

(** [on] and [on_generic]. *)
Definition upgrade_on (req : Request) : M World (SilentResult Upgraded) :=
  let params := params req in
  let '(exts, req) := take_extensions req in
  let rx := ext_get (T := AsyncUpgradeRx) exts in
  let exts := ext_remove (T := AsyncUpgradeRx) exts in
  match rx with
  | None => mret (Err (WsError "No upgrade channel available"))
  | Some rx =>
      AsyncUpgradeRx_take rx ≫= λ rx,
      match rx with
      | None => mret (Err (WsError "Upgrade channel missing"))
      | Some rx =>
          rx_await rx ≫= λ r,
          match r with
          | Err e => mret (Err (WsError ("upgrade await error: " +:+ e)))
          | Ok io => mret (Ok (mkUpgraded
                       (mkWsParts (path_params req) params (headers req) exts) io))
          end
      end
  end.
End ws.

(** ** A connection (websocket.rs) *)

(** The callbacks of a [WebSocketHandler], as far as they decide what the
    tasks do.  [on_send] may fail; [on_receive] may fail, which ends the
    receiving task. *)
Record Callbacks := mkCallbacks {
  cb_on_send : option (WsMessage → result WsMessage string);
  cb_on_receive : option (WsMessage → bool);
  cb_on_close : bool;
}.

Inductive Task := Running | Ended.

Record WsConn := mkWsConn {
  (** The channel: its queue and its living senders. *)
  queue : list WsMessage;
  senders : nat;
  (** The sending task and what it has written. *)
  sender : Task;
  wire : list WsMessage;
  (** The receiving task, what [on_receive] was given, and how often
      [on_close] ran. *)
  receiver : Task;
  received : list WsMessage;
  closes : nat;
}.

(** The channel [handle] creates for [on_connect], which leaves messages in it
    and keeps [kept] clones of the sender; [handle]'s own sender is dropped
    when it returns. *)
Definition ws_start (queued : list WsMessage) (kept : nat) : WsConn :=
  mkWsConn queued kept Running [] Running [] 0.

Definition set_queue (c : WsConn) (q : list WsMessage) : WsConn :=
  mkWsConn q (senders c) (sender c) (wire c) (receiver c) (received c) (closes c).
Definition set_senders (c : WsConn) (n : nat) : WsConn :=
  mkWsConn (queue c) n (sender c) (wire c) (receiver c) (received c) (closes c).

(** One round of the sending task: [while let Ok(message) = rx.recv().await];
    [wire_ok] is whether the socket takes the message.  With an empty queue
    the task waits, and ends when the last sender is gone.  Leaving the loop
    drops the channel's receiver and with it the queue. *)
Definition sender_step (cb : Callbacks) (wire_ok : bool) (c : WsConn) : WsConn :=
  match sender c with
  | Ended => c
  | Running =>
      match queue c with
      | [] => if (senders c =? 0)%nat
              then mkWsConn [] 0 Ended (wire c) (receiver c) (received c) (closes c) else c
      | message :: q =>
          let message := match cb_on_send cb with
                         | Some on_send => ok (on_send message)
                         | None => Some message
                         end in
          match message with
          | None => set_queue c q
          | Some message =>
              if wire_ok
              then mkWsConn q (senders c) Running (wire c ++ [message])%list (receiver c)
                     (received c) (closes c)
              else mkWsConn [] (senders c) Ended (wire c) (receiver c) (received c) (closes c)
          end
      end
  end.

(** Leaving the receiving loop runs [on_close]. *)
Definition end_receiver (cb : Callbacks) (c : WsConn) : WsConn :=
  mkWsConn (queue c) (senders c) (sender c) (wire c) Ended (received c)
    (closes c + if cb_on_close cb then 1 else 0).

(** One round of the receiving task, given what [ws_rx.next()] yields. *)
Definition receiver_step (cb : Callbacks) (item : option (result WsMessage string)) (c : WsConn)
  : WsConn :=
  match receiver c with
  | Ended => c
  | Running =>
      match item with
      | None => end_receiver cb c
      | Some (Err _) => c
      | Some (Ok message) =>
          if is_close message then end_receiver cb c
          else match cb_on_receive cb with
               | None => c
               | Some on_receive =>
                   let c := mkWsConn (queue c) (senders c) (sender c) (wire c) Running
                              (received c ++ [message])%list (closes c) in
                   if on_receive message then c else end_receiver cb c
               end
      end
  end.

(** User code: sending through a living sender (a send after the task ended
    fails), cloning and dropping senders. *)
Inductive WsEvent :=
| EvSend (m : WsMessage)
| EvClone
| EvDrop
| EvSender (wire_ok : bool)
| EvReceive (item : option (result WsMessage string)).

Definition ws_step (cb : Callbacks) (c : WsConn) (e : WsEvent) : WsConn :=
  match e with
  | EvSend m =>
      match senders c, sender c with
      | S _, Running => set_queue c (queue c ++ [m])%list
      | _, _ => c
      end
  | EvClone => match senders c with S n => set_senders c (S (S n)) | O => c end
  | EvDrop => set_senders c (pred (senders c))
  | EvSender wire_ok => sender_step cb wire_ok c
  | EvReceive item => receiver_step cb item c
  end.

(** ** Handlers and routes *)

Section handler.
Context {P : Platform} {C : WsCrates P}.

(** [WebSocketHandler]: [on_connect] gets the channel; it returns what it left
    in the queue and how many senders it kept. *)
Record WebSocketHandler := mkWsHandler {
  h_on_connect : option (WebSocketParts → M World (SilentResult (list WsMessage * nat)));
  h_callbacks : Callbacks;
}.

Definition WebSocketHandler_new : WebSocketHandler := mkWsHandler None (mkCallbacks None None false).
Definition h_set_on_connect (h : WebSocketHandler) f : WebSocketHandler :=
  mkWsHandler (Some f) (h_callbacks h).
Definition h_set_on_send (h : WebSocketHandler) f : WebSocketHandler :=
  mkWsHandler (h_on_connect h)
    (mkCallbacks (Some f) (cb_on_receive (h_callbacks h)) (cb_on_close (h_callbacks h))).
Definition h_set_on_receive (h : WebSocketHandler) f : WebSocketHandler :=
  mkWsHandler (h_on_connect h)
    (mkCallbacks (cb_on_send (h_callbacks h)) (Some f) (cb_on_close (h_callbacks h))).
Definition h_set_on_close (h : WebSocketHandler) : WebSocketHandler :=
  mkWsHandler (h_on_connect h)
    (mkCallbacks (cb_on_send (h_callbacks h)) (cb_on_receive (h_callbacks h)) true).

(** The [Stream] of a [WebSocket], and [send] and [close]; errors of
    tungstenite by their text. *)
Definition WebSocket_poll_next (polled : Poll (option (result WsMessage string)))
  : Poll (option (SilentResult WsMessage)) :=
  match polled with
  | Ready (Some (Ok item)) => Ready (Some (Ok item))
  | Ready (Some (Err e)) => Ready (Some (Err (AnyhowError ("websocket poll error: " +:+ e))))
  | Ready None => Ready None
  | Pending => Pending
  end.
Definition WebSocket_send (sent : result () string) : SilentResult () :=
  map_err (λ e, AnyhowError ("send error: " +:+ e)) sent.
Definition WebSocket_close (closed : result () string) : SilentResult () :=
  map_err (λ e, AnyhowError ("close error: " +:+ e)) closed.

(** [WebSocketHandlerTrait::handle]: a failing [on_connect] starts no task. *)
Definition WebSocket_handle (h : WebSocketHandler) (u : Upgraded) : M World (SilentResult WsConn) :=
  match h_on_connect h with
  | None => mret (Ok (ws_start [] 0))
  | Some on_connect =>
      r <-? on_connect (head u) ;; mret (Ok (ws_start (fst r) (snd r)))
  end.

(** [HandlerWrapperWebSocket::call]: the answer goes out at once, the
    connection is waited for in a task; its errors are only logged. *)
Definition HandlerWrapperWebSocket_call (h : WebSocketHandler)
    (run : WsConn → Callbacks → M World unit) : Handler := λ req,
  match websocket_handler req with
  | Err e => mret (Err e)
  | Ok res =>
      spawn (upgrade_on req ≫= λ u,
             match u with
             | Err _ => mret tt
             | Ok u => WebSocket_handle h u ≫= λ r,
                       match r with
                       | Ok conn => run conn (h_callbacks h)
                       | Err _ => mret tt
                       end
             end) ≫= λ _, mret (Ok res)
  end.

(** [WSHandlerAppend::ws] *)
Definition route_ws (r : Route) (h : WebSocketHandler) (run : WsConn → Callbacks → M World unit)
  : outcome Route :=
  get_handler_mut (λ hs, <[GET := HandlerWrapperWebSocket_call h run]> hs) r.

(** ** Handshake and upgrade *)

(** The answer is 101 with the accept value of the key exactly when the
    [upgrade] header is websocket (in any case) and there is a key. *)
Lemma websocket_handler_spec `{!PlatformLaws P} req :
  (∀ key, (hm_get (headers req) "upgrade" ≫= header_to_str) =
            Some "WebSocket" → sec_websocket_key (headers req) = Some key →
     ∃ res, websocket_handler req = Ok res ∧ r_status res = SWITCHING_PROTOCOLS ∧
       hm_get (r_headers res) "sec-websocket-accept" = Some (sec_websocket_accept key) ∧
       hm_get (r_headers res) "upgrade" = Some "websocket" ∧
       hm_get (r_headers res) "connection" = Some "upgrade") ∧
  (sec_websocket_key (headers req) = None ∨ hm_get (headers req) "upgrade" = None →
     ∃ msg, websocket_handler req = Err (business_error BAD_REQUEST msg)).
Proof.
  unfold websocket_handler. split.
  - intros key Hu Hk. destruct (hm_get (headers req) "upgrade") as [v|]; [|done]. cbn in Hu.
    rewrite Hu, Hk. rewrite bool_decide_eq_true_2 by done. eexists. split; [done|].
    cbn -[header_eq]. split; [done|].
    rewrite !hm_get_insert. by split_and!.
  - intros [Hk|Hu].
    + rewrite Hk. repeat case_match; by eexists.
    + rewrite Hu. by eexists.
Qed.

(** All clones of a receiver share one slot: whoever takes it first empties it
    for the others. *)
Lemma slot_take_once r w rx :
  (∀ s w', get_slots (put_slots s w') = s) →
  get_slots w !! rx_slot r = Some (Some rx) →
  ∃ w', AsyncUpgradeRx_take r w = (Ret (Some rx), w') ∧
    ∃ w'', AsyncUpgradeRx_take r w' = (Ret None, w'').
Proof.
  intros Hgp Hs. unfold AsyncUpgradeRx_take. rewrite Hs. eexists. split; [done|].
  rewrite Hgp, lookup_insert_eq. by eexists.
Qed.
End handler.

(** ** What the two tasks do *)

(** What becomes of a message of the queue. *)
Definition outgoing (cb : Callbacks) (m : WsMessage) : option WsMessage :=
  match cb_on_send cb with Some on_send => ok (on_send m) | None => Some m end.

(** The messages a run puts into the channel. *)
Fixpoint pushed (cb : Callbacks) (c : WsConn) (evs : list WsEvent) : list WsMessage :=
  match evs with
  | [] => []
  | e :: evs =>
      (match e, senders c, sender c with
       | EvSend m, S _, Running => [m]
       | _, _, _ => []
       end ++ pushed cb (ws_step cb c e) evs)%list
  end.

(** The items the receiving task is given in a run. *)
Definition items (evs : list WsEvent) : list (option (result WsMessage string)) :=
  omap (M := list) (λ e, match e with EvReceive i => Some i | _ => None end) evs.

(** What [on_receive] is given for a list of items, and whether the task ends
    on them. *)
Fixpoint receive_spec (cb : Callbacks) (l : list (option (result WsMessage string)))
  : list WsMessage * bool :=
  match l with
  | [] => ([], false)
  | None :: _ => ([], true)
  | Some (Err _) :: l => receive_spec cb l
  | Some (Ok m) :: l =>
      if is_close m then ([], true)
      else match cb_on_receive cb with
           | None => receive_spec cb l
           | Some on_receive =>
               if on_receive m then let '(ms, b) := receive_spec cb l in (m :: ms, b)
               else ([m], true)
           end
  end.

Definition sender_inv (cb : Callbacks) (all : list WsMessage) (c : WsConn) : Prop :=
  ∃ taken rest, all = (taken ++ rest)%list ∧ wire c = omap (M := list) (outgoing cb) taken ∧
    match sender c with Running => queue c = rest | Ended => queue c = [] end.

Lemma receiver_step_sender cb item c :
  queue (receiver_step cb item c) = queue c ∧ senders (receiver_step cb item c) = senders c ∧
  sender (receiver_step cb item c) = sender c ∧ wire (receiver_step cb item c) = wire c.
Proof. unfold receiver_step, end_receiver. repeat (case_match; cbn; try done). Qed.

Lemma ws_step_receiver cb c e :
  match e with EvReceive _ => False | _ => True end →
  receiver (ws_step cb c e) = receiver c ∧ received (ws_step cb c e) = received c ∧
  closes (ws_step cb c e) = closes c.
Proof.
  destruct e; cbn; try done; intros _.
  - by repeat case_match.
  - by repeat case_match.
  - unfold sender_step. by repeat (case_match; cbn).
Qed.

Lemma sender_inv_step cb all c e :
  sender_inv cb all c →
  sender_inv cb (all ++ match e, senders c, sender c with
                        | EvSend m, S _, Running => [m]
                        | _, _, _ => []
                        end)%list (ws_step cb c e).
Proof.
  intros (taken & rest & -> & Hw & Hq). destruct e as [m| | |wire_ok|item]; cbn [ws_step].
  - destruct (senders c); [by rewrite app_nil_r; exists taken, rest|].
    destruct (sender c) eqn:Es; [|rewrite app_nil_r; exists taken, rest; by rewrite Es].
    exists taken, (rest ++ [m])%list. cbn. rewrite Es, Hq, app_assoc. done.
  - rewrite app_nil_r. exists taken, rest. destruct (senders c); by cbn.
  - rewrite app_nil_r. exists taken, rest. by cbn.
  - rewrite app_nil_r. unfold sender_step. destruct (sender c) eqn:Es.
    2: { exists taken, rest. by rewrite Es. }
    destruct (queue c) as [|m q] eqn:Eq.
    + subst rest. case_match; cbn; [|exists taken, []; by rewrite Es, Eq].
      exists taken, []. done.
    + subst rest. fold (outgoing cb m). destruct (outgoing cb m) as [m'|] eqn:Em.
      * destruct wire_ok; cbn.
        -- exists (taken ++ [m])%list, q. rewrite <-app_assoc. split_and!; [done| |done].
           rewrite omap_app, Hw. cbn. by rewrite Em.
        -- exists taken, (m :: q). done.
      * exists (taken ++ [m])%list, q. cbn. rewrite <-app_assoc, Es. split_and!; [done| |done].
        rewrite omap_app, Hw. cbn. by rewrite Em, app_nil_r.
  - destruct (receiver_step_sender cb item c) as (H1 & H2 & H3 & H4).
    rewrite app_nil_r. exists taken, rest. by rewrite H1, H3, H4.
Qed.

Lemma sender_inv_run cb all c evs :
  sender_inv cb all c → sender_inv cb (all ++ pushed cb c evs)%list (runs (ws_step cb) c evs).
Proof.
  revert all c. induction evs as [|e evs IH]; intros all c H; cbn [pushed].
  { by rewrite app_nil_r. }
  rewrite app_assoc. apply (IH _ (ws_step cb c e)). by apply sender_inv_step.
Qed.

(** C18: What user code puts into the channel of a connection goes out in
    order: after any interleaving of the tasks and of user code, the messages
    on the wire are those of a prefix of everything queued (what [on_connect]
    left and what the senders added), each transformed by [on_send] and left
    out when [on_send] fails; while the sending task runs the rest is still in
    the queue, so nothing is lost, duplicated or overtaken.  Once all senders
    are gone and the socket takes the messages, [length queue + 1] rounds
    write the whole queue and end the task. *)
Theorem ws_sends_in_order cb q0 kept evs :
  let c := runs (ws_step cb) (ws_start q0 kept) evs in
  let all := (q0 ++ pushed cb (ws_start q0 kept) evs)%list in
  sender_inv cb all c ∧
  (sender c = Running → senders c = 0%nat →
   let c' := runs (ws_step cb) c (replicate (S (length (queue c))) (EvSender true)) in
   sender c' = Ended ∧ wire c' = omap (M := list) (outgoing cb) all).
Proof.
  intros c all. assert (sender_inv cb all c) as Hinv.
  { apply sender_inv_run. by exists [], q0. }
  split; [done|]. intros Hs Hn. destruct Hinv as (taken & rest & Hall & Hw & Hq).
  rewrite Hs in Hq. rewrite Hall, omap_app, <-Hw, <-Hq. clear Hall Hw Hq taken rest.
  clearbody c. clear all. revert c Hs Hn.
  assert (∀ q c, sender c = Running → senders c = 0%nat → queue c = q →
    let c' := runs (ws_step cb) c (replicate (S (length q)) (EvSender true)) in
    sender c' = Ended ∧ wire c' = (wire c ++ omap (M := list) (outgoing cb) q)%list) as H;
    [|intros c Hs Hn; by apply (H (queue c) c)].
  induction q as [|m q IH]; intros c Hs Hn Hq.
  - cbn. unfold sender_step. rewrite Hs, Hq, Hn. cbn. by rewrite app_nil_r.
  - cbn [length replicate]. unfold runs. cbn [foldl ws_step].
    assert (∃ c1, sender_step cb true c = c1 ∧ sender c1 = Running ∧ senders c1 = 0%nat ∧
      queue c1 = q ∧ wire c1 = (wire c ++ omap (M := list) (outgoing cb) [m])%list)
      as (c1 & -> & Hs1 & Hn1 & Hq1 & Hw1).
    { eexists. split; [done|]. unfold sender_step. rewrite Hs, Hq. fold (outgoing cb m).
      cbn. destruct (outgoing cb m); cbn; [done|]. by rewrite app_nil_r. }
    destruct (IH c1 Hs1 Hn1 Hq1) as [H1 H2]. split; [exact H1|].
    etrans; [exact H2|]. by rewrite Hw1, <-app_assoc, <-omap_app.
Qed.

Definition receiver_inv (cb : Callbacks) (l : list (option (result WsMessage string)))
    (c : WsConn) : Prop :=
  let '(ms, ended) := receive_spec cb l in
  received c = ms ∧ receiver c = (if ended then Ended else Running) ∧
  closes c = if ended && cb_on_close cb then 1%nat else 0%nat.

Lemma receive_spec_snoc cb l i :
  receive_spec cb (l ++ [i])%list =
  (let '(ms, ended) := receive_spec cb l in
   if ended : bool then (ms, true)
   else let '(ms', ended') := receive_spec cb [i] in ((ms ++ ms')%list, ended')).
Proof.
  remember (receive_spec cb [i]) as r eqn:Er.
  induction l as [|[[m|e]|] l IH]; cbn [app].
  - rewrite <-Er. cbn. by destruct r as [ms []].
  - cbn [receive_spec]. destruct (is_close m); [done|].
    destruct (cb_on_receive cb) as [f|]; [|done].
    destruct (f m); [|done]. rewrite IH. destruct (receive_spec cb l) as [ms []]; [done|].
    by destruct r.
  - exact IH.
  - done.
Qed.

Lemma receiver_inv_step cb l c e :
  receiver_inv cb l c →
  receiver_inv cb (l ++ match e with EvReceive i => [i] | _ => [] end)%list (ws_step cb c e).
Proof.
  intros Hinv. destruct e as [m| | |wire_ok|i].
  1-4: rewrite app_nil_r; match goal with |- context [ws_step ?b ?s ?e] =>
         destruct (ws_step_receiver b s e I) as (H1 & H2 & H3) end;
       unfold receiver_inv in *; rewrite H1, H2, H3; exact Hinv.
  unfold receiver_inv in *. rewrite receive_spec_snoc. cbn [ws_step].
  destruct (receive_spec cb l) as [ms []]; destruct Hinv as (Hr & Ht & Hc).
  { unfold receiver_step. by rewrite Ht. }
  unfold receiver_step. rewrite Ht. cbn in Hc.
  destruct i as [[m|e]|]; cbn.
  - destruct (is_close m); cbn; [rewrite app_nil_r, Hc; by destruct (cb_on_close cb)|].
    destruct (cb_on_receive cb) as [f|]; cbn; [|by rewrite app_nil_r].
    destruct (f m); cbn; rewrite ?Hr, ?Hc; by destruct (cb_on_close cb).
  - by rewrite app_nil_r.
  - rewrite app_nil_r, Hc. by destruct (cb_on_close cb).
Qed.

(** C19: Receiving does not depend on how the tasks interleave: after any run,
    [on_receive] was given, in order, exactly the messages that arrived before
    the first close frame, the end of the stream or the first message it
    failed on (read errors are skipped), and [on_close] has run exactly once
    if the receiving task has ended and never before; a close frame is never
    handed to [on_receive], and nothing is received after the end. *)
Theorem ws_receives_until_close cb q0 kept evs :
  let c := runs (ws_step cb) (ws_start q0 kept) evs in
  let '(ms, ended) := receive_spec cb (items evs) in
  received c = ms ∧ receiver c = (if ended then Ended else Running) ∧
  closes c = (if ended && cb_on_close cb then 1%nat else 0%nat) ∧
  Forall (λ m, is_close m = false) ms ∧
  (ended = true → ∀ evs', received (runs (ws_step cb) c evs') = ms ∧
                          closes (runs (ws_step cb) c evs') = closes c).
Proof.
  assert (∀ l c evs, receiver_inv cb l c →
    receiver_inv cb (l ++ items evs)%list (runs (ws_step cb) c evs)) as Hrun.
  { intros l c evs'. revert l c. induction evs' as [|e evs' IH]; intros l c H.
    { by rewrite app_nil_r. }
    replace (items (e :: evs')) with
      ((match e with EvReceive i => [i] | _ => [] end ++ items evs')%list) by by destruct e.
    rewrite app_assoc. apply (IH _ (ws_step cb c e)). by apply receiver_inv_step. }
  assert (∀ l l', snd (receive_spec cb l) = true →
    receive_spec cb (l ++ l')%list = receive_spec cb l) as Hstop.
  { intros l l'. revert l. induction l' as [|i l' IH]; intros l Hl; [by rewrite app_nil_r|].
    replace (l ++ i :: l')%list with ((l ++ [i]) ++ l')%list by by rewrite <-app_assoc.
    rewrite IH; rewrite receive_spec_snoc; by destruct (receive_spec cb l) as [? []]. }
  intros c. pose proof (Hrun [] (ws_start q0 kept) evs ltac:(done)) as Hinv.
  cbn [app] in Hinv. fold c in Hinv. pose proof Hinv as Hinv0. unfold receiver_inv in Hinv.
  destruct (receive_spec cb (items evs)) as [ms ended] eqn:E.
  destruct Hinv as (Hr & Ht & Hc). split_and!; try done.
  - clear -E. revert ms ended E. induction (items evs) as [|[[m|e]|] l IH]; cbn; intros ms ended.
    + by intros [= <- <-].
    + destruct (is_close m) eqn:Em; [by intros [= <- <-]|].
      destruct (cb_on_receive cb) as [f|]; [|by apply IH].
      destruct (f m); [|intros [= <- <-]; by repeat constructor].
      destruct (receive_spec cb l) as [ms' b]. intros [= <- <-].
      constructor; [done|]. by eapply IH.
    + apply IH.
    + by intros [= <- <-].
  - intros -> evs'. pose proof (Hrun _ _ evs' Hinv0) as H. unfold receiver_inv in H.
    rewrite Hstop in H by by rewrite E. rewrite E in H. destruct H as (H1 & _ & H3).
    by rewrite H1, H3, Hc.
Qed.
