(* ===== verification/Service.v ===== *)
(** * Serving requests
    (silent/src/server/protocol/hyper_http/hyper_service.rs,
    silent/src/server/protocol/hyper_http/mod.rs,
    silent/src/server/route_connection.rs)

    What happens between hyper and the routes: the peer's address enters the
    request, the body is limited, the frozen tree answers, errors become
    responses.  The session middleware is an argument; the [upgrade] feature
    is in [Upgrade]. *)

From S2P Require Import Prelude Str Platform Ext State Error PathParam Body Message Next Cookies Addr RouteSeg RouteTree Route.

Set Warnings "-register-all".

Section service.
Context {P : Platform} {T : Ipv6Text} {C : CookieCrate P}.

(** ** protocol/hyper_http *)

(** [get_cookie]; its error only means an empty jar. *)
Definition get_cookie (p : Parts) : SilentResult CookieJar :=
  header_cookies INTERNAL_SERVER_ERROR (p_headers p).

Definition into_internal (p : Parts) (b : ReqBody) : Request :=
  let cookies := default jar_new (ok (get_cookie p)) in
  let request := Request_from_parts p b in
  set_extensions request (ext_insert (extensions request) cookies).

(** What hyper gets: every changed cookie becomes a header of its own, the
    response state is dropped. *)
Definition from_internal (r : Response) : StatusCode * Version * HeaderMap * Extensions * ResBody :=
  let headers := hm_extend hm_empty (r_headers r) in
  let headers :=
    foldl (λ headers cookie,
             if header_value_ok (cookie_encoded cookie)
             then hm_append headers "set-cookie" (cookie_encoded cookie) else headers)
      headers (jar_delta (res_cookies r)) in
  (r_status r, r_version r, headers, ext_extend ext_empty (r_extensions r), r_body r).

Record HyperServiceHandler := mkHyper {
  remote_addr : RemoteAddr;
  routes : Handler;
  max_body_size : option Z;
}.

Definition HyperServiceHandler_new (remote_addr : RemoteAddr) (routes : Handler)
  : HyperServiceHandler := mkHyper remote_addr routes None.

Definition with_limits (remote_addr : RemoteAddr) (routes : Handler) (max_body_size : option Z)
  : HyperServiceHandler := mkHyper remote_addr routes max_body_size.

Definition Hyper_handle (s : HyperServiceHandler) (req : Request) : M World Response :=
  req ← M_lift (set_remote req (remote_addr s));
  r ← routes s req;
  mret (response_or_error r).

Definition Hyper_call (s : HyperServiceHandler) (p : Parts) (b : ReqBody)
  : M World (StatusCode * Version * HeaderMap * Extensions * ResBody) :=
  let body := ReqBody_with_limit b (max_body_size s) in
  let request := into_internal p body in
  response ← Hyper_handle s request;
  mret (from_internal response).

(** ** server/route_connection.rs *)

Definition build_route_tree (session : MiddleWare) (insert_scheduler : Extensions → Extensions)
    (route : Route) : outcome RouteTree :=
  let route := check_session route session in
  let route := check_cookie route CookieMiddleware_handle in
  let route := hook_first route (SchedulerMiddleware_handle insert_scheduler) in
  convert_to_route_tree route.

Record RouteConnectionService := mkRouteConn {
  frozen_tree : RouteTree;
  limit_body : option Z;
}.

Definition RouteConnectionService_new (session : MiddleWare)
    (insert_scheduler : Extensions → Extensions) (max_body : option Z) (route : Route)
  : outcome RouteConnectionService :=
  tree ← build_route_tree session insert_scheduler route;
  mret (mkRouteConn tree max_body).

(** [handle_http_connection], for one request hyper parsed on a connection
    from [peer]; [addr] is where the copy of the path is allocated. *)
Definition handle_http_connection (addr : Z) (s : RouteConnectionService) (peer : SocketAddr)
    (p : Parts) (b : ReqBody)
  : M World (StatusCode * Version * HeaderMap * Extensions * ResBody) :=
  Hyper_call (with_limits (RemoteAddr_from_socket peer) (RouteTree_call addr (frozen_tree s))
    (limit_body s)) p b.

(** ** Code that does not panic *)

Definition runs_ok {A} (m : M World A) : Prop := ∀ w, ∃ a w', m w = (Ret a, w').

Definition safe_handler (h : Handler) : Prop := ∀ req, runs_ok (h req).

(** A middleware is safe if it does not panic when the rest does not. *)
Definition safe_mw (mw : MiddleWare) : Prop :=
  ∀ next, safe_handler next → safe_handler (λ req, mw req next).

Inductive SafeRoute : Route → Prop := SafeRouteI r :
  map_Forall (λ _ h, safe_handler h) (handlers r) → Forall safe_mw (middlewares r) →
  Forall SafeRoute (kids r) → SafeRoute r.

Inductive SafeTree : RouteTree → Prop := SafeTreeI t :
  map_Forall (λ _ h, safe_handler h) (rt_handler t) → Forall safe_mw (node_middlewares t) →
  Forall SafeTree (children t) → SafeTree t.

(** ** Lemmas: nothing panics *)

Lemma runs_ok_ret {A} (a : A) : runs_ok (mret a).
Proof. intros w. by eexists _, _. Qed.

Lemma runs_ok_bind {A B} (m : M World A) (k : A → M World B) :
  runs_ok m → (∀ a, runs_ok (k a)) → runs_ok (m ≫= k).
Proof.
  intros Hm Hk w. destruct (Hm w) as (a & w' & E). destruct (Hk a w') as (b & w'' & E').
  exists b, w''. cbv [mbind M_bind]. by rewrite E.
Qed.

Lemma runs_ok_try {A B E} (m : M World (result A E)) (k : A → M World (result B E)) :
  runs_ok m → (∀ a, runs_ok (k a)) → runs_ok (M_try m k).
Proof. intros Hm Hk. apply runs_ok_bind; [done|]. intros [a|e]; [apply Hk|apply runs_ok_ret]. Qed.

Lemma safe_onion mws h : Forall safe_mw mws → safe_handler h → safe_handler (onion mws h).
Proof.
  intros Hm Hh. induction Hm as [|mw mws Hmw Hm IH]; [done|]. cbn. by apply Hmw.
Qed.

Lemma safe_handler_map hs :
  map_Forall (λ _ h, safe_handler h) hs → safe_handler (HandlerMap_call hs).
Proof.
  intros Hh req. unfold HandlerMap_call. destruct (hs !! method req) as [h|] eqn:E.
  { apply runs_ok_try; [by eapply Hh|]. intros r. apply runs_ok_ret. }
  destruct (if bool_decide _ then _ else None) as [h|] eqn:E'; [|apply runs_ok_ret].
  apply runs_ok_try; [|intros r; apply runs_ok_ret].
  case_bool_decide; [|done]. by eapply Hh.
Qed.

Lemma safe_here t s :
  map_Forall (λ _ h, safe_handler h) (rt_handler t) → safe_handler (call_here t s).
Proof.
  intros Hh req. unfold call_here, call_handler.
  repeat case_match; try apply runs_ok_ret; by apply safe_handler_map.
Qed.

Lemma safe_trail full t s trail :
  SafeTree t → Consumes t s trail → safe_handler (run_trail full t s trail).
Proof.
  intros Ht Hc. induction Hc as [t s Hs|t s c r trail Hin Hr Hc IH]; cbn.
  { destruct Ht. by apply safe_here. }
  assert (SafeTree c) as Hsc.
  { destruct Ht as [t _ _ Hk]. rewrite Forall_forall in Hk. by apply Hk. }
  intros req. rewrite Hr. cbn. apply (safe_onion _ _); [by destruct Hsc|]. by apply IH.
Qed.

Lemma scheduler_safe ins : safe_mw (SchedulerMiddleware_handle ins).
Proof. intros next Hn req. apply Hn. Qed.

Lemma cookie_safe : safe_mw CookieMiddleware_handle.
Proof.
  intros next Hn req. unfold CookieMiddleware_handle.
  destruct (header_cookies _ _); [|apply runs_ok_ret].
  apply runs_ok_try; [apply Hn|]. intros r. apply runs_ok_ret.
Qed.

Lemma converts_safe r : SafeRoute r → ∀ t, Converts r t → SafeTree t.
Proof.
  induction r as [r IH] using Route_kids_ind. intros Hs t Hc.
  destruct Hs as [r Hh Hm Hk]. destruct Hc as [r t _ H2 _ H4 _ Hkids].
  constructor; [by rewrite H2|by rewrite H4|].
  apply Forall_lookup_2. intros i c Hi.
  destruct (Forall2_lookup_r _ _ _ _ _ Hkids Hi) as (rc & Hrc & Hcc).
  rewrite Forall_lookup in IH, Hk. by eapply IH; eauto.
Qed.

Lemma safe_below full t s : SafeTree t → safe_handler (run_trail full t s (trail_below t s)).
Proof.
  intros Ht. destruct (dfs t s) as [trail|] eqn:E.
  - rewrite <-(dfs_trail_below t s trail) by done. apply safe_trail; [done|]. by apply dfs_sound.
  - rewrite dfs_unfold in E. unfold trail_below.
    destruct (first_trail _ _ _); [done|]. cbn. destruct Ht. by apply safe_here.
Qed.

Lemma safe_tree_call {L : PlatformLaws P} addr t req :
  tree_ok t → SafeTree t → utf8 (uri_path (uri req)) = true → runs_ok (RouteTree_call addr t req).
Proof.
  intros Hok Ht Hu. rewrite RouteTree_call_eq by done.
  destruct (node_remain t _) as [s|]; [|apply runs_ok_ret].
  apply (safe_onion _ _); [by destruct Ht|]. by apply safe_below.
Qed.

(** What the service adds in front of the hooked middlewares. *)
Lemma build_route_tree_route sess ins r :
  build_route_tree sess ins r =
  convert_to_route_tree (set_middlewares r
    (SchedulerMiddleware_handle ins :: CookieMiddleware_handle :: (if session_set r then [] else [sess]) ++ middlewares r)%list).
Proof. by destruct r as [? ? ? ? ? ? ? []]. Qed.

Lemma SafeRoute_middlewares r l :
  SafeRoute r → Forall safe_mw l → SafeRoute (set_middlewares r (l ++ middlewares r)%list).
Proof. intros [r' Hh Hm Hk] Hl. constructor; cbn; [done|by apply Forall_app|done]. Qed.

Lemma route_ok_middlewares r l : route_ok r → route_ok (set_middlewares r l).
Proof. by apply route_ok_update. Qed.

(** ** Properties *)

Context {L : PlatformLaws P} {TL : Ipv6Laws T}.

(** Building a service from any routes succeeds, and its tree does not panic
    when its handlers and middlewares do not. *)
Lemma built_service `{!PlatformLaws P} sess ins max_body route addr :
  Built route → SafeRoute route → safe_mw sess →
  ∃ svc, RouteConnectionService_new sess ins max_body route = Ret svc ∧
    limit_body svc = max_body ∧
    ∀ req, utf8 (uri_path (uri req)) = true → runs_ok (RouteTree_call addr (frozen_tree svc) req).
Proof.
  intros Hb Hs H1. unfold RouteConnectionService_new.
  rewrite build_route_tree_route.
  set (l := (SchedulerMiddleware_handle ins :: CookieMiddleware_handle ::
    (if session_set route then [] else [sess]))%list).
  change (SchedulerMiddleware_handle ins :: CookieMiddleware_handle :: _)%list
    with (l ++ middlewares route)%list.
  assert (Forall safe_mw l) as Hl.
  { unfold l. repeat (constructor; [apply scheduler_safe || apply cookie_safe|]).
    destruct (session_set route); by repeat constructor. }
  destruct (convert_ok (set_middlewares route (l ++ middlewares route)%list))
    as (t & -> & Hok & _ & Hc); [apply route_ok_middlewares; by apply Built_ok|].
  eexists. split; [done|]. split; [done|]. intros req Hu. apply safe_tree_call; [done| |done].
  eapply converts_safe; [|done]. by apply SafeRoute_middlewares.
Qed.

(** C6: A service built from any routes answers: if no handler and no
    middleware panics, then whatever the request, its headers, its path and
    its body, from any network peer or a Unix peer whose path is visible ASCII
    ([peer_ok]), building the service and answering the request do not panic,
    and there is always a response. *)
Theorem service_total sess ins max_body route peer addr p b :
  Built route → SafeRoute route → safe_mw sess →
  peer_ok (RemoteAddr_from_socket peer) → utf8 (uri_path (p_uri p)) = true →
  ∃ svc, RouteConnectionService_new sess ins max_body route = Ret svc ∧
    runs_ok (handle_http_connection addr svc peer p b).
Proof.
  intros Hb Hs H1 Hp Hu.
  destruct (built_service sess ins max_body route addr Hb Hs H1) as (svc & Hsvc & Hm & Hrun).
  exists svc. split; [done|]. unfold handle_http_connection, Hyper_call, Hyper_handle.
  destruct (set_remote_total (into_internal p (ReqBody_with_limit b (limit_body svc))) _ Hp) as [h Hh].
  cbn [remote_addr with_limits max_body_size limit_body routes frozen_tree].
  rewrite Hh, M_lift_ret. repeat (apply runs_ok_bind; [|intros r; apply runs_ok_ret]).
  by apply Hrun.
Qed.
End service.

(** ** Witnesses *)

Section examples.
Let hello : Handler (P := Demo) := λ _, mret (Ok (text "hello")).
#[local] Existing Instance NoCookies.
Let pass : MiddleWare (P := Demo) := λ req next, next req.
Let peer := Tcp (T := LoopbackText) (V4 (10, 0, 0, 7)%Z 443).
Let get (path : string) : Parts (P := Demo) :=
  mkParts GET (mkUri path None) HTTP_11 hm_empty ext_empty.

Lemma hello_safe : safe_handler hello.
Proof. intros req w. by eexists _, _. Qed.

Lemma pass_safe : safe_mw pass.
Proof. intros next Hn req. apply Hn. Qed.

Lemma service_total_witness :
  let route := insert_handler (P := Demo) (Route_new "<id:i64>") GET hello in
  ∃ svc, RouteConnectionService_new pass (λ e, e) (Some 4%Z) route = Ret svc ∧
    runs_ok (handle_http_connection 1 svc peer (get "/nowhere") ReqEmpty).
Proof.
  intros route. refine (service_total (P := Demo) (T := LoopbackText) pass (λ e, e) (Some 4%Z) route
    peer 1 (get "/nowhere") ReqEmpty _ _ pass_safe _ _).
  - apply Built_insert_handler, Built_new. reflexivity.
  - constructor; [|constructor|constructor].
    intros k h. cbn. intros [[_ <-]|[_ Hk]]%lookup_insert_Some; [exact hello_safe|].
    discriminate.
  - reflexivity.
  - reflexivity.
Defined.
End examples.
