(* ===== verification/Served.v ===== *)
(** * From a route pattern to its handler

    The composition of the builder ([Route]), the conversion, the tree's
    dispatch ([RouteTree]), the captures ([RouteSeg]) and the service
    ([Service]): a handler registered under a pattern of plain and parameter
    segments gets the requests that match it, with its parameters bound. *)

From S2P Require Import Prelude Str Platform Ext State Error PathParam Body Message Next Cookies Addr RouteSeg RouteTree Route Service.

Section served.
Context {P : Platform} {T : Ipv6Text} {C : CookieCrate P}.

(** ** Patterns and the paths that match them *)

(** A non-empty segment. *)
Definition simple_segment (s : string) : bool :=
  negb (bool_decide (s = "")) && negb (str_contains_char "/" s).
(** A segment that is not a parameter either. *)
Definition plain_segment (s : string) : bool :=
  simple_segment s && negb (starts_with_char "<" s && ends_with_char ">" s).

Definition path_of (segs : list string) : string := String.concat "/" segs.

(** A segment of a pattern, what it parses to, and the segment of the
    request's path in its place. *)
Record Piece := mkPiece { pat : string; kind : SpecialSeg; val : string }.

Definition piece_ok (p : Piece) : Prop :=
  simple_segment (pat p) = true ∧ simple_segment (val p) = true ∧
  parse_special_seg (pat p) = Ret (kind p) ∧
  match kind p with
  | SegStatic v => v = val p
  | SegRoot | SegFullPath _ => False
  | k => seg_accepts k (val p) = true
  end.

Definition plain_piece (s : string) : Piece := mkPiece s (SegStatic s) s.

(** The parameters a handler is to find, by what the texts say. *)
Definition params_of (ps : list Piece) : list (string * PathParam) :=
  omap (λ p, seg_param (kind p) (val p)) ps.

(** Parameters as the dispatch binds them, from the root down. *)
Definition set_params (l : list (string * PathParam)) (req : Request) : Request :=
  foldl (λ r kp, set_path_params r kp.1 kp.2) req l.
Definition reads (kp kv : string * PathParam) : Prop := kp.1 = kv.1 ∧ to_owned kp.2 = Ret kv.2.

Definition last_param (key : string) (l : list (string * PathParam)) : option PathParam :=
  foldl (λ o kv, if decide (kv.1 = key) then Some kv.2 else o) None l.

(** The route [Route::new(a/b/c).get(h)] stands for. *)
Inductive Chain (m : Method) (h : Handler) : list string → Route → Prop :=
| Chain_end s r :
    path r = s → kids r = [] → handlers r = {[ m := h ]} → middlewares r = [] →
    route_state r = None → Chain m h [s] r
| Chain_step s segs r c :
    path r = s → kids r = [c] → handlers r = ∅ → middlewares r = [] → route_state r = None →
    Chain m h segs c → Chain m h (s :: segs) r.

(** ** Lemmas: bound parameters *)

Lemma last_param_snoc key l kv :
  last_param key (l ++ [kv])%list = if decide (kv.1 = key) then Some kv.2 else last_param key l.
Proof. unfold last_param. by rewrite foldl_app. Qed.

Lemma set_params_snoc l kp req :
  set_params (l ++ [kp])%list req = set_path_params (set_params l req) kp.1 kp.2.
Proof. unfold set_params. by rewrite foldl_app. Qed.

(** What the handler reads under a key: the last parameter of that name. *)
Lemma set_params_rel (R : PathParam → PathParam → Prop) l vs req key :
  Forall2 (λ kp kv : string * PathParam, kp.1 = kv.1 ∧ R kp.2 kv.2) l vs →
  match last_param key vs with
  | Some v => ∃ p, path_params (set_params l req) !! key = Some p ∧ R p v
  | None => path_params (set_params l req) !! key = path_params req !! key
  end.
Proof.
  revert vs. induction l as [|kp l IH] using rev_ind; intros vs.
  - by intros ->%Forall2_nil_inv_l.
  - intros (vs' & x & H & Hx & ->)%Forall2_app_inv_l.
    apply Forall2_cons_inv_l in Hx as (kv & l' & [Hk Hv] & ->%Forall2_nil_inv_l & ->).
    rewrite last_param_snoc, set_params_snoc, <-Hk. cbn. destruct (decide (kp.1 = key)) as [<-|Hne].
    + exists kp.2. by rewrite lookup_insert_eq.
    + rewrite lookup_insert_ne by done. by apply IH.
Qed.

Lemma set_params_read l vs req key :
  Forall2 reads l vs →
  match last_param key vs with
  | Some v => ∃ p, path_params (set_params l req) !! key = Some p ∧ to_owned p = Ret v
  | None => path_params (set_params l req) !! key = path_params req !! key
  end.
Proof. apply (set_params_rel (λ p v, to_owned p = Ret v)). Qed.

(** ** Lemmas: patterns *)

Lemma simple_segment_inv s :
  simple_segment s = true → s ≠ "" ∧ str_contains_char "/" s = false.
Proof.
  unfold simple_segment.
  by intros [H1%negb_true_iff%bool_decide_eq_false H2%negb_true_iff]%andb_true_iff.
Qed.

Lemma plain_piece_ok s : plain_segment s = true → piece_ok (plain_piece s).
Proof.
  unfold plain_segment. intros [Hs Hb%negb_true_iff]%andb_true_iff. unfold piece_ok; cbn.
  split_and!; [done|done| |done]. apply simple_segment_inv in Hs as [Hs _].
  unfold parse_special_seg. by rewrite bool_decide_eq_false_2, Hb.
Qed.

Lemma simple_no_leading s r :
  simple_segment s = true → starts_with_char "/" (s +:+ r) = false.
Proof.
  intros (H1 & H2)%simple_segment_inv. destruct s as [|c s]; [done|].
  by apply orb_false_iff in H2 as [? _].
Qed.

(** The first segment of a path and what comes after it. *)
Lemma path_of_cons s segs :
  path_of (s :: segs) = s ∧ segs = [] ∨
  path_of (s :: segs) = s +:+ String "/" (path_of segs) ∧ segs ≠ [].
Proof. destruct segs; [by left|by right]. Qed.

Lemma path_of_no_leading segs :
  Forall (λ s, simple_segment s = true) segs → starts_with_char "/" (path_of segs) = false.
Proof.
  intros [|s segs' Hs _]; [done|].
  destruct (path_of_cons s segs') as [[-> _]|[-> _]]; [|by apply simple_no_leading].
  rewrite <-(str_app_nil_r s). by apply simple_no_leading.
Qed.

Lemma path_of_nonempty segs :
  Forall (λ s, simple_segment s = true) segs → segs ≠ [] → path_of segs ≠ "".
Proof.
  intros [|s segs' Hs _] Hne; [done|]. apply simple_segment_inv in Hs as (H1 & _).
  destruct (path_of_cons s segs') as [[-> _]|[-> _]]; [done|]. by destruct s.
Qed.

Lemma splitn2_path_of s segs :
  simple_segment s = true → splitn2 (path_of (s :: segs)) = (s, path_of segs).
Proof.
  intros (_ & H)%simple_segment_inv. unfold splitn2.
  destruct (split_once_no_char "/" s (path_of segs) H) as [H1 H2].
  destruct (path_of_cons s segs) as [[-> E]|[-> _]]; [by rewrite H1, E|by rewrite H2].
Qed.

Lemma Route_new_go_fields fuel p :
  middlewares (Route_new_go fuel p) = [] ∧ route_state (Route_new_go fuel p) = None.
Proof.
  destruct fuel; cbn; destruct (splitn2 _); [done|]. by case_bool_decide.
Qed.

(** Registering a handler on the route of a pattern. *)
Lemma pattern_route m h segs : ∀ fuel p,
  segs ≠ [] → Forall (λ s, simple_segment s = true) segs →
  trim_start_matches "/" p = path_of segs → (String.length p ≤ fuel)%nat →
  ∃ r, get_handler_mut (λ hs, <[m := h]> hs) (Route_new_go fuel p) = Ret r ∧ Chain m h segs r.
Proof.
  induction segs as [|s segs IH]; intros fuel p Hne Hf Hp Hl; [done|].
  apply Forall_cons in Hf as [Hs Hf].
  destruct (Route_new_shape fuel p s (path_of segs)) as (H1 & H2 & H3 & H4); [done| |].
  { rewrite Hp. by apply splitn2_path_of. }
  destruct (Route_new_go_fields fuel p) as [Hm Hst].
  destruct (Route_new_go fuel p) as [pa hs ks mws sm cp st ss]; cbn in *. subst.
  rewrite Hp. destruct segs as [|s' segs].
  - destruct H4 as [[_ ->]|[? _]]; [|done]. rewrite bool_decide_eq_true_2 by done. eexists.
    split; [done|]. by apply Chain_end.
  - destruct H4 as [[Hb _]|(_ & Hl' & ->)].
    { exfalso. revert Hb. by apply path_of_nonempty. }
    destruct (path_of_cons s (s' :: segs)) as [[_ ?]|[Hc _]]; [done|].
    change (s +:+ String "/" (String.concat "/" (s' :: segs))) with (path_of (s :: s' :: segs)).
    rewrite bool_decide_eq_false_2 by (rewrite Hc; apply app_slash_ne).
    rewrite splitn2_path_of by done. cbn [snd map update_found].
    destruct (splitn2 (path_of (s' :: segs))) as [x y] eqn:E.
    assert (trim_start_matches "/" (path_of (s' :: segs)) = path_of (s' :: segs)) as Ht.
    { apply trim_start_id. by apply path_of_no_leading. }
    destruct (Route_new_shape (pred fuel) (path_of (s' :: segs)) x y) as (_ & Hcp & _);
      [done|by rewrite Ht|].
    rewrite Hcp, Ht, bool_decide_eq_true_2 by done.
    destruct (IH (pred fuel) (path_of (s' :: segs))) as (c & -> & Hch); [done..|].
    eexists. split; [done|]. by eapply Chain_step.
Qed.

(** ** Lemmas: matching pieces are found *)

Context {L : PlatformLaws P} {TL : Ipv6Laws T}.

Lemma strip_slash_id s : starts_with_char "/" s = false → strip_slash s = s.
Proof. destruct s as [|c s]; [done|]. unfold strip_slash; cbn. by intros ->. Qed.

Lemma first_segment_path_of x segs s :
  simple_segment x = true → strip_slash s = path_of (x :: segs) →
  first_segment s = (x, path_of segs).
Proof.
  intros Hx Hs. pose proof (splitn2_path_of x segs Hx) as E. unfold splitn2 in E.
  unfold first_segment. rewrite Hs. by destruct (split_once _ _).
Qed.

Lemma static_remain_path_of x segs s :
  simple_segment x = true → strip_slash s = path_of (x :: segs) →
  static_remain x s = Some (path_of segs).
Proof.
  intros (Hne & Hns)%simple_segment_inv Hs.
  unfold static_remain. rewrite bool_decide_eq_false_2, Hs by done.
  destruct (path_of_cons x segs) as [[-> ->]|[-> _]]; [by rewrite bool_decide_eq_true_2|].
  rewrite bool_decide_eq_false_2 by (symmetry; apply app_slash_ne).
  replace (x +:+ String "/" (path_of segs)) with ((x +:+ "/") +:+ path_of segs)
    by by rewrite str_app_assoc.
  assert (starts_with (x +:+ "/") ((x +:+ "/") +:+ path_of segs) = true) as ->.
  { apply starts_with_app. by eexists. }
  assert (String.length x + 1 = String.length (x +:+ "/"))%nat as ->.
  { rewrite str_len_app. done. }
  by rewrite str_drop_app.
Qed.

(** The front of a path, as the pieces say. *)
Definition front (ps : list Piece) (s : string) : Prop := strip_slash s = path_of (map val ps).

Lemma vals_simple ps :
  Forall piece_ok ps → Forall (λ s, simple_segment s = true) (map val ps).
Proof. intros H. apply Forall_map. eapply Forall_impl; [exact H|]. by intros p (_ & ? & _). Qed.
Lemma pats_simple ps :
  Forall piece_ok ps → Forall (λ s, simple_segment s = true) (map pat ps).
Proof. intros H. apply Forall_map. eapply Forall_impl; [exact H|]. by intros p (? & _). Qed.

Lemma front_rest ps : Forall piece_ok ps → front ps (path_of (map val ps)).
Proof. intros H. apply strip_slash_id, path_of_no_leading, vals_simple, H. Qed.

Lemma piece_remain p ps nc s :
  piece_ok p → front (p :: ps) s →
  seg_remain (kind p) nc s = Some (path_of (map val ps)).
Proof.
  intros (_ & Hv & _ & Hk) Hs. pose proof (first_segment_path_of _ _ _ Hv Hs) as Hf.
  unfold seg_remain. destruct (kind p); try done; try (rewrite Hf; by rewrite Hk).
  - subst. by apply static_remain_path_of.
Qed.

(** A node with one child sends the path there. *)
Lemma only_child_trail t c s rem trail :
  tree_ok t → indexed t → children t = [c] → s ≠ "" →
  match segment c with SegStatic x => fst (first_segment s) = x | _ => True end →
  node_remain c s = Some rem → dfs c rem = Some trail →
  first_trail (map (λ c, (c, dfs c)) (children t)) s (cands_of t s) = Some (c :: trail).
Proof.
  intros Hok Hix Hk Hs Hc Hr Hd. inversion_clear Hok as [? Hst Hdy _ _ _ _].
  inversion_clear Hix as [? Hi _].
  specialize (Hi 0%nat c). rewrite Hk in Hi, Hst, Hdy. specialize (Hi eq_refl). rewrite Hk.
  assert (∀ cands, Forall (λ i, i < 1)%nat cands → 0%nat ∈ cands →
    first_trail (map (λ c, (c, dfs c)) [c]) s cands = Some (c :: trail)) as H.
  { intros [|i cands] Hf Hin; [by apply elem_of_nil in Hin|].
    apply Forall_cons in Hf as [Hi0 _]. assert (i = 0%nat) as -> by lia.
    cbn. rewrite Hr. cbn. by rewrite Hd. }
  unfold cands_of. rewrite bool_decide_eq_false_2 by done. apply H.
  - apply Forall_app. split; [|done]. destruct (static_children t !! _) as [i|] eqn:E; [|done].
    constructor; [|constructor]. exact (Hst _ _ E).
  - apply elem_of_app. destruct (segment c); try (by right). left.
    destruct Hi as (_ & _ & Hi). rewrite Hc, Hi. by left.
Qed.

(** Binding a node of a piece: what is bound does not depend on the request,
    and reads back what the text says. *)
Lemma suffix_slice_at full pre s : txt full = pre +:+ s → suffix_of full (slice_at full s).
Proof.
  intros Hf. exists pre. split; [done|]. cbn. unfold slen. rewrite Hf, str_len_app. lia.
Qed.

Lemma bind_parsed {A} (parse : string → option A) cap nc kd full path key x y v
    (from : A → PathParam) req :
  utf8 (txt path) = true → first_segment (txt path) = (x, y) → x ≠ "" → parse x = Some v →
  call_path_only kd nc path full = match_parsed parse cap path →
  (∀ m, capture m = Some (cap v) → bind_params kd req m (txt full) = Some (set_path_params req key (from v))) →
  match call_path_only kd nc path full with
  | Ret (Some m) => default req (bind_params kd req m (txt full))
  | _ => req
  end = set_path_params req key (from v).
Proof.
  intros Hu Hf Hx Hv -> Hb. unfold match_parsed.
  destruct (strip_one_segment_spec path Hu) as (a & b & -> & Hf' & _). rewrite Hf in Hf'.
  injection Hf' as -> ->. cbn. rewrite bool_decide_eq_false_2, Hv by done. cbn. by rewrite Hb.
Qed.

Ltac bind_int key H Hf parse cap from :=
  let v := fresh "v" in let E := fresh "E" in
  apply andb_true_iff in H as [_ [v E]%bool_decide_eq_true]; rewrite E;
  exists [(key, from v)]; split;
    [intros req;
     match goal with
     | |- context [call_path_only ?kd ?nc ?path ?full] =>
         eapply (bind_parsed parse cap nc kd full path key _ _ v from req);
         [assumption|exact Hf|assumption|exact E|reflexivity
         |intros m Hm; cbn [bind_params]; by rewrite Hm]
     end
    |constructor; [done|constructor]].

Lemma bind_node_piece full t pre s p ps :
  piece_ok p → segment t = kind p → txt full = pre +:+ s → utf8 s = true → front (p :: ps) s →
  ∃ l, (∀ req, bind_node full t s req = set_params l req) ∧ Forall2 reads l (params_of [p]).
Proof.
  intros (_ & Hv & _ & Hk) Hseg Hfull Hu Hs.
  pose proof (first_segment_path_of _ _ _ Hv Hs) as Hf.
  pose proof (suffix_slice_at _ _ _ Hfull) as Hsuf.
  apply simple_segment_inv in Hv as [Hne Hns].
  assert (first_segment (val p) = (val p, "")) as Hfv.
  { apply (first_segment_path_of _ []); [|apply strip_slash_id].
    - unfold simple_segment. by rewrite bool_decide_eq_false_2, Hns.
    - destruct (val p) as [|c v]; [done|]. by apply orb_false_iff in Hns as [? _]. }
  destruct (strip_one_segment_spec (slice_at full s) Hu) as (a & b & Ho & Hf' & _).
  pose proof Hf' as Hab. cbn [txt slice_at] in Hab. rewrite Hf in Hab. injection Hab as Ha _.
  assert (txt a ≠ "") as Hna by congruence.
  unfold bind_node, tree_path_only, params_of. rewrite Hseg. cbn [omap list_omap].
  destruct (kind p) as [|x|key|key|key|key|key|key|key|key|key]; cbn [seg_param]; rewrite ?Hfv; cbn [fst].
  - done.
  - exists []. split; [|constructor]. intros req. by destruct (call_path_only _ _ _ _) as [[m|]|].
  - cbn [call_path_only]. rewrite Ho. cbn [mbind outcome_bind]. rewrite bool_decide_eq_false_2 by done.
    exists [(key, borrowed_str (txt full) (c_range (CapturedStr_new a full)))].
    split; [done|]. constructor; [|constructor]. split; [done|].
    cbn. unfold PathSlice_as_str; cbn [source range c_range CapturedStr_new].
    rewrite (first_segment_reads full (slice_at full s) a b) by auto. cbn. by rewrite Ha.
  - bind_int key Hk Hf parse_i32 CapI32 from_i32.
  - bind_int key Hk Hf parse_i64 CapI64 from_i64.
  - bind_int key Hk Hf parse_i32 CapI32 from_i32.
  - bind_int key Hk Hf parse_u64 CapU64 from_u64.
  - bind_int key Hk Hf parse_u32 CapU32 from_u32.
  - bind_int key Hk Hf uuid_parse CapUuid from_Uuid.
  - cbn [call_path_only]. rewrite Ho. cbn [mbind outcome_bind].
    exists [(key, borrowed_path (txt full) (c_range (CapturedStr_new a full)))].
    split; [done|]. constructor; [|constructor]. split; [done|].
    cbn. unfold PathSlice_as_str; cbn [source range c_range CapturedStr_new].
    rewrite (first_segment_reads full (slice_at full s) a b) by auto. cbn. by rewrite Ha.
  - done.
Qed.

Lemma bind_node_root full t s req : segment t = SegRoot → bind_node full t s req = req.
Proof. intros Hx. unfold bind_node. repeat case_match; try done. by rewrite Hx. Qed.

Lemma set_params_app l l' req : set_params (l ++ l') req = set_params l' (set_params l req).
Proof. unfold set_params. by rewrite foldl_app. Qed.

Lemma params_of_cons p ps : params_of (p :: ps) = (params_of [p] ++ params_of ps)%list.
Proof. unfold params_of. cbn. by destruct (seg_param _ _). Qed.

Lemma Chain_inv m h p segs r :
  Chain m h (p :: segs) r →
  path r = p ∧ middlewares r = [] ∧ route_state r = None ∧
  (segs = [] ∧ kids r = [] ∧ handlers r = {[ m := h ]} ∨
   segs ≠ [] ∧ handlers r = ∅ ∧ ∃ c, kids r = [c] ∧ Chain m h segs c).
Proof.
  inversion 1 as [? ? Hp Hk Hh Hm Hs|? ? ? c Hp Hk Hh Hm Hs Hc]; subst; split_and!; try done; [by left|].
  right. split_and!; [by destruct Hc|done|by exists c].
Qed.

(** The node of a chain and everything below it, on the front of a path. *)
Record served (m : Method) (h : Handler) (full : Slice) (ps : list Piece) (t : RouteTree) (s rem : string)
    (trail : list RouteTree) : Prop := Served_ {
  sv_state : rt_state t = None;
  sv_mws : node_middlewares t = [];
  sv_first : match segment t with SegStatic x => fst (first_segment s) = x | _ => True end;
  sv_remain : node_remain t s = Some rem;
  sv_dfs : dfs t rem = Some trail;
  sv_run : ∃ l, Forall2 reads l (params_of ps) ∧
    ∀ req, run_trail full t rem trail (bind_node full t s req) =
           HandlerMap_call {[ m := h ]} (set_params l req);
}.

Lemma served_leaf m h full t l p req :
  children t = [] → rt_handler t = {[ m := h ]} → has_handler t = true → Forall2 reads l (params_of [p]) →
  dfs t "" = Some [] ∧
  run_trail full t "" [] (set_params l req) = HandlerMap_call {[ m := h ]} (set_params l req).
Proof.
  intros Hk Hh Hhas Hl. split.
  - rewrite dfs_unfold, Hk. cbn [map]. by assert (∀ l, first_trail (P := P) [] "" l = None) as ->
      by (clear; intros l; by induction l).
  - cbn [run_trail]. unfold call_here, call_handler. cbn [txt slice_at].
    by rewrite bool_decide_eq_true_2, Hhas, Hh.
Qed.

Lemma served_step m h full ps t c s rem rem' trail l p :
  ps ≠ [] → Forall piece_ok ps → tree_ok t → indexed t → children t = [c] → front ps rem →
  rem = path_of (map val ps) → served m h full ps c rem rem' trail →
  Forall2 reads l (params_of [p]) → (∀ req, bind_node full t s req = set_params l req) →
  dfs t rem = Some (c :: trail) ∧ ∃ l', Forall2 reads l' (params_of (p :: ps)) ∧
    ∀ req, run_trail full t rem (c :: trail) (bind_node full t s req) =
           HandlerMap_call {[ m := h ]} (set_params l' req).
Proof.
  intros Hne Hf Hok Hi Hk Hfr Hrem [Hst Hmw Hfs Hr Hd (l2 & Hl2 & Hrun)] Hl Hb. split.
  - rewrite dfs_unfold. rewrite (only_child_trail t c rem rem' trail); try done.
    rewrite Hrem. apply path_of_nonempty; [by apply vals_simple|]. by destruct ps.
  - exists (l ++ l2)%list. split; [rewrite params_of_cons; by apply Forall2_app|].
    intros req. cbn [run_trail]. rewrite Hmw, Hr. cbn [onion default from_option id].
    unfold enter_state. rewrite Hst, Hb, Hrun. by rewrite set_params_app.
Qed.

Lemma chain_served m h ps : ∀ r t full pre s,
  Chain m h (map pat ps) r → Forall piece_ok ps → Converts r t → tree_ok t → indexed t →
  txt full = pre +:+ s → utf8 s = true → front ps s →
  ∃ rem trail, served m h full ps t s rem trail.
Proof.
  induction ps as [|p ps IH]; intros r t full pre s Hch Hf Hc Hok Hi Hfull Hu Hs; [by inversion Hch|].
  apply Forall_cons in Hf as [Hp Hf]. apply Chain_inv in Hch as (Hpath & Hm & Hst & Hrest).
  destruct Hc as [r t C1 C2 C3 C4 C5 C6].
  assert (segment t = kind p) as Hseg by (destruct Hp as (_ & _ & E & _); congruence).
  assert (node_remain t s = Some (path_of (map val ps))) as Hrem.
  { unfold node_remain. rewrite Hseg. by apply piece_remain. }
  assert (match segment t with SegStatic x => fst (first_segment s) = x | _ => True end) as Hfst.
  { rewrite Hseg. destruct Hp as (_ & Hv & _ & Hk). rewrite (first_segment_path_of _ _ _ Hv Hs).
    by destruct (kind p). }
  destruct (bind_node_piece full t pre s p ps Hp Hseg Hfull Hu Hs) as (l & Hb & Hl).
  destruct Hrest as [(Hps & Hk & Hh)|(Hne & _ & c & Hk & Hch)]; rewrite Hk in C6.
  - apply map_eq_nil in Hps as ->. apply Forall2_nil_inv_l in C6.
    assert (has_handler t = true) as Hhas.
    { rewrite C3, Hh, bool_decide_eq_false_2; [done|]. apply insert_non_empty. }
    exists "", []. destruct (served_leaf m h full t l p Request_empty C6) as [Hd _]; [congruence|done..|].
    split; [congruence|congruence|done|done|done|]. exists l. split; [done|].
    intros req. rewrite Hb. apply (served_leaf m h full t l p req C6); [congruence|done..].
  - apply Forall2_cons_inv_l in C6 as (c' & l' & Hcc & ->%Forall2_nil_inv_l & Hkt).
    assert (indexed c' ∧ tree_ok c') as [Hic Hokc].
    { split; [inversion_clear Hi as [? _ H]|inversion_clear Hok as [? _ _ _ _ _ H]];
        rewrite Hkt in H; by apply Forall_cons in H as [? _]. }
    pose proof (seg_remain_suffix _ _ _ _ Hrem) as [q Hq].
    destruct (IH c c' full (pre +:+ q) (path_of (map val ps))) as (rem' & trail & Hsv); try done.
    { by rewrite Hfull, str_app_assoc, <-Hq. }
    { eapply seg_remain_utf8, Hrem; [done|]. by inversion Hok. }
    { by apply front_rest. }
    destruct (served_step m h full ps t c' s (path_of (map val ps)) rem' trail l p) as (Hd & Hrun);
      try done; [by intros ->|by apply front_rest|].
    exists (path_of (map val ps)), (c' :: trail). split; try done; congruence.
Qed.

(** The root above one route. *)
Lemma root_served m h ps r t root addr :
  Chain m h (map pat ps) r → Forall piece_ok ps → ps ≠ [] → utf8 (path_of (map val ps)) = true →
  Converts root t → tree_ok t → indexed t → kids root = [r] → path root = "" →
  let s := "/" +:+ path_of (map val ps) in let full := mkSlice addr s in
  node_remain t s = Some s ∧
  ∃ l, Forall2 reads l (params_of ps) ∧
    run_trail full t s (trail_below t s) = (λ req, HandlerMap_call {[ m := h ]} (set_params l req)).
Proof.
  intros Hch Hf Hne Hu Hc Hok Hi Hk Hp s full. destruct Hc as [q t C1 C2 C3 C4 C5 C6].
  rewrite Hp in C1. injection C1 as C1. rewrite Hk in C6.
  apply Forall2_cons_inv_l in C6 as (c & l' & Hcc & ->%Forall2_nil_inv_l & Hkt).
  assert (indexed c ∧ tree_ok c) as [Hic Hokc].
  { split; [inversion_clear Hi as [? _ H]|inversion_clear Hok as [? _ _ _ _ _ H]];
      rewrite Hkt in H; by apply Forall_cons in H as [? _]. }
  destruct (chain_served m h ps r c full "" s Hch Hf Hcc Hokc Hic eq_refl) as (rem & trail & Hsv);
    [by unfold s|done|].
  destruct Hsv as [Hst Hmw Hfs Hr Hd (l & Hl & Hrun)].
  assert (s ≠ "/") as Hnp.
  { intros E. injection E. apply path_of_nonempty; [by apply vals_simple|]. by destruct ps. }
  split.
  { unfold node_remain, seg_remain, childless. by rewrite <-C1, Hkt, (bool_decide_eq_false_2 _ Hnp). }
  exists l. split; [done|]. apply functional_extensionality_dep. intros req.
  unfold trail_below. rewrite (only_child_trail t c s rem trail) by done.
  cbn [default from_option id run_trail]. rewrite Hmw, Hr. cbn [onion default from_option id].
  unfold enter_state. by rewrite Hst, Hrun.
Qed.

(** What a request finds behind the service of an application whose root is
    [root]: the tree made from it, searched for the request's path, inside the
    service's and the root's own middlewares. *)
Definition service_stack (sess : MiddleWare) (ins : Extensions → Extensions) (ms : list MiddleWare)
  : list MiddleWare := SchedulerMiddleware_handle ins :: CookieMiddleware_handle :: sess :: ms.

(** The request as the first middleware sees it. *)
Definition at_root (req : Request) : Request :=
  set_state (set_path_source req (uri_path (uri req))) (State_extend_from State_new State_new).

Lemma service_dispatch sess ins max_body root :
  Built root → session_set root = false → path root = "" → route_state root = Some State_new →
  ∃ t, RouteConnectionService_new sess ins max_body root = Ret (mkRouteConn t max_body) ∧
    let stack := service_stack sess ins (middlewares root) in
    Converts (set_middlewares root stack) t ∧ tree_ok t ∧ indexed t ∧ ordered t ∧
    ∀ addr req, utf8 (uri_path (uri req)) = true →
    RouteTree_call addr t req =
      match node_remain t (uri_path (uri req)) with
      | None => mret (Err NotFound)
      | Some s => onion stack (run_trail (mkSlice addr (uri_path (uri req))) t s (trail_below t s))
                    (at_root req)
      end.
Proof.
  intros Hb Hss Hp Hs. set (stack := service_stack sess ins (middlewares root)).
  destruct (convert_ok (set_middlewares root stack)) as (t & Hcv & Hok & Hi & Hc).
  { apply route_ok_middlewares. by apply Built_ok. }
  exists t. split; [|split_and!; try done; [by eapply convert_ordered|]].
  { unfold RouteConnectionService_new. rewrite build_route_tree_route, Hss. cbn -[convert_to_route_tree].
    fold (service_stack sess ins (middlewares root)). fold stack. by rewrite Hcv. }
  intros addr req Hu. rewrite RouteTree_call_eq by done.
  inversion Hc as [? ? C1 C2 C3 C4 C5 C6]; subst.
  cbn [Route.path middlewares route_state set_middlewares] in C1, C4, C5.
  rewrite Hp in C1. injection C1 as C1. destruct (node_remain t _); [|done].
  rewrite (bind_node_root _ t), C4 by done. unfold enter_state, root_request, at_root. by rewrite C5, Hs.
Qed.

(** Over HTTP/1 and HTTP/2 the service adds the peer and turns errors into
    responses. *)
Lemma connection_answers t max_body peer addr p b :
  peer_ok (RemoteAddr_from_socket peer) →
  ∃ req, set_remote (into_internal p (ReqBody_with_limit b max_body))
           (RemoteAddr_from_socket peer) = Ret req ∧ uri req = p_uri p ∧
    handle_http_connection addr (mkRouteConn t max_body) peer p b =
      (r ← RouteTree_call addr t req; mret (from_internal (response_or_error r))).
Proof.
  intros Hpeer.
  destruct (set_remote_total (into_internal p (ReqBody_with_limit b max_body)) _ Hpeer) as [hs Hreq].
  eexists. split_and!; [exact Hreq|done|].
  unfold handle_http_connection, Hyper_call, Hyper_handle.
  cbn [remote_addr with_limits max_body_size limit_body routes frozen_tree].
  rewrite Hreq, M_lift_ret, M_bind_assoc. done.
Qed.

(** The root of an application: the hooks, and one route below. *)
Lemma hooked_root (ms : list MiddleWare) :
  foldl hook new_root ms = set_middlewares new_root ms.
Proof.
  induction ms as [|mw ms IH] using rev_ind; [done|]. rewrite foldl_app, IH. done.
Qed.

Lemma hooked_root_built (ms : list MiddleWare) : Built (foldl hook new_root ms).
Proof.
  assert (Built new_root) as Hn by apply Built_root. revert Hn.
  generalize new_root. induction ms as [|mw ms IH]; intros r Hr; [done|]. by apply IH, Built_hook.
Qed.

(** A pattern of plain segments is matched by its own text, and binds
    nothing. *)
Lemma plain_pieces segs :
  Forall (λ s, plain_segment s = true) segs →
  Forall piece_ok (map plain_piece segs) ∧ params_of (map plain_piece segs) = [] ∧
  map pat (map plain_piece segs) = segs ∧ map val (map plain_piece segs) = segs.
Proof.
  intros H. induction H as [|s segs Hs _ (IH1 & IH2 & IH3 & IH4)]; [by split_and!|].
  split_and!; cbn; [|done|by f_equal..]. constructor; [by apply plain_piece_ok|done].
Qed.

(** ** Properties *)

(** A registered route is served.  An application that hooks [ms] on its
    root and registers [h] under a pattern of plain and parameter segments
    builds without panic.  A request whose path matches the pattern segment by
    segment is answered by method dispatch to [h], inside the onion of the
    scheduler, cookie and session middlewares and then [ms] in order; [h] gets
    the request with exactly the pattern's parameters added, and what it reads
    under a key is what the last segment of that name says in the path: the
    text, or the parsed number.  Errors become responses. *)
Theorem route_served sess ins max_body ms ps m h peer addr p b :
  Forall piece_ok ps → ps ≠ [] →
  utf8 (path_of (map pat ps)) = true → utf8 (path_of (map val ps)) = true →
  uri_path (p_uri p) = "/" +:+ path_of (map val ps) → peer_ok (RemoteAddr_from_socket peer) →
  ∃ r root svc req l,
    handler (Route_new (path_of (map pat ps))) m h = Ret r ∧
    Route_append (foldl hook new_root ms) r = Ret root ∧
    RouteConnectionService_new sess ins max_body root = Ret svc ∧
    set_remote (into_internal p (ReqBody_with_limit b max_body))
      (RemoteAddr_from_socket peer) = Ret req ∧
    handle_http_connection addr svc peer p b =
      (r ← onion (service_stack sess ins ms)
             (λ req, HandlerMap_call {[ m := h ]} (set_params l req)) (at_root req);
       mret (from_internal (response_or_error r))) ∧
    ∀ q key, match last_param key (params_of ps) with
             | Some v => ∃ c, path_params (set_params l q) !! key = Some c ∧ to_owned c = Ret v
             | None => path_params (set_params l q) !! key = path_params q !! key
             end.
Proof.
  intros Hf Hne Hup Huv Hpath Hp.
  assert (map pat ps ≠ []) as Hnp by by destruct ps.
  destruct (pattern_route m h (map pat ps) (String.length (path_of (map pat ps))) (path_of (map pat ps)))
    as (r & Hr & Hch); [done|by apply pats_simple| |done|].
  { by apply trim_start_id, path_of_no_leading, pats_simple. }
  set (root := set_kids (set_middlewares new_root ms) [r]).
  assert (Built root) as Hb.
  { apply (Built_append (set_middlewares new_root ms) r); [|by eapply Built_handler, Hr; apply Built_new|done].
    rewrite <-hooked_root. apply hooked_root_built. }
  destruct (service_dispatch sess ins max_body root) as (t & Hsvc & Hc & Hok & Hi & _ & Hall); [done..|].
  destruct (connection_answers t max_body peer addr p b Hp) as (req & Hreq & Huri & Hcall).
  destruct (root_served m h ps r t _ addr Hch Hf Hne Huv Hc Hok Hi) as (Hrem & l & Hl & Hrun); [done..|].
  eexists r, root, _, req, l.
  split_and!; [done|by rewrite hooked_root|done|done| |intros q key; by apply set_params_read].
  by rewrite Hcall, Hall, Huri, Hpath, Hrem, Hrun by by rewrite Huri, Hpath.
Qed.
End served.

(** ** Witness *)

Section examples.
Let hello : Handler (P := Demo) := λ _, mret (Ok (text "hello")).
#[local] Existing Instance NoCookies.
Let pass : MiddleWare (P := Demo) := λ req next, next req.
Let peer := Tcp (T := LoopbackText) (V4 (10, 0, 0, 7)%Z 443).
Let get (path : string) : Parts (P := Demo) :=
  mkParts GET (mkUri path None) HTTP_11 hm_empty ext_empty.
Let pieces : list Piece :=
  [plain_piece "users"; mkPiece "<id:i64>" (SegI64 "id") "-42"; plain_piece "posts";
   mkPiece "<slug>" (SegString "slug") "hello"].

Lemma route_served_witness :
  ∃ r root svc req l,
    handler (P := Demo) (Route_new "users/<id:i64>/posts/<slug>") GET hello = Ret r ∧
    Route_append (foldl hook new_root []) r = Ret root ∧
    RouteConnectionService_new pass (λ e, e) None root = Ret svc ∧
    set_remote (into_internal (get "/users/-42/posts/hello") (ReqBody_with_limit ReqEmpty None))
      (RemoteAddr_from_socket peer) = Ret req ∧
    handle_http_connection 1 svc peer (get "/users/-42/posts/hello") ReqEmpty =
      (r ← onion [SchedulerMiddleware_handle (λ e, e); CookieMiddleware_handle; pass]
             (λ req, HandlerMap_call {[ GET := hello ]} (set_params l req))
             (at_root req);
       mret (from_internal (response_or_error r))) ∧
    ∀ q, (∃ c, path_params (set_params l q) !! "id" = Some c ∧ to_owned c = Ret (PInt64 (-42))) ∧
         (∃ c, path_params (set_params l q) !! "slug" = Some c ∧ to_owned c = Ret (PStr (Owned "hello"))).
Proof.
  destruct (route_served (P := Demo) (T := LoopbackText) pass (λ e, e) None [] pieces
    GET hello peer 1 (get "/users/-42/posts/hello") ReqEmpty)
    as (r & root & svc & req & l & H1 & H2 & H3 & H4 & H5 & H6); try reflexivity; try done.
  - repeat constructor.
  - exists r, root, svc, req, l. split_and!; try assumption.
    intros q. split; [exact (H6 q "id")|exact (H6 q "slug")].
Defined.
End examples.
