(* ===== verification/Upgrade.v ===== *)
(** * Protocol upgrades through the service
    (silent/src/server/protocol/hyper_http/hyper_service.rs with the [upgrade]
    feature, silent/src/ws/upgrade.rs, and the handlers that upgrade:
    silent/src/ws/handler_wrapper_websocket.rs, silent/src/grpc/handler.rs)

    hyper puts its [OnUpgrade] into the request's extensions.  The service
    takes it out, gives the routes the receiving end of a channel instead
    ([AsyncUpgradeRx]), and after the routes have answered starts a task that
    waits for the upgrade and sends the connection into that channel.  First
    the service as one function; then the tasks as a step relation. *)

From stdpp Require Import relations.
From S2P Require Import Prelude Str Platform Ext State Error PathParam Body Form Message Next Cookies Addr Tower Grpc Ws Service.

Class UpgradeCrates (P : Platform) (W : WsCrates P) := {
  (** [hyper::upgrade::OnUpgrade]; awaiting it gives the connection, adapted to
      futures-io. *)
  OnUpgrade : Type;
  #[global] on_upgrade_slot :: ExtSlot P OnUpgrade;
  on_upgrade_await : OnUpgrade → M World (result WsIo string);
  (** [futures::channel::oneshot]. *)
  Sender : Type;
  oneshot_channel : M World (Sender * Receiver);
  oneshot_send : Sender → WsIo → M World unit;
}.

Section service.
Context {P : Platform} {T : Ipv6Text} {C : CookieCrate P} {W : WsCrates P} {U : UpgradeCrates P W}.

Definition set_parts_extensions (p : Parts) (e : Extensions) : Parts :=
  mkParts (p_method p) (p_uri p) (p_version p) (p_headers p) e.

(** The channel and the request the routes get. *)
Definition upgrade_request (s : HyperServiceHandler) (p : Parts) (b : ReqBody)
  : M World (option (OnUpgrade * Sender) * Request) :=
  let on_upgrade := ext_get (T := OnUpgrade) (p_extensions p) in
  let p := set_parts_extensions p (ext_remove (T := OnUpgrade) (p_extensions p)) in
  match on_upgrade with
  | None => mret (None, into_internal p (ReqBody_with_limit b (max_body_size s)))
  | Some on_upgrade =>
      '(tx, rx) ← oneshot_channel;
      slot ← AsyncUpgradeRx_new rx;
      let p := set_parts_extensions p (ext_insert (p_extensions p) slot) in
      mret (Some (on_upgrade, tx), into_internal p (ReqBody_with_limit b (max_body_size s)))
  end.

(** The task that hands the connection over. *)
Definition bridge_task (on_upgrade : OnUpgrade) (tx : Sender) : M World unit :=
  up ← on_upgrade_await on_upgrade;
  match up with Ok io => oneshot_send tx io | Err _ => mret tt end.

(** [HyperServiceHandler::call] with the [upgrade] feature; [spawn] is
    [tokio::task::spawn]. *)
Definition Hyper_call_upgrade (spawn : M World unit → M World unit)
    (s : HyperServiceHandler) (p : Parts) (b : ReqBody)
  : M World (StatusCode * Version * HeaderMap * Extensions * ResBody) :=
  '(up, request) ← upgrade_request s p b;
  res ← Hyper_handle s request;
  _ ← match up with
      | Some (on_upgrade, tx) => spawn (bridge_task on_upgrade tx)
      | None => mret tt
      end;
  mret (from_internal res).

(** [GrpcHandler::call] without its upgrade branch. *)
Definition grpc_plain {TonicBody} (body_new : ReqBody → TonicBody) (box_body : TonicBody → BoxedBody)
    (service : GrpcService_) : Handler := λ req,
  let req := set_extensions req (ext_remove (T := OnUpgrade) (extensions req)) in
  r ← service (into_grpc_request body_new req);
  mret (match r with
        | Err e => Err (business_error INTERNAL_SERVER_ERROR ("grpc call failed: " +:+ e))
        | Ok grpc_res => Ok (merge_grpc_response box_body Response_empty grpc_res)
        end).

(** ** Lemmas: what the routes get *)

Context {CL : CookieLaws C} {SL : ExtSlotLaws upgrade_slot} {OL : ExtSlotLaws on_upgrade_slot}.
Context {A1 : ExtApart on_upgrade_slot jar_slot} {A2 : ExtApart upgrade_slot jar_slot}
  {A3 : ExtApart on_upgrade_slot upgrade_slot}.

Lemma set_remote_extensions req a req' :
  set_remote req a = Ret req' → extensions req' = extensions req.
Proof.
  unfold set_remote, insert_real_ip.
  destruct (header_remote _ _); [by intros [= <-]|].
  destruct (_ ≫= forwarded_remote); case_match; try done; by intros [= <-].
Qed.

Lemma into_internal_get {A} (S : ExtSlot P A) `{!ExtApart S jar_slot} p b :
  ext_get (T := A) (extensions (into_internal p b)) = ext_get (p_extensions p).
Proof. unfold into_internal. cbn. apply ext_apart_insert. Qed.

(** Nothing the routes get can be upgraded by hyper's own future. *)
Lemma upgrade_request_no_future s p b w up req w' :
  upgrade_request s p b w = (Ret (up, req), w') → ext_get (T := OnUpgrade) (extensions req) = None.
Proof.
  unfold upgrade_request. destruct (ext_get (T := OnUpgrade) (p_extensions p)).
  - unfold mbind, M_bind. destruct (oneshot_channel w) as [[[tx rx]|] w1]; [|done].
    cbn. intros [= _ <- _]. rewrite (into_internal_get on_upgrade_slot). cbn.
    by rewrite ext_apart_insert, ext_get_remove.
  - intros [= _ <- _]. rewrite (into_internal_get on_upgrade_slot). cbn. apply ext_get_remove.
Qed.

(** So a gRPC service behind the service is never upgraded: its branch for
    upgrades is dead, and a client that asks for h2c gets the service's answer
    to its empty request instead of 101. *)
Lemma grpc_never_upgrades {TonicBody} (body_new : ReqBody → TonicBody) (box_body : TonicBody → BoxedBody)
    service serve spawn addr limit p b w :
  Hyper_call_upgrade spawn
    (with_limits addr (GrpcHandler_call body_new box_body service serve) limit) p b w =
  Hyper_call_upgrade spawn (with_limits addr (grpc_plain body_new box_body service) limit) p b w.
Proof.
  unfold Hyper_call_upgrade. unfold mbind at 1 4, M_bind at 1 4.
  change (upgrade_request (with_limits addr (GrpcHandler_call body_new box_body service serve) limit))
    with (upgrade_request (with_limits addr (grpc_plain body_new box_body service) limit)).
  destruct (upgrade_request _ p b w) as [[[up req]|] w'] eqn:E; [|done].
  pose proof (upgrade_request_no_future _ _ _ _ _ _ _ E) as Hn.
  unfold Hyper_handle. cbn [remote_addr with_limits routes].
  destruct (set_remote req addr) as [req'|] eqn:Er; [|done].
  rewrite !M_lift_ret. unfold GrpcHandler_call, grpc_plain.
  by rewrite (set_remote_extensions _ _ _ Er), Hn.
Qed.

(** Without an upgradable request the feature changes nothing. *)
Lemma Hyper_call_upgrade_none spawn s p b w :
  ext_get (T := OnUpgrade) (p_extensions p) = None →
  Hyper_call_upgrade spawn s p b w =
  Hyper_call s (set_parts_extensions p (ext_remove (T := OnUpgrade) (p_extensions p))) b w.
Proof.
  intros Hu. unfold Hyper_call_upgrade, upgrade_request. rewrite Hu. unfold Hyper_call.
  unfold mbind, M_bind. cbn. by destruct (Hyper_handle _ _ _) as [[r|] w'].
Qed.

(** What a WebSocket handler finds in its request. *)
Lemma upgrade_on_slot req slot w :
  ext_get (T := AsyncUpgradeRx) (extensions req) = Some slot →
  let w' := put_slots (<[rx_slot slot := None]> (get_slots w)) w in
  let head := mkWsParts (path_params req) (params req) (headers req)
                (ext_remove (T := AsyncUpgradeRx) (extensions req)) in
  upgrade_on req w =
    match mjoin (get_slots w !! rx_slot slot) with
    | None => (Ret (Err (WsError "Upgrade channel missing")), w')
    | Some rx =>
        (io ← rx_await rx;
         mret (match io with
               | Ok io => Ok (mkUpgraded head io)
               | Err e => Err (WsError ("upgrade await error: " +:+ e))
               end)) w'
    end.
Proof.
  intros Hs. unfold upgrade_on. cbn [take_extensions replace_extensions]. rewrite Hs.
  unfold AsyncUpgradeRx_take, mbind, M_bind. cbn.
  destruct (mjoin _) as [rx|]; [|done]. by destruct (rx_await rx _) as [[[io|e]|] w'].
Qed.

(** C20: A request hyper can upgrade reaches the routes with its method, uri,
    version, headers and body, the body under the service's limit, and its
    extensions with hyper's future replaced by a slot of its own that holds the
    receiver of a new channel, and the cookies of its header added; after the routes answered, and only then, the task that sends the
    connection into that channel is started.  Of all holders of the request
    or a copy of it the first that asks gets that receiver, together with the
    request's parameters and headers; every later one is told that it is gone. *)
Theorem service_upgrade_spec spawn s p b w up tx rx w1 :
  (∀ m w', get_slots (put_slots m w') = m) →
  ext_get (T := OnUpgrade) (p_extensions p) = Some up →
  oneshot_channel w = (Ret (tx, rx), w1) →
  ∃ slot req w2,
    Hyper_call_upgrade spawn s p b w =
      (res ← Hyper_handle s req; _ ← spawn (bridge_task up tx); mret (from_internal res)) w2 ∧
    get_slots w1 !! slot = None ∧ get_slots w2 = <[slot := Some rx]> (get_slots w1) ∧
    ext_get (T := OnUpgrade) (extensions req) = None ∧
    method req = p_method p ∧ uri req = p_uri p ∧ version req = p_version p ∧
    headers req = p_headers p ∧ body req = ReqBody_with_limit b (max_body_size s) ∧
    req = set_extensions (Request_from_parts p (ReqBody_with_limit b (max_body_size s)))
            (ext_insert
               (ext_insert (ext_remove (T := OnUpgrade) (p_extensions p)) (mkAsyncUpgradeRx slot))
               (default jar_new (ok (get_cookie p)))) ∧
    ∀ r r' w3,
      ext_get (T := AsyncUpgradeRx) (extensions r) = ext_get (T := AsyncUpgradeRx) (extensions req) →
      ext_get (T := AsyncUpgradeRx) (extensions r') = ext_get (T := AsyncUpgradeRx) (extensions req) →
      get_slots w3 !! slot = Some (Some rx) →
      ∃ head w4,
        upgrade_on r w3 =
          (io ← rx_await rx;
           mret (match io with
                 | Ok io => Ok (mkUpgraded head io)
                 | Err e => Err (WsError ("upgrade await error: " +:+ e))
                 end)) w4 ∧
        ws_path_params head = path_params r ∧ ws_params head = params r ∧ ws_headers head = headers r ∧
        get_slots w4 !! slot = Some None ∧
        ∀ w5, get_slots w5 !! slot = Some None →
          fst (upgrade_on r' w5) = Ret (Err (WsError "Upgrade channel missing")).
Proof.
  intros Hgp Hu Hc. unfold Hyper_call_upgrade, upgrade_request. rewrite Hu.
  set (slot := fresh (dom (get_slots w1))).
  set (p' := set_parts_extensions p (ext_insert (ext_remove (T := OnUpgrade) (p_extensions p))
               (mkAsyncUpgradeRx slot))).
  exists slot, (into_internal p' (ReqBody_with_limit b (max_body_size s))),
    (put_slots (<[slot := Some rx]> (get_slots w1)) w1).
  assert (ext_get (T := AsyncUpgradeRx) (extensions (into_internal p'
      (ReqBody_with_limit b (max_body_size s)))) = Some (mkAsyncUpgradeRx slot)) as Hx.
  { rewrite (into_internal_get upgrade_slot). apply ext_get_insert. }
  split_and!; [by unfold mbind, M_bind; rewrite Hc| | | |done..|].
  - apply not_elem_of_dom, is_fresh.
  - by rewrite Hgp.
  - rewrite (into_internal_get on_upgrade_slot). unfold p'. cbn.
    by rewrite ext_apart_insert, ext_get_remove.
  - intros r r' w3 Hr Hr' Hs. rewrite Hx in Hr, Hr'. eexists _, _. split.
    { rewrite (upgrade_on_slot _ _ _ Hr). cbn [rx_slot]. by rewrite Hs. }
    split_and!; [done..|by rewrite Hgp, lookup_insert_eq|].
    intros w5 H5. rewrite (upgrade_on_slot _ _ _ Hr'). cbn [rx_slot]. by rewrite H5.
Qed.
End service.

(** ** The tasks of an upgrade

    hyper's future, the service's future, the task it starts, and the tasks of
    the handlers that were given the request or a copy of it. *)

(** Where the receiving end is: in the shared slot, with the task [i] that
    took it, or dropped; and the sending end. *)
Inductive RxAt := InSlot | TakenBy (i : nat) | RxGone.
#[export] Instance RxAt_eq_dec : EqDecision RxAt.
Proof. solve_decision. Defined.
Inductive TxAt := TxOpen | TxSent | TxGone.

(** [HyperServiceHandler::call]: waiting for the routes, done, or dropped by
    hyper because the client went away. *)
Inductive Serving := Answering | Answered | Cancelled.
Inductive Bridge := NotSpawned | AwaitingUpgrade | BridgeDone.

(** The task of [HandlerWrapperWebSocket::call]: before [take], waiting for
    the channel, with the connection, or failed. *)
Inductive UpgradeTask :=
| Starting
| Waiting
| GotIo
| TaskFailed (msg : string).

(** [hyper] is what the upgrade came to, [calls] how many more times handlers
    will be given the request. *)
Record Handover := mkHandover {
  hyper : option (result () string);
  serving : Serving;
  bridge : Bridge;
  tx_at : TxAt;
  rx_at : RxAt;
  calls : nat;
  tasks : list UpgradeTask;
}.

Definition handover_start (calls : nat) : Handover :=
  mkHandover None Answering NotSpawned TxOpen InSlot calls [].

(** Nobody is left who could take the receiver. *)
Definition no_takers (s : Serving) (ts : list UpgradeTask) : Prop :=
  s ≠ Answering ∧ Starting ∉ ts.

Inductive handover_step : Handover → Handover → Prop :=
| step_hyper r s b t x n ts :
    handover_step (mkHandover None s b t x n ts) (mkHandover (Some r) s b t x n ts)
| step_handler h b t x n ts :
    handover_step (mkHandover h Answering b t x (S n) ts)
      (mkHandover h Answering b t x n (ts ++ [Starting]))
| step_answer h t x n ts :
    handover_step (mkHandover h Answering NotSpawned t x n ts)
      (mkHandover h Answered AwaitingUpgrade t x n ts)
(** Dropping the future drops hyper's future and the sender. *)
| step_cancel h t x n ts :
    handover_step (mkHandover h Answering NotSpawned t x n ts)
      (mkHandover h Cancelled NotSpawned TxGone x n ts)
| step_bridge_ok s x n ts :
    handover_step (mkHandover (Some (Ok ())) s AwaitingUpgrade TxOpen x n ts)
      (mkHandover (Some (Ok ())) s BridgeDone
         (match x with RxGone => TxGone | _ => TxSent end) x n ts)
| step_bridge_err e s x n ts :
    handover_step (mkHandover (Some (Err e)) s AwaitingUpgrade TxOpen x n ts)
      (mkHandover (Some (Err e)) s BridgeDone TxGone x n ts)
| step_taken i h s b t n ts :
    ts !! i = Some Starting →
    handover_step (mkHandover h s b t InSlot n ts)
      (mkHandover h s b t (TakenBy i) n (<[i := Waiting]> ts))
| step_missing i h s b t x n ts :
    ts !! i = Some Starting → x ≠ InSlot →
    handover_step (mkHandover h s b t x n ts)
      (mkHandover h s b t x n (<[i := TaskFailed "Upgrade channel missing"]> ts))
| step_received i h s b n ts :
    ts !! i = Some Waiting →
    handover_step (mkHandover h s b TxSent (TakenBy i) n ts)
      (mkHandover h s b TxSent RxGone n (<[i := GotIo]> ts))
| step_canceled i h s b n ts :
    ts !! i = Some Waiting →
    handover_step (mkHandover h s b TxGone (TakenBy i) n ts)
      (mkHandover h s b TxGone RxGone n (<[i := TaskFailed "upgrade await error: oneshot canceled"]> ts))
| step_dropped h s b t n ts :
    no_takers s ts →
    handover_step (mkHandover h s b t InSlot n ts) (mkHandover h s b t RxGone n ts).

(** ** What holds in every state *)

Abbreviation missing := (TaskFailed "Upgrade channel missing").
Abbreviation canceled := (TaskFailed "upgrade await error: oneshot canceled").

(** All tasks but [i] have not reached the slot, or found it empty. *)
Definition others (i : nat) (ts : list UpgradeTask) : Prop :=
  ∀ j t, j ≠ i → ts !! j = Some t → t = Starting ∨ t = missing.

Record handover_ok (u : Handover) : Prop := {
  ho_serving : match serving u with
               | Answering => bridge u = NotSpawned ∧ tx_at u = TxOpen
               | Answered => bridge u ≠ NotSpawned
               | Cancelled => bridge u = NotSpawned ∧ tx_at u = TxGone
               end;
  ho_bridge : match bridge u with
              | NotSpawned => tx_at u ≠ TxSent
              | AwaitingUpgrade => tx_at u = TxOpen
              | BridgeDone => match hyper u with
                              | Some (Ok ()) => tx_at u = TxSent ∨ tx_at u = TxGone ∧ rx_at u = RxGone ∧ tasks u = []
                              | Some (Err _) => tx_at u = TxGone
                              | None => False
                              end
              end;
  ho_rx : match rx_at u with
          | InSlot => ∀ i t, tasks u !! i = Some t → t = Starting
          | TakenBy i => tasks u !! i = Some Waiting ∧ others i (tasks u)
          | RxGone => serving u ≠ Answering ∧
              (tasks u = [] ∨ ∃ i, others i (tasks u) ∧
                 (tasks u !! i = Some GotIo ∧ tx_at u = TxSent ∨
                  tasks u !! i = Some canceled ∧ tx_at u = TxGone ∧
                    ¬ (hyper u = Some (Ok ()) ∧ serving u = Answered)))
          end;
}.

Lemma handover_start_ok calls : handover_ok (handover_start calls).
Proof. by split. Qed.

Lemma others_insert i t ts : others i ts → others i (<[i := t]> ts).
Proof. intros H j t' Hj. rewrite list_lookup_insert_ne by done. by apply H. Qed.

Lemma others_missing i j ts : others i ts → others i (<[j := missing]> ts).
Proof.
  intros H k t Hk [(_ & <- & _)|[_ Ht]]%list_lookup_insert_Some; [by right|by apply (H k)].
Qed.

Lemma others_snoc i ts : others i ts → others i (ts ++ [Starting]).
Proof.
  intros H j t Hj [Hl|[_ Hl]]%lookup_app_Some; [by eapply H|]. left. by apply list_lookup_singleton_Some in Hl as [_ <-].
Qed.

Lemma missing_keeps i j t (ts : list UpgradeTask) :
  ts !! i = Some t → ts !! j = Some Starting → t ≠ Starting → <[j := missing]> ts !! i = Some t.
Proof. intros Hi Hj Ht. rewrite list_lookup_insert_ne; [done|]. intros ->. by simplify_eq. Qed.

Lemma insert_here i t t' (ts : list UpgradeTask) : ts !! i = Some t' → <[i := t]> ts !! i = Some t.
Proof. intros H. apply list_lookup_insert_eq. by eapply lookup_lt_Some. Qed.

Lemma starting_others i (ts : list UpgradeTask) :
  (∀ j t, ts !! j = Some t → t = Starting) → others i ts.
Proof. intros H j t _ Ht. left. by eapply H. Qed.

Lemma starting_snoc (ts : list UpgradeTask) :
  (∀ i t, ts !! i = Some t → t = Starting) →
  ∀ i t, (ts ++ [Starting])%list !! i = Some t → t = Starting.
Proof.
  intros H i t [Hl|[_ Hl]]%lookup_app_Some; [by eapply H|]. by apply list_lookup_singleton_Some in Hl as [_ <-].
Qed.

Lemma none_starting (ts : list UpgradeTask) :
  (∀ i t, ts !! i = Some t → t = Starting) → Starting ∉ ts → ts = [].
Proof.
  intros H Hn. destruct ts as [|t ts]; [done|]. destruct Hn. rewrite (H 0%nat t) by done. by left.
Qed.

Lemma only_taker i j t (ts : list UpgradeTask) :
  others i ts → ts !! j = Some t → t ≠ Starting → t ≠ missing → j = i.
Proof. intros H Hj Hs Hm. destruct (decide (j = i)) as [|Hn]; [done|]. by destruct (H _ _ Hn Hj). Qed.

Create HintDb handover.
#[local] Hint Resolve others_insert others_missing others_snoc insert_here missing_keeps
  starting_others starting_snoc none_starting lookup_app_l_Some : handover.

Lemma handover_step_ok u u' : handover_ok u → handover_step u u' → handover_ok u'.
Proof.
  intros [Hs Hb Hr] H.
  destruct H as [r s b t x n ts|h b t x n ts|h t x n ts|h t x n ts|s x n ts|e s x n ts|
    i h s b t n ts Hi|i h s b t x n ts Hi Hx|i h s b n ts Hi|i h s b n ts Hi|h s b t n ts [Hn Ht]];
    cbn in *.
  all: split; cbn; try done; eauto with handover.
  all: try destruct s; try destruct b; try destruct x; cbn in *; simplify_eq/=; try tauto.
  all: try solve [naive_solver (eauto with handover)].
  all: destruct h as [[[]|]|]; try done; naive_solver (eauto with handover).
Qed.

Lemma handover_reach_ok calls u :
  rtc handover_step (handover_start calls) u → handover_ok u.
Proof.
  intros H. eapply (rtc_ind_r handover_ok _ (handover_start_ok calls)); [|exact H].
  intros v u' _ Hs Hok. by eapply handover_step_ok.
Qed.

(** ** Every order of steps ends *)

Definition weight_task (t : UpgradeTask) : nat :=
  match t with Starting => 2 | Waiting => 1 | _ => 0 end.
Definition weight_handover (u : Handover) : nat :=
  match hyper u with None => 1 | _ => 0 end +
  match serving u with Answering => 2 | _ => 0 end +
  match bridge u with AwaitingUpgrade => 1 | _ => 0 end +
  match rx_at u with InSlot => 1 | _ => 0 end +
  3 * calls u + sum_list_with weight_task (tasks u).

Lemma weight_insert i t t' ts :
  ts !! i = Some t →
  (sum_list_with weight_task (<[i := t']> ts) + weight_task t =
   sum_list_with weight_task ts + weight_task t')%nat.
Proof.
  revert i. induction ts as [|x ts IH]; intros [|i] H; cbn in *; [done..|by simplify_eq; lia|].
  change (weight_task x + sum_list_with weight_task (<[i := t']> ts) + weight_task t =
    weight_task x + sum_list_with weight_task ts + weight_task t')%nat.
  specialize (IH i H). lia.
Qed.

Lemma handover_step_weight u u' :
  handover_step u u' → (weight_handover u' < weight_handover u)%nat.
Proof.
  intros H. destruct H; unfold weight_handover; cbn [hyper serving bridge rx_at calls tasks];
    rewrite ?sum_list_with_app; cbn [sum_list_with weight_task]; try lia.
  all: match goal with Hi : ?ts !! _ = Some ?t |- context [<[_ := ?t']> _] =>
         pose proof (weight_insert _ t t' _ Hi); cbn [weight_task] in *; lia end.
Qed.

Lemma handover_terminates : well_founded (flip handover_step).
Proof.
  intros u. induction (well_founded_ltof _ weight_handover u) as [u _ IH].
  constructor. intros u' Hs. by apply IH, handover_step_weight.
Qed.

(** ** Where it ends *)

Definition ended (t : UpgradeTask) : Prop := t = GotIo ∨ ∃ m, t = TaskFailed m.

(** A state without a step: everything is decided and every task has ended. *)
Lemma handover_stuck u :
  handover_ok u → (∀ u', ¬ handover_step u u') →
  is_Some (hyper u) ∧ serving u ≠ Answering ∧ bridge u ≠ AwaitingUpgrade ∧
  (tasks u ≠ [] → rx_at u = RxGone) ∧ ∀ i t, tasks u !! i = Some t → ended t.
Proof.
  intros [Hs Hb Hr] Hn. destruct u as [h s b t x n ts]; cbn in *.
  destruct h as [r|]; [|exfalso; by eapply Hn, (step_hyper (Ok ()))].
  assert (s ≠ Answering) as Hsv.
  { intros ->. destruct Hs as [-> ->]. by eapply Hn, step_answer. }
  assert (b ≠ AwaitingUpgrade) as Hbr.
  { intros ->. subst t. destruct r as [[]|e]; by eapply Hn; constructor. }
  assert (∀ i, ts !! i ≠ Some Starting) as Hst.
  { intros i Hi. destruct (decide (x = InSlot)) as [->|]; eapply Hn; [by eapply step_taken|by eapply step_missing]. }
  assert (∀ i, ts !! i ≠ Some Waiting) as Hw.
  { intros i Hi. destruct x as [|j|]; [by specialize (Hr _ _ Hi)| |].
    - destruct Hr as [Hj Ho]. destruct (only_taker _ _ _ _ Ho Hi) as []; [done..|].
      destruct t; [|by eapply Hn, step_received|by eapply Hn, step_canceled].
      destruct s; [done| |by destruct Hs]. destruct b; [done..|]. destruct r as [[]|]; naive_solver.
    - destruct Hr as (_ & [->|(j & Ho & Hj)]); [done|].
      destruct (only_taker _ _ _ _ Ho Hi) as []; [done..|]. naive_solver. }
  split_and!; [by eexists|done..| |].
  - intros Hne. destruct x as [|i|]; [|by destruct (Hw i), Hr|done].
    destruct ts as [|t0 ts]; [done|]. destruct (Hst 0%nat). cbn. by rewrite (Hr 0%nat t0).
  - intros i [| | |m] Hi; [by destruct (Hst i)|by destruct (Hw i)|by left|right; by eexists].
Qed.

(** At most one task has the connection, and only after it was upgraded. *)
Lemma handover_got u i :
  handover_ok u → tasks u !! i = Some GotIo →
  hyper u = Some (Ok ()) ∧ serving u = Answered ∧ others i (tasks u).
Proof.
  intros [Hs Hb Hr] Hi. destruct u as [h s b t x n ts]; cbn in *.
  assert (t = TxSent ∧ others i ts) as [-> Ho].
  { destruct x as [|j|]; [by specialize (Hr _ _ Hi)| |].
    - destruct Hr as [Hj Ho]. destruct (only_taker _ _ _ _ Ho Hi) as []; [done..|]. by simplify_eq.
    - destruct Hr as (_ & [->|(j & Ho & Hj)]); [done|].
      destruct (only_taker _ _ _ _ Ho Hi) as []; [done..|]. naive_solver. }
  destruct s; [by destruct Hs|clear Hs|by destruct Hs]. destruct b; [done..|].
  destruct h as [[[]|]|]; naive_solver.
Qed.

(** C21: Handing an upgraded connection to a handler can not be raced.
    However hyper, the service, the task it starts and the handlers' tasks are
    interleaved, they make finitely many steps; at most one task ever has the
    connection, only after hyper's upgrade succeeded and the routes' answer
    went out; and once nothing can go on every task has ended, where a task
    has the connection if and only if the upgrade succeeded, the answer went
    out and the request was given to any. *)
Theorem upgrade_handover (calls : nat) :
  well_founded (flip handover_step) ∧
  ∀ u, rtc handover_step (handover_start calls) u →
    (∀ i j, tasks u !! i = Some GotIo → tasks u !! j = Some GotIo → i = j) ∧
    (∀ i, tasks u !! i = Some GotIo → hyper u = Some (Ok ()) ∧ serving u = Answered) ∧
    ((∀ u', ¬ handover_step u u') →
      is_Some (hyper u) ∧ (∀ i t, tasks u !! i = Some t → ended t) ∧
      ((∃ i, tasks u !! i = Some GotIo) ↔
        hyper u = Some (Ok ()) ∧ serving u = Answered ∧ tasks u ≠ [])).
Proof.
  split; [apply handover_terminates|]. intros u Hok%handover_reach_ok. split_and!.
  - intros i j Hi Hj. destruct (handover_got _ _ Hok Hi) as (_ & _ & Ho).
    symmetry. by eapply only_taker.
  - intros i Hi. by destruct (handover_got _ _ Hok Hi) as (? & ? & _).
  - intros Hn. destruct (handover_stuck _ Hok Hn) as (Hh & _ & _ & Hx & He). split_and!; [done..|].
    split.
    + intros [i Hi]. destruct (handover_got _ _ Hok Hi) as (? & ? & _). split_and!; [done..|].
      intros Hnil. by rewrite Hnil in Hi.
    + intros (Hu & Hs & Hne). pose proof (ho_rx _ Hok) as Hr. rewrite (Hx Hne) in Hr.
      destruct Hr as (_ & [?|(i & _ & [[? _]|(_ & _ & Hno)])]); [done|by exists i|by destruct Hno].
Qed.

(** ** A request through the service *)

Section examples.
Let Jar : Type := list (string * string) * list (string * string).
(** Channels are numbers; the world holds the slots and what was sent. *)
Let Wd : Type := gmap nat (option nat) * gmap nat string.
Let E3 : Type := option Jar * option nat * option AsyncUpgradeRx.
#[local] Instance DemoU : Platform := DemoExt E3 (None, None, None)
  (λ e e', (or_else e'.1.1 e.1.1, or_else e'.1.2 e.1.2, or_else e'.2 e.2)) Wd 1.

Let jar_of : ExtSlot DemoU Jar := {|
  ext_get e := (e : E3).1.1; ext_insert e v := (Some v, (e : E3).1.2, (e : E3).2) : E3;
  ext_remove e := (None, (e : E3).1.2, (e : E3).2) : E3 |}.
Let upgrade_of : ExtSlot DemoU nat := {|
  ext_get e := (e : E3).1.2; ext_insert e v := ((e : E3).1.1, Some v, (e : E3).2) : E3;
  ext_remove e := ((e : E3).1.1, None, (e : E3).2) : E3 |}.
Let slot_of : ExtSlot DemoU AsyncUpgradeRx := {|
  ext_get e := (e : E3).2; ext_insert e v := ((e : E3).1, Some v) : E3;
  ext_remove e := ((e : E3).1, None) : E3 |}.

Ltac slot_laws := split; cbn;
  [done|done|done|intros e e'; by repeat case_match
  |intros [[a o] x] v; cbn; intros ->; reflexivity].
#[local] Instance jar_of_laws : ExtSlotLaws jar_of.
Proof. slot_laws. Qed.
#[local] Instance upgrade_of_laws : ExtSlotLaws upgrade_of.
Proof. slot_laws. Qed.
#[local] Instance slot_of_laws : ExtSlotLaws slot_of.
Proof. slot_laws. Qed.

#[local] Instance DemoC : CookieCrate DemoU := DemoCookies DemoU jar_of.
#[local] Instance DemoCLaws : CookieLaws DemoC.
Proof. apply DemoCookiesLaws, jar_of_laws. Qed.
#[local] Instance DemoW : WsCrates DemoU := {|
  sec_websocket_key _ := None;
  sec_websocket_accept k := k;
  to_text _ := None;
  into_data := as_bytes;
  WsIo := string;
  Receiver := nat;
  rx_await rx := λ w, (Ret (match w.2 !! rx with Some io => Ok io | None => Err "canceled" end), w);
  upgrade_slot := slot_of;
  get_slots := fst : @World DemoU → gmap nat (option nat);
  put_slots m w := (m, w.2) : @World DemoU;
  spawn m := m;
|}.
#[local] Instance DemoUpgrade : UpgradeCrates DemoU DemoW := {|
  OnUpgrade := nat;
  on_upgrade_slot := upgrade_of;
  on_upgrade_await n := λ w, (Ret (Ok (show_Z (Z.of_nat n))), w);
  Sender := nat;
  oneshot_channel := λ w, (Ret (7%nat, 7%nat), w);
  oneshot_send tx io := λ w, (Ret tt, (w.1, <[tx := io]> w.2));
|}.
#[local] Instance apart1 : ExtApart (on_upgrade_slot (UpgradeCrates := DemoUpgrade)) (jar_slot (CookieCrate := DemoC)).
Proof. by split. Qed.
#[local] Instance apart2 : ExtApart (upgrade_slot (WsCrates := DemoW)) (jar_slot (CookieCrate := DemoC)).
Proof. by split. Qed.
#[local] Instance apart3 : ExtApart (on_upgrade_slot (UpgradeCrates := DemoUpgrade)) (upgrade_slot (WsCrates := DemoW)).
Proof. by split. Qed.
#[local] Instance laws1 : ExtSlotLaws (on_upgrade_slot (UpgradeCrates := DemoUpgrade)) := upgrade_of_laws.
#[local] Instance laws2 : ExtSlotLaws (upgrade_slot (WsCrates := DemoW)) := slot_of_laws.

Lemma service_upgrade_spec_witness :
  let p : Parts (P := DemoU) := mkParts GET (mkUri "/ws" None) HTTP_11 hm_empty ((None, Some 3%nat, None) : E3) in
  let s := with_limits (T := LoopbackText) (Socket (Tcp (V4 (10, 0, 0, 7)%Z 443)))
             (λ _, mret (Ok (text "hello"))) None in
  let w : @World DemoU := (∅, ∅) in
  ext_get (ExtSlot := upgrade_of) (p_extensions p) = Some 3%nat ∧
  ∃ slot req w2,
    Hyper_call_upgrade (C := DemoC) (U := DemoUpgrade) (λ m, m) s p ReqEmpty w =
      (res ← Hyper_handle s req; _ ← bridge_task (U := DemoUpgrade) 3%nat 7%nat; mret (from_internal (C := DemoC) res)) w2 ∧
    get_slots (WsCrates := DemoW) w2 = {[ slot := Some 7%nat ]}.
Proof.
  intros p s w. split; [reflexivity|].
  destruct (service_upgrade_spec (P := DemoU) (T := LoopbackText) (C := DemoC) (W := DemoW)
    (U := DemoUpgrade) (λ m, m) s p ReqEmpty w 3%nat 7%nat 7%nat w)
    as (slot & req & w2 & H & _ & Hs & _); [reflexivity..|].
  exists slot, req, w2. split; [exact H|exact Hs].
Defined.
End examples.
