(* ===== verification/QuicFlow.v ===== *)
(** * The body of an HTTP/3 request in flight
    (silent/src/server/quic/service.rs: [handle_http3_request_impl] and
    [read_http3_body])

    While the handler runs, a task of its own reads the request's body into a
    channel of eight places; after the handler has returned, that task is
    awaited before the answer is sent.  The two tasks, the channel and the
    response that may still hold its receiving end are a step relation here;
    [h3_run] is what a run of it amounts to for the request, and [QuicConn]
    serves a request over every such run. *)

From stdpp Require Import relations.
From S2P Require Import Prelude Str Platform Quic.

Abbreviation Item := (result string string).

(** [mpsc::channel(8)] *)
Definition H3_CHANNEL : nat := 8.

(** Where [read_http3_body] is: in [recv_data], waiting for a place to send a
    chunk or its error, or done. *)
Inductive Reader :=
| Receiving (total : Z) (rest : list H3Recv)
| Sending (bytes : string) (total : Z) (rest : list H3Recv)
| Failing (msg : string) (err : string)
| Finished (res : result () string).

(** One round of its loop, up to the send. *)
Definition reader_recv (max : option Z) (total : Z) (recvs : list H3Recv) : Reader :=
  match recvs with
  | [] | RecvEnd :: _ => Finished (Ok ())
  | RecvTimeout :: _ => Failing "HTTP/3 body read timeout" "HTTP/3 body read timeout"
  | RecvErr e :: _ => Failing ("HTTP/3 body read failed: " +:+ e) e
  | RecvData bytes :: rest =>
      if bool_decide (bytes = "") then Receiving total rest
      else
        let total := saturating_add usize_max total (Z.of_nat (String.length bytes)) in
        if exceeds max total
        then Failing "HTTP/3 request body exceeds limit" "HTTP/3 request body exceeds limit"
        else Sending bytes total rest
  end.

(** What it waits to send, and how it goes on when the channel took it or was
    closed. *)
Definition pending (r : Reader) : option Item :=
  match r with
  | Sending bytes _ _ => Some (Ok bytes)
  | Failing msg _ => Some (Err msg)
  | _ => None
  end.

Definition reader_sent (r : Reader) : Reader :=
  match r with
  | Sending _ total rest => Receiving total rest
  | Failing _ err => Finished (Err err)
  | r => r
  end.

Definition reader_refused (r : Reader) : Reader :=
  match r with
  | Sending _ _ _ => Finished (Ok ())
  | Failing _ err => Finished (Err err)
  | r => r
  end.

(** Who holds the receiving end: the handler, with the request, or the
    response it returned, or nobody. *)
Inductive Rx := RxHandler | RxResponse | RxDropped.

(** Where [handle_http3_request_impl] is. *)
Inductive Main :=
| Handling
| Joining
| Responding
| Over (res : result () string).

(** [accepted] is all the channel ever took, [taken] what was received from
    it. *)
Record Flow := mkFlow {
  reader : Reader;
  queue : list Item;
  accepted : list Item;
  taken : list Item;
  rx : Rx;
  main : Main;
}.

Definition flow_start (recvs : list H3Recv) : Flow :=
  mkFlow (Receiving 0 recvs) [] [] [] RxHandler Handling.

Inductive flow_step (max : option Z) : Flow → Flow → Prop :=
| step_recv total rest q a t h m :
    flow_step max (mkFlow (Receiving total rest) q a t h m)
      (mkFlow (reader_recv max total rest) q a t h m)
| step_sent r item q a t h m :
    pending r = Some item → h ≠ RxDropped → (length q < H3_CHANNEL)%nat →
    flow_step max (mkFlow r q a t h m)
      (mkFlow (reader_sent r) (q ++ [item]) (a ++ [item]) t h m)
| step_refused r item q a t m :
    pending r = Some item →
    flow_step max (mkFlow r q a t RxDropped m) (mkFlow (reader_refused r) q a t RxDropped m)
(** The handler reads its body, drops it, or returns; its response may hold
    the body. *)
| step_take r x q a t :
    flow_step max (mkFlow r (x :: q) a t RxHandler Handling)
      (mkFlow r q a (t ++ [x]) RxHandler Handling)
| step_drop r q a t :
    flow_step max (mkFlow r q a t RxHandler Handling) (mkFlow r [] a t RxDropped Handling)
| step_return r q a t h :
    h ≠ RxResponse →
    flow_step max (mkFlow r q a t h Handling) (mkFlow r [] a t RxDropped Joining)
| step_return_body r q a t :
    flow_step max (mkFlow r q a t RxHandler Handling) (mkFlow r q a t RxResponse Joining)
(** [read_task.await??], then the response. *)
| step_join_ok q a t h :
    flow_step max (mkFlow (Finished (Ok ())) q a t h Joining)
      (mkFlow (Finished (Ok ())) q a t h Responding)
| step_join_err e q a t h :
    flow_step max (mkFlow (Finished (Err e)) q a t h Joining)
      (mkFlow (Finished (Err e)) [] a t RxDropped (Over (Err e)))
| step_respond r x q a t :
    flow_step max (mkFlow r (x :: q) a t RxResponse Responding)
      (mkFlow r q a (t ++ [x]) RxResponse Responding)
| step_finish r q a t h :
    (h = RxResponse → q = []) →
    flow_step max (mkFlow r q a t h Responding) (mkFlow r [] a t RxDropped (Over (Ok ())))
| step_respond_err e r q a t h :
    flow_step max (mkFlow r q a t h Responding) (mkFlow r [] a t RxDropped (Over (Err e))).

(** Waiting for a reader that waits for a response nobody polls. *)
Definition deadlocked (f : Flow) : Prop :=
  main f = Joining ∧ rx f = RxResponse ∧ length (queue f) = H3_CHANNEL ∧ is_Some (pending (reader f)).

(** A run of the two tasks up to the join, whatever the handler does with its
    body: [items] is all the channel took, [join] what the reader's task ends
    with, [None] if it never ends. *)
Definition h3_run (max : option Z) (recvs : list H3Recv) (items : list Item)
    (join : option (result () string)) : Prop :=
  ∃ f, rtc (flow_step max) (flow_start recvs) f ∧ main f = Joining ∧ items = accepted f ∧
    match join with
    | Some res => reader f = Finished res
    | None => deadlocked f
    end.

(** ** Lemmas *)

(** What the reader still delivers when the channel takes [k] more items. *)
Definition rest_of (max : option Z) (r : Reader) (k : nat) : list Item * result () string :=
  match r with
  | Receiving total rest => read_http3_body max total k rest
  | Sending bytes total rest =>
      match k with
      | O => ([], Ok ())
      | S k => let '(items, res) := read_http3_body max total k rest in (Ok bytes :: items, res)
      end
  | Failing msg err => (try_send k (Err msg), Err err)
  | Finished res => ([], res)
  end.

Lemma rest_of_recv max total rest k :
  rest_of max (reader_recv max total rest) k = read_http3_body max total k rest.
Proof.
  destruct rest as [|[bytes| |e|] rest]; try done. cbn [reader_recv read_http3_body].
  case_bool_decide; [done|]. cbv zeta. by destruct (exceeds _ _).
Qed.

Lemma rest_of_sent max r item k :
  pending r = Some item →
  rest_of max r (S k) = (item :: (rest_of max (reader_sent r) k).1, (rest_of max (reader_sent r) k).2).
Proof.
  destruct r as [| | |]; try done; intros [= <-]; [|done].
  cbn. by destruct (read_http3_body _ _ _ _).
Qed.

Lemma rest_of_refused max r item :
  pending r = Some item → rest_of max r 0 = rest_of max (reader_refused r) 0.
Proof. by destruct r. Qed.

Definition weight_reader (r : Reader) : nat :=
  match r with
  | Receiving _ rest => 4 * length rest + 3
  | Sending _ _ rest => 4 * length rest + 5
  | Failing _ _ => 2
  | Finished _ => 0
  end.

Definition weight_main (m : Main) : nat :=
  match m with Handling => 3 | Joining => 2 | Responding => 1 | Over _ => 0 end.
Definition weight (f : Flow) : nat :=
  weight_reader (reader f) + length (queue f) + weight_main (main f) +
  match rx f with RxHandler => 1 | _ => 0 end.

Record flow_ok (max : option Z) (recvs : list H3Recv) (f : Flow) : Prop := {
  ok_items k : (rx f = RxDropped → k = 0%nat) →
    read_http3_body max 0 (length (accepted f) + k) recvs =
      ((accepted f ++ (rest_of max (reader f) k).1)%list, (rest_of max (reader f) k).2);
  ok_taken : taken f `prefix_of` accepted f;
  ok_queue : rx f ≠ RxDropped → accepted f = (taken f ++ queue f)%list;
  ok_room : (length (queue f) <= H3_CHANNEL)%nat;
  ok_holder : match main f with
              | Handling => rx f ≠ RxResponse
              | Joining => rx f ≠ RxHandler
              | Responding => rx f ≠ RxHandler ∧ reader f = Finished (Ok ())
              | Over res => rx f = RxDropped ∧
                  ∃ read, reader f = Finished read ∧ ∀ e, read = Err e → res = Err e
              end;
}.

Lemma flow_start_ok max recvs : flow_ok max recvs (flow_start recvs).
Proof.
  split; cbn; try done; [|lia]. intros k _. by destruct (read_http3_body _ _ _ _).
Qed.

Lemma weight_recv max total rest :
  (weight_reader (reader_recv max total rest) < weight_reader (Receiving total rest))%nat.
Proof.
  destruct rest as [|[bytes| |e|] rest]; cbn; try lia. case_bool_decide; cbn; [lia|].
  destruct (exceeds _ _); cbn; lia.
Qed.

Lemma weight_sent r item :
  pending r = Some item → (weight_reader (reader_sent r) + 1 < weight_reader r)%nat.
Proof. destruct r; cbn; try done; intros _; lia. Qed.

Lemma weight_refused r item :
  pending r = Some item → (weight_reader (reader_refused r) < weight_reader r)%nat.
Proof. destruct r; cbn; try done; intros _; lia. Qed.

Lemma flow_step_weight max f f' : flow_step max f f' → (weight f' < weight f)%nat.
Proof.
  intros Hs. destruct Hs as [t rest q a tk h m|r item q a tk h m Hp _ _|r item q a tk m Hp| | | | | | | | |];
    unfold weight; cbn [reader queue main rx weight_main length]; rewrite ?length_app; cbn [length];
    try lia.
  all: try (pose proof (weight_recv max t rest); lia).
  all: try (pose proof (weight_sent _ _ Hp); lia).
  all: try (pose proof (weight_refused _ _ Hp); lia).
  all: destruct h; lia.
Qed.

(** The steps that leave the reader alone. *)
Ltac flow_case Hi Hh :=
  split; cbn in *; try done; try lia;
  try (let k := fresh in let Hk := fresh in
       intros k Hk; try rewrite (Hk eq_refl); by apply Hi).

(** Every step keeps what the channel took in line with the sequential
    reader. *)
Lemma flow_step_ok max recvs f f' : flow_ok max recvs f → flow_step max f f' → flow_ok max recvs f'.
Proof.
  intros [Hi Ht Hq Hr Hh] Hs.
  destruct Hs as [total rest q a t h m|r item q a t h m Hp Hd Hl|r item q a t m Hp|r x q a t|
    r q a t|r q a t h Hx|r q a t|q a t h|e q a t h|r x q a t|r q a t h Hx|e r q a t h];
    cbn [reader queue accepted taken rx main] in *.
  - split; cbn; try done; [by intros k Hk; rewrite rest_of_recv; apply Hi|].
    destruct m; try done; [by destruct Hh|by destruct Hh as (_ & ? & ? & _)].
  - split; cbn; try done; rewrite ?length_app; cbn; try lia.
    + intros k Hk. specialize (Hi (S k) ltac:(done)). rewrite (rest_of_sent _ _ _ _ Hp) in Hi.
      rewrite <- app_assoc. etrans; [|exact Hi]. f_equal. cbn. lia.
    + etrans; [exact Ht|]. by eexists.
    + intros _. rewrite Hq by done. by rewrite app_assoc.
    + destruct m; try done; [by destruct Hh as [_ ->]|by destruct Hh as (_ & ? & -> & _)].
  - split; cbn; try done.
    + intros k Hk. rewrite (Hk eq_refl). rewrite <- (rest_of_refused _ _ _ Hp). by apply Hi.
    + destruct m; try done; [by destruct Hh as [_ ->]|by destruct Hh as (_ & ? & -> & _)].
  - specialize (Hq ltac:(done)). flow_case Hi Hh; [|intros _; by rewrite <- app_assoc].
    rewrite Hq. by exists q; rewrite <- app_assoc.
  - flow_case Hi Hh.
  - flow_case Hi Hh.
  - flow_case Hi Hh. intros _; by apply Hq.
  - flow_case Hi Hh.
  - flow_case Hi Hh. split; [done|]. eexists. by split; [done|intros ? [= <-]].
  - specialize (Hq ltac:(done)). flow_case Hi Hh; [|intros _; by rewrite <- app_assoc].
    rewrite Hq. by exists q; rewrite <- app_assoc.
  - flow_case Hi Hh. destruct Hh as [_ ->]. by split; [|eexists].
  - flow_case Hi Hh. destruct Hh as [_ ->]. by split; [|eexists].
Qed.

Lemma flow_reach_ok max recvs f : rtc (flow_step max) (flow_start recvs) f → flow_ok max recvs f.
Proof.
  intros H. eapply (rtc_ind_r (λ f, flow_ok max recvs f) _ (flow_start_ok max recvs)); [|exact H].
  intros g f' _ Hs Hok. by eapply flow_step_ok.
Qed.

(** A flow that can not go on is over or waits in a circle. *)
Lemma flow_stuck max recvs f :
  flow_ok max recvs f → (∀ f', ¬ flow_step max f f') → (∃ res, main f = Over res) ∨ deadlocked f.
Proof.
  intros [_ _ _ Hr Hh] Hn. destruct f as [r q a t h m]; cbn in *.
  destruct m; [| | |by eauto].
  - exfalso. destruct h; [|done|].
    all: eapply Hn, step_return; done.
  - destruct r as [total rest|bytes total rest|msg err|[[]|e]].
    + exfalso. eapply Hn, step_recv.
    + destruct h; [done| |exfalso; by eapply Hn, step_refused].
      right. split_and!; [done..| |by eexists]. cbn.
      destruct (decide (length q < H3_CHANNEL)%nat); [|lia].
      exfalso. by eapply Hn, step_sent.
    + destruct h; [done| |exfalso; by eapply Hn, step_refused].
      right. split_and!; [done..| |by eexists]. cbn.
      destruct (decide (length q < H3_CHANNEL)%nat); [|lia].
      exfalso. by eapply Hn, step_sent.
    + exfalso. eapply Hn, step_join_ok.
    + exfalso. eapply Hn, step_join_err.
  - exfalso. by eapply Hn, (step_respond_err _ "").
Qed.

(** While a returned body waits for the reader, nothing is received from it. *)
Lemma joining_keeps max f f' :
  rtc (flow_step max) f f' → main f = Joining → rx f = RxResponse →
  main f' = Joining ∧ rx f' = RxResponse ∧ taken f' = taken f ∨
  ∃ g, rtc (flow_step max) f g ∧ main g = Joining ∧ rx g = RxResponse ∧ taken g = taken f ∧
    ∃ res, reader g = Finished res.
Proof.
  intros H Hm Hx. induction H as [f|f f1 f' Hs H IH]; [by left|].
  destruct Hs; cbn in *; subst; try done.
  - destruct (IH eq_refl eq_refl) as [?|(g & Hg & ?)]; [by left|right].
    exists g. split; [|done]. eapply rtc_l; [apply step_recv|exact Hg].
  - destruct (IH eq_refl eq_refl) as [?|(g & Hg & ?)]; [by left|right].
    exists g. split; [|done]. eapply rtc_l; [by apply step_sent|exact Hg].
  - right. eexists. split; [apply rtc_refl|]. cbn. by eauto.
  - right. eexists. split; [apply rtc_refl|]. cbn. by eauto.
Qed.


Lemma body_items_open max total open recvs :
  (length (read_http3_body max total open recvs).1 <= open)%nat.
Proof.
  revert total open. induction recvs as [|[bytes| |e|] rest IH]; intros total open; cbn; try lia.
  - case_bool_decide; [apply IH|]. destruct (exceeds _ _); [by destruct open; cbn; lia|].
    destruct open as [|open]; [done|].
    specialize (IH (saturating_add usize_max total (Z.of_nat (String.length bytes))) open).
    destruct (read_http3_body _ _ _ _); cbn in *; lia.
  - destruct open; cbn; lia.
  - destruct open; cbn; lia.
Qed.

(** A reader that waits has one more item than the channel took. *)
Lemma pending_more max recvs f :
  flow_ok max recvs f → rx f ≠ RxDropped → is_Some (pending (reader f)) →
  (length (accepted f) <
   length (read_http3_body max 0 (length (accepted f) + 1) recvs).1)%nat.
Proof.
  intros Hok Hx [item Hp]. rewrite (ok_items _ _ _ Hok 1) by done.
  rewrite (rest_of_sent _ _ _ _ Hp). cbn [fst]. rewrite length_app. cbn. lia.
Qed.

(** A reader that is done has no more items than the channel took. *)
Lemma finished_all max recvs f res open :
  flow_ok max recvs f → rx f ≠ RxDropped → reader f = Finished res →
  (length (read_http3_body max 0 open recvs).1 <= length (accepted f))%nat.
Proof.
  intros Hok Hx Hr. destruct (decide (open <= length (accepted f))%nat) as [Hle|Hgt].
  - etrans; [apply body_items_open|done].
  - replace open with (length (accepted f) + (open - length (accepted f)))%nat by lia.
    rewrite (ok_items _ _ _ Hok) by done. rewrite Hr. cbn. by rewrite app_nil_r.
Qed.

(** What a flow has in flight or delivered while the body is held. *)
Lemma held_length max recvs f :
  flow_ok max recvs f → rx f ≠ RxDropped →
  length (accepted f) = (length (taken f) + length (queue f))%nat.
Proof. intros Hok Hx. by rewrite (ok_queue _ _ _ Hok Hx), length_app. Qed.

Lemma held_joins max recvs f f' open :
  flow_ok max recvs f → main f = Joining → rx f = RxResponse →
  (length (taken f) + H3_CHANNEL < length (read_http3_body max 0 open recvs).1)%nat →
  rtc (flow_step max) f f' → main f' = Joining.
Proof.
  intros Hok Hm Hx Hlen Hr. destruct (joining_keeps _ _ _ Hr Hm Hx) as [(? & _)|Hg]; [done|exfalso].
  destruct Hg as (g & Hg & Hgm & Hgx & Ht & res & Hres).
  assert (flow_ok max recvs g) as Hok'.
  { clear -Hok Hg. induction Hg as [|f f1 f' Hs _ IH]; [done|]. by eapply IH, flow_step_ok. }
  assert (rx g ≠ RxDropped) as Hnd by (by rewrite Hgx).
  pose proof (finished_all _ _ _ _ open Hok' Hnd Hres) as Hall.
  rewrite (held_length _ _ _ Hok' Hnd), Ht in Hall. pose proof (ok_room _ _ _ Hok'). lia.
Qed.

Lemma flow_terminates max : well_founded (flip (flow_step max)).
Proof.
  intros f. induction (well_founded_ltof _ weight f) as [f _ IH].
  constructor. intros f' Hs. by apply IH, (flow_step_weight max).
Qed.

Lemma deadlocked_items max recvs f :
  rtc (flow_step max) (flow_start recvs) f → deadlocked f →
  ∃ open, (H3_CHANNEL < length (read_http3_body max 0 open recvs).1)%nat.
Proof.
  intros Hok%flow_reach_ok (Hm & Hx & Hq & Hp). assert (rx f ≠ RxDropped) as Hnd by (by rewrite Hx).
  pose proof (pending_more _ _ _ Hok Hnd Hp). pose proof (held_length _ _ _ Hok Hnd).
  eexists. rewrite <- Hq. eapply Nat.le_lt_trans; [|eassumption]. lia.
Qed.

Lemma over_items max recvs f :
  flow_ok max recvs f → ∀ res, main f = Over res →
  ∃ read, read_http3_body max 0 (length (accepted f)) recvs = (accepted f, read) ∧
    ∀ e, read = Err e → res = Err e.
Proof.
  intros Hok res Hm. pose proof (ok_holder _ _ _ Hok) as Hh. rewrite Hm in Hh.
  destruct Hh as (Hx & read & Hr & He). exists read. split; [|done].
  pose proof (ok_items _ _ _ Hok 0 ltac:(done)) as Hi. rewrite Hr in Hi. cbn in Hi.
  by rewrite Nat.add_0_r, app_nil_r in Hi.
Qed.

(** A returned body that nobody polls fills the channel. *)
Lemma held_deadlocks max recvs f open :
  flow_ok max recvs f → main f = Joining → rx f = RxResponse → taken f = [] →
  (H3_CHANNEL < length (read_http3_body max 0 open recvs).1)%nat →
  ∃ f', rtc (flow_step max) f f' ∧ deadlocked f'.
Proof.
  induction (flow_terminates max f) as [f _ IH]. intros Hok Hm Hx Ht Hlen.
  assert (∀ f1, flow_step max f f1 → main f1 = Joining → rx f1 = RxResponse → taken f1 = [] →
    ∃ f', rtc (flow_step max) f f' ∧ deadlocked f') as Hstep.
  { intros f1 Hs ???. destruct (IH f1 Hs) as (f' & ? & ?); try done; [by eapply flow_step_ok|].
    exists f'. split; [by eapply rtc_l|done]. }
  destruct (reader f) as [total rest| | |res] eqn:Hr; destruct f as [r q a t h m]; cbn in *; subst.
  - eapply Hstep; [apply step_recv|done..].
  - destruct (decide (length q < H3_CHANNEL)%nat) as [Hl|Hl]; [eapply Hstep; [by eapply step_sent|done..]|].
    eexists. split; [apply rtc_refl|]. pose proof (ok_room _ _ _ Hok). cbn in *.
    split_and!; [done..|cbn; lia|by eexists].
  - destruct (decide (length q < H3_CHANNEL)%nat) as [Hl|Hl]; [eapply Hstep; [by eapply step_sent|done..]|].
    eexists. split; [apply rtc_refl|]. pose proof (ok_room _ _ _ Hok). cbn in *.
    split_and!; [done..|cbn; lia|by eexists].
  - pose proof (finished_all _ _ _ _ open Hok ltac:(done) eq_refl).
    pose proof (held_length _ _ _ Hok ltac:(done)). pose proof (ok_room _ _ _ Hok). cbn in *. lia.
Qed.

(** *** Runs *)

(** What the channel took is what the sequential reader sends into a channel
    that takes as many items. *)
Lemma h3_run_items max recvs items join :
  h3_run max recvs items join →
  (read_http3_body max 0 (length items) recvs).1 = items ∧
  (∀ res, join = Some res → (read_http3_body max 0 (length items) recvs).2 = res) ∧
  (join = None → ∃ open, (H3_CHANNEL < length (read_http3_body max 0 open recvs).1)%nat).
Proof.
  intros (f & Hf & Hm & -> & Hj). pose proof (flow_reach_ok _ _ _ Hf) as Hok.
  pose proof (ok_items _ _ _ Hok 0 ltac:(done)) as Hi. rewrite Nat.add_0_r in Hi. rewrite Hi.
  assert ((rest_of max (reader f) 0).1 = []) as Hnil.
  { destruct join as [res|]; [by rewrite Hj|].
    destruct Hj as (_ & _ & _ & Hp). by destruct (reader f), Hp. }
  cbn [fst snd]. rewrite Hnil, app_nil_r. split_and!; [done| |].
  - intros res ->. by rewrite Hj.
  - intros ->. by apply (deadlocked_items _ _ _ Hf).
Qed.

(** The handler drops the body, the reader's send fails, the handler returns. *)
Ltac drop_run :=
  eapply rtc_l; [apply step_drop|]; eapply rtc_l; [by eapply step_refused|];
  eapply rtc_l; [by apply step_return|apply rtc_refl].

(** A handler that takes [open] items and drops the body. *)
Lemma taking_run max recvs : ∀ total open a,
  ∃ f, rtc (flow_step max) (mkFlow (Receiving total recvs) [] a a RxHandler Handling) f ∧
    main f = Joining ∧ reader f = Finished (read_http3_body max total open recvs).2 ∧
    accepted f = (a ++ (read_http3_body max total open recvs).1)%list.
Proof.
  assert (∀ r msg err (open : nat) a, r = Failing msg err →
    ∃ f, rtc (flow_step max) (mkFlow r [] a a RxHandler Handling) f ∧ main f = Joining ∧
      reader f = Finished (Err err) ∧ accepted f = (a ++ try_send open (Err msg))%list) as Hfail.
  { intros r msg err [|open] a ->; eexists.
    - split; [drop_run|by cbn; rewrite app_nil_r].
    - split; [|idtac].
      + eapply rtc_l; [eapply step_sent; [done|done|unfold H3_CHANNEL; cbn; lia]|].
      eapply rtc_l; [by apply step_return|apply rtc_refl].
      + done. }
  assert (∀ res a, ∃ f, rtc (flow_step max) (mkFlow (Finished res) [] a a RxHandler Handling) f ∧
    main f = Joining ∧ reader f = Finished res ∧ accepted f = (a ++ [])%list) as Hend.
  { intros res a. eexists. split; [by eapply rtc_l; [by apply step_return|apply rtc_refl]|].
    by cbn; rewrite app_nil_r. }
  assert (∀ total recvs a (Q : Flow → Prop),
    (∃ f, rtc (flow_step max) (mkFlow (reader_recv max total recvs) [] a a RxHandler Handling) f ∧ Q f) →
    ∃ f, rtc (flow_step max) (mkFlow (Receiving total recvs) [] a a RxHandler Handling) f ∧ Q f)
    as Hrecv.
  { intros total recvs' a Q (f & Hf & HQ). exists f. split; [|done]. eapply rtc_l; [apply step_recv|exact Hf]. }
  induction recvs as [|r recvs IH]; intros total open a; apply Hrecv; [apply Hend|].
  destruct r as [bytes| |e|]; cbn [reader_recv read_http3_body]; [|apply Hend|by eapply Hfail..].
  case_bool_decide; [apply IH|]. cbv zeta. destruct (exceeds _ _); [by eapply Hfail|].
  set (total' := saturating_add _ _ _). destruct open as [|open].
  - eexists. split; [drop_run|by cbn; rewrite app_nil_r].
  - destruct (IH total' open (a ++ [Ok bytes])%list) as (f & Hf & Hm & Hr & Ha).
    exists f. destruct (read_http3_body max total' open recvs) as [items res]. split_and!; [|done|done|].
    + eapply rtc_l; [eapply step_sent; [done|done|unfold H3_CHANNEL; cbn; lia]|].
      eapply rtc_l; [apply step_take|exact Hf].
    + by rewrite Ha, <- app_assoc.
Qed.

(** Whatever number of items a handler wants, there is a run where it gets
    them and the reader joins. *)
Lemma h3_run_exists max recvs open :
  h3_run max recvs (read_http3_body max 0 open recvs).1 (Some (read_http3_body max 0 open recvs).2).
Proof.
  destruct (taking_run max recvs 0 open []) as (f & Hf & Hm & Hr & Ha). by exists f.
Qed.

(** ** The property *)

(** C8: An HTTP/3 request whose body is read while the handler runs and while
    the response is sent makes finitely many steps, whatever order the tasks
    are scheduled in.  In every state what the handler or the response
    received is a prefix of what the reader sent; once the request is over,
    what was sent and how reading ended are what the sequential reader gives
    for a channel that took as many items, and an error of the reader is the
    request's.  A request that can go no further is over, or its answer holds
    the unread body and the reader waits for a place in the full channel; some
    order of steps ends there exactly when there are more than eight items,
    and every order does once a handler has returned a body with more than
    eight items to come. *)
Theorem h3_body_flow (max : option Z) (recvs : list H3Recv) :
  well_founded (flip (flow_step max)) ∧
  ((∃ f, rtc (flow_step max) (flow_start recvs) f ∧ deadlocked f) ↔
   ∃ open, (H3_CHANNEL < length (read_http3_body max 0 open recvs).1)%nat) ∧
  ∀ f, rtc (flow_step max) (flow_start recvs) f →
    taken f `prefix_of` accepted f ∧
    (∀ res, main f = Over res →
      ∃ read, read_http3_body max 0 (length (accepted f)) recvs = (accepted f, read) ∧
        ∀ e, read = Err e → res = Err e) ∧
    ((∀ f', ¬ flow_step max f f') → (∃ res, main f = Over res) ∨ deadlocked f) ∧
    (main f = Joining → rx f = RxResponse →
     (∃ open, (length (taken f) + H3_CHANNEL <
               length (read_http3_body max 0 open recvs).1)%nat) →
     ∀ f', rtc (flow_step max) f f' → main f' = Joining).
Proof.
  split_and!; [apply flow_terminates| |].
  - split; [intros (f & Hf & Hd); by apply (deadlocked_items _ _ _ Hf)|intros [open Hlen]].
    destruct (held_deadlocks max recvs (mkFlow (Receiving 0 recvs) [] [] [] RxResponse Joining) open)
      as (f & Hr & Hd); [by eapply flow_step_ok; [apply flow_start_ok|apply step_return_body]|done..|].
    exists f. split; [|done]. eapply rtc_l; [apply step_return_body|done].
  - intros f Hf. pose proof (flow_reach_ok _ _ _ Hf) as Hok. split_and!.
    + by apply (ok_taken _ _ _ Hok).
    + by apply over_items.
    + by apply flow_stuck with recvs.
    + intros Hm Hx [open Hlen] f' Hr. by eapply held_joins.
Qed.
