(* ===== verification/QuicConn.v ===== *)
(** * A QUIC connection from its listener to the routes
    (silent/src/server/quic/listener.rs, silent/src/server/quic/service.rs,
    silent/src/server/quic/echo.rs, silent/src/server/route_connection.rs)

    quinn, h3 and rustls are parameters: what they report is data, what they
    are told is data.  Quic.v models the response writer and the datagrams,
    QuicFlow.v the body reader beside the handler; they are put together
    here. *)

From S2P Require Import Prelude Str Platform Ext State Error PathParam Body Message Next Cookies Addr RouteSeg RouteTree Route NetServer Service Quic QuicFlow.

(** ** The transport configuration *)

Record QuicTransportConfig := mkQuicTransport {
  keep_alive_interval : option Z;
  max_idle_timeout : option Z;
  max_bidirectional_streams : option Z;
  max_unidirectional_streams : option Z;
  max_datagram_recv_size : option Z;
  enable_datagram : bool;
  alpn_protocols : option (list string);
}.

Definition h3_alpn : list string := ["h3"; "h3-29"].

(** Durations in nanoseconds. *)
Definition QuicTransportConfig_default : QuicTransportConfig :=
  mkQuicTransport (Some 30000000000%Z) (Some 60000000000%Z) (Some 128%Z) (Some 32%Z)
    (Some (64 * 1024)%Z) true (Some h3_alpn).

(** quinn's [TransportConfig], as far as it is written to. *)
Record Transport := mkTransport {
  t_keep_alive : option Z;
  t_idle : option Z;
  t_bidi : Z;
  t_uni : Z;
  t_dgram_recv : option Z;
  t_dgram_send : Z;
}.

(** [QuicEndpointListener::new_with_config], without the endpoint: the ALPN
    list and the transport, from quinn's defaults.  [idle_ok] is
    [IdleTimeout::try_from]; [VarInt::try_from] takes every [u32]. *)
Definition new_with_config (idle_ok : Z → bool) (base : Transport) (c : QuicTransportConfig)
  : list string * Transport :=
  let alpn := default h3_alpn (alpn_protocols c) in
  let t := base in
  let t := match keep_alive_interval c with
           | Some k => mkTransport (Some k) (t_idle t) (t_bidi t) (t_uni t) (t_dgram_recv t) (t_dgram_send t)
           | None => t
           end in
  let t := match max_idle_timeout c with
           | Some idle => if idle_ok idle
               then mkTransport (t_keep_alive t) (Some idle) (t_bidi t) (t_uni t) (t_dgram_recv t) (t_dgram_send t)
               else t
           | None => t
           end in
  let t := match max_bidirectional_streams c with
           | Some v => mkTransport (t_keep_alive t) (t_idle t) v (t_uni t) (t_dgram_recv t) (t_dgram_send t)
           | None => t
           end in
  let t := match max_unidirectional_streams c with
           | Some v => mkTransport (t_keep_alive t) (t_idle t) (t_bidi t) v (t_dgram_recv t) (t_dgram_send t)
           | None => t
           end in
  let t := match max_datagram_recv_size c with
           | Some v => mkTransport (t_keep_alive t) (t_idle t) (t_bidi t) (t_uni t) (Some v) (t_dgram_send t)
           | None => t
           end in
  let t := if enable_datagram c then t
           else mkTransport (t_keep_alive t) (t_idle t) (t_bidi t) (t_uni t) None 0 in
  (alpn, t).

(** [from_server_config] *)
Definition from_server_config (idle_ok : Z → bool) (base : Transport)
    (quic_transport : option QuicTransportConfig) : list string * Transport :=
  new_with_config idle_ok base (default QuicTransportConfig_default quic_transport).

(** [QuicEndpointListener::accept]; [None] is a closed endpoint.  The hybrid
    listener takes what the fallback or the endpoint has first. *)
Definition quic_accept `{T : Ipv6Text} {I} (incoming : option (I * SocketAddr)) : result (I * SocketAddr) string :=
  match incoming with
  | Some (incoming, remote) => Ok (incoming, remote)
  | None => Err "QUIC Endpoint 已关闭"
  end.

(** [Route::with_quic_port] *)
Definition with_quic_port {P : Platform} (self : Route) (port : Z) : Route :=
  hook self (AltSvcMiddleware port).

(** ** Requests of a connection *)

(** What the h3 builder is told. *)
Record H3Settings := mkH3 {
  extended_connect : bool;
  h3_datagram : bool;
  webtransport : bool;
  webtransport_sessions : Z;
}.

Definition h3_settings (enable_datagram : bool) (max_wt_sessions : option Z) : H3Settings :=
  mkH3 true enable_datagram true (default 32%Z max_wt_sessions).

(** [h3_conn.accept().await] *)
Inductive H3Accept (R : Type) :=
| AcceptRequest (resolver : R)
| AcceptNone
| AcceptErr (e : string).
Arguments AcceptRequest {R}.
Arguments AcceptNone {R}.
Arguments AcceptErr {R}.

(** The accept loop of [handle_quic_connection]: the requests a task is
    spawned for. *)
Fixpoint h3_spawned {R} (accepts : list (H3Accept R)) : list R :=
  match accepts with
  | AcceptRequest resolver :: rest => resolver :: h3_spawned rest
  | _ => []
  end.

(** ** WebTransport sessions *)

(** The calls of a handler on its stream, and what [handle_webtransport_request]
    does before it: a datagram of its own. *)
Definition wt_session (max_frame max_dgram rate : option Z) (drop sent : bool) (now : Z)
  : WebTransportStream :=
  let channel := WebTransportStream_new max_frame max_dgram rate drop true now in
  snd (try_send_datagram now 0 sent channel).

(** [String::from_utf8] *)
Definition byte_in (lo hi : N) (c : ascii) : bool := ((lo <=? N_of_ascii c) && (N_of_ascii c <=? hi))%N.
Definition cont := byte_in 128 191.

Fixpoint from_utf8 (s : string) : bool :=
  match s with
  | "" => true
  | String a s1 =>
      if byte_in 0 127 a then from_utf8 s1
      else match s1 with
      | "" => false
      | String b s2 =>
          if byte_in 194 223 a then cont b && from_utf8 s2
          else match s2 with
          | "" => false
          | String c s3 =>
              if byte_in 224 239 a then
                (if byte_in 224 224 a then byte_in 160 191 b
                 else if byte_in 237 237 a then byte_in 128 159 b else cont b) &&
                cont c && from_utf8 s3
              else match s3 with
              | "" => false
              | String d s4 =>
                  byte_in 240 244 a &&
                  (if byte_in 240 240 a then byte_in 144 191 b
                   else if byte_in 244 244 a then byte_in 128 143 b else cont b) &&
                  cont c && cont d && from_utf8 s4
              end
          end
      end
  end.

(** [EchoHandler::handle]: the frames the stream yields (each with the time
    [recv_data] returned), until one is the end or an error; then the answer
    it sends. *)
Fixpoint echo_collect (s : WebTransportStream) (payload : string)
    (frames : list (Z * result (option string) string)) : result string string :=
  match frames with
  | [] => Ok payload
  | (now, frame) :: rest =>
      match wt_recv_data now frame s with
      | (Err e, _) => Err e
      | (Ok None, _) => Ok payload
      | (Ok (Some chunk), s) =>
          echo_collect s (if bool_decide (payload = "") then chunk else payload +:+ chunk) rest
      end
  end.

Definition EchoHandler_handle (s : WebTransportStream)
    (frames : list (Z * result (option string) string)) : result string string :=
  payload <-! echo_collect s "" frames ;;
  Ok ("echo(webtransport): " +:+ (if from_utf8 payload then payload else "<binary>")).

(** ** HTTP/3 requests *)

Section http3.
Context {P : Platform} {T : Ipv6Text} {C : CookieCrate P}.

(** What becomes of a request: it is over, with what its stream took and its
    result; its reader never joins; or [fuel] polls of the response body or
    the chunks of a frame do not come to an end. *)
Inductive H3Outcome :=
| H3Over (sent : list H3Action) (res : result () string)
| H3Waiting
| H3Unfinished.

(** [handle_http3_request_impl] from [read_task.await??] on. *)
Definition h3_conclude (join : option (result () string)) (io : StreamIo)
    (h3_chunk_size h3_yield_bytes : option Z) (fuel : nat) (response : Response) : H3Outcome :=
  match join with
  | None => H3Waiting
  | Some (Err e) => H3Over [] (Err e)
  | Some (Ok _) =>
      let '(head, body) := from_internal response in
      match respond_http3 io h3_chunk_size h3_yield_bytes fuel head body with
      | Some (sent, res) => H3Over sent res
      | None => H3Unfinished
      end
  end.

(** [handle_http3_request_impl].  The reader's task runs beside it: [items] is
    what the channel, whose other end [receiver items] is the request's body,
    takes in a run of the two tasks, and [join] what the reader's task ends
    with ([QuicFlow.h3_run]). *)
Definition handle_http3_request_impl (routes : Handler)
    (receiver : list (result string string) → BytesStream) (p : Parts) (remote : SocketAddr)
    (items : list (result string string)) (join : option (result () string))
    (io : StreamIo) (h3_chunk_size h3_yield_bytes : option Z) (fuel : nat) : M World H3Outcome :=
  let silent_req := Request_from_parts p (ReqBody_from_stream (receiver items)) in
  silent_req ← M_lift (set_remote silent_req (RemoteAddr_from_socket remote));
  r ← routes silent_req;
  let response := response_or_error r in
  mret (h3_conclude join io h3_chunk_size h3_yield_bytes fuel response).

(** What the client is to get of a response, by how the reader ended. *)
Definition H3Answers (join : option (result () string)) (io : StreamIo)
    (h3_chunk_size h3_yield_bytes : option Z) (fuel : nat) (response : Response) (out : H3Outcome) : Prop :=
  match join with
  | None => out = H3Waiting
  | Some (Err e) => out = H3Over [] (Err e)
  | Some (Ok _) =>
      let '(head, body) := from_internal response in
      ∀ frames, body_frames fuel body = Some frames →
      ∃ acts, sent_data acts = fst (readable frames) ∧
        chunks_within (default 16384 h3_chunk_size)%Z acts ∧
        is_Some (paced (default 262144 h3_yield_bytes)%Z 0 acts) ∧
        out = let '(sent, res) := h3_answer io head acts (snd (readable frames)) in H3Over sent res
  end.

(** ** Dispatch *)

(** [handle_request]: a WebTransport session or an HTTP/3 request. *)
Inductive H3Kind := KindWebTransport | KindHttp3.

Definition handle_request (m : Method) (protocol : option string) : H3Kind :=
  if bool_decide (m = CONNECT) && bool_decide (protocol = Some "webtransport")
  then KindWebTransport else KindHttp3.

(** [handle_webtransport_request]: the handshake goes out, then the handler gets
    the session's stream; its result is the request's. *)
Definition handle_webtransport_request {Session} (handler : Session → WebTransportStream → M World (result () string))
    (session : Session) (send_head : result () string)
    (max_frame max_dgram rate : option Z) (drop sent : bool) (now : Z) : M World (result () string) :=
  match send_head with
  | Err err => mret (Err ("发送 WebTransport 握手响应失败: " +:+ err))
  | Ok _ => handler session (wt_session max_frame max_dgram rate drop sent now)
  end.

(** [RealH3Stream]: h3's errors with a text in front. *)
Definition real_recv_data (r : result (option string) string) : result (option string) string :=
  map_err (λ e, "读取 HTTP/3 请求体失败: " +:+ e) r.
Definition real_send_response (r : result () string) : result () string :=
  map_err (λ e, "发送 HTTP/3 响应头失败: " +:+ e) r.
Definition real_send_data (r : result () string) : result () string :=
  map_err (λ e, "发送 HTTP/3 响应数据失败: " +:+ e) r.
Definition real_finish (r : result () string) : result () string :=
  map_err (λ e, "结束 HTTP/3 响应失败: " +:+ e) r.

(** What [RouteConnectionService::call] passes to [handle_quic_connection]. *)
Record QuicArgs := mkQuicArgs {
  a_routes : RouteTree;
  a_max_body_size : option Z;
  a_read_timeout : option Z;
  a_max_wt_frame : option Z;
  a_wt_read_timeout : option Z;
  a_max_wt_sessions : option Z;
  a_enable_datagram : bool;
  a_max_datagram_size : option Z;
  a_datagram_rate : option Z;
  a_datagram_drop_metric : bool;
}.

Inductive ServeConn :=
| ServeQuic (a : QuicArgs)
| ServeHttp (routes : RouteTree) (max_body_size : option Z).

(** [RouteConnectionService::call]; [is_quic] is the downcast. *)
Definition RouteConnectionService_call (tree : RouteTree) (limits : ConnectionLimits)
    (quic_transport : option QuicTransportConfig) (is_quic : bool) : ServeConn :=
  if is_quic then
    ServeQuic (mkQuicArgs tree (NetServer.max_body_size limits) (h3_read_timeout limits)
      (max_webtransport_frame_size limits) (webtransport_read_timeout limits)
      (max_webtransport_sessions limits)
      (default true (enable_datagram <$> quic_transport))
      (webtransport_datagram_max_size limits) (webtransport_datagram_rate limits)
      (webtransport_datagram_drop_metric limits))
  else ServeHttp tree (NetServer.max_body_size limits).

(** [handle_quic_connection]: what the h3 builder is told, and the requests a
    task is spawned for. *)
Definition handle_quic_connection {R} (incoming : result () string) (build : H3Settings → result () string)
    (a : QuicArgs) (accepts : list (H3Accept R)) : result (list R) string :=
  _ <-! map_err (λ _, "等待 QUIC 连接建立失败") incoming ;;
  _ <-! map_err (λ _, "构建 HTTP/3 连接失败")
          (build (h3_settings (a_enable_datagram a) (a_max_wt_sessions a))) ;;
  Ok (h3_spawned accepts).

(** ** Lemmas *)

(** The handler of a session runs once, after the handshake, on a stream with
    the limits of the configuration; without a handshake it does not run. *)
Lemma webtransport_request_spec {Session} (handler : Session → WebTransportStream → M World (result () string))
    session send_head max_frame max_dgram rate drop sent now w :
  handle_webtransport_request handler session send_head max_frame max_dgram rate drop sent now w =
  match send_head with
  | Ok _ => handler session (wt_session max_frame max_dgram rate drop sent now) w
  | Err e => (Ret (Err ("发送 WebTransport 握手响应失败: " +:+ e)), w)
  end ∧
  let s := wt_session max_frame max_dgram rate drop sent now in
  max_frame_size s = max_frame ∧ max_datagram_size s = max_dgram ∧ datagram_per_sec s = rate.
Proof.
  split; [by destruct send_head|]. unfold wt_session, try_send_datagram, wt_refill, set_tokens.
  destruct rate as [r|]; cbn; repeat (case_match; simplify_eq/=; try done).
Qed.

(** A connection that came up serves the requests up to the first end or
    error of its accept loop, and tells h3 what the limits say. *)
Lemma quic_connection_spec {R} build a (accepts : list (H3Accept R)) reqs :
  build (mkH3 true (a_enable_datagram a) true (default 32%Z (a_max_wt_sessions a))) = Ok () →
  (accepts = AcceptRequest <$> reqs ∨
   ∃ x rest, accepts = (AcceptRequest <$> reqs) ++ x :: rest ∧ (x = AcceptNone ∨ ∃ e, x = AcceptErr e))%list →
  handle_quic_connection (Ok ()) build a accepts = Ok reqs.
Proof.
  intros Hb Ha. unfold handle_quic_connection, h3_settings. cbn. rewrite Hb. cbn. f_equal.
  destruct Ha as [->|(x & rest & -> & Hx)].
  - induction reqs as [|r reqs IH]; [done|]. cbn. by rewrite IH.
  - induction reqs as [|r reqs IH]; [by destruct Hx as [->|[e ->]]|]. cbn. by rewrite IH.
Qed.

Lemma h3_conclude_answers join io size yb fuel response :
  (match size with Some n => 0 < n | None => True end)%Z →
  H3Answers join io size yb fuel response (h3_conclude join io size yb fuel response).
Proof.
  intros Hs. destruct join as [[u|e]|]; [|done|done]. unfold H3Answers, h3_conclude.
  destruct (from_internal response) as [head body]. intros frames Hf.
  destruct (respond_http3_answers size yb fuel body frames Hs Hf) as (acts & Ha & Hc & Hp & Hio).
  exists acts. split_and!; [done..|]. by rewrite Hio.
Qed.

(** ** The property *)

End http3.

(** ** WebTransport sessions *)

(** The datagram the server sends on its own account uses up a token, whether
    or not it gets through: a handler passes one datagram less than the rate
    until the first refill. *)
Lemma wt_session_one_less rate max_frame max_dgram drop sent now evs :
  (0 < rate < u64_max)%Z → (match max_dgram with Some m => 0 <= m | None => True end)%Z →
  within None now evs →
  (wt_total (wt_session max_frame max_dgram (Some rate) drop sent now) evs <=
     rate - 1 + rate * as_secs (end_time now evs - now))%Z.
Proof.
  intros Hr Hm Hw.
  assert (wt_session max_frame max_dgram (Some rate) drop sent now =
          mkWt max_frame max_dgram (Some rate) (rate - 1) now drop true) as ->.
  { assert (wt_refill now (WebTransportStream_new max_frame max_dgram (Some rate) drop true now) =
            mkWt max_frame max_dgram (Some rate) rate now drop true) as Hre.
    { unfold wt_refill, WebTransportStream_new, set_tokens, as_secs, saturating_sub, saturating_mul.
      cbn -[Z.div Z.mul]. rewrite Z.sub_diag, Z.max_id, Z.div_0_l, Z.mul_0_r, (Z.min_r u64_max 0) by (unfold u64_max; lia).
      rewrite Z.add_0_r. unfold wrap_u64. by rewrite Z.mod_small, Z.min_id by (unfold u64_max in *; lia). }
    unfold wt_session, try_send_datagram. rewrite Hre. cbn [max_datagram_size].
    assert (exceeds max_dgram 0 = false) as ->.
    { destruct max_dgram; [|done]. cbn. apply Z.ltb_ge. lia. }
    cbn. rewrite bool_decide_eq_false_2 by lia. cbn. by destruct sent. }
  pose proof (wt_total_bound rate (mkWt max_frame max_dgram (Some rate) (rate - 1) now drop true)
    now evs eq_refl ltac:(lia) ltac:(cbn; lia) ltac:(cbn; lia) Hw). done.
Qed.

(** The echo handler answers with all the frames in order. *)
Lemma echo_all s payload (chunks : list (Z * string)) :
  Forall (λ c, exceeds (max_frame_size s) (Z.of_nat (String.length (snd c))) = false) chunks →
  echo_collect s payload (((λ c, (fst c, Ok (Some (snd c)))) <$> chunks) ++ [(0%Z, Ok None)])%list =
    Ok (payload +:+ String.concat "" (snd <$> chunks)).
Proof.
  intros Hc. revert s payload Hc. induction chunks as [|[now c] chunks IH]; intros s payload Hc.
  { cbn. by rewrite str_app_nil_r. }
  apply Forall_cons in Hc as [H1 Hc]. cbn [fst snd] in H1.
  assert (max_frame_size (wt_refill now s) = max_frame_size s) as Hm.
  { unfold wt_refill. by destruct (datagram_per_sec s). }
  change (echo_collect s payload ((now, Ok (Some c)) ::
    (((λ c, (fst c, Ok (Some (snd c)))) <$> chunks) ++ [(0%Z, Ok None)])%list) =
    Ok (payload +:+ String.concat "" (c :: (snd <$> chunks)))).
  cbn [echo_collect wt_recv_data]. rewrite Hm, H1. rewrite IH by by rewrite Hm.
  f_equal. case_bool_decide; subst; cbn [String.append].
  - by destruct chunks as [|[? ?] ?]; cbn; rewrite ?str_app_nil_r.
  - rewrite str_app_assoc. f_equal. by destruct chunks as [|[? ?] ?]; cbn; rewrite ?str_app_nil_r.
Qed.

(** ** On the demonstration platform *)

Section examples.
#[local] Existing Instance NoCookies.
#[local] Existing Instance DemoLaws.
Let hello : Handler (P := Demo) := λ _, mret (Ok (text "hello")).
Let pass : MiddleWare (P := Demo) := λ req next, next req.
Let peer := Tcp (T := LoopbackText) (V4 (10, 0, 0, 7)%Z 443).
Let receiver : list (result string string) → @BytesStream Demo := λ items,
  map (λ i, Ready (Some i)) items.
Let post : Parts (P := Demo) := mkParts POST (mkUri "/7" None) HTTP_11 hm_empty ext_empty.
Let upload : list H3Recv := [RecvData "abc"; RecvData "d"; RecvEnd].

Let reset : StreamIo := λ n, if bool_decide (n = 2)%nat then Err "reset" else Ok ().


(** The stream fails the second piece of data: the client has the first, and
    the error is the request's.  A handler whose reader never joins sends
    nothing. *)
Example http3_reset :
  handle_http3_request_impl hello receiver post peer [Ok "abc"; Ok "d"] (Some (Ok ())) reset
    (Some 2%Z) None 2 [] =
    (Ret (H3Over [SendHead (fst (from_internal (text "hello"))); SendData "he"] (Err "reset")), []) ∧
  handle_http3_request_impl hello receiver post peer [Ok "abc"; Ok "d"] None reset
    (Some 2%Z) None 2 [] = (Ret H3Waiting, []).
Proof. split; reflexivity. Qed.
End examples.
