(* ===== verification/AppSpec.v ===== *)
(** * What an application of many routes is to answer

    An application as its author writes it, a list of registrations appended
    to the root, and the specification of its dispatch as an executable
    function of that list.  Then the trie the builder ([Route]) makes of the
    registrations: what stands at every path of segments, in which order. *)

From S2P Require Import Prelude Str Platform Ext State Error PathParam Body Message Next RouteSeg RouteTree Route Service Served.

(** The first success along a list. *)
Fixpoint first_some {A B} (f : A → option B) (l : list A) : option B :=
  match l with
  | [] => None
  | x :: l => match f x with Some y => Some y | None => first_some f l end
  end.

(** Each text once, in the order of first occurrence. *)
Definition add_new (l : list string) (x : string) : list string :=
  if bool_decide (x ∈ l) then l else (l ++ [x])%list.
Definition firsts (l : list string) : list string := foldl add_new [] l.

Lemma filter_nil_2 (Q : string → Prop) `{!∀ x, Decision (Q x)} l :
  (∀ x, x ∈ l → ¬ Q x) → filter Q l = [].
Proof.
  intros Hno. induction l as [|x l IH]; [done|]. rewrite filter_cons, decide_False by (apply Hno; left).
  apply IH. intros y Hy. apply Hno. by right.
Qed.

Lemma filter_one (Q : string → Prop) `{!∀ x, Decision (Q x)} l v :
  NoDup l → v ∈ l → Q v → filter (λ x, Q x ∧ x = v) l = [v].
Proof.
  intros Hnd Hv HQ. induction l as [|x l IH]; [by apply elem_of_nil in Hv|].
  apply NoDup_cons in Hnd as [Hx Hnd]. rewrite filter_cons. apply elem_of_cons in Hv as [<-|Hv].
  - rewrite decide_True by done. f_equal. apply filter_nil_2. by intros y Hy [_ ->].
  - rewrite decide_False by (intros [_ ->]; done). by apply IH.
Qed.

Section app.
Context {P : Platform}.

(** ** The application, as its author writes it *)

(** [.append(Route::new("a/<id>/b").get(h))]: the segments of the pattern, the
    method and the handler. *)
Record Registration := mkReg { segments : list string; on : Method; endpoint : Handler }.

Definition reg_ok (r : Registration) : Prop :=
  segments r ≠ [] ∧ Forall (λ s, simple_segment s = true) (segments r) ∧
  utf8 (path_of (segments r)) = true.

Fixpoint register (root : Route) (regs : list Registration) : outcome Route :=
  match regs with
  | [] => mret root
  | r :: regs =>
      route ← handler (Route_new (path_of (segments r))) (on r) (endpoint r);
      root ← Route_append root route;
      register root regs
  end.

(** ** The specification, over the registrations *)

(** What is registered for exactly this pattern: per method, the first. *)
Fixpoint table (regs : list Registration) (q : list string) : gmap Method Handler :=
  match regs with
  | [] => ∅
  | r :: regs =>
      if decide (segments r = q) then <[on r := endpoint r]> (table regs q) else table regs q
  end.

Definition answer (t : gmap Method Handler) : Handler :=
  if bool_decide (t = ∅) then λ _, mret (Err NotFound) else HandlerMap_call t.

(** The segments that follow a prefix, in the order of registration. *)
Fixpoint next_after (q l : list string) : option string :=
  match q, l with
  | [], x :: _ => Some x
  | y :: q, x :: l => if decide (y = x) then next_after q l else None
  | _, [] => None
  end.
Definition nexts (regs : list Registration) (q : list string) : list string :=
  firsts (omap (λ r, next_after q (segments r)) regs).

Definition is_plain (x : string) : bool :=
  match parse_special_seg x with Ret (SegStatic _) => true | _ => false end.

(** The plain segment that is the text's next one goes first; then the
    parameters. *)
Definition candidates (s : string) (l : list string) : list string :=
  (filter (λ x, is_plain x = true ∧ x = fst (first_segment s)) l ++
   filter (λ x, is_plain x = false) l)%list.

(** One more segment of the pattern: it takes its part of the text and binds
    its parameter. *)
Definition pick_child (s x : string)
    (below : bool → string → option (list string * list (string * PathParam)))
  : option (list string * list (string * PathParam)) :=
  match parse_special_seg x with
  | Ret k =>
      rest ← seg_remain k false s;
      found ← below (is_full_path k) rest;
      Some (x :: found.1, option_list (seg_param k s) ++ found.2)%list
  | Panic => None
  end.

(** The pattern, or prefix of one, that gets the text [s] below the prefix
    [pre], and what it binds.  Stopping, where the text is used up or the last
    segment takes anything, is the last resort. *)
Fixpoint pick (fuel : nat) (regs : list Registration) (pre : list string) (full : bool) (s : string)
  : option (list string * list (string * PathParam)) :=
  let here := if bool_decide (s = "") || full then Some ([], []) else None in
  match fuel with
  | O => here
  | S fuel =>
      match first_some (λ x, pick_child s x (pick fuel regs (pre ++ [x])%list))
              (candidates s (nexts regs pre)) with
      | Some found => Some found
      | None => here
      end
  end.

Definition depth (regs : list Registration) : nat :=
  foldr (λ r n, (length (segments r) `max` n)%nat) 0%nat regs.

(** The root takes a lone slash off the path. *)
Definition rest_of (path : string) : string := if bool_decide (path = "/") then "" else path.

Definition picked (regs : list Registration) (path : string)
  : option (list string * list (string * PathParam)) :=
  pick (depth regs) regs [] false (rest_of path).

(** What the handler finds under a key: the last parameter of that name.
    [addr] is where the copy of the path lies. *)
Definition binds (addr : Z) (l vs : list (string * PathParam)) : Prop := ∀ req key,
  match last_param key vs with
  | Some v => ∃ c, path_params (set_params l req) !! key = Some c ∧
      ((empty_lit <= addr)%Z → to_owned c = Ret v)
  | None => path_params (set_params l req) !! key = path_params req !! key
  end.

(** What answers a request for [path]. *)
Definition serves (regs : list Registration) (addr : Z) (path : string) (served : Handler) : Prop :=
  match picked regs path with
  | Some (q, vs) =>
      ∃ l, binds addr l vs ∧ served = (λ req, answer (table regs q) (set_params l req))
  | None => served = (λ _, mret (Err NotFound))
  end.

(** ** Lemmas: the specification *)

Definition is_node (regs : list Registration) (q : list string) : Prop :=
  ∃ r, r ∈ regs ∧ q `prefix_of` segments r.

Lemma is_node_snoc regs r q : is_node (regs ++ [r]) q ↔ is_node regs q ∨ q `prefix_of` segments r.
Proof. unfold is_node. set_solver. Qed.

Lemma is_node_one r q : is_node [r] q ↔ q `prefix_of` segments r.
Proof. unfold is_node. set_solver. Qed.

Lemma table_snoc regs r q :
  table (regs ++ [r]) q = table regs q ∪ (if decide (segments r = q) then {[ on r := endpoint r ]} else ∅).
Proof.
  induction regs as [|r' regs IH]; cbn.
  - rewrite (left_id_L ∅ (∪)). done.
  - rewrite IH. destruct (decide (segments r' = q)); [|done]. by rewrite insert_union_l.
Qed.

Lemma table_empty regs q : ¬ is_node regs q → table regs q = ∅.
Proof.
  intros Hq. induction regs as [|r regs IH]; [done|]. cbn.
  rewrite decide_False; [apply IH|].
  - intros (r' & Hr' & Hp). apply Hq. exists r'. split; [by right|done].
  - intros <-. apply Hq. exists r. split; [by left|done].
Qed.

Lemma next_after_prefix q l x : next_after q l = Some x ↔ (q ++ [x])%list `prefix_of` l.
Proof.
  revert l. induction q as [|y q IH]; intros [|z l]; cbn.
  - split; [done|]. by intros ?%prefix_nil_not.
  - split; [intros [= ->]; apply prefix_cons, prefix_nil|]. by intros ->%prefix_cons_inv_1.
  - split; [done|]. by intros ?%prefix_nil_not.
  - destruct (decide (y = z)) as [->|Hne].
    + rewrite IH. split; [apply prefix_cons|apply prefix_cons_inv_2].
    + split; [done|]. by intros ?%prefix_cons_inv_1.
Qed.

Lemma nexts_snoc regs r q :
  nexts (regs ++ [r]) q =
  match next_after q (segments r) with Some x => add_new (nexts regs q) x | None => nexts regs q end.
Proof.
  unfold nexts, firsts. rewrite omap_app, foldl_app. cbn. by destruct (next_after q (segments r)).
Qed.

Lemma elem_of_firsts l x : x ∈ firsts l ↔ x ∈ l.
Proof.
  induction l as [|y l IH] using rev_ind; [done|].
  unfold firsts in *. rewrite foldl_app. cbn. unfold add_new at 1. case_bool_decide; set_solver.
Qed.

Lemma elem_of_nexts regs q x : x ∈ nexts regs q ↔ is_node regs (q ++ [x])%list.
Proof.
  unfold nexts, is_node. rewrite elem_of_firsts, list_elem_of_omap.
  by setoid_rewrite next_after_prefix.
Qed.

Lemma is_node_prefix regs q q' : is_node regs (q ++ q')%list → is_node regs q.
Proof.
  intros (r & Hr & Hq). exists r. split; [done|]. etrans; [by apply prefix_app_r|done].
Qed.

Lemma nexts_empty regs q : ¬ is_node regs q → nexts regs q = [].
Proof.
  intros Hq. destruct (nexts regs q) as [|x l] eqn:E; [done|]. exfalso. apply Hq.
  apply (is_node_prefix regs q [x]), elem_of_nexts. rewrite E. by left.
Qed.

(** Below the deepest pattern there is nothing. *)
Lemma nexts_deep regs q : (depth regs ≤ length q)%nat → nexts regs q = [].
Proof.
  intros Hd. destruct (nexts regs q) as [|x l] eqn:E; [done|]. exfalso.
  assert (x ∈ nexts regs q) as (r & Hr & Hp%prefix_length)%elem_of_nexts by (rewrite E; by left).
  rewrite length_app in Hp. cbn in Hp. assert (length (segments r) ≤ depth regs)%nat; [|lia].
  clear -Hr. induction regs as [|r' regs IH]; [by apply elem_of_nil in Hr|]. cbn.
  apply elem_of_cons in Hr as [->|Hr]; [lia|]. specialize (IH Hr). unfold depth in IH. lia.
Qed.

(** ** Lemmas: the trie of the registrations *)

(** What the builder has at a path, by the registrations. *)
Definition stands_for (regs : list Registration) (q : list string) (o : option Route) : Prop :=
  match o with
  | Some n => is_node regs q ∧ middlewares n = [] ∧ route_state n = None ∧
      handlers n = table regs q ∧ path <$> kids n = nexts regs q
  | None => ¬ is_node regs q
  end.

Record app_root (ms : list MiddleWare) (regs : list Registration) (root : Route) : Prop := AppRoot {
  ar_built : Built root;
  ar_create : create_path root = "";
  ar_path : path root = "";
  ar_handlers : handlers root = ∅;
  ar_mws : middlewares root = ms;
  ar_state : route_state root = Some State_new;
  ar_session : session_set root = false;
  ar_kids : path <$> kids root = nexts regs [];
  ar_at q : q ≠ [] → stands_for regs q (route_at root q);
}.

Lemma nexts_one r q : nexts [r] q = option_list (next_after q (segments r)).
Proof. change [r] with ([] ++ [r])%list. rewrite nexts_snoc. by destruct (next_after _ _). Qed.

Lemma chain_kids m h p segs r :
  Chain m h (p :: segs) r → path r = p ∧ path <$> kids r = option_list (next_after [] segs).
Proof.
  intros (Hp & _ & _ & [(-> & -> & _)|(_ & _ & c & -> & Hc)])%Chain_inv; [done|]. split; [done|].
  destruct segs as [|q segs]; [by inversion Hc|]. apply Chain_inv in Hc as (Hq & _). cbn. by rewrite Hq.
Qed.

Lemma chain_offers m h segs : ∀ r q,
  Chain m h segs r → q ≠ [] → stands_for [mkReg segs m h] q (offers r q).
Proof.
  induction segs as [|p segs IH]; intros r q Hc Hq; [by inversion Hc|].
  pose proof (chain_kids _ _ _ _ _ Hc) as [_ Hkids].
  apply Chain_inv in Hc as (Hp & Hm & Hs & Hrest). destruct q as [|x q]; [done|]. cbn [offers].
  assert (∀ q, ¬ is_node [mkReg segs m h] q → ¬ is_node [mkReg (p :: segs) m h] (p :: q)) as Hno.
  { intros q'. rewrite !is_node_one. by intros Hn ?%prefix_cons_inv_2. }
  case_decide as E; [|cbn; rewrite is_node_one; intros ?%prefix_cons_inv_1; cbn in *; congruence].
  rewrite Hp in E. subst x. destruct q as [|y q].
  - cbn [route_at]. unfold stands_for. rewrite is_node_one, nexts_one.
    split_and!; [apply prefix_cons, prefix_nil|done|done| |].
    + cbn. destruct Hrest as [(-> & _ & Hh)|(Hne & Hh & _)]; rewrite Hh; [by rewrite decide_True|].
      rewrite decide_False; [done|]. intros [=]. congruence.
    + cbn. by rewrite decide_True.
  - cbn [route_at]. destruct Hrest as [(-> & -> & _)|(Hne & _ & c & -> & Hc)].
    { change (lookup_kid [] y) with (@None Route). cbn [mbind option_bind stands_for].
      apply Hno. rewrite is_node_one. apply prefix_nil_not. }
    specialize (IH c (y :: q) Hc ltac:(done)). rewrite lookup_kid_cons. cbn [offers] in IH.
    destruct (decide (path c = y)) as [Ey|Ey]; [|by apply Hno]. change (lookup_kid [] y) with (@None Route).
    cbn [mbind option_bind]. destruct (route_at c q) as [n|]; [|by apply Hno].
    destruct IH as (H1 & H2 & H3 & H4 & H5). unfold stands_for in *. rewrite nexts_one, is_node_one in *.
    split_and!; [by apply prefix_cons|done|done| |].
    + rewrite H4. cbn. by repeat case_decide; congruence.
    + rewrite H5. cbn [segments next_after]. by rewrite (decide_True (P := p = p)).
Qed.

(** The children of a merge, in order. *)
Lemma merged_kids l new x :
  Forall route_ok l → Forall route_ok new → path <$> new = option_list x →
  path <$> foldl merge_child l new = match x with Some x => add_new (path <$> l) x | None => path <$> l end.
Proof.
  intros Hl Hn Hx. destruct x as [x|]; cbn in Hx.
  - destruct new as [|c [|]]; try done. injection Hx as <-. apply Forall_cons in Hn as [Hc _]. cbn.
    unfold merge_child, add_new. rewrite merge_child_by_path; [done| |done..].
    intros c'. by rewrite merge_from_eq.
  - by destruct new.
Qed.

Lemma stands_for_merged regs r q a b :
  (∀ n, a = Some n → route_ok n) → (∀ n, b = Some n → route_ok n) →
  stands_for regs q a → stands_for [r] q b → stands_for (regs ++ [r]) q (merged a b).
Proof.
  intros Ha Hb. unfold stands_for.
  assert (table [r] q = if decide (segments r = q) then {[ on r := endpoint r ]} else ∅) as Ht by done.
  destruct a as [a|], b as [b|]; cbn [merged]; rewrite is_node_snoc, ?table_snoc, ?nexts_snoc, <- ?Ht,
    is_node_one, ?nexts_one.
  - intros (H1 & H2 & H3 & H4 & H5) (_ & H6 & H7 & H8 & H9). rewrite merge_from_eq. cbn.
    rewrite or_insert_all_union, H2, H6, H3, H7, H4, H8, <-H5. split_and!; [by left|done..|].
    pose proof (route_ok_inv _ (Ha a eq_refl)) as (_&_&_&_&?).
    pose proof (route_ok_inv _ (Hb b eq_refl)) as (_&_&_&_&?). by apply merged_kids.
  - intros (H1 & H2 & H3 & H4 & H5) Hn. split_and!; [by left|done|done| |].
    + by rewrite (table_empty [r] q), (right_id_L ∅ (∪)) by by rewrite is_node_one.
    + destruct (next_after q (segments r)) as [x|] eqn:E; [|done]. exfalso. apply Hn.
      apply next_after_prefix in E. etrans; [by apply prefix_app_r|done].
  - intros Hn (H1 & H2 & H3 & H4 & H5). rewrite (table_empty regs q), (left_id_L ∅ (∪)) by done.
    split_and!; [by right|done..|]. rewrite H5, nexts_empty by done. by destruct (next_after _ _).
  - tauto.
Qed.

Lemma route_at_ok q : ∀ r n, route_ok r → route_at r q = Some n → route_ok n.
Proof.
  induction q as [|x q IH]; intros r n Hr; cbn; [by intros [= <-]|].
  destruct (lookup_kid (kids r) x) as [c|] eqn:E; [|done]. cbn. apply IH.
  exact (proj1 (route_ok_kid _ _ _ Hr E)).
Qed.

Lemma offers_ok r q n : route_ok r → offers r q = Some n → route_ok n.
Proof. destruct q as [|x q]; cbn; [done|]. case_decide; [|done]. by apply route_at_ok. Qed.

Lemma register_one ms regs root r :
  app_root ms regs root → reg_ok r →
  ∃ c root', handler (Route_new (path_of (segments r))) (on r) (endpoint r) = Ret c ∧
    Route_append root c = Ret root' ∧ app_root ms (regs ++ [r]) root'.
Proof.
  intros [B1 B2 B3 B4 B5 B6 B7 B8 B9] (Hne & Hf & Hu).
  destruct (pattern_route (on r) (endpoint r) (segments r) (String.length (path_of (segments r)))
    (path_of (segments r))) as (c & Hc & Hch); [done|done| |done|].
  { by apply trim_start_id, path_of_no_leading. }
  assert (Built c) as Bc by (eapply Built_handler, Hc; by apply Built_new).
  assert (Route_append root c = Ret (append_route root c)) as Ha.
  { unfold Route_append. rewrite B2. by destruct root. }
  pose proof (Built_ok _ B1) as Hrok. pose proof (Built_ok _ Bc) as Hcok.
  exists c, (append_route root c). split_and!; [done|done|].
  constructor; try done; [exact (Built_append _ _ _ B1 Bc Ha)| |].
  - pose proof (route_ok_inv _ Hrok) as (_&_&_&_&?). rewrite nexts_snoc, <-B8.
    apply (merged_kids (kids root) [c] (next_after [] (segments r))); [done|by apply Forall_singleton|].
    destruct (segments r) as [|x q]; [done|]. by destruct (chain_kids _ _ _ _ _ Hch) as [<- _].
  - intros q Hq. rewrite route_at_append by done.
    apply stands_for_merged; [by intros n; apply route_at_ok|by intros n; apply offers_ok|by apply B9|].
    destruct r as [segs m h]. by apply chain_offers.
Qed.

Lemma register_all ms regs : ∀ done root,
  app_root ms done root → Forall reg_ok regs →
  ∃ root', register root regs = Ret root' ∧ app_root ms (done ++ regs) root'.
Proof.
  induction regs as [|r regs IH]; intros done root Hr Hf.
  { exists root. by rewrite app_nil_r. }
  apply Forall_cons in Hf as [H1 Hf].
  destruct (register_one ms done root r Hr H1) as (c & root1 & Hc & Ha & Hr1). cbn [register].
  rewrite Hc. cbn [mbind outcome_bind]. rewrite Ha. cbn [mbind outcome_bind].
  destruct (IH _ _ Hr1 Hf) as (root' & -> & Hr'). exists root'. by rewrite <-app_assoc in Hr'.
Qed.

Lemma app_root_new ms : app_root ms [] (foldl hook new_root ms).
Proof.
  pose proof (hooked_root_built ms) as Hb. rewrite hooked_root in *.
  constructor; try done. intros [|x q] Hq; [done|]. intros (r & Hr & _). by apply elem_of_nil in Hr.
Qed.
End app.
