(* ===== verification/App.v ===== *)
(** * An application of many routes

    The composition of the whole request path for an application that
    registers any number of patterns: the trie the builder makes ([AppSpec]),
    its conversion and search ([Route], [RouteTree]), the captures
    ([RouteSeg]), the service ([Service]) and HTTP/3 ([QuicConn]).  The theorem
    is stated over the list of registrations alone; the tree never appears in
    it. *)

From S2P Require Import Prelude Str Platform Ext State Error PathParam Body Message Next Cookies Addr RouteSeg RouteTree Route Service Served Quic QuicFlow QuicConn AppSpec.

Section app.
Context {P : Platform} {T : Ipv6Text} {C : CookieCrate P}.
Context {L : PlatformLaws P} {TL : Ipv6Laws T}.

(** ** Lemmas: one node *)

Lemma parse_static x v : utf8 x = true → parse_special_seg x = Ret (SegStatic v) → v = x.
Proof. intros Hu E. destruct (parse_special_seg_total x Hu) as (k & Hk & _ & Hv). by apply Hv; congruence. Qed.

(** Being the last node matters to the root only. *)
Lemma seg_remain_childless k nc s :
  k ≠ SegRoot → seg_remain k nc s = seg_remain k false s.
Proof. by destruct k. Qed.

Lemma parse_not_root x : utf8 x = true → x ≠ "" → parse_special_seg x ≠ Ret SegRoot.
Proof.
  intros Hu Hx. unfold parse_special_seg. rewrite bool_decide_eq_false_2 by done.
  destruct (_ && _); [|done]. by destruct (SpecialPath_from x) as [[]|].
Qed.

(** A bound parameter and what it reads as. *)
Definition reads_at (addr : Z) (kp kv : string * PathParam) : Prop :=
  kp.1 = kv.1 ∧ ((empty_lit <= addr)%Z → to_owned kp.2 = Ret kv.2).

Lemma reads_at_binds addr l vs : Forall2 (reads_at addr) l vs → binds addr l vs.
Proof.
  intros H req key. apply (set_params_rel (λ c v, (empty_lit <= addr)%Z → to_owned c = Ret v)).
  exact H.
Qed.

(** What a visited node binds does not depend on the request. *)
Lemma bind_node_list full t pre s rest :
  tree_ok t → txt full = pre +:+ s → utf8 s = true → node_remain t s = Some rest →
  ∃ l, (∀ req, bind_node full t s req = set_params l req) ∧
    Forall2 (reads_at (ptr full)) l (option_list (seg_param (segment t) s)).
Proof.
  intros Hok Hf Hu Hr. assert (seg_utf8 (segment t)) as Hs by by destruct Hok.
  destruct (call_path_only_spec (segment t) (childless t) (slice_at full s) full Hu Hs) as (o & Ho & Hm).
  unfold node_remain in Hr. cbn [txt slice_at] in Hm. rewrite Hr in Hm. destruct o as [m|]; [|done].
  destruct (bind_params_list (segment t) (childless t) (slice_at full s) full m) as (l & Hb & Hl);
    [by eapply suffix_slice_at|done|done|].
  exists l. split.
  - intros req. unfold bind_node, tree_path_only. unfold childless in Ho. by rewrite Ho, Hb.
  - eapply Forall2_impl; [exact Hl|]. intros kp kv [H1 H2]. split; [done|]. intros Hlit. apply H2. by right.
Qed.

(** A node that was reached with its text used up, or that takes any text. *)
Lemma call_here_answer t full s hs :
  rt_handler t = hs → has_handler t = negb (bool_decide (hs = ∅)) →
  s = "" ∨ is_full_path (segment t) = true →
  call_here t (slice_at full s) = answer hs.
Proof.
  intros Hh Hhas Hs. apply functional_extensionality_dep. intros req.
  unfold call_here, answer, call_handler. rewrite Hhas, Hh. cbn [txt slice_at].
  destruct Hs as [->| ->]; [|case_bool_decide]; case_bool_decide; done.
Qed.

(** ** Lemmas: searching a list of candidates *)

Lemma first_some_app {A B} (f : A → option B) l l' :
  first_some f (l ++ l')%list = match first_some f l with Some y => Some y | None => first_some f l' end.
Proof. induction l as [|x l IH]; [done|]. cbn. by destruct (f x). Qed.

Definition child_search (t : RouteTree) (s : string) (i : nat) : option (list RouteTree) :=
  match children t !! i with
  | Some c => node_remain c s ≫= λ r, cons c <$> dfs c r
  | None => None
  end.

Lemma first_trail_some t s cands :
  first_trail (map (λ c, (c, dfs c)) (children t)) s cands = first_some (child_search t s) cands.
Proof.
  induction cands as [|i cands IH]; [done|]. cbn. rewrite IH, list_lookup_fmap. unfold child_search.
  by destruct (children t !! i).
Qed.

Section walk.
Context (regs : list Registration) (root : Route).
Context (Hroot : ∀ q, q ≠ [] → stands_for regs q (route_at root q)) (Hregs : Forall reg_ok regs).

(** The tree node that stands at a path of the registrations. *)
Record located (q : list string) (r : Route) (t : RouteTree) : Prop := Located {
  loc_at : route_at root q = Some r;
  loc_conv : Converts r t;
  loc_route_ok : route_ok r;
  loc_tree_ok : tree_ok t;
  loc_indexed : indexed t;
  loc_ordered : ordered t;
  loc_handlers : handlers r = table regs q;
  loc_kids : path <$> kids r = nexts regs q;
}.

(** A node below the root: what it was parsed from, and that it adds nothing
    but a parameter. *)
Record child_node (x : string) (c : RouteTree) : Prop := ChildNode {
  cn_parse : parse_special_seg x = Ret (segment c);
  cn_not_root : segment c ≠ SegRoot;
  cn_static v : segment c = SegStatic v → v = x;
  cn_mws : node_middlewares c = [];
  cn_state : rt_state c = None;
}.

Lemma nexts_nonempty q x : x ∈ nexts regs q → x ≠ "".
Proof.
  intros (r & Hr & [q' Hq])%elem_of_nexts. rewrite Forall_forall in Hregs.
  destruct (Hregs r Hr) as (_ & Hf & _). rewrite Hq in Hf.
  apply Forall_app in Hf as [[_ Hf]%Forall_app _]. apply Forall_cons in Hf as [Hf _].
  by apply simple_segment_inv in Hf as [? _].
Qed.

Lemma located_kid q r t rc c :
  located q r t → rc ∈ kids r → c ∈ children t → Converts rc c →
  located (q ++ [path rc])%list rc c ∧ child_node (path rc) c.
Proof.
  intros [A1 A2 A3 A4 A5 A6 A7 A8] Hrc Hc Hcc. pose proof (route_ok_inv _ A3) as (_&_&_&Hd&Hk).
  rewrite Forall_forall in Hk. specialize (Hk rc Hrc).
  assert (route_at root (q ++ [path rc]) = Some rc) as Hat.
  { rewrite route_at_app, A1. cbn. by rewrite (lookup_kid_in _ _ Hd Hrc). }
  pose proof (Hroot (q ++ [path rc])%list ltac:(by destruct q)) as Hs.
  rewrite Hat in Hs. destruct Hs as (Hn & Hm & Hst & Hh & Hkids).
  pose proof (route_ok_inv _ Hk) as (Hu&_). split.
  - constructor; try done.
    + inversion_clear A4 as [? _ _ _ _ _ H]. rewrite Forall_forall in H. by apply H.
    + inversion_clear A5 as [? _ H]. rewrite Forall_forall in H. by apply H.
    + inversion_clear A6 as [? _ H]. rewrite Forall_forall in H. by apply H.
  - destruct Hcc as [rc c C1 C2 C3 C4 C5 C6]. constructor; try congruence.
    + intros E. rewrite E in C1. revert C1. apply parse_not_root; [done|].
      by eapply nexts_nonempty, elem_of_nexts.
    + intros v E. rewrite E in C1. by apply parse_static in C1.
Qed.

(** The children of a node and the segments that follow its prefix, position
    by position. *)
Definition stands_below (q : list string) (c : RouteTree) (x : string) : Prop :=
  child_node x c ∧ ∃ rc, located (q ++ [x])%list rc c.

Lemma located_children q r t : located q r t → Forall2 (stands_below q) (children t) (nexts regs q).
Proof.
  intros Hl. rewrite <-(loc_kids _ _ _ Hl). pose proof (loc_conv _ _ _ Hl) as Hc.
  inversion Hc as [? ? _ _ _ _ _ Hk]; subst. apply Forall2_fmap_r, Forall2_same_length_lookup.
  split; [by rewrite (Forall2_length _ _ _ Hk)|]. intros i c rc Hci Hrc.
  destruct (Forall2_lookup_l _ _ _ _ _ Hk Hrc) as (c' & Hc' & Hcc). simplify_eq.
  destruct (located_kid q r t rc c Hl) as [H1 H2]; [by eapply list_elem_of_lookup_2..|done|].
  split; [done|]. by exists rc.
Qed.

Lemma nexts_nodup q r t : located q r t → NoDup (nexts regs q).
Proof. intros Hl. rewrite <-(loc_kids _ _ _ Hl). by destruct (loc_route_ok _ _ _ Hl). Qed.

(** What one search finds and what the specification picks. *)
Definition agrees (full : Slice) (q : list string) (t : RouteTree) (s : string)
    (trail : option (list RouteTree)) (found : option (list string * list (string * PathParam))) : Prop :=
  match trail, found with
  | Some trail, Some (q', vs) =>
      ∃ l, Forall2 (reads_at (ptr full)) l vs ∧
        run_trail full t s trail = (λ req, answer (table regs (q ++ q')%list) (set_params l req))
  | None, None => True
  | _, _ => False
  end.

Lemma agrees_or full q t s a b a' b' :
  agrees full q t s a b → agrees full q t s a' b' →
  agrees full q t s (match a with Some y => Some y | None => a' end)
    (match b with Some y => Some y | None => b' end).
Proof. by destruct a, b as [[]|]. Qed.

(** Stopping at a node. *)
Lemma here_agrees full q r t s :
  located q r t →
  agrees full q t s (if bool_decide (s = "") || is_full_path (segment t) then Some [] else None)
    (if bool_decide (s = "") || is_full_path (segment t) then Some ([], []) else None).
Proof.
  intros Hl. destruct (bool_decide (s = "") || is_full_path (segment t)) eqn:E; [|done].
  exists []. split; [done|]. rewrite app_nil_r. pose proof (loc_handlers _ _ _ Hl) as Hh.
  destruct (loc_conv _ _ _ Hl) as [r t C1 C2 C3 C4 C5 C6]. cbn [run_trail set_params foldl].
  apply call_here_answer; [by rewrite C2|by rewrite C3, Hh|].
  by apply orb_true_iff in E as [?%bool_decide_eq_true|?]; [left|right].
Qed.

(** Lists of candidates that agree one by one agree as a whole. *)
Lemma first_some_agrees full q t s (f : nat → option (list RouteTree)) (g : string → _) idxs xs :
  Forall2 (λ i x, agrees full q t s (f i) (g x)) idxs xs →
  agrees full q t s (first_some f idxs) (first_some g xs).
Proof.
  induction 1 as [|i x idxs xs H _ IH]; [done|]. by apply agrees_or.
Qed.

(** One candidate: the child takes its part of the text, and the rest agrees. *)
Lemma child_agrees full pre q t s c x below :
  stands_below q c x → txt full = pre +:+ s → utf8 s = true →
  (∀ rest, utf8 rest = true → (∃ p, s = p +:+ rest) →
     agrees full (q ++ [x])%list c rest (dfs c rest) (below (is_full_path (segment c)) rest)) →
  agrees full q t s (node_remain c s ≫= λ r, cons c <$> dfs c r) (pick_child s x below).
Proof.
  intros [[N1 N2 N3 N4 N5] [rc Hl]] Hfull Hu Hb. unfold pick_child. rewrite N1.
  rewrite <-(seg_remain_childless (segment c) (childless c)) by done.
  change (seg_remain (segment c) (childless c) s) with (node_remain c s).
  destruct (node_remain c s) as [rest|] eqn:Hrem; [|done]. cbn [mbind option_bind].
  pose proof (loc_tree_ok _ _ _ Hl) as Hok.
  assert (seg_utf8 (segment c)) as Hsu by by destruct Hok.
  specialize (Hb rest ltac:(by eapply node_remain_utf8) (seg_remain_suffix _ _ _ _ Hrem)).
  destruct (dfs c rest) as [trail|], (below _ rest) as [[q' vs]|]; cbn in Hb |- *; try done.
  destruct Hb as (l & Hlv & Hrun).
  destruct (bind_node_list full c pre s rest) as (l1 & Hb1 & Hl1); [done..|].
  exists (l1 ++ l)%list. split; [by apply Forall2_app|].
  apply functional_extensionality_dep. intros req.
  rewrite N4, Hrem. cbn [onion default from_option id]. unfold enter_state. rewrite N5, Hb1, Hrun.
  by rewrite set_params_app, <-app_assoc.
Qed.

(** The parameters among the children, in their order. *)
Lemma dynamic_agree (R : nat → string → Prop) q cs xs : ∀ i,
  Forall2 (stands_below q) cs xs →
  (∀ j c x, cs !! j = Some c → xs !! j = Some x → R (i + j)%nat x) →
  Forall2 R (dynamic_from i cs) (filter (λ x, is_plain x = false) xs).
Proof.
  intros i H. revert i. induction H as [|c x cs xs [[N1 _ _ _ _] _] _ IH]; intros i HR; [constructor|].
  assert (is_plain x = match segment c with SegStatic _ => true | _ => false end) as Hp
    by (unfold is_plain; by rewrite N1).
  cbn [dynamic_from]. rewrite filter_cons.
  assert (∀ j c x, cs !! j = Some c → xs !! j = Some x → R (S i + j)%nat x) as HR'.
  { intros j c' x' H1 H2. replace (S i + j)%nat with (i + S j)%nat by lia. by eapply HR. }
  pose proof (HR 0%nat c x eq_refl eq_refl) as H0. rewrite Nat.add_0_r in H0.
  destruct (segment c); cbn [as_static_key];
    (rewrite decide_True by done; by constructor; [|apply IH]) ||
    (rewrite decide_False by congruence; by apply IH).
Qed.

(** The plain child named by the text, if there is one. *)
Lemma static_agree full q r t s (f : nat → option (list RouteTree)) g :
  located q r t →
  (∀ i c x, children t !! i = Some c → nexts regs q !! i = Some x → agrees full q t s (f i) (g x)) →
  agrees full q t s
    (first_some f (match static_children t !! fst (first_segment s) with Some i => [i] | None => [] end))
    (first_some g (filter (λ x, is_plain x = true ∧ x = fst (first_segment s)) (nexts regs q))).
Proof.
  intros Hl Hfg. set (v := fst (first_segment s)).
  pose proof (located_children q r t Hl) as Hch. pose proof (nexts_nodup q r t Hl) as Hnd.
  destruct (loc_ordered _ _ _ Hl) as [t [_ Hst] _]. destruct (loc_indexed _ _ _ Hl) as [t Hix _].
  destruct (static_children t !! v) as [i|] eqn:Ei.
  - destruct (Hst v i Ei) as (c & Hc & Hseg).
    destruct (Forall2_lookup_l _ _ _ _ _ Hch Hc) as (x & Hx & [N1 _ N3 _ _] & _).
    assert (v = x) as Hvx by by apply N3. subst x.
    assert (filter (λ x, is_plain x = true ∧ x = v) (nexts regs q) = [v]) as ->.
    { apply filter_one; [done|by eapply list_elem_of_lookup_2|]. unfold is_plain. by rewrite N1, Hseg. }
    apply first_some_agrees. constructor; [|constructor]. by eapply Hfg.
  - assert (filter (λ x, is_plain x = true ∧ x = v) (nexts regs q) = []) as ->; [|done].
    apply filter_nil_2. intros x [j Hx]%list_elem_of_lookup [Hp ->].
    destruct (Forall2_lookup_r _ _ _ _ _ Hch Hx) as (c & Hc & [N1 _ N3 _ _] & _).
    unfold is_plain in Hp. rewrite N1 in Hp. specialize (Hix j c Hc).
    destruct (segment c) as [|v'| | | | | | | | |] eqn:Es; try done.
    destruct Hix as (_ & _ & Hix). rewrite (N3 v' eq_refl) in Hix. congruence.
Qed.

(** A plain segment takes nothing of an exhausted text. *)
Lemma static_children_stop t i :
  indexed t → ordered t → i ∈ hash_order (static_children t) → child_search t "" i = None.
Proof.
  intros Hx Ho Hi. destruct Ho as [t [_ Hst] _]. inversion Hx as [? Hix _]; subst. rewrite hash_order_perm in Hi.
  apply list_elem_of_fmap in Hi as ([v i'] & -> & Hv%elem_of_map_to_list). cbn.
  destruct (Hst v i' Hv) as (c & Hc & Hseg). unfold child_search. rewrite Hc.
  specialize (Hix i' c Hc). rewrite Hseg in Hix. destruct Hix as (Hne & Hns & _).
  unfold node_remain. rewrite Hseg. cbn. destruct (static_remain v "") as [rest|] eqn:E; [|done].
  by apply static_remain_first in E.
Qed.

Lemma first_some_none {A B} (f : A → option B) l : (∀ x, x ∈ l → f x = None) → first_some f l = None.
Proof.
  intros Hf. induction l as [|x l IH]; [done|]. cbn. rewrite (Hf x) by left.
  apply IH. intros y Hy. apply Hf. by right.
Qed.

Lemma children_agree full q r t s (g : string → _) :
  located q r t →
  (∀ i c x, children t !! i = Some c → nexts regs q !! i = Some x →
     agrees full q t s (child_search t s i) (g x)) →
  agrees full q t s (first_some (child_search t s) (cands_of t s))
    (first_some g (candidates s (nexts regs q))).
Proof.
  intros Hl Hfg. pose proof (located_children q r t Hl) as Hch.
  pose proof (loc_ordered _ _ _ Hl) as Ho. pose proof (loc_indexed _ _ _ Hl) as Hi.
  assert (agrees full q t s (first_some (child_search t s) (dynamic_children t))
    (first_some g (filter (λ x, is_plain x = false) (nexts regs q)))) as Hdyn.
  { assert (dynamic_children t = dynamic_from 0 (children t)) as -> by by destruct Ho as [? [? _] _].
    apply first_some_agrees. by eapply dynamic_agree. }
  pose proof (static_agree full q r t s _ g Hl Hfg) as Hst.
  unfold cands_of, candidates. rewrite !first_some_app. case_bool_decide as Hs.
  - subst s. rewrite first_some_app, (first_some_none (child_search t "") (hash_order _))
      by (intros i; by apply static_children_stop).
    assert (filter (λ x, is_plain x = true ∧ x = fst (first_segment "")) (nexts regs q) = []) as ->; [|done].
    apply filter_nil_2. intros x Hx [_ E]. by apply nexts_nonempty in Hx.
  - rewrite first_some_app. by apply agrees_or.
Qed.

(** The search of the tree picks what the specification picks. *)
Lemma search_picks full fuel : ∀ t q r s pre,
  located q r t → (depth regs ≤ fuel + length q)%nat → txt full = pre +:+ s → utf8 s = true →
  agrees full q t s (dfs t s) (pick fuel regs q (is_full_path (segment t)) s).
Proof.
  induction fuel as [|fuel IH]; intros t q r s pre Hl Hd Hfull Hu.
  all: assert (agrees full q t s (if bool_decide (s = "") || is_full_path (segment t) then Some [] else None)
    (if bool_decide (s = "") || is_full_path (segment t) then Some ([], []) else None)) as Hhere
    by by apply here_agrees with r.
  all: rewrite dfs_unfold, first_trail_some; cbn [pick].
  - assert (first_some (child_search t s) (cands_of t s) = None) as ->; [|done].
    apply first_some_none. intros i _. unfold child_search.
    pose proof (Forall2_length _ _ _ (located_children q r t Hl)) as Hlen.
    rewrite nexts_deep in Hlen by (cbn in Hd; lia). apply nil_length_inv in Hlen. by rewrite Hlen.
  - assert (agrees full q t s (first_some (child_search t s) (cands_of t s))
      (first_some (λ x, pick_child s x (pick fuel regs (q ++ [x])%list)) (candidates s (nexts regs q))))
      as Hkids.
    { apply (children_agree _ _ r); [done|]. intros i c x Hc Hx. unfold child_search. rewrite Hc.
      pose proof (Forall2_lookup_lr _ _ _ _ _ _ (located_children q r t Hl) Hc Hx) as Hcx.
      pose proof Hcx as (_ & rc & Hlc).
      apply (child_agrees full pre); [done..|]. intros rest Hur [p Hp].
      apply (IH c (q ++ [x])%list rc rest (pre +:+ p)); [done| | |done].
      - rewrite length_app. cbn. lia.
      - by rewrite Hfull, Hp, str_app_assoc. }
    by apply agrees_or.
Qed.
End walk.

(** ** Lemmas: the root *)

Lemma table_root regs : Forall reg_ok regs → table regs [] = ∅.
Proof.
  induction 1 as [|r regs (Hne & _) _ IH]; [done|]. cbn. by rewrite decide_False.
Qed.

Lemma nexts_first r regs : reg_ok r → nexts (r :: regs) [] ≠ [].
Proof.
  intros (Hne & _) E. destruct (segments r) as [|x q] eqn:Es; [done|].
  assert (x ∈ nexts (r :: regs) []) as Hx; [|rewrite E in Hx; by apply elem_of_nil in Hx].
  apply elem_of_nexts. exists r. split; [by left|]. rewrite Es. apply prefix_cons, prefix_nil.
Qed.

(** The root's search answers as the registrations say. *)
Lemma root_serves regs root t addr path :
  (∀ q, q ≠ [] → stands_for regs q (route_at root q)) → Forall reg_ok regs → regs ≠ [] →
  located regs root [] root t → Route.path root = "" → utf8 path = true →
  ∃ s, node_remain t path = Some s ∧
    serves regs addr path (run_trail (mkSlice addr path) t s (trail_below t s)).
Proof.
  intros Hroot Hregs Hne Hl Hp Hu. exists (rest_of path).
  assert (segment t = SegRoot) as Hseg.
  { destruct (loc_conv _ _ _ _ _ Hl) as [r t C1 C2 C3 C4 C5 C6]. rewrite Hp in C1. by injection C1. }
  assert (childless t = false) as Hkids.
  { apply bool_decide_eq_false. rewrite (Forall2_length _ _ _ (located_children _ _ Hroot Hregs [] root t Hl)).
    destruct regs as [|r regs]; [done|]. intros E%nil_length_inv. revert E. apply nexts_first. by inversion Hregs. }
  assert (∃ pre, path = pre +:+ rest_of path) as [pre Hpre].
  { unfold rest_of. case_bool_decide as E; [exists "/"|exists ""]; by rewrite ?E. }
  split.
  { unfold node_remain, rest_of. rewrite Hseg, Hkids. cbn. by rewrite andb_false_r. }
  pose proof (search_picks regs root Hroot Hregs (mkSlice addr path) (depth regs) t [] root (rest_of path) pre Hl)
    as Hag.
  rewrite Hseg in Hag. unfold serves, picked. cbn [is_full_path] in Hag.
  specialize (Hag ltac:(lia) Hpre ltac:(by unfold rest_of; case_bool_decide)).
  destruct (dfs t (rest_of path)) as [trail|] eqn:Hd,
    (pick (depth regs) regs [] false (rest_of path)) as [[q vs]|]; cbn in Hag; try done.
  - destruct Hag as (l & Hlv & Hrun). rewrite <-(dfs_trail_below _ _ _ Hd), Hrun.
    exists l. split; [by apply reads_at_binds|done].
  - rewrite dfs_unfold in Hd. destruct (first_trail _ _ _) as [|] eqn:E; [done|].
    unfold trail_below. rewrite E. cbn [default from_option run_trail].
    apply functional_extensionality_dep. intros req. unfold call_here. rewrite Hseg in Hd |- *.
    cbn [txt slice_at is_full_path andb orb] in Hd |- *. rewrite orb_false_r in Hd.
    by destruct (bool_decide (rest_of path = "")).
Qed.

(** ** Properties *)

(** C1: An application serves what it registers, over every transport.  Take
    any nonempty list of registrations, in any order and with any overlap,
    whose patterns are nonempty lists of nonempty segments (a pattern with an
    empty segment makes the builder panic, [Route.builder_panics_iff]).
    Hooking [ms] on the root and appending the routes
    [Route::new(pattern).method(handler)] builds without panic.  Every request,
    on an HTTP/1 or HTTP/2 connection or an HTTP/3 stream, from a peer whose
    address has a text the headers take, then runs inside the onion of the
    scheduler, cookie and session middlewares and [ms] what [picked] computes
    from the list of registrations and the path alone: not found if no
    pattern, nor a prefix of one, takes the path; else method dispatch over
    what was registered for exactly the pattern picked, first registration
    first, or not found if it is only a prefix.  The handler finds exactly the
    pattern's parameters, the last of a name winning.  Errors become responses,
    and an HTTP/1 or HTTP/2 connection gets the answer.  Over HTTP/3, in every
    run of the handler beside the reader of its body, the client gets the
    answer up to the first call the stream fails ([H3Answers]); a reader that
    failed keeps the answer back, and so does one that waits forever with more
    than eight items of an upload the answer still holds. *)
Theorem app_served sess ins max_body ms regs :
  Forall reg_ok regs → regs ≠ [] →
  ∃ root svc,
    register (foldl hook new_root ms) regs = Ret root ∧
    RouteConnectionService_new sess ins max_body root = Ret svc ∧
    ∀ peer addr p,
      utf8 (uri_path (p_uri p)) = true → peer_ok (RemoteAddr_from_socket peer) →
      ∃ served, serves regs addr (uri_path (p_uri p)) served ∧
      let answered req := onion (service_stack sess ins ms) served (at_root req) in
      (∀ b, ∃ req,
         set_remote (into_internal p (ReqBody_with_limit b max_body))
           (RemoteAddr_from_socket peer) = Ret req ∧
         handle_http_connection addr svc peer p b =
           (r ← answered req; mret (from_internal (response_or_error r)))) ∧
      (∀ receiver recvs items join, h3_run max_body recvs items join →
         fst (read_http3_body max_body 0 (length items) recvs) = items ∧
         (join = None → ∃ open, 8 < length (fst (read_http3_body max_body 0 open recvs)))%nat ∧
         ∃ req,
           set_remote (Request_from_parts p (ReqBody_from_stream (receiver items)))
             (RemoteAddr_from_socket peer) = Ret req ∧
           ∀ io size yb fuel, (match size with Some n => 0 < n | None => True end)%Z →
           ∃ out,
             handle_http3_request_impl (RouteTree_call addr (frozen_tree svc)) receiver p peer
               items join io size yb fuel = (r ← answered req; mret (out (response_or_error r))) ∧
             ∀ response, H3Answers join io size yb fuel response (out response)).
Proof.
  intros Hregs Hne.
  destruct (register_all ms regs [] _ (app_root_new ms) Hregs) as (root & Hreg & Hroot).
  destruct Hroot as [B1 B2 B3 B4 B5 B6 B7 B8 B9]. cbn [app] in B8, B9.
  destruct (service_dispatch sess ins max_body root) as (t & Hsvc & Hc & Hok & Hi & Ho & Hall); [done..|].
  eexists root, _. split_and!; [done..|]. intros peer addr p Hu Hpeer. rewrite B5 in *.
  set (root' := set_middlewares root _) in Hc.
  destruct (root_serves regs root' t addr (uri_path (p_uri p))) as (s & Hrem & Hs); try done.
  { intros q Hq. specialize (B9 q Hq). by destruct q. }
  { constructor; try done; [by apply route_ok_middlewares, Built_ok|].
    change (handlers root' = table regs []). by rewrite table_root. }
  eexists. split; [exact Hs|]. intros answered.
  assert (∀ req, uri req = p_uri p → RouteTree_call addr t req = answered req) as Hans.
  { intros req Huri. rewrite Hall, Huri, Hrem; [done|by rewrite Huri]. }
  split.
  - intros b. destruct (connection_answers t max_body peer addr p b Hpeer) as (req & Hreq & Huri & Hcall).
    exists req. split; [done|]. by rewrite Hcall, Hans.
  - intros receiver recvs items join Hj.
    destruct (h3_run_items _ _ _ _ Hj) as (Hitems & _ & Hwait). split_and!; [done|exact Hwait|].
    destruct (set_remote_total (Request_from_parts p (ReqBody_from_stream (receiver items))) _ Hpeer)
      as [hs Hh].
    eexists. split; [exact Hh|]. intros io size yb fuel Hsize.
    exists (h3_conclude join io size yb fuel).
    split; [|intros response; by apply h3_conclude_answers].
    unfold handle_http3_request_impl. by rewrite Hh, M_lift_ret, Hans.
Qed.
End app.

(** ** Witness

    [GET /users/me] and [GET /users/<id>], the parameter registered first, and
    a longer pattern below it: [/users/me] goes to its own handler, over both
    transports, and [/users/7] to the other. *)

Section examples.
Let handler_of (s : string) : Handler (P := Demo) := λ _, mret (Ok (text s)).
#[local] Existing Instance NoCookies.
Let pass : MiddleWare (P := Demo) := λ req next, next req.
Let peer := Tcp (T := LoopbackText) (V4 (10, 0, 0, 7)%Z 443).
Let get (path : string) : Parts (P := Demo) :=
  mkParts GET (mkUri path None) HTTP_11 hm_empty ext_empty.
Definition demo_regs : list (Registration (P := Demo)) :=
  [mkReg ["users"; "<id>"; "posts"] GET (handler_of "posts");
   mkReg ["users"; "<id>"] GET (handler_of "one");
   mkReg ["users"; "me"] GET (handler_of "me")].

Example demo_picked :
  picked demo_regs "/users/me" = Some (["users"; "me"], []) ∧
  picked demo_regs "/users/7" = Some (["users"; "<id>"], [("id", PStr (Owned "7"))]) ∧
  picked demo_regs "/users/me/posts" =
    Some (["users"; "<id>"; "posts"], [("id", PStr (Owned "me"))]) ∧
  picked demo_regs "/posts" = None.
Proof. by repeat split. Qed.

Lemma app_served_witness :
  ∃ root svc req l,
    register (foldl hook new_root []) demo_regs = Ret root ∧
    RouteConnectionService_new pass (λ e, e) None root = Ret svc ∧
    set_remote (into_internal (get "/users/7") (ReqBody_with_limit ReqEmpty None))
      (RemoteAddr_from_socket peer) = Ret req ∧
    handle_http_connection 1 svc peer (get "/users/7") ReqEmpty =
      (r ← onion [SchedulerMiddleware_handle (λ e, e); CookieMiddleware_handle; pass]
             (λ req, HandlerMap_call {[ GET := handler_of "one" ]} (set_params l req)) (at_root req);
       mret (from_internal (response_or_error r))) ∧
    ∀ q, ∃ c, path_params (set_params l q) !! "id" = Some c ∧ to_owned c = Ret (PStr (Owned "7")).
Proof.
  destruct (app_served (P := Demo) (T := LoopbackText) pass (λ e, e) None [] demo_regs)
    as (root & svc & H1 & H2 & H3); [repeat constructor; done|done|].
  destruct (H3 peer 1%Z (get "/users/7")) as (served & H4 & H5 & _); [reflexivity|done|].
  destruct (H5 ReqEmpty) as (req & H6 & H7).
  destruct H4 as (l & Hb & ->). exists root, svc, req, l.
  split_and!; [assumption..|exact H7|]. intros q. destruct (Hb q "id") as (c & Hc & Ho).
  exists c. split; [exact Hc|]. apply Ho. by vm_compute.
Defined.
End examples.
