(* ===== verification/Sockets.v ===== *)
(** * Listening sockets and the listeners around them
    (the sockets of silent/src/server/listener.rs and
    silent/src/server/quic/listener.rs)

    [ListenersBuilder::listen] over sockets with their blocking mode, which
    std's [bind] leaves on and tokio's conversion does not touch; the kinds of
    listener and the address each reports; the QUIC listener's TLS fallback
    and Alt-Svc header.  The system calls are parameters. *)

From S2P Require Import Prelude Str Platform State Error PathParam Body Message Next Addr Streams Listener Tls Quic QuicConn.

(** A file descriptor and its mode. *)
Record SockFd (Fd : Type) := mkSock { fd : Fd; nonblocking : bool }.
Arguments mkSock {Fd}.
Arguments fd {Fd}.
Arguments nonblocking {Fd}.

(** The system calls. *)
Class SocketApi (T : Ipv6Text) (TcpFd UnixFd IoError : Type) := {
  tcp_bind : NetAddr → result TcpFd IoError;
  unix_bind : string → result UnixFd IoError;
  sys_set_nonblocking : TcpFd → result () IoError;
  (** Registering with tokio's reactor. *)
  tcp_register : TcpFd → result () IoError;
  unix_register : UnixFd → result () IoError;
  tcp_local_addr : TcpFd → result NetAddr IoError;
  unix_local_addr : UnixFd → result (option string) IoError;
}.

(** [Listen], of which the builder keeps boxed values. *)
Class Listen (T : Ipv6Text) (IoError L : Type) := local_addr : L → result SocketAddr IoError.

Record BoxedListen (T : Ipv6Text) (IoError : Type) := Box {
  boxed : Type;
  boxed_listen : Listen T IoError boxed;
  boxed_value : boxed;
}.
Arguments Box {T IoError boxed boxed_listen}.

Definition boxed_local_addr {T IoError} (b : BoxedListen T IoError) : result SocketAddr IoError :=
  @local_addr _ _ _ (boxed_listen _ _ b) (boxed_value _ _ b).

Section sockets.
Context {T : Ipv6Text} {TcpFd UnixFd IoError : Type} {Sys : SocketApi T TcpFd UnixFd IoError}.

(** std's [bind] gives a socket in blocking mode, [from_std] registers the
    socket in the mode it is in. *)
Definition std_tcp_bind (a : NetAddr) : result (SockFd TcpFd) IoError :=
  s <-! tcp_bind a;; Ok (mkSock s false).
Definition std_unix_bind (p : string) : result (SockFd UnixFd) IoError :=
  s <-! unix_bind p;; Ok (mkSock s false).
Definition set_nonblocking (l : SockFd TcpFd) : result (SockFd TcpFd) IoError :=
  _ <-! sys_set_nonblocking (fd l);; Ok (mkSock (fd l) true).

Inductive Listener_ :=
| TcpListener (l : SockFd TcpFd)
| UnixListener (l : SockFd UnixFd).

(** [TryFrom<std::net::TcpListener>] *)
Definition try_from_tcp (l : SockFd TcpFd) : result Listener_ IoError :=
  l <-! set_nonblocking l;;
  _ <-! tcp_register (fd l);;
  Ok (TcpListener l).

(** [TryFrom<std::os::unix::net::UnixListener>] *)
Definition try_from_unix (l : SockFd UnixFd) : result Listener_ IoError :=
  _ <-! unix_register (fd l);;
  Ok (UnixListener l).

#[export] Instance Listener_listen : Listen T IoError Listener_ := λ l,
  match l with
  | TcpListener l => a <-! tcp_local_addr (fd l);; Ok (Tcp a)
  | UnixListener l => a <-! unix_local_addr (fd l);; Ok (Unix a)
  end.

(** ** TLS listeners *)

Section tls.
Context {TlsAcceptor : Type}.

Record TlsListener := mkTlsListener { tls_listener : Listener_; acceptor : TlsAcceptor }.
Record ReloadableTlsListener := mkReloadableListener {
  reloadable_listener : Listener_;
  listener_store : ReloadableCertificateStore;
}.

Definition listener_tls (l : Listener_) (a : TlsAcceptor) : TlsListener := mkTlsListener l a.

(** [config.unwrap()] panics when rustls refuses the certificate. *)
Definition tls_with_cert (acceptor_from : RustlsConfig → TlsAcceptor)
    (with_single_cert : list string → KeyDer → result () string)
    (l : Listener_) (cert : CertificateStore) : outcome TlsListener :=
  match https_config with_single_cert cert with
  | Ok config => Ret (listener_tls l (acceptor_from config))
  | Err _ => Panic
  end.

Definition tls_with_reloadable (l : Listener_) (s : ReloadableCertificateStore)
  : ReloadableTlsListener := mkReloadableListener l s.

#[export] Instance TlsListener_listen : Listen T IoError TlsListener := λ l,
  tls_local_addr (local_addr (tls_listener l)).
#[export] Instance ReloadableTlsListener_listen : Listen T IoError ReloadableTlsListener := λ l,
  tls_local_addr (local_addr (reloadable_listener l)).
End tls.
Arguments TlsListener : clear implicits.

(** ** The builder on sockets *)

Definition bind_tcp_listener (a : NetAddr) : result (BoxedListen T IoError) IoError :=
  l <-! std_tcp_bind a;; l <-! try_from_tcp l;; Ok (Box l).
Definition bind_unix_listener (p : string) : result (BoxedListen T IoError) IoError :=
  l <-! std_unix_bind p;; l <-! try_from_unix l;; Ok (Box l).

(** ["127.0.0.1:0"] *)
Definition DEFAULT_ADDR : NetAddr := V4 (127, 0, 0, 1)%Z 0.

Definition listen_sockets (now : Z)
    (b : ListenersBuilder (L := BoxedListen T IoError) (Addr := NetAddr) (Path := string))
  : result (Listeners (L := BoxedListen T IoError) (LocalAddr := SocketAddr)) IoError :=
  builder_listen bind_tcp_listener bind_unix_listener (bind_tcp_listener DEFAULT_ADDR)
    boxed_local_addr now b.

(** ** The QUIC listener and its fallback *)

Section quic.
Context {P : Platform} {Endpoint TlsAcceptor : Type}.
Context (endpoint_local_addr : Endpoint → result NetAddr IoError) (net_port : NetAddr → Z).

Record QuicEndpointListener := mkQuicListener { endpoint : Endpoint; quic_store : CertificateStore }.
Record HybridListener := mkHybrid { quic : QuicEndpointListener; http : TlsListener TlsAcceptor }.

#[export] Instance QuicEndpointListener_listen : Listen T IoError QuicEndpointListener := λ l,
  a <-! endpoint_local_addr (endpoint l);; Ok (Tcp a).
#[export] Instance HybridListener_listen : Listen T IoError HybridListener := λ l,
  local_addr (quic l).

Definition alt_svc_middleware (l : QuicEndpointListener) : outcome MiddleWare :=
  match endpoint_local_addr (endpoint l) with
  | Ok a => Ret (AltSvcMiddleware (net_port a))
  | Err _ => Panic
  end.

(** Every failure on the way panics. *)
Definition with_http_fallback (acceptor_from : RustlsConfig → TlsAcceptor)
    (with_single_cert : list string → KeyDer → result () string) (l : QuicEndpointListener)
  : outcome HybridListener :=
  match (a <-! endpoint_local_addr (endpoint l);; s <-! std_tcp_bind a;; try_from_tcp s) with
  | Ok s =>
      http ← tls_with_cert acceptor_from with_single_cert s (quic_store l);
      Ret (mkHybrid l http)
  | Err _ => Panic
  end.
End quic.

(** ** Lemmas *)

Lemma try_from_tcp_mode l s : try_from_tcp l = Ok s → s = TcpListener (mkSock (fd l) true).
Proof.
  unfold try_from_tcp, set_nonblocking, result_bind. destruct (sys_set_nonblocking _); [|done].
  cbn. destruct (tcp_register _); [|done]. by intros [= <-].
Qed.

Lemma try_from_unix_mode l s : try_from_unix l = Ok s → s = UnixListener l.
Proof. unfold try_from_unix, result_bind. destruct (unix_register _); [|done]. by intros [= <-]. Qed.

(** What binding an address adds: a socket that never blocks, or one that
    still does. *)
Definition tcp_entry (s : TcpFd) : BoxedListen T IoError := Box (TcpListener (mkSock s true)).
Definition unix_entry (s : UnixFd) : BoxedListen T IoError := Box (UnixListener (mkSock s false)).

Lemma bind_tcp_entry a l : bind_tcp_listener a = Ok l → ∃ s, tcp_bind a = Ok s ∧ l = tcp_entry s.
Proof.
  unfold bind_tcp_listener, std_tcp_bind, result_bind. destruct (tcp_bind a) as [s|] eqn:E; [|done].
  destruct (try_from_tcp _) as [k|] eqn:Ek; [|done]. apply try_from_tcp_mode in Ek as ->.
  intros [= <-]. by exists s.
Qed.

Lemma bind_unix_entry p l : bind_unix_listener p = Ok l → ∃ s, unix_bind p = Ok s ∧ l = unix_entry s.
Proof.
  unfold bind_unix_listener, std_unix_bind, result_bind. destruct (unix_bind p) as [s|] eqn:E; [|done].
  destruct (try_from_unix _) as [k|] eqn:Ek; [|done]. apply try_from_unix_mode in Ek as ->.
  intros [= <-]. by exists s.
Qed.

Lemma bind_all_map {A Fd : Type} (bind : A → result (BoxedListen T IoError) IoError)
    (sys : A → result Fd IoError) (entry : Fd → BoxedListen T IoError) addrs acc l :
  (∀ a l, bind a = Ok l → ∃ s, sys a = Ok s ∧ l = entry s) →
  bind_all bind addrs acc = Ok l →
  ∃ ss, Forall2 (λ a s, sys a = Ok s) addrs ss ∧ l = (acc ++ map entry ss)%list.
Proof.
  intros Hb. revert acc. induction addrs as [|a addrs IH]; cbn; intros acc.
  - intros [= <-]. exists []. by rewrite app_nil_r.
  - unfold result_bind. destruct (bind a) as [x|] eqn:E; [|done]. apply Hb in E as (s & Hs & ->).
    intros (ss & Hss & ->)%IH. exists (s :: ss). split; [by constructor|].
    by rewrite <-app_assoc.
Qed.

(** What [listen] hands to the server: the listeners it was given, a
    non-blocking socket per TCP address, or for the default one if there is
    nothing else, and per Unix path a socket still in blocking mode. *)
Lemma listen_sockets_spec now b ls :
  listen_sockets now b = Ok ls →
  ∃ ts us,
    listeners ls = (b_listeners b ++ map tcp_entry ts ++ map unix_entry us)%list ∧
    Forall2 (λ p s, unix_bind p = Ok s) (unix_paths b) us ∧
    Forall2 (λ a s, tcp_bind a = Ok s)
      (match b_listeners b, tcp_addrs b, unix_paths b with
       | [], [], [] => [DEFAULT_ADDR] | _, addrs, _ => addrs end) ts ∧
    local_addrs ls = omap (λ l, ok (boxed_local_addr l)) (listeners ls).
Proof.
  unfold listen_sockets, builder_listen, result_bind.
  destruct (bind_all _ (tcp_addrs b) _) as [l1|] eqn:E1; [|done].
  apply (bind_all_map _ tcp_bind tcp_entry) in E1 as (ts & Hts & ->); [|by apply bind_tcp_entry].
  destruct (bind_all _ (unix_paths b) _) as [l2|] eqn:E2; [|done].
  apply (bind_all_map _ unix_bind unix_entry) in E2 as (us & Hus & ->); [|by apply bind_unix_entry].
  rewrite <-app_assoc. destruct (b_listeners b ++ _)%list as [|x l] eqn:E.
  - apply app_nil in E as [-> [Ht%map_eq_nil Hu%map_eq_nil]%app_nil]. subst ts us.
    inversion Hts; subst. inversion Hus; subst.
    destruct (bind_tcp_listener DEFAULT_ADDR) as [k|] eqn:Ek; [|done].
    apply bind_tcp_entry in Ek as (s & Hs & ->). intros [= <-].
    exists [s], []. split_and!; try done; by repeat constructor.
  - intros [= <-]. exists ts, us. cbn. split_and!; try done.
    destruct (b_listeners b); [|done]. destruct (tcp_addrs b) eqn:Ea; [|done].
    destruct (unix_paths b); [|done]. by inversion Hts; inversion Hus; subst.
Qed.

(** The fallback's TCP socket is the one bound to the endpoint's own address,
    so where [bind] gives the port it is asked for, the Alt-Svc header names
    the port of both sockets. *)
Lemma fallback_port {P : Platform} {Endpoint TlsAcceptor}
    (endpoint_local_addr : Endpoint → result NetAddr IoError) net_port
    (acceptor_from : RustlsConfig → TlsAcceptor) single l h :
  (∀ a s, tcp_bind a = Ok s → ∃ a', tcp_local_addr s = Ok a' ∧ net_port a' = net_port a) →
  with_http_fallback endpoint_local_addr acceptor_from single l = Ret h →
  ∃ a a', alt_svc_middleware endpoint_local_addr net_port l = Ret (AltSvcMiddleware (net_port a')) ∧
    net_port a' = net_port a ∧
    HybridListener_listen endpoint_local_addr h = Ok (Tcp a') ∧ local_addr (http h) = Ok (TlsTcp a).
Proof.
  intros Hport. unfold with_http_fallback, alt_svc_middleware, std_tcp_bind, result_bind.
  destruct (endpoint_local_addr (endpoint l)) as [a'|] eqn:Ea; [|done].
  destruct (tcp_bind a') as [s|] eqn:Es; [|done].
  destruct (try_from_tcp _) as [k|] eqn:Ek; [|done]. apply try_from_tcp_mode in Ek as ->.
  unfold tls_with_cert. destruct (https_config _ _); [|done]. intros [= <-].
  destruct (Hport _ _ Es) as (a & Hl & Hp). exists a, a'.
  split_and!; [done|done| |].
  - unfold HybridListener_listen, local_addr, QuicEndpointListener_listen, result_bind. cbn.
    by rewrite Ea.
  - cbn. unfold local_addr, TlsListener_listen, tls_local_addr, local_addr, Listener_listen. cbn.
    by rewrite Hl.
Qed.
End sockets.
