(* ===== verification/Testing.v ===== *)
(** * The test client and the worker adapter
    (silent/src/testing/client.rs, silent/src/testing/response.rs,
    silent/src/route/worker.rs)

    Both call a handler without the HTTP server.  The theorems compare what
    they see with what [Service] answers over HTTP. *)

From S2P Require Import Prelude Str Platform Ext State Error PathParam Body Message Next Cookies Addr RouteSeg RouteTree Route Service.

Section testing.
Context {P : Platform} {T : Ipv6Text} {C : CookieCrate P}.
(** [BodyExt::collect] of a response body, [Uri] parsing, header names, and
    [String::from_utf8_lossy]. *)
Context (collect : ResBody → M World (result string string)).
Context (uri_parse : string → option Uri) (header_name_ok : string → bool).
Context (from_utf8_lossy : string → string).

(** ** The test client *)

Record TestRequest := mkTestRequest {
  t_method : Method;
  t_uri : string;
  t_headers : list (string * string);
  t_body : option string;
}.

Definition TestRequest_new (m : Method) (path : string) : TestRequest :=
  mkTestRequest m path [] None.

Definition push_header (r : TestRequest) (k v : string) : TestRequest :=
  mkTestRequest (t_method r) (t_uri r) (t_headers r ++ [(k, v)])%list (t_body r).
Definition test_body (r : TestRequest) (data : string) : TestRequest :=
  mkTestRequest (t_method r) (t_uri r) (t_headers r) (Some data).

(** A header that is none is left out. *)
Definition test_header (r : TestRequest) (k v : string) : TestRequest :=
  if header_name_ok k && header_value_ok v then push_header r k v else r.
Definition test_json (r : TestRequest) (v : Json) : TestRequest :=
  test_body (push_header r "content-type" "application/json") (json_to_vec v).
Definition test_form (r : TestRequest) (data : string) : TestRequest :=
  test_body (push_header r "content-type" "application/x-www-form-urlencoded") data.
Definition test_text (r : TestRequest) (data : string) : TestRequest :=
  test_body (push_header r "content-type" "text/plain") data.

Record TestResponse := mkTestResponse {
  tr_status : StatusCode;
  tr_headers : HeaderMap;
  tr_body : string;
}.

(** A body that can not be read counts as empty. *)
Definition TestResponse_from_response (response : Response) : M World TestResponse :=
  collect (r_body response) ≫= λ c,
  mret (mkTestResponse (r_status response) (r_headers response)
          (match c with Ok bytes => bytes | Err _ => "" end)).

Definition TestResponse_from_error (e : SilentError) : TestResponse :=
  mkTestResponse (status e) hm_empty (error_display e).

Definition base_request (t : TestRequest) (uri : Uri) : Request :=
  Request_from_parts
    (mkParts (t_method t) uri HTTP_11
       (foldl (λ h kv, hm_insert h (fst kv) (snd kv)) hm_empty (t_headers t)) ext_empty)
    (match t_body t with Some b => ReqOnce b | None => ReqEmpty end).

(** The request [send] makes; a later header of one name replaces an earlier
    one.  A text that is no URI panics. *)
Definition test_request (t : TestRequest) : outcome Request :=
  uri ← unwrap (uri_parse (t_uri t));
  peer ← unwrap (RemoteAddr_from_str "127.0.0.1:0");
  set_remote (base_request t uri) peer.

Definition TestRequest_send (handler : Handler) (t : TestRequest) : M World TestResponse :=
  req ← M_lift (test_request t);
  r ← handler req;
  match r with
  | Ok response => TestResponse_from_response response
  | Err err => mret (TestResponse_from_error err)
  end.

(** The assertions, which return the response or panic. *)
Definition assert_that (b : bool) (r : TestResponse) : outcome TestResponse :=
  if b then Ret r else Panic.
Definition assert_status (r : TestResponse) (expected : StatusCode) : outcome TestResponse :=
  assert_that (bool_decide (tr_status r = expected)) r.
Definition assert_header (r : TestResponse) (name expected : string) : outcome TestResponse :=
  value ← unwrap (hm_get (tr_headers r) name);
  text ← unwrap (header_to_str value);
  assert_that (bool_decide (text = expected)) r.
Definition assert_header_exists (r : TestResponse) (name : string) : outcome TestResponse :=
  assert_that (bool_decide (is_Some (hm_get (tr_headers r) name))) r.
Definition assert_body_eq (r : TestResponse) (expected : string) : outcome TestResponse :=
  assert_that (bool_decide (from_utf8_lossy (tr_body r) = expected)) r.
Definition assert_body_contains (r : TestResponse) (substring : string) : outcome TestResponse :=
  assert_that (str_contains substring (from_utf8_lossy (tr_body r))) r.

(** The readers; a body that is not JSON of the type panics. *)
Definition tr_text (r : TestResponse) : string := from_utf8_lossy (tr_body r).
Definition tr_json {A} (de : string → result A string) (r : TestResponse) : outcome A :=
  match de (tr_body r) with Ok a => Ret a | Err _ => Panic end.
Definition assert_json `{EqDecision A} (de : string → result A string) (r : TestResponse) (expected : A)
  : outcome TestResponse :=
  actual ← tr_json de r;
  assert_that (bool_decide (actual = expected)) r.

(** ** The worker adapter *)

(** The text of [http::Error] for a URI that does not parse. *)
Context (uri_error : string → string).

(** What the worker runtime hands over and takes. *)
Record WRequest := mkWRequest {
  w_method : option Method;
  w_url : result string string;
  w_headers : HeaderMap;
  w_bytes : result string string;
}.
Record WResponse := mkWResponse {
  wr_status : StatusCode;
  wr_headers : HeaderMap;
  wr_body : string;
}.

Definition to_silent_request (req : WRequest) : result Request string :=
  match w_method req with
  | None => Err "invalid HTTP method"
  | Some m =>
      url <-! w_url req ;;
      match uri_parse url with
      | None => Err ("build request failed: " +:+ uri_error url)
      | Some uri =>
          let body_bytes := match w_bytes req with Ok b => b | Err _ => "" end in
          let body := if bool_decide (body_bytes = "") then ReqEmpty else ReqOnce body_bytes in
          Ok (Request_from_parts (mkParts m uri HTTP_11 (w_headers req) ext_empty) body)
      end
  end.

Definition to_worker_response (res : Response) : M World (result WResponse string) :=
  match r_body res with
  | ResNone => mret (Ok (mkWResponse (r_status res) (r_headers res) ""))
  | ResOnce b => mret (Ok (mkWResponse (r_status res) (r_headers res) b))
  | other =>
      collect other ≫= λ c,
      mret (match c with
            | Ok bytes => Ok (mkWResponse (r_status res) (r_headers res) bytes)
            | Err e => Err ("collect body error: " +:+ e)
            end)
  end.

(** [WorkRoute::handle] and [call], for a route. *)
Definition WorkRoute_handle (addr : Z) (route : Route) (req : WRequest)
  : M World (result WResponse string) :=
  match to_silent_request req with
  | Err e => mret (Err e)
  | Ok sreq =>
      r ← Route_call addr route sreq;
      to_worker_response
        (match r with
         | Ok res => res
         | Err e => set_body (set_status Response_empty (status e)) (full (error_display e))
         end)
  end.

Definition WorkRoute_call (addr : Z) (route : Route) (req : WRequest) : M World WResponse :=
  WorkRoute_handle addr route req ≫= λ r,
  mret (match r with
        | Ok resp => resp
        | Err e => mkWResponse 500 hm_empty ("internal error: " +:+ e)
        end).

(** ** What a test sees, and what a client of the server sees *)

Lemma test_peer : RemoteAddr_from_str "127.0.0.1:0" = Some (RemoteAddr_from_net (V4 (127, 0, 0, 1)%Z 0)).
Proof. reflexivity. Qed.

(** The handler is called with the request it would get from the server, from
    a local peer.  A response comes back as the server would send it, before
    its cookies are written; but an error shows as its [Display] text without
    headers, where the server sends its message and may mark it as JSON. *)
Lemma test_client_agrees h t uri w :
  uri_parse (t_uri t) = Some uri →
  let server := HyperServiceHandler_new (RemoteAddr_from_net (V4 (127, 0, 0, 1)%Z 0)) h in
  match Hyper_handle server (base_request t uri) w with
  | (Ret res, w') =>
      TestRequest_send h t w = TestResponse_from_response res w' ∨
      ∃ e, res = response_from_error e ∧
        TestRequest_send h t w = (Ret (mkTestResponse (r_status res) hm_empty (error_display e)), w')
  | (Panic, w') => TestRequest_send h t w = (Panic, w')
  end.
Proof.
  intros Hu server. unfold Hyper_handle, TestRequest_send, test_request.
  rewrite Hu, test_peer. cbn [unwrap mbind outcome_bind remote_addr routes server].
  cbn [HyperServiceHandler_new remote_addr routes].
  destruct (set_remote _ _) as [req|]; [|reflexivity]. rewrite !M_lift_ret.
  unfold mbind, M_bind. set (x := h req w).
  match goal with |- context [routes ?s req w] => change (routes s req w) with x end.
  destruct x as [[[res|e]|] w']; cbn; [by left| |done].
  right. exists e. split; [reflexivity|]. cbn. by destruct (is_ok (json_from_slice (message e))).
Qed.

(** The worker adapter: an in-memory answer arrives as it is, an error as its
    status and text, and what goes wrong in the adapter is a plain 500. *)
Lemma worker_answers addr route req sreq w r w' :
  to_silent_request req = Ok sreq → Route_call addr route sreq w = (Ret r, w') →
  match r with
  | Ok res =>
      match r_body res with
      | ResNone => WorkRoute_call addr route req w = (Ret (mkWResponse (r_status res) (r_headers res) ""), w')
      | ResOnce b => WorkRoute_call addr route req w = (Ret (mkWResponse (r_status res) (r_headers res) b), w')
      | _ => True
      end
  | Err e => WorkRoute_call addr route req w = (Ret (mkWResponse (status e) hm_empty (error_display e)), w')
  end ∧
  method sreq = default GET (w_method req) ∧ headers sreq = w_headers req.
Proof.
  intros Hs Hr. split.
  - unfold WorkRoute_call, WorkRoute_handle. rewrite Hs.
    assert (∀ A (k : _ → M World A), (Route_call addr route sreq ≫= k) w = k r w') as Hb.
    { intros A k. exact (M_bind_run _ _ _ _ _ Hr). }
    rewrite M_bind_assoc, Hb. destruct r as [res|e]; [|done].
    unfold to_worker_response. by destruct (r_body res).
  - unfold to_silent_request in Hs. destruct (w_method req) as [m|]; [|done].
    destruct (w_url req) as [url|]; [|done]. cbn [result_bind] in Hs.
    destruct (uri_parse url); [|done]. by injection Hs as <-.
Qed.
End testing.
