(* ===== verification/Scheduler.v ===== *)
(** * The task scheduler (silent/src/scheduler/mod.rs,
    silent/src/scheduler/task.rs, silent/src/scheduler/process_time.rs)

    A run clones the table, reads the clock once per task to decide whether
    it may leave the table, and starts every task on a thread or executor of
    its own, which reads the clock again to decide whether it acts.  Both
    readings are inputs of a run.  Cron schedules and the actions are
    parameters; time is in nanoseconds since the epoch. *)

From S2P Require Import Prelude Str.

Section scheduler.
Context {Schedule : Type} (includes : Schedule → Z → bool).
Context {Action : Type} (noop : Action).

Inductive ProcessTime :=
| Datetime (t : Z)
| Crontab (s : Schedule).

Definition timestamp_millis (t : Z) : Z := t / 1000000.

Definition is_active (now : Z) (p : ProcessTime) : bool :=
  match p with
  | Datetime datetime => (timestamp_millis datetime <=? timestamp_millis now)%Z
  | Crontab crontab => includes crontab now
  end.

(** [TryFrom<String>]: a date if it reads as one, else a cron expression. *)
Definition ProcessTime_try_from (parse_date : string → option Z)
    (parse_cron : string → result Schedule string) (value : string) : result ProcessTime string :=
  match parse_date value with
  | Some datetime => Ok (Datetime datetime)
  | None => match parse_cron value with Ok s => Ok (Crontab s) | Err e => Err e end
  end.

Record Task := mkTask {
  id : string;
  process_time : ProcessTime;
  description : string;
  action : Action;
  action_async : Action;
  is_async : bool;
}.

Definition create_with_action (id : string) (pt : ProcessTime) (description : string)
    (action : Action) : Task := mkTask id pt description action noop false.

Definition create_with_action_async (id : string) (pt : ProcessTime) (description : string)
    (action : Action) : Task := mkTask id pt description noop action true.

(** [Task::run] and [Task::run_async]: the action that is invoked, if any. *)
Definition Task_run (now : Z) (t : Task) : result (option Action) string :=
  if is_async t then Err "async task not support run"
  else if is_active now (process_time t) then Ok (Some (action t)) else Ok None.

Definition Task_run_async (now : Z) (t : Task) : result (option Action) string :=
  if is_async t then
    if is_active now (process_time t) then Ok (Some (action_async t)) else Ok None
  else Err "sync task not support run_async".

Definition is_removable (now : Z) (t : Task) : bool :=
  match process_time t with
  | Datetime _ => is_active now (process_time t)
  | Crontab _ => false
  end.

Record Scheduler := mkScheduler { tasks : list Task; schedule : bool }.

Definition Scheduler_new : Scheduler := mkScheduler [] true.

Definition add_task (task : Task) (s : Scheduler) : result Scheduler string :=
  if existsb (λ t, bool_decide (id t = id task)) (tasks s)
  then Err ("task " +:+ id task +:+ " already exists!")
  else Ok (mkScheduler (tasks s ++ [task])%list (schedule s)).

Definition remove_task (i : string) (s : Scheduler) : Scheduler :=
  mkScheduler (List.filter (λ t, negb (bool_decide (id t = i))) (tasks s)) (schedule s).

Definition remove_task_sub (i : string) (s : Scheduler) : Scheduler :=
  mkScheduler (List.filter (λ t, starts_with i (id t)) (tasks s)) (schedule s).

Definition get_task (i : string) (s : Scheduler) : option Task :=
  List.find (λ t, bool_decide (id t = i)) (tasks s).

(** The clock readings of one run: for every task the reading of
    [is_removable] and the one its thread makes. *)
Abbreviation Clock := (string → Z * Z).

Definition start_task (clock : Clock) (t : Task) : option (string * Action) :=
  let now := snd (clock (id t)) in
  match (if is_async t then Task_run_async now t else Task_run now t) with
  | Ok (Some a) => Some (id t, a)
  | _ => None
  end.

(** [Scheduler::run]: the actions invoked, and the table left. *)
Definition Scheduler_run (clock : Clock) (s : Scheduler)
  : list (string * Action) * Scheduler :=
  let removable_list :=
    map id (List.filter (λ t, is_removable (fst (clock (id t))) t) (tasks s)) in
  let fired := omap (start_task clock) (tasks s) in
  (fired, foldl (λ s i, remove_task i s) s removable_list).

Definition stop (s : Scheduler) : Scheduler := mkScheduler (tasks s) false.

(** The check after the pause of [Scheduler::schedule]: whether the loop goes
    on; leaving it arms the scheduler again. *)
Definition after_pause (s : Scheduler) : bool * Scheduler :=
  if schedule s then (true, s) else (false, mkScheduler (tasks s) true).

(** ** Runs *)

(** Whatever the loop and its users do with the shared scheduler, under its
    lock. *)
Inductive SchedEvent :=
| EvAdd (t : Task)
| EvRemove (i : string)
| EvRemoveSub (i : string)
| EvRun (clock : Clock)
| EvStop
| EvPause.

Definition sched_step (s : Scheduler) (e : SchedEvent) : Scheduler :=
  match e with
  | EvAdd t => match add_task t s with Ok s' => s' | Err _ => s end
  | EvRemove i => remove_task i s
  | EvRemoveSub i => remove_task_sub i s
  | EvRun clock => snd (Scheduler_run clock s)
  | EvStop => stop s
  | EvPause => snd (after_pause s)
  end.

(** ** What the table is meant to be

    A map from ids to tasks: adding a new id, removing, and a run that drops
    the one-shot tasks it finds due. *)

Definition drops (now : Z) (t : Task) : bool :=
  match process_time t with
  | Datetime due => (timestamp_millis due <=? timestamp_millis now)%Z
  | Crontab _ => false
  end.

Definition table_step (m : gmap string Task) (e : SchedEvent) : gmap string Task :=
  match e with
  | EvAdd t => match m !! id t with Some _ => m | None => <[id t := t]> m end
  | EvRemove i => delete i m
  | EvRemoveSub i => filter (λ kt, starts_with i (fst kt) = true) m
  | EvRun clock => filter (λ kt, drops (fst (clock (fst kt))) (snd kt) = false) m
  | EvStop | EvPause => m
  end.

(** The actions a run is meant to invoke for one id. *)
Definition table_fires (clock : Clock) (m : gmap string Task) (i : string) : list Action :=
  match m !! i with
  | Some t =>
      if is_active (snd (clock i)) (process_time t)
      then [if is_async t then action_async t else action t] else []
  | None => []
  end.

(** What a run invoked for one id. *)
Definition actions_of (i : string) (fired : list (string * Action)) : list Action :=
  map snd (List.filter (λ p, bool_decide (fst p = i)) fired).

(** The ids of the tasks that acted in successive runs. *)
Fixpoint fired_ids (s : Scheduler) (clocks : list Clock) : list string :=
  match clocks with
  | [] => []
  | c :: cs => (map fst (fst (Scheduler_run c s)) ++ fired_ids (snd (Scheduler_run c s)) cs)%list
  end.

Definition times (i : string) (l : list string) : nat :=
  length (List.filter (λ j, bool_decide (j = i)) l).

(** The readings for one task never go back. *)
Fixpoint clock_ok (t : Z) (i : string) (clocks : list Clock) : Prop :=
  match clocks with
  | [] => True
  | c :: cs => (t <= fst (c i))%Z ∧ (fst (c i) <= snd (c i))%Z ∧ clock_ok (snd (c i)) i cs
  end.

(** How often a one-shot task acts: not at all before some thread finds it
    due; then twice if the run that started the thread had not yet found it
    due and there is another run, else once. *)
Fixpoint one_shot_count (due : Z) (i : string) (clocks : list Clock) : nat :=
  match clocks with
  | [] => 0
  | c :: cs =>
      if (timestamp_millis due <=? timestamp_millis (snd (c i)))%Z then
        if (timestamp_millis due <=? timestamp_millis (fst (c i)))%Z then 1
        else match cs with [] => 1 | _ => 2 end
      else one_shot_count due i cs
  end.

(** ** Lemmas *)

Lemma foldl_remove_tasks l s :
  foldl (λ s i, remove_task i s) s l =
  mkScheduler (List.filter (λ t, negb (existsb (λ i, bool_decide (id t = i)) l)) (tasks s)) (schedule s).
Proof.
  revert s. induction l as [|i l IH]; intros s; cbn.
  { destruct s as [ts b]; cbn. f_equal. induction ts as [|t ts IH]; [done|]. cbn. by f_equal. }
  rewrite IH. cbn. f_equal. induction (tasks s) as [|t ts IHt]; [done|]. cbn.
  destruct (bool_decide (id t = i)); cbn; [done|]. rewrite IHt. done.
Qed.

Lemma NoDup_filter_ids (f : Task → bool) ts :
  NoDup (map id ts) → NoDup (map id (List.filter f ts)).
Proof.
  induction ts as [|t ts IH]; cbn; [done|]. intros [Hn Hd]%NoDup_cons.
  destruct (f t); cbn; [|by apply IH]. apply NoDup_cons. split; [|by apply IH].
  intros Hin. apply Hn. apply list_elem_of_In, in_map_iff in Hin as (t' & <- & Hin).
  apply filter_In in Hin as [Hin _]. apply list_elem_of_In. by apply in_map.
Qed.

Lemma existsb_id i ts : existsb (λ t, bool_decide (id t = i)) ts = true ↔ i ∈ map id ts.
Proof.
  rewrite existsb_exists, list_elem_of_In, in_map_iff.
  split; intros (t & H1 & H2); exists t; by case_bool_decide || rewrite bool_decide_eq_true_2.
Qed.

Lemma sched_step_nodup s e : NoDup (map id (tasks s)) → NoDup (map id (tasks (sched_step s e))).
Proof.
  intros Hd. destruct e as [t|i|i|c| |]; cbn; try done; try by apply NoDup_filter_ids.
  - unfold add_task. destruct (existsb _ _) eqn:E; [done|]. cbn.
    rewrite map_app. apply NoDup_app. split_and!; [done| |apply NoDup_singleton].
    intros j Hj ->%list_elem_of_singleton. apply existsb_id in Hj. by rewrite E in Hj.
  - rewrite foldl_remove_tasks. by apply NoDup_filter_ids.
  - unfold after_pause. by destruct (schedule s).
Qed.

Lemma get_task_filter (f : Task → bool) i ts :
  NoDup (map id ts) →
  List.find (λ t, bool_decide (id t = i)) (List.filter f ts) =
  match List.find (λ t, bool_decide (id t = i)) ts with
  | Some t => if f t then Some t else None
  | None => None
  end.
Proof.
  induction ts as [|t ts IH]; cbn; [done|]. intros [Hn Hd]%NoDup_cons.
  destruct (bool_decide_reflect (id t = i)) as [<-|Hi].
  - destruct (f t) eqn:E; cbn; [by rewrite bool_decide_eq_true_2|]. rewrite IH by done.
    destruct (List.find _ ts) as [t'|] eqn:Ef; [|done]. exfalso. apply Hn.
    apply find_some in Ef as [Hin Hb]. apply bool_decide_eq_true in Hb. rewrite <-Hb.
    apply list_elem_of_In. by apply in_map.
  - destruct (f t); cbn; [|by apply IH]. rewrite bool_decide_eq_false_2 by done. by apply IH.
Qed.

Lemma find_snoc {A} (f : A → bool) l a :
  List.find f (l ++ [a])%list =
  match List.find f l with Some x => Some x | None => if f a then Some a else None end.
Proof. induction l as [|x l IH]; cbn; [done|]. by destruct (f x). Qed.

Lemma ids_inj ts t t' :
  NoDup (map id ts) → In t ts → In t' ts → id t = id t' → t = t'.
Proof.
  induction ts as [|u ts IH]; [done|]. intros [Hn Hd]%NoDup_cons Hin Hin' He.
  assert (∀ x, In x ts → id x ≠ id u) as Hu.
  { intros x Hx E. apply Hn. rewrite <-E. apply list_elem_of_In. by apply in_map. }
  destruct Hin as [<-|Hin], Hin' as [<-|Hin']; [done| | |by apply IH].
  - by destruct (Hu t').
  - by destruct (Hu t).
Qed.

Lemma run_get_task clock i s :
  NoDup (map id (tasks s)) →
  get_task i (snd (Scheduler_run clock s)) =
  match get_task i s with
  | Some t => if is_removable (fst (clock i)) t then None else Some t
  | None => None
  end.
Proof.
  intros Hd. unfold Scheduler_run, get_task. cbn [snd]. rewrite foldl_remove_tasks. cbn [tasks].
  rewrite get_task_filter by done.
  destruct (List.find _ (tasks s)) as [t|] eqn:E; [|done].
  apply find_some in E as [Hin <-%bool_decide_eq_true].
  assert (existsb (λ j, bool_decide (id t = j))
    (map id (List.filter (λ t, is_removable (fst (clock (id t))) t) (tasks s)))
    = is_removable (fst (clock (id t))) t) as ->; [|by destruct (is_removable _ _)].
  destruct (is_removable _ t) eqn:Er.
  - apply existsb_exists. exists (id t). split; [|by apply bool_decide_eq_true].
    apply in_map, filter_In. done.
  - apply not_true_iff_false. rewrite existsb_exists. intros (j & Hj & Hb%bool_decide_eq_true).
    apply in_map_iff in Hj as (t' & Hj & Hin').
    apply filter_In in Hin' as [Hin' Hr]. rewrite <-Hj in Hb.
    assert (t = t') as <-; [|congruence]. by eapply ids_inj.
Qed.

Lemma times_app i l l' : times i (l ++ l')%list = (times i l + times i l')%nat.
Proof. unfold times. by rewrite List.filter_app, length_app. Qed.

Lemma times_not_in i l : i ∉ l → times i l = 0%nat.
Proof.
  induction l as [|j l IH]; [done|]. intros [Hj Hl]%not_elem_of_cons. unfold times in *. cbn.
  rewrite bool_decide_eq_false_2 by done. by apply IH.
Qed.

Lemma start_task_eq clock t :
  start_task clock t =
  if is_active (snd (clock (id t))) (process_time t)
  then Some (id t, if is_async t then action_async t else action t) else None.
Proof. unfold start_task, Task_run, Task_run_async. by destruct (is_async t), (is_active _ _). Qed.

(** A run invokes the action of a task that is due, once. *)
Lemma run_actions clock i s :
  NoDup (map id (tasks s)) →
  actions_of i (fst (Scheduler_run clock s)) =
  match get_task i s with
  | Some t => if is_active (snd (clock i)) (process_time t)
              then [if is_async t then action_async t else action t] else []
  | None => []
  end.
Proof.
  unfold Scheduler_run, get_task. cbn [fst].
  induction (tasks s) as [|t ts IH]; [done|]. intros [Hn Hd]%NoDup_cons. specialize (IH Hd).
  cbn [omap list_omap List.find]. rewrite start_task_eq. unfold actions_of in *.
  destruct (bool_decide_reflect (id t = i)) as [<-|Hi].
  - destruct (List.find _ ts) as [t'|] eqn:E.
    { apply find_some in E as [Hin He%bool_decide_eq_true]. destruct Hn. rewrite <-He.
      apply list_elem_of_In. by apply in_map. }
    destruct (is_active _ _); [|done]. cbn. rewrite bool_decide_eq_true_2 by done. cbn. by rewrite IH.
  - rewrite <-IH. destruct (is_active _ _); [|done]. cbn. by rewrite bool_decide_eq_false_2.
Qed.

Lemma times_actions i fired : times i (map fst fired) = length (actions_of i fired).
Proof.
  unfold times, actions_of. induction fired as [|[j a] l IH]; [done|]. cbn.
  case_bool_decide; cbn; by rewrite IH.
Qed.

Lemma run_fires clock i s :
  NoDup (map id (tasks s)) →
  times i (map fst (fst (Scheduler_run clock s))) =
  match get_task i s with
  | Some t => if is_active (snd (clock i)) (process_time t) then 1%nat else 0%nat
  | None => 0%nat
  end.
Proof.
  intros Hd. rewrite times_actions, run_actions by done.
  destruct (get_task i s); [by destruct (is_active _ _)|done].
Qed.

(** Looking an id up after each operation. *)
Lemma add_get_task task s j :
  match add_task task s with
  | Err _ => is_Some (get_task (id task) s)
  | Ok s' => get_task (id task) s = None ∧
      get_task j s' = if decide (j = id task) then Some task else get_task j s
  end.
Proof.
  unfold add_task. destruct (existsb _ _) eqn:E.
  - apply existsb_exists in E as (t & Hin & Hb). unfold get_task.
    destruct (List.find _ _) eqn:Ef; [by eexists|].
    eapply find_none in Ef; [|exact Hin]. cbn in Ef. congruence.
  - assert (get_task (id task) s = None) as Hf.
    { unfold get_task. destruct (List.find _ _) as [t|] eqn:Ef; [|done].
      apply find_some in Ef. apply not_true_iff_false in E. destruct E. apply existsb_exists. by exists t. }
    split; [done|]. unfold get_task in *; cbn [tasks]. rewrite find_snoc.
    case_decide as Hj; [by subst j; rewrite Hf, bool_decide_eq_true_2|].
    rewrite (bool_decide_eq_false_2 (id task = j)) by congruence. by case_match.
Qed.

Lemma filter_get_task (f : string → Task → bool) i ts b :
  NoDup (map id ts) →
  get_task i (mkScheduler (List.filter (λ t, f (id t) t) ts) b) =
  match get_task i (mkScheduler ts b) with
  | Some t => if f i t then Some t else None
  | None => None
  end.
Proof.
  intros Hd. unfold get_task. cbn [tasks]. rewrite get_task_filter by done.
  destruct (List.find _ ts) as [t|] eqn:E; [|done]. by apply find_some in E as [_ <-%bool_decide_eq_true].
Qed.

(** One operation keeps the table in line with the map. *)
Lemma step_refines s m e :
  NoDup (map id (tasks s)) → (∀ i, get_task i s = m !! i) →
  ∀ i, get_task i (sched_step s e) = table_step m e !! i.
Proof.
  intros Hd Hm i. destruct e as [t|j|j|clock| |]; cbn [sched_step table_step]; try apply Hm.
  - pose proof (add_get_task t s i) as Ha. destruct (add_task t s) as [s'|].
    + destruct Ha as [Hn ->]. rewrite Hm in Hn. rewrite Hn. case_decide as Hi.
      * subst i. by rewrite lookup_insert_eq.
      * by rewrite lookup_insert_ne, Hm.
    + destruct Ha as [t' Ht]. rewrite Hm in Ht. by rewrite Ht, Hm.
  - etrans; [exact (filter_get_task (λ i _, negb (bool_decide (i = j))) i _ _ Hd)|].
    destruct s as [ts b]. cbn [tasks schedule]. rewrite Hm. case_bool_decide as Hi; cbn.
    + subst i. rewrite lookup_delete_eq. by case_match.
    + rewrite lookup_delete_ne by done. by case_match.
  - etrans; [exact (filter_get_task (λ i _, starts_with j i) i _ _ Hd)|].
    destruct s as [ts b]. cbn [tasks schedule]. rewrite Hm, map_lookup_filter. destruct (m !! i); [|done]. cbn.
    destruct (starts_with j i) eqn:E; [by rewrite option_guard_True|by rewrite option_guard_False].
  - rewrite run_get_task, Hm, map_lookup_filter by done. destruct (m !! i) as [t|]; [|done]. cbn.
    replace (is_removable (fst (clock i)) t) with (drops (fst (clock i)) t)
      by (unfold drops, is_removable; by destruct (process_time t)).
    destruct (drops _ t) eqn:E; [by rewrite option_guard_False|by rewrite option_guard_True].
  - rewrite <-Hm. unfold after_pause. by destruct (schedule s).
Qed.

Lemma gone_never_fires i s clocks :
  NoDup (map id (tasks s)) → get_task i s = None → times i (fired_ids s clocks) = 0%nat.
Proof.
  revert s. induction clocks as [|c cs IH]; intros s Hd Hg; [done|]. cbn [fired_ids].
  rewrite times_app, run_fires, Hg by done. apply IH; [by apply (sched_step_nodup s (EvRun c))|].
  by rewrite run_get_task, Hg.
Qed.

Lemma millis_mono a b : (a <= b)%Z → (timestamp_millis a <= timestamp_millis b)%Z.
Proof. intros. by apply Z.div_le_mono. Qed.

Lemma one_shot_times t due clocks : ∀ s t0,
  NoDup (map id (tasks s)) → get_task (id t) s = Some t → process_time t = Datetime due →
  clock_ok t0 (id t) clocks →
  times (id t) (fired_ids s clocks) = one_shot_count due (id t) clocks.
Proof.
  induction clocks as [|c cs IH]; intros s t0 Hd Hg Hp; [done|]. intros (H1 & H2 & Hc).
  cbn [fired_ids one_shot_count]. rewrite times_app, run_fires, Hg, Hp by done.
  pose proof (run_get_task c (id t) s Hd) as Hn. rewrite Hg in Hn. unfold is_removable in Hn.
  rewrite Hp in Hn. cbn [is_active] in *.
  assert (NoDup (map id (tasks (snd (Scheduler_run c s))))) as Hd'
    by exact (sched_step_nodup s (EvRun c) Hd).
  pose proof (millis_mono _ _ H2) as Hm.
  destruct (Z.leb_spec (timestamp_millis due) (timestamp_millis (snd (c (id t)))));
    destruct (Z.leb_spec (timestamp_millis due) (timestamp_millis (fst (c (id t))))); try lia.
  - by rewrite gone_never_fires.
  - rewrite (IH _ _ Hd' Hn Hp Hc). destruct cs as [|c' cs]; [done|].
    destruct Hc as (H3 & H4 & _). cbn [one_shot_count].
    pose proof (millis_mono _ _ H3). pose proof (millis_mono _ _ H4).
    rewrite !(proj2 (Z.leb_le _ _)) by lia. done.
  - rewrite (IH _ _ Hd' Hn Hp Hc). by destruct cs.
Qed.

(** ** Properties *)

(** C37: The table of tasks implements a map from ids to tasks.  After any
    sequence of additions, removals, runs, stops and pauses every id has one
    task at most, and looking it up gives what the map holds; adding fails
    exactly for an id the map has; and whatever the clock shows while a run
    goes on, it invokes for every id the action the map says, once. *)
Theorem task_table (evs : list SchedEvent) :
  let s := runs sched_step Scheduler_new evs in
  let m := runs table_step ∅ evs in
  NoDup (map id (tasks s)) ∧
  (∀ i, get_task i s = m !! i) ∧
  (∀ task, (∃ e, add_task task s = Err e) ↔ is_Some (m !! id task)) ∧
  ∀ clock i, actions_of i (fst (Scheduler_run clock s)) = table_fires clock m i.
Proof.
  intros s m. assert (NoDup (map id (tasks s)) ∧ ∀ i, get_task i s = m !! i) as [Hd Hm].
  { unfold s, m. clear. rewrite <-(rev_involutive evs). induction (rev evs) as [|e l IH]; [by split; [constructor|]|].
    cbn [rev]. rewrite !runs_app. cbn. destruct IH as [Hd Hm].
    split; [by apply sched_step_nodup|by apply step_refines]. }
  split_and!; [done|done| |].
  - intros task. rewrite <-Hm. pose proof (add_get_task task s (id task)) as Ha. unfold add_task in *.
    destruct (existsb _ _); [split; [done|by eexists]|]. destruct Ha as [-> _].
    split; [by intros [? ?]|by intros [? ?]].
  - intros clock i. rewrite run_actions by done. unfold table_fires. by rewrite Hm.
Qed.

(** How often a one-shot task acts.  Over successive runs whose clock
    readings do not go back it acts once, if some run finds it due; but it
    acts twice when it became due between the check of a run and the start
    of its own thread, since that run leaves it in the table. *)
Theorem one_shot_fires s t due clocks t0 :
  NoDup (map id (tasks s)) → get_task (id t) s = Some t → process_time t = Datetime due →
  clock_ok t0 (id t) clocks →
  times (id t) (fired_ids s clocks) = one_shot_count due (id t) clocks.
Proof.
  apply one_shot_times.
Qed.
End scheduler.

(** ** Witnesses *)

Definition demo_task : Task (Schedule := nat) (Action := nat) :=
  create_with_action 0%nat "report" (Datetime 5000000000) "one report" 7%nat.

(** Due at 5 s: the first run checks 1 ms early, its thread starts on time. *)
Definition demo_clocks : list (string → Z * Z) :=
  [λ _, (3000000000, 3000000000)%Z; λ _, (4999000000, 5000000000)%Z;
   λ _, (6000000000, 6000000000)%Z; λ _, (7000000000, 7000000000)%Z].

Lemma one_shot_fires_witness :
  one_shot_count 5000000000 "report" demo_clocks = 2%nat ∧
  times "report" (fired_ids (λ s _, (s =? 0)%nat) (mkScheduler [demo_task] true) demo_clocks)
  = one_shot_count 5000000000 "report" demo_clocks.
Proof.
  split; [reflexivity|].
  refine (one_shot_fires (λ s _, (s =? 0)%nat) (mkScheduler [demo_task] true) demo_task 5000000000
    demo_clocks 0 _ _ _ _).
  - apply NoDup_singleton.
  - reflexivity.
  - reflexivity.
  - vm_compute. repeat split; discriminate.
Defined.

(** ** Starting the loop (server/net_server.rs) *)

(** [SCHEDULER_RUNNING] and the loops that run; every server that starts
    calls [ensure_scheduler_running] in its own runtime. *)
Record Runners := mkRunners { scheduler_running : bool; loops : nat }.

Definition ensure_scheduler_running (r : Runners) : Runners :=
  if scheduler_running r then r else mkRunners true (S (loops r)).

(** A loop that returns clears the flag; one whose runtime is dropped does
    not. *)
Inductive RunnerEvent := ServerStarts | LoopReturns | RuntimeDropped.

Definition runner_step (r : Runners) (e : RunnerEvent) : Runners :=
  match e with
  | ServerStarts => ensure_scheduler_running r
  | LoopReturns => match loops r with O => r | S n => mkRunners false n end
  | RuntimeDropped => mkRunners (scheduler_running r) (pred (loops r))
  end.

(** However many servers start, one loop runs at most; but once the runtime
    that hosted it is gone, no later server starts another. *)
Lemma one_scheduler_loop evs :
  let r := foldl runner_step (mkRunners false 0) evs in
  (loops r <= 1)%nat ∧
  (RuntimeDropped ∉ evs → loops r = if scheduler_running r then 1%nat else 0%nat) ∧
  (scheduler_running r = true → loops (foldl runner_step r
     (RuntimeDropped :: replicate 9 ServerStarts)) = 0%nat).
Proof.
  assert (∀ r, (loops r <= 1)%nat → (scheduler_running r = false → loops r = 0%nat) →
    let r' := foldl runner_step r evs in
    (loops r' <= 1)%nat ∧ (scheduler_running r' = false → loops r' = 0%nat)) as H1.
  { induction evs as [|e evs IH]; [done|]. intros r Hl Hf. cbn [foldl]. apply IH; clear IH.
    all: destruct e, r as [[] [|[|n]]]; cbn in *; try lia; try (specialize (Hf eq_refl); lia). }
  destruct (H1 (mkRunners false 0)) as [Ha Hb]; [cbn; lia..|]. intros r. fold r in Ha, Hb.
  split_and!; [done| |].
  - intros Hd. unfold r. clear -Hd.
    assert (∀ r, loops r = (if scheduler_running r then 1 else 0)%nat →
      let r' := foldl runner_step r evs in loops r' = (if scheduler_running r' then 1 else 0)%nat) as H.
    { induction evs as [|e evs IH]; [done|]. intros r Hr. cbn [foldl]. apply IH; [set_solver|].
      destruct e; [| |set_solver]; destruct r as [[] [|n]]; cbn in *; lia. }
    by apply H.
  - intros Hr. destruct r as [b l]. cbn in *. subst. cbn. lia.
Qed.
