(* ===== verification/Static.v ===== *)
(** * Static files (silent/src/handler/static/handler.rs,
    silent/src/handler/static/directory.rs,
    silent/src/handler/static/compression.rs,
    silent/src/handler/static/options.rs)

    The file system, percent coding, MIME types and the encoders are
    parameters ([FileSystem]); [std::path] on Unix is defined here.  A call
    answers and leaves the list of the file system operations it made. *)

From S2P Require Import Prelude Str Platform State Error PathParam Body Message Next.

(** ** [std::path] *)

Inductive Component := Normal (seg : string) | CurDir | ParentDir | RootDir.

(** What [components] makes of the pieces between slashes: empty ones and
    dots vanish. *)
Definition component_of (seg : string) : option Component :=
  if bool_decide (seg = "") || bool_decide (seg = ".") then None
  else if bool_decide (seg = "..") then Some ParentDir else Some (Normal seg).

(** A leading dot counts. *)
Definition components (path : string) : list Component :=
  if starts_with_char "/" path then RootDir :: omap component_of (split_char "/" path)
  else
    match split_char "/" path with
    | "." :: rest => CurDir :: omap component_of rest
    | l => omap component_of l
    end.

(** [PathBuf::push] and [Path::join]. *)
Definition push (buf path : string) : string :=
  if starts_with_char "/" path then path
  else if bool_decide (buf = "") || ends_with_char "/" buf then buf +:+ path
  else buf +:+ "/" +:+ path.

(** ** [f32::from_str] *)

Definition strip_sign (s : string) : string :=
  match s with
  | String c r => if Ascii.eqb c "+" || Ascii.eqb c "-" then r else s
  | "" => ""
  end.

(** The mantissa as digits and their number after the point. *)
Definition parse_mantissa (s : string) : option (Z * Z) :=
  let '(i, f) := split_once "." s in
  let f := default "" f in
  if bool_decide (i +:+ f = "") then None
  else (λ m, (m, Z.of_nat (String.length f))) <$> digits_value 0 (i +:+ f).

(** The exponent mark in either case. *)
Definition lower_e (c : ascii) : ascii := if Ascii.eqb c "E" then "e"%char else c.

(** [Some true] when the text is a number that rounds to zero, half of the
    smallest subnormal included; [None] when it is no number. *)
Definition parse_f32_is_zero (s : string) : option bool :=
  let s := strip_sign s in
  let l := to_ascii_lowercase s in
  if bool_decide (l = "inf") || bool_decide (l = "infinity") || bool_decide (l = "nan")
  then Some false
  else
    let '(mant, exp) := split_once "e" (str_map lower_e s) in
    match parse_mantissa mant with
    | None => None
    | Some (m, frac) =>
        let value e :=
          let k := (e - frac)%Z in
          (m =? 0)%Z || ((k <? 0)%Z && (m * 2 ^ 150 <=? 10 ^ (- k))%Z) in
        match exp with
        | None => Some (value 0%Z)
        | Some e =>
            match digits (strip_sign e) with
            | None => None
            | Some n => Some (value (if starts_with_char "-" e then (- n)%Z else n))
            end
        end
    end.

(** ** compression.rs *)

Record StaticOptions := mkOptions { enable_compression : bool; directory_listing : bool }.

Definition StaticOptions_default : StaticOptions := mkOptions false false.
Definition set_compression (o : StaticOptions) (enable : bool) : StaticOptions :=
  mkOptions enable (directory_listing o).
Definition with_compression (o : StaticOptions) : StaticOptions := set_compression o true.
Definition set_directory_listing (o : StaticOptions) (enable : bool) : StaticOptions :=
  mkOptions (enable_compression o) enable.
Definition with_directory_listing (o : StaticOptions) : StaticOptions :=
  set_directory_listing o true.

Inductive Compression := Brotli | Gzip.

(** One parameter of an item: the quality if it is a readable [q]. *)
Definition quality_param (param : string) : option bool :=
  let '(k, v) := split_once "=" param in
  if bool_decide (trim k = "q") then v ≫= λ v, parse_f32_is_zero (trim v) else None.

(** An item of the header: its encoding, and whether its quality is zero. *)
Definition parse_item (item : string) : string * bool :=
  match split_char ";" (trim item) with
  | [] => ("", false)
  | encoding :: params =>
      (trim encoding, foldl (λ q param, default q (quality_param param)) false params)
  end.

Definition get_or_insert (o : option nat) (i : nat) : option nat :=
  match o with Some _ => o | None => Some i end.

Fixpoint accept_loop (index : nat) (items : list string) (brotli gzip : option nat)
  : option nat * option nat :=
  match items with
  | [] => (brotli, gzip)
  | item :: rest =>
      let '(encoding, zero) := parse_item item in
      if zero then accept_loop (S index) rest brotli gzip
      else if bool_decide (encoding = "br")
      then accept_loop (S index) rest (get_or_insert brotli index) gzip
      else if bool_decide (encoding = "gzip") || bool_decide (encoding = "x-gzip")
      then accept_loop (S index) rest brotli (get_or_insert gzip index)
      else if bool_decide (encoding = "*")
      then accept_loop (S index) rest brotli (get_or_insert gzip (index + 1000))
      else accept_loop (S index) rest brotli gzip
  end.

Definition parse_accept_encoding (header : string) : option Compression :=
  let '(brotli, gzip) := accept_loop 0 (split_char "," header) None None in
  match brotli, gzip with
  | Some _, _ => Some Brotli
  | None, Some _ => Some Gzip
  | None, None => None
  end.

(** ** directory.rs *)

Definition escape_char (c : ascii) : string :=
  if Ascii.eqb c "&" then "&amp;"
  else if Ascii.eqb c "<" then "&lt;"
  else if Ascii.eqb c ">" then "&gt;"
  else if Ascii.eqb c dquote then "&quot;"
  else if Ascii.eqb c "'" then "&#39;"
  else String c "".

Definition escape_html (input : string) : string := str_flat_map escape_char input.

(** [sort_by_key] is stable. *)
Fixpoint insert_by {A} (key : A → string) (a : A) (l : list A) : list A :=
  match l with
  | [] => [a]
  | b :: r => if String.leb (key a) (key b) then a :: l else b :: insert_by key a r
  end.

Definition sort_by_key {A} (key : A → string) (l : list A) : list A :=
  foldr (insert_by key) [] l.

(** ** The handler *)

Class FileSystem (P : Platform) := {
  (** [metadata]: whether the path is a directory, if it is there. *)
  fs_is_dir : string → option bool;
  fs_can_open : string → bool;
  (** [read_dir]: names and whether they are directories; an entry or its
      type may be unreadable. *)
  fs_read_dir : string → option (list (result (string * result bool string) string));
  url_decode : string → option string;
  url_encode : string → string;
  (** [str::to_lowercase] beyond ASCII. *)
  lowercase : string → string;
  Mime : Type;
  mime_guess : string → option Mime;
  mime_type : Mime → string;
  mime_sub : Mime → string;
  mime_charset : Mime → bool;
  mime_parse : string → option Mime;
  mime_to_string : Mime → string;
  (** The chunks of an opened file, encoded or not. *)
  file_stream : option Compression → string → BytesStream;
}.

Section static.
Context {P : Platform} {F : FileSystem P}.

Inductive FsAccess := FsMetadata (p : string) | FsReadDir (p : string) | FsOpen (p : string).

Definition access_path (a : FsAccess) : string :=
  match a with FsMetadata p | FsReadDir p | FsOpen p => p end.

Definition is_mime_compressible (m : Mime) : bool :=
  bool_decide (mime_type m = "text") ||
  (bool_decide (mime_type m = "application") &&
   bool_decide (mime_sub m ∈ ["json"; "xml"; "javascript"; "ecmascript"; "x-javascript";
                              "xhtml+xml"; "rss+xml"; "svg+xml"])) ||
  (bool_decide (mime_type m = "image") && bool_decide (mime_sub m = "svg+xml")).

Definition negotiate (options : StaticOptions) (req : Request) (content_type : option Mime)
  : option Compression :=
  if negb (enable_compression options) then None
  else
    content_type ≫= λ m,
    if negb (is_mime_compressible m) then None
    else (hm_get (headers req) "accept-encoding" ≫= header_to_str) ≫= parse_accept_encoding.

Definition apply_headers (res : Response) (kind : Compression) : Response :=
  let encoding := match kind with Brotli => "br" | Gzip => "gzip" end in
  set_header (set_header res "content-encoding" encoding) "vary" "Accept-Encoding".

Definition normalize_content_type (mime : option Mime) : string :=
  match mime with
  | Some value =>
      if bool_decide (mime_type value = "text") && negb (mime_charset value) then
        match mime_parse (mime_type value +:+ "/" +:+ mime_sub value +:+ "; charset=utf-8") with
        | Some parsed => mime_to_string parsed
        | None => ct_text_utf8
        end
      else mime_to_string value
  | None => ct_octet_stream
  end.

(** [try_new]. *)
Definition try_new (path : string) (options : StaticOptions)
  : SilentResult (string * StaticOptions) :=
  let normalized :=
    if ends_with_char "/" path && (1 <? String.length path)%nat
    then trim_end_matches "/" path else path in
  if bool_decide (fs_is_dir normalized = Some true) then Ok (normalized, options)
  else Err (business_error INTERNAL_SERVER_ERROR ("static path not exists: " +:+ normalized)).

(** [HandlerWrapperStatic::new] panics where [try_new] fails. *)
Definition HandlerWrapperStatic_new (path : string) (options : StaticOptions)
  : outcome (string * StaticOptions) :=
  match try_new path options with Ok h => Ret h | Err _ => Panic end.

(** [sanitize_path_param]. *)
Fixpoint sanitize_components (sanitized : string) (l : list Component) : option string :=
  match l with
  | [] => Some sanitized
  | Normal seg :: l => sanitize_components (push sanitized seg) l
  | CurDir :: l => sanitize_components sanitized l
  | (ParentDir | RootDir) :: _ => None
  end.

Definition sanitize_path_param (trimmed : string) : option string :=
  sanitize_components "" (components trimmed).

Definition normalized_request_path (sanitized : string) (ends_with_slash : bool) : string :=
  let parts :=
    omap (λ c, match c with Normal seg => Some seg | _ => None end) (components sanitized) in
  match parts with
  | [] => ""
  | _ => if ends_with_slash then join "/" parts +:+ "/" else join "/" parts
  end.

Definition Not_Found : SilentError := BusinessError NOT_FOUND "Not Found".

(** The entries as [(display, href, suffix)]; the first failure ends it. *)
Fixpoint list_entries (l : list (result (string * result bool string) string))
  : SilentResult (list (string * string * string)) :=
  match l with
  | [] => Ok []
  | Err err :: _ => Err (BusinessError INTERNAL_SERVER_ERROR ("Read dir failed: " +:+ err))
  | Ok (_, Err err) :: _ =>
      Err (BusinessError INTERNAL_SERVER_ERROR ("Read dir entry failed: " +:+ err))
  | Ok (name, Ok is_dir) :: rest =>
      es <-! list_entries rest ;;
      Ok ((escape_html name, url_encode name, if is_dir then "/" else "") :: es)
  end.

Definition entry_html (e : string * string * string) : string :=
  let '(display, href, suffix) := e in
  "<li><a href=" +:+ String dquote ("./" +:+ href +:+ suffix +:+ String dquote
    (">" +:+ display +:+ suffix +:+ "</a></li>")).

Definition link_html (target : string) : string :=
  "<li><a href=" +:+ String dquote (target +:+ String dquote (">" +:+ target +:+ "</a></li>")).

Definition style_html : string :=
  "<style>body{font-family:monospace;}a{text-decoration:none;}ul{list-style:none;padding-left:0;}</style>".

Definition listing_html (relative_path : string) (entries : list (string * string * string))
  : string :=
  let display_path := if bool_decide (relative_path = "") then "/" else "/" +:+ relative_path in
  "<!DOCTYPE html><html><head><meta charset=" +:+ String dquote ("utf-8" +:+ String dquote
  ("><title>Index of " +:+ escape_html display_path +:+ "</title>" +:+ style_html +:+
   "</head><body><h1>Index of " +:+ escape_html display_path +:+ "</h1><ul>" +:+
   link_html "./" +:+ (if bool_decide (relative_path = "") then "" else link_html "../") +:+
   foldr (λ e s, entry_html e +:+ s) "" entries +:+ "</ul></body></html>")).

Definition render_directory_listing (relative_path target : string) : SilentResult Response :=
  match fs_read_dir target with
  | None => Err Not_Found
  | Some l =>
      entries <-! list_entries l ;;
      let entries := sort_by_key (λ e, lowercase e.1.1) entries in
      Ok (set_body (set_typed_header Response_empty "content-type" ct_html)
            (ResBody_from_bytes (listing_html relative_path entries)))
  end.

(** The part of [call] after the parameter was read. *)
Definition serve_path (root : string) (options : StaticOptions) (req : Request)
    (file_path : string) : list FsAccess * SilentResult Response :=
  match url_decode file_path with
  | None => ([], Err Not_Found)
  | Some decoded =>
      let ends_with_slash := ends_with_char "/" decoded || bool_decide (decoded = "") in
      let trimmed := trim_start_matches "/" decoded in
      match sanitize_path_param trimmed with
      | None => ([], Err Not_Found)
      | Some sanitized =>
          let normalized := normalized_request_path sanitized ends_with_slash in
          let fs_path := push root sanitized in
          let is_dir := ends_with_slash || bool_decide (fs_is_dir fs_path = Some true) in
          if directory_listing options && is_dir then
            ([FsMetadata fs_path; FsReadDir fs_path], render_directory_listing normalized fs_path)
          else
            let target_path := if is_dir then push fs_path "index.html" else fs_path in
            ([FsMetadata fs_path; FsOpen target_path],
             if fs_can_open target_path then
               let guessed_mime := mime_guess target_path in
               let res := set_typed_header Response_empty "content-type"
                            (normalize_content_type guessed_mime) in
               let kind := negotiate options req guessed_mime in
               let res := match kind with Some kind => apply_headers res kind | None => res end in
               let res := set_res_headers res (hm_remove (r_headers res) "content-length") in
               Ok (set_body res (stream_body (file_stream kind target_path)))
             else Err Not_Found)
      end
  end.

(** [<HandlerWrapperStatic as Handler>::call]. *)
Definition HandlerWrapperStatic_call (root : string) (options : StaticOptions) (req : Request)
  : outcome (list FsAccess * SilentResult Response) :=
  file_path ← get_path_params try_String req "path";
  mret (match file_path with
        | Ok file_path => serve_path root options req file_path
        | Err _ => ([], Err Not_Found)
        end).

(** ** Reference: where a request may reach *)

Definition plain_name (s : string) : Prop :=
  s ≠ "" ∧ s ≠ "." ∧ s ≠ ".." ∧ str_contains_char "/" s = false.

(** [root] followed by a path inside it. *)
Definition under (root : string) (segs : list string) : string :=
  (if bool_decide (root = "") || ends_with_char "/" root then root else root +:+ "/")
    +:+ join "/" segs.

(** The names in a path, up to a step upwards. *)
Fixpoint names (l : list Component) : option (list string) :=
  match l with
  | [] => Some []
  | Normal seg :: l => cons seg <$> names l
  | CurDir :: l => names l
  | (ParentDir | RootDir) :: _ => None
  end.

(** ** Lemmas: paths *)

Lemma component_plain seg c :
  str_contains_char "/" seg = false → component_of seg = Some (Normal c) → plain_name c.
Proof.
  unfold component_of, plain_name. intros Hs.
  destruct (bool_decide_reflect (seg = "")), (bool_decide_reflect (seg = ".")),
    (bool_decide_reflect (seg = "..")); cbn; try done. by intros [= <-].
Qed.

Lemma components_plain path :
  Forall (λ c, match c with Normal n => plain_name n | _ => True end) (components path).
Proof.
  assert (∀ l, Forall (λ t, str_contains_char "/" t = false) l →
    Forall (λ c, match c with Normal n => plain_name n | _ => True end) (omap component_of l)) as H.
  { induction 1 as [|x l Hx Hl IH]; [constructor|]. cbn.
    destruct (component_of x) as [[c| | |]|] eqn:E; try (by constructor); [|done].
    constructor; [|done]. by eapply component_plain. }
  pose proof (split_char_pieces "/" path) as Hp. unfold components.
  destruct (starts_with_char "/" path); [constructor; [done|by apply H]|].
  destruct (split_char "/" path) as [|x xs]; [constructor|].
  repeat (case_match; simplify_eq; try by apply H).
  apply Forall_cons in Hp as [_ Hp]. constructor; [done|]. by apply H.
Qed.

Lemma names_plain l segs :
  Forall (λ c, match c with Normal n => plain_name n | _ => True end) l →
  names l = Some segs → Forall plain_name segs.
Proof.
  intros Hl. revert segs. induction Hl as [|[n| | |] l Hn Hl IH]; cbn; intros segs.
  - intros [= <-]. constructor.
  - destruct (names l) as [s|]; [|done]. intros [= <-]. constructor; [done|by apply IH].
  - apply IH.
  - done.
  - done.
Qed.

Lemma ends_with_app c s t : t ≠ "" → ends_with_char c (s +:+ t) = ends_with_char c t.
Proof.
  intros Ht. induction s as [|d s IH]; [done|]. cbn. rewrite IH.
  destruct (s +:+ t) eqn:E; [|done]. destruct s; [by cbn in E; subst|done].
Qed.

Lemma ends_with_contains c s : str_contains_char c s = false → ends_with_char c s = false.
Proof.
  induction s as [|d s IH]; [done|]. cbn. intros [Hd Hs]%orb_false_iff.
  destruct s; [done|]. by apply IH.
Qed.

Lemma join_cons sep x y l : join sep (x :: y :: l) = x +:+ sep +:+ join sep (y :: l).
Proof. done. Qed.

Lemma join_snoc sep l x :
  join sep (l ++ [x])%list = match l with [] => x | _ => join sep l +:+ sep +:+ x end.
Proof.
  induction l as [|y l IH]; [done|]. destruct l as [|z l]; [done|].
  change ((y :: z :: l) ++ [x])%list with (y :: z :: (l ++ [x]))%list.
  rewrite !join_cons. change (z :: l ++ [x])%list with ((z :: l) ++ [x])%list.
  by rewrite IH, !str_app_assoc.
Qed.

Lemma join_plain l :
  Forall plain_name l → l ≠ [] →
  join "/" l ≠ "" ∧ ends_with_char "/" (join "/" l) = false ∧ starts_with_char "/" (join "/" l) = false.
Proof.
  intros Hl Hne. destruct l as [|x l _] using rev_ind; [done|]. clear Hne.
  apply Forall_app in Hl as [Hl (Hx1 & _ & _ & Hx2)%Forall_singleton]. rewrite join_snoc.
  assert (∀ s, plain_name s → starts_with_char "/" s = false) as Hst.
  { intros [|c s] (_ & _ & _ & H); [done|]. by apply orb_false_iff in H as [? _]. }
  destruct l as [|y l]; [split_and!; [done|by apply ends_with_contains|]|].
  { destruct x; [done|]. by apply orb_false_iff in Hx2 as [? _]. }
  apply Forall_cons in Hl as [Hy Hl].
  assert (∃ r, join "/" (y :: l) = y +:+ r) as [r ->].
  { destruct l; [exists ""; by rewrite str_app_nil_r|by eexists]. }
  destruct y as [|c y]; [by destruct Hy|]. split_and!; [done| |exact (Hst _ Hy)].
  rewrite !ends_with_app by done. by apply ends_with_contains.
Qed.

Lemma push_plain l x :
  Forall plain_name l → plain_name x → push (join "/" l) x = join "/" (l ++ [x])%list.
Proof.
  intros Hl Hx. unfold push. rewrite join_snoc.
  assert (starts_with_char "/" x = false) as ->.
  { destruct x as [|c x]; [done|]. destruct Hx as (_ & _ & _ & H).
    by apply orb_false_iff in H as [? _]. }
  destruct l as [|y l]; [by destruct x|].
  destruct (join_plain (y :: l)) as (H1 & H2 & _); [done|done|].
  by rewrite (bool_decide_eq_false_2 _ H1), H2.
Qed.

Lemma sanitize_names l : ∀ segs,
  Forall plain_name segs →
  Forall (λ c, match c with Normal n => plain_name n | _ => True end) l →
  sanitize_components (join "/" segs) l = (λ n, join "/" (segs ++ n)%list) <$> names l.
Proof.
  induction l as [|[n| | |] l IH]; intros segs Hs Hl; cbn.
  - by rewrite app_nil_r.
  - apply Forall_cons in Hl as [Hn Hl]. rewrite push_plain by done.
    rewrite IH; [|by apply Forall_app; split; [|constructor]|done].
    destruct (names l); [|done]. cbn. by rewrite <-app_assoc.
  - apply Forall_cons in Hl as [_ Hl]. by apply IH.
  - done.
  - done.
Qed.

Lemma push_under root segs :
  Forall plain_name segs → push root (join "/" segs) = under root segs.
Proof.
  intros Hs. unfold push, under. destruct segs as [|x segs].
  - cbn. destruct (_ || _); [done|]. by rewrite str_app_nil_r.
  - destruct (join_plain (x :: segs)) as (_ & _ & ->); [done|done|].
    destruct (_ || _); [done|]. by rewrite str_app_assoc.
Qed.

Lemma push_index root segs :
  Forall plain_name segs →
  push (under root segs) "index.html" = under root (segs ++ ["index.html"])%list.
Proof.
  intros Hs. unfold under. set (r := if bool_decide (root = "") || ends_with_char "/" root then root else root +:+ "/").
  assert (r = "" ∨ ends_with_char "/" r = true) as Hr.
  { unfold r. destruct (bool_decide_reflect (root = "")); cbn; [by left|].
    destruct (ends_with_char "/" root) eqn:E; [by right|]. right. by rewrite ends_with_app. }
  rewrite join_snoc. unfold push. cbn [starts_with_char]. destruct segs as [|x segs].
  - cbn [join]. rewrite str_app_nil_r. destruct Hr as [->| ->]; [done|].
    by rewrite orb_true_r.
  - destruct (join_plain (x :: segs)) as (H1 & H2 & _); [done|done|].
    rewrite ends_with_app, H2 by done. rewrite bool_decide_eq_false_2; cbn; [by rewrite str_app_assoc|].
    intros E. apply H1. destruct r; [done|discriminate].
Qed.

(** ** Lemmas: negotiation *)

Definition accepts (e : string) (items : list string) : bool :=
  existsb (λ item, let '(n, zero) := parse_item item in bool_decide (n = e) && negb zero) items.

Lemma accept_loop_spec items : ∀ (i : nat) b g,
  let '(b', g') := accept_loop i items b g in
  (is_Some b' ↔ is_Some b ∨ accepts "br" items = true) ∧
  (is_Some g' ↔ is_Some g ∨
     accepts "gzip" items || accepts "x-gzip" items || accepts "*" items = true).
Proof.
  assert (∀ o i, is_Some (get_or_insert o i)) as Hg by (intros [] ?; by eexists).
  induction items as [|x items IH]; intros i b g; cbn; [naive_solver|].
  destruct (parse_item x) as [e [|]]; cbn.
  { rewrite !andb_false_r. apply IH. }
  rewrite !andb_true_r.
  destruct (bool_decide_reflect (e = "br")) as [->|]; cbn.
  { specialize (IH (S i) (get_or_insert b i) g). destruct (accept_loop _ _ _ _).
    pose proof (Hg b i). naive_solver. }
  destruct (bool_decide_reflect (e = "gzip")) as [->|]; cbn.
  { specialize (IH (S i) b (get_or_insert g i)). destruct (accept_loop _ _ _ _).
    pose proof (Hg g i). naive_solver. }
  destruct (bool_decide_reflect (e = "x-gzip")) as [->|]; cbn.
  { specialize (IH (S i) b (get_or_insert g i)). destruct (accept_loop _ _ _ _).
    pose proof (Hg g i). rewrite orb_true_r. naive_solver. }
  destruct (bool_decide_reflect (e = "*")) as [->|]; cbn.
  { specialize (IH (S i) b (get_or_insert g (i + 1000))). destruct (accept_loop _ _ _ _).
    pose proof (Hg g (i + 1000)). rewrite !orb_true_r. naive_solver. }
  apply IH.
Qed.

Lemma parent_trim s :
  ".." ∈ split_char "/" s → ".." ∈ split_char "/" (trim_start_matches "/" s).
Proof.
  induction s as [|c s IH]; [done|]. cbn [trim_start_matches].
  destruct (Ascii.eqb c "/") eqn:E; [|done]. cbn [split_char]. rewrite E.
  intros [?|H]%elem_of_cons; [done|]. by apply IH.
Qed.

Lemma parent_component s : ".." ∈ split_char "/" s → ParentDir ∈ components s.
Proof.
  assert (∀ l, ".." ∈ l → ParentDir ∈ omap (M:=list) component_of l) as H.
  { intros l Hl. apply list_elem_of_omap. by exists "..". }
  unfold components. intros Hs. destruct (starts_with_char "/" s).
  { apply elem_of_cons. right. by apply H. }
  repeat (case_match; simplify_eq; try by apply H).
  apply elem_of_cons in Hs as [?|Hs]; [done|]. apply elem_of_cons. right. by apply H.
Qed.

Lemma names_parent l : ParentDir ∈ l → names l = None.
Proof.
  induction l as [|[n| | |] l IH]; cbn; intros [?|H]%elem_of_cons || intros []%not_elem_of_nil;
    try done; try by apply IH.
  by rewrite IH.
Qed.

(** ** Properties *)

(** C28: Static files cannot be left: whatever path a request names, encoded
    or not, every file system operation stays at a path below the configured
    root made of proper names only (no empty, [.] or [..] segments); a path
    with a step upwards reaches no file system operation at all and is not
    found, and so is one that does not decode. *)
Theorem static_confined root options req file_path :
  let '(acc, res) := serve_path root options req file_path in
  (∃ segs, Forall plain_name segs ∧
    Forall (λ a, access_path a = under root segs ∨
                 access_path a = under root (segs ++ ["index.html"])%list) acc) ∧
  match url_decode file_path with
  | Some decoded => ".." ∈ split_char "/" decoded → acc = [] ∧ res = Err Not_Found
  | None => acc = [] ∧ res = Err Not_Found
  end.
Proof.
  unfold serve_path. destruct (url_decode file_path) as [decoded|].
  2:{ split; [by exists []|done]. }
  unfold sanitize_path_param. change "" with (join "/" []) at 2.
  pose proof (components_plain (trim_start_matches "/" decoded)) as Hc.
  rewrite (sanitize_names _ []) by done.
  destruct (names (components _)) as [segs|] eqn:E; cbn [fmap option_fmap option_map].
  2:{ split; [by exists []|done]. }
  pose proof (names_plain _ _ Hc E) as Hs. cbn [app]. rewrite push_under by done.
  assert (".." ∈ split_char "/" decoded → False) as Hup.
  { intros H%parent_trim%parent_component%names_parent. congruence. }
  destruct (directory_listing options && _).
  - split; [|by intros ?%Hup]. exists segs. split; [done|]. repeat constructor; by left.
  - split; [|by intros ?%Hup]. exists segs. split; [done|]. constructor; [by left|].
    constructor; [|constructor]. cbn. destruct (ends_with_char "/" decoded || _ || _); [|by left].
    right. by apply push_index.
Qed.

(** Content negotiation in closed form: Brotli if some item names it with
    a quality that is not zero, else gzip if some item names [gzip],
    [x-gzip] or [*] so; the order of the items and the other quality values
    do not matter.  So a coding the client refused is used when a wildcard
    stands beside it. *)
Theorem accept_encoding_spec header :
  let items := split_char "," header in
  parse_accept_encoding header =
    (if accepts "br" items then Some Brotli
     else if accepts "gzip" items || accepts "x-gzip" items || accepts "*" items then Some Gzip
     else None) ∧
  parse_accept_encoding "gzip;q=0, *" = Some Gzip.
Proof.
  intros items. split; [|reflexivity]. unfold parse_accept_encoding. fold items.
  pose proof (accept_loop_spec items 0 None None) as H.
  destruct (accept_loop 0 items None None) as [b g]. destruct H as [Hb Hg].
  assert (∀ (o : option nat) (x : bool), (is_Some o ↔ is_Some (@None nat) ∨ x = true) →
    bool_decide (is_Some o) = x) as Hx.
  { intros o x Ho. apply eq_true_iff_eq. rewrite bool_decide_eq_true, Ho.
    split; [intros [[? [=]]|]; done|by right]. }
  apply Hx in Hb as <-. apply Hx in Hg as <-. by destruct b, g.
Qed.
End static.

(** ** The chunks of an opened file *)

Section to_stream.
(** A reader: [read r n] yields at most [n] bytes, none at the end. *)
Context {Reader E : Type} (read : Reader → nat → result string E * Reader).

Definition CHUNK_SIZE : nat := 16 * 1024.

(** One step of [try_unfold]; without a state the stream has ended. *)
Definition to_stream_next (state : option Reader) : option (result string E) * option Reader :=
  match state with
  | None => (None, None)
  | Some r =>
      match read r CHUNK_SIZE with
      | (Err e, _) => (Some (Err e), None)
      | (Ok bytes, r) => if bool_decide (bytes = "") then (None, None) else (Some (Ok bytes), Some r)
      end
  end.

(** The first [n] items. *)
Fixpoint to_stream (n : nat) (state : option Reader) : list (result string E) :=
  match n with
  | O => []
  | S n => match to_stream_next state with
           | (None, _) => []
           | (Some item, state) => item :: to_stream n state
           end
  end.
End to_stream.

#[local] Opaque CHUNK_SIZE.

(** A reader that holds [content] and hands out a non-empty part of it each
    time, up to the end, yields a stream that ends and carries the content. *)
Lemma to_stream_content {Reader E} (read : Reader → nat → result string E * Reader)
    (content : Reader → string) :
  (∀ r n, (0 < n)%nat → ∃ bytes r', read r n = (Ok bytes, r') ∧
     content r = bytes +:+ content r' ∧ (String.length bytes <= n)%nat ∧
     (bytes = "" → content r = "")) →
  ∀ r n, (String.length (content r) < n)%nat →
  ∃ chunks, to_stream read n (Some r) = map Ok chunks ∧
    foldr String.append "" chunks = content r ∧
    Forall (λ c, c ≠ "" ∧ (String.length c <= CHUNK_SIZE)%nat) chunks ∧
    ∀ m, (n <= m)%nat → to_stream read m (Some r) = map Ok chunks.
Proof.
  intros Hread r n. revert r. induction n as [|n IH]; intros r Hn; [lia|].
  assert (0 < CHUNK_SIZE)%nat as Hc by (with_strategy transparent [CHUNK_SIZE] unfold CHUNK_SIZE; lia).
  destruct (Hread r CHUNK_SIZE Hc) as (bytes & r' & Hr & Hsplit & Hlen & Hend).
  destruct (decide (bytes = "")) as [->|Hne].
  - exists []. cbn [to_stream]. unfold to_stream_next. rewrite Hr, bool_decide_eq_true_2 by done.
    split_and!; [done|by rewrite Hend|constructor|]. intros [|m] Hm; [lia|].
    cbn [to_stream]. unfold to_stream_next. by rewrite Hr, bool_decide_eq_true_2.
  - assert (0 < String.length bytes)%nat as Hpos by (destruct bytes; cbn; [done|lia]).
    assert (String.length (content r) = (String.length bytes + String.length (content r'))%nat) as Hl
      by (rewrite Hsplit; apply str_len_app).
    destruct (IH r') as (chunks & Hs & Hcat & Hall & Hmore); [lia|].
    assert (∀ m, to_stream read (S m) (Some r) = Ok bytes :: to_stream read m (Some r')) as Hstep.
    { intros m. cbn [to_stream]. unfold to_stream_next. by rewrite Hr, bool_decide_eq_false_2. }
    exists (bytes :: chunks). rewrite Hstep, Hs. split_and!; [done| |by constructor|].
    + cbn. by rewrite Hcat, Hsplit.
    + intros [|m] Hm; [lia|]. rewrite Hstep, Hmore by lia. done.
Qed.
