(* ===== verification/Sse.v ===== *)
(** * Server-sent events (silent/src/sse/event.rs,
    silent/src/sse/keep_alive.rs, silent/src/sse/reply.rs)

    Events and their text, the keep-alive stream poll by poll, and as a
    reference the event stream parser of the HTML standard.  The events of a
    handler are scripted poll results; time is in nanoseconds. *)

From S2P Require Import Prelude Str Platform State Error PathParam Body Message.

(** ** event.rs *)

Inductive DataType := Text (s : string) | JsonText (s : string).

Record SSEEvent := mkEvent {
  id : option string;
  data : option DataType;
  event : option string;
  comment : option string;
  retry : option Z;
}.

Definition SSEEvent_default : SSEEvent := mkEvent None None None None None.

Definition set_data (e : SSEEvent) (d : string) : SSEEvent :=
  mkEvent (id e) (Some (Text d)) (event e) (comment e) (retry e).
(** [json_data], of what [serde_json::to_string] answered. *)
Definition set_json_data (e : SSEEvent) (json : result string string) : result SSEEvent string :=
  j <-! json ;; Ok (mkEvent (id e) (Some (JsonText j)) (event e) (comment e) (retry e)).
Definition set_comment (e : SSEEvent) (c : string) : SSEEvent :=
  mkEvent (id e) (data e) (event e) (Some c) (retry e).
Definition set_event (e : SSEEvent) (n : string) : SSEEvent :=
  mkEvent (id e) (data e) (Some n) (comment e) (retry e).
Definition set_retry (e : SSEEvent) (d : Z) : SSEEvent :=
  mkEvent (id e) (data e) (event e) (comment e) (Some d).
Definition set_id (e : SSEEvent) (i : string) : SSEEvent :=
  mkEvent (Some i) (data e) (event e) (comment e) (retry e).


(** A field and the end of its line. *)
Definition line (s : string) : string := s +:+ String LF "".

Definition retry_text (duration : Z) : string :=
  let secs := (duration / 1000000000)%Z in
  let millis := (duration mod 1000000000 / 1000000)%Z in
  (if (0 <? secs)%Z then
     show_Z secs +:+ (if (millis <? 10)%Z then "00" else if (millis <? 100)%Z then "0" else "")
   else "") +:+ show_Z millis.

(** [fmt::Display]. *)
Definition SSEEvent_display (e : SSEEvent) : string :=
  (match comment e with Some c => line (":" +:+ c) | None => "" end) +:+
  (match event e with Some n => line ("event:" +:+ n) | None => "" end) +:+
  (match data e with
   | Some (Text d) => foldr (λ l s, line ("data:" +:+ l) +:+ s) "" (split_char LF d)
   | Some (JsonText d) => line ("data:" +:+ d)
   | None => ""
   end) +:+
  (match id e with Some i => line ("id:" +:+ i) | None => "" end) +:+
  (match retry e with Some d => line ("retry:" +:+ retry_text d) | None => "" end) +:+
  line "".

(** ** keep_alive.rs *)

Record KeepAlive := mkKeepAlive { comment_text : string; max_interval : Z }.

Definition KeepAlive_default : KeepAlive := mkKeepAlive "" 15000000000.
Definition set_interval (k : KeepAlive) (t : Z) : KeepAlive := mkKeepAlive (comment_text k) t.
Definition set_comment_text (k : KeepAlive) (s : string) : KeepAlive :=
  mkKeepAlive s (max_interval k).

(** [poll_next] at time [now], where the inner stream answers [inner]; the
    state is when [alive_timer] fires. *)
Definition keep_alive_poll (k : KeepAlive) (now : Z)
    (inner : Poll (option (result SSEEvent string))) (alive_timer : Z)
  : Poll (option (SilentResult SSEEvent)) * Z :=
  match inner with
  | Pending =>
      if (now <? alive_timer)%Z then (Pending, alive_timer)
      else (Ready (Some (Ok (set_comment SSEEvent_default (comment_text k)))),
            now + max_interval k)%Z
  | Ready (Some (Ok ev)) => (Ready (Some (Ok ev)), now + max_interval k)%Z
  | Ready None => (Ready None, alive_timer)
  | Ready (Some (Err _)) =>
      (Ready (Some (Err (BusinessError INTERNAL_SERVER_ERROR "sse::keep error"))), alive_timer)
  end.

(** The items of the stream until it ends. *)
Fixpoint keep_alive_items (k : KeepAlive) (alive_timer : Z)
    (polls : list (Z * Poll (option (result SSEEvent string)))) : list (SilentResult SSEEvent) :=
  match polls with
  | [] => []
  | (now, inner) :: polls =>
      match keep_alive_poll k now inner alive_timer with
      | (Ready (Some item), timer) => item :: keep_alive_items k timer polls
      | (Ready None, _) => []
      | (Pending, timer) => keep_alive_items k timer polls
      end
  end.

(** ** reply.rs *)

(** The body chunk of an item. *)
Definition sse_chunk (item : SilentResult SSEEvent) : SilentResult string :=
  match item with
  | Ok ev => Ok (SSEEvent_display ev)
  | Err _ => Err (BusinessError INTERNAL_SERVER_ERROR "sse::keep error")
  end.

Definition sse_items (start : Z) (polls : list (Z * Poll (option (result SSEEvent string))))
  : list (SilentResult string) :=
  map sse_chunk (keep_alive_items KeepAlive_default
    (start + max_interval KeepAlive_default) polls).

Definition sse_reply {P : Platform} (body : BytesStream) : Response :=
  let res := set_body Response_empty (stream_body body) in
  set_header (set_header res "content-type" "text/event-stream") "cache-control" "no-cache".

(** ** Reference: parsing an event stream *)

(** Lines end with LF, CR or CR LF. *)
Fixpoint normalize_newlines (s : string) : string :=
  match s with
  | "" => ""
  | String c r =>
      if Ascii.eqb c CR then
        match r with
        | String d _ => if Ascii.eqb d LF then normalize_newlines r
                        else String LF (normalize_newlines r)
        | "" => String LF ""
        end
      else String c (normalize_newlines r)
  end.

(** The finished lines. *)
Definition lines (s : string) : list string := removelast (split_char LF s).

Record ParserState := mkParser {
  data_buffer : string;
  event_buffer : string;
  last_id : string;
  reconnection : option Z;
}.

(** A dispatched event: its type, its data and the last event id. *)
Abbreviation Dispatched := (string * string * string)%type.

(** The data buffer without its final newline. *)
Fixpoint strip_last (s : string) : string :=
  match s with "" => "" | String _ "" => "" | String c r => String c (strip_last r) end.

Definition process_field (st : ParserState) (field value : string) : ParserState :=
  if bool_decide (field = "event") then mkParser (data_buffer st) value (last_id st) (reconnection st)
  else if bool_decide (field = "data")
  then mkParser (data_buffer st +:+ line value) (event_buffer st) (last_id st) (reconnection st)
  else if bool_decide (field = "id") then
    if str_contains_char "000" value then st
    else mkParser (data_buffer st) (event_buffer st) value (reconnection st)
  else if bool_decide (field = "retry") then
    match digits value with
    | Some n => mkParser (data_buffer st) (event_buffer st) (last_id st) (Some n)
    | None => st
    end
  else st.

Definition process_line (st : ParserState) (l : string) : ParserState * list Dispatched :=
  if bool_decide (l = "") then
    (mkParser "" "" (last_id st) (reconnection st),
     if bool_decide (data_buffer st = "") then []
     else [(if bool_decide (event_buffer st = "") then "message" else event_buffer st,
            strip_last (data_buffer st), last_id st)])
  else if starts_with_char ":" l then (st, [])
  else
    match split_once ":" l with
    | (field, Some value) =>
        (process_field st field (default value (strip_prefix_char " " value)), [])
    | (field, None) => (process_field st field "", [])
    end.

Fixpoint process_lines (st : ParserState) (ls : list string) : ParserState * list Dispatched :=
  match ls with
  | [] => (st, [])
  | l :: ls =>
      let '(st, d) := process_line st l in
      let '(st', ds) := process_lines st ls in
      (st', (d ++ ds)%list)
  end.

Definition parse_stream (s : string) : ParserState * list Dispatched :=
  process_lines (mkParser "" "" "" None) (lines (normalize_newlines s)).

(** What a consumer should see of the events, given the last id. *)
Definition data_text (e : SSEEvent) : option string :=
  match data e with Some (Text d) | Some (JsonText d) => Some d | None => None end.

Definition event_type (e : SSEEvent) : string :=
  match event e with Some n => if bool_decide (n = "") then "message" else n | None => "message" end.

Fixpoint expected (last : string) (evs : list SSEEvent) : list Dispatched :=
  match evs with
  | [] => []
  | e :: evs =>
      let last := default last (id e) in
      match data_text e with
      | Some d => (event_type e, d, last) :: expected last evs
      | None => expected last evs
      end
  end.

(** The events the handler produced, up to its first error. *)
Fixpoint produced (polls : list (Z * Poll (option (result SSEEvent string)))) : list SSEEvent :=
  match polls with
  | [] => []
  | (_, Ready (Some (Ok ev))) :: polls => ev :: produced polls
  | (_, Ready None) :: _ => []
  | (_, Ready (Some (Err _))) :: _ => []
  | (_, Pending) :: polls => produced polls
  end.

(** Polls that neither end the stream nor fail, and when the last item of a
    stream that started at [t] went out, a comment being due after
    [max_interval]. *)
Definition goes_on (p : Z * Poll (option (result SSEEvent string))) : bool :=
  match p with (_, Ready (Some (Ok _))) | (_, Pending) => true | _ => false end.

Fixpoint last_sent (k : KeepAlive) (t : Z)
    (polls : list (Z * Poll (option (result SSEEvent string)))) : Z :=
  match polls with
  | (now, Ready _) :: polls => last_sent k now polls
  | (now, Pending) :: polls => last_sent k (if (t + max_interval k <=? now)%Z then now else t) polls
  | [] => t
  end.

(** The text of the chunks that go out: the transports poll no further than
    the body's first error. *)
Fixpoint body_text (items : list (SilentResult string)) : string :=
  match items with
  | [] => ""
  | Ok c :: items => c +:+ body_text items
  | Err _ :: _ => ""
  end.

(** ** What may stand in a field *)

Definition not_newline (c : ascii) : bool := negb (Ascii.eqb c LF) && negb (Ascii.eqb c CR).

Definition one_line (s : string) : bool := str_forallb not_newline s.

(** The parser drops one leading space of a value. *)
Definition value_ok (s : string) : bool := one_line s && negb (starts_with_char " " s).

Definition event_ok (e : SSEEvent) : bool :=
  (match comment e with Some c => one_line c | None => true end) &&
  (match event e with Some n => value_ok n | None => true end) &&
  (match data e with
   | Some (Text d) => forallb value_ok (split_char LF d)
   | Some (JsonText d) => value_ok d
   | None => true
   end) &&
  (match id e with Some i => value_ok i && negb (str_contains_char "000" i) | None => true end) &&
  (match retry e with Some d => (0 <=? d)%Z | None => true end).

(** ** Lemmas: the retry time *)

Lemma digits_value_app acc a b :
  digits_value acc (a +:+ b) = digits_value acc a ≫= λ v, digits_value v b.
Proof.
  revert acc. induction a as [|c a IH]; intros acc; [done|]. cbn. destruct (digit c); [apply IH|done].
Qed.

Lemma digits_value_acc acc s :
  digits_value acc s = (λ v, acc * 10 ^ Z.of_nat (String.length s) + v)%Z <$> digits_value 0 s.
Proof.
  revert acc. induction s as [|c s IH]; intros acc.
  { cbn [digits_value String.length fmap option_fmap option_map]. f_equal. lia. }
  cbn [digits_value String.length]. destruct (digit c) as [d|]; [|done].
  rewrite (IH (acc * 10 + d)%Z), (IH (0 * 10 + d)%Z).
  destruct (digits_value 0 s) as [v|]; [|done]. cbn [fmap option_fmap option_map]. f_equal.
  rewrite Nat2Z.inj_succ, Z.pow_succ_r by lia. lia.
Qed.

Definition pad3 (millis : Z) : string :=
  (if (millis <? 10)%Z then "00" else if (millis <? 100)%Z then "0" else "") +:+ show_Z millis.

Lemma pad3_digits m : (0 <= m < 1000)%Z → String.length (pad3 m) = 3%nat ∧ digits_value 0 (pad3 m) = Some m.
Proof.
  intros Hm.
  assert (forallb (λ m, (String.length (pad3 m) =? 3)%nat && bool_decide (digits_value 0 (pad3 m) = Some m))
    (seqZ 0 1000) = true) as H by (vm_compute; reflexivity).
  rewrite forallb_forall in H. specialize (H m).
  assert (In m (seqZ 0 1000)) as Hin by (apply list_elem_of_In, elem_of_seqZ; lia).
  apply H, andb_true_iff in Hin as [H1%Nat.eqb_eq H2%bool_decide_eq_true]. done.
Qed.

Lemma digits_of_value s v : s ≠ "" → digits_value 0 s = Some v → digits s = Some v.
Proof. by destruct s. Qed.

Lemma show_Z_value z : (0 <= z)%Z → show_Z z ≠ "" ∧ digits_value 0 (show_Z z) = Some z.
Proof. intros H%digits_show. split; [by intros E; rewrite E in H|by destruct (show_Z z)]. Qed.

(** The printed retry time is the whole milliseconds of the duration. *)
Lemma retry_text_digits d : (0 <= d)%Z → digits (retry_text d) = Some (d / 1000000)%Z.
Proof.
  intros Hd. unfold retry_text. set (secs := (d / 1000000000)%Z).
  set (ms := (d mod 1000000000 / 1000000)%Z).
  assert (0 <= secs)%Z as Hs by (apply Z.div_pos; lia).
  pose proof (Z.mod_pos_bound d 1000000000 ltac:(lia)) as Hb.
  assert (0 <= ms < 1000)%Z as Hm.
  { split; [apply Z.div_pos; lia|apply Z.div_lt_upper_bound; lia]. }
  assert (d / 1000000 = secs * 1000 + ms)%Z as ->.
  { unfold secs, ms. rewrite (Z.div_mod d 1000000000) at 1 by lia.
    replace (1000000000 * (d / 1000000000))%Z with (d / 1000000000 * 1000 * 1000000)%Z by lia.
    rewrite Z.div_add_l by lia. done. }
  destruct (show_Z_value secs Hs) as [Hn Hv].
  destruct (Z.ltb_spec 0 secs).
  - rewrite str_app_assoc. fold (pad3 ms). destruct (pad3_digits ms Hm) as [Hl Hp].
    apply digits_of_value; [intros E; destruct (show_Z secs); [done|discriminate]|].
    rewrite digits_value_app, Hv. cbn [mbind option_bind].
    rewrite digits_value_acc, Hp, Hl. done.
  - replace secs with 0%Z by lia. change (digits (show_Z ms) = Some ms). apply digits_show. lia.
Qed.

(** ** Lemmas: lines *)

Definition concat_lines (ls : list string) : string := foldr (λ l s, line l +:+ s) "" ls.

Definition no_lf (s : string) : bool := negb (str_contains_char LF s).

Lemma line_app l s : line l +:+ s = l +:+ String LF s.
Proof. unfold line. by rewrite str_app_assoc. Qed.

Lemma concat_lines_app a b : concat_lines (a ++ b)%list = concat_lines a +:+ concat_lines b.
Proof.
  induction a as [|l a IH]; [done|].
  change (line l +:+ concat_lines (a ++ b)%list = (line l +:+ concat_lines a) +:+ concat_lines b).
  by rewrite IH, str_app_assoc.
Qed.

Lemma lines_concat ls : Forall (λ l, no_lf l = true) ls → lines (concat_lines ls) = ls.
Proof.
  unfold lines. induction 1 as [|l ls Hl Hls IH]; [done|].
  change (concat_lines (l :: ls)) with (line l +:+ concat_lines ls).
  rewrite line_app, split_char_app by by apply negb_true_iff.
  pose proof (split_char_ne LF (concat_lines ls)) as Hne.
  revert IH Hne. destruct (split_char LF (concat_lines ls)) as [|x xs]; [done|]. intros IH _.
  change (l :: removelast (x :: xs) = l :: ls). by rewrite IH.
Qed.

Lemma normalize_id s : str_forallb (λ c, negb (Ascii.eqb c CR)) s = true → normalize_newlines s = s.
Proof.
  induction s as [|c s IH]; [done|]. cbn. intros [Hc Hs]%andb_true_iff.
  apply negb_true_iff in Hc. rewrite Hc. by rewrite IH.
Qed.

(** The lines of an event. *)
Definition data_lines (e : SSEEvent) : list string :=
  match data e with
  | Some (Text d) => map (λ l, "data:" +:+ l) (split_char LF d)
  | Some (JsonText d) => ["data:" +:+ d]
  | None => []
  end.

Definition opt_line (name : string) (o : option string) : list string :=
  match o with Some v => [name +:+ v] | None => [] end.

Definition event_lines (e : SSEEvent) : list string :=
  (opt_line ":" (comment e) ++ opt_line "event:" (event e) ++ data_lines e ++
   opt_line "id:" (id e) ++ opt_line "retry:" (retry_text <$> retry e) ++ [""])%list.

Lemma concat_opt_line name o :
  concat_lines (opt_line name o) = match o with Some v => line (name +:+ v) | None => "" end.
Proof. destruct o; [|done]. cbn. apply str_app_nil_r. Qed.

Lemma concat_data_lines e :
  concat_lines (data_lines e) =
  match data e with
  | Some (Text d) => foldr (λ l s, line ("data:" +:+ l) +:+ s) "" (split_char LF d)
  | Some (JsonText d) => line ("data:" +:+ d)
  | None => ""
  end.
Proof.
  unfold data_lines. destruct (data e) as [[d|d]|]; [|apply str_app_nil_r|done].
  induction (split_char LF d) as [|l ls IH]; [done|].
  change (line ("data:" +:+ l) +:+ concat_lines (map (λ l, "data:" +:+ l) ls) =
    line ("data:" +:+ l) +:+ foldr (λ l s, line ("data:" +:+ l) +:+ s) "" ls).
  by rewrite IH.
Qed.

Lemma display_lines e : SSEEvent_display e = concat_lines (event_lines e).
Proof.
  unfold event_lines. rewrite !concat_lines_app, !concat_opt_line, concat_data_lines.
  unfold SSEEvent_display. by destruct (retry e).
Qed.

(** ** Lemmas: the parser on the lines of an event *)

Lemma process_lines_app st a b :
  process_lines st (a ++ b)%list =
  let '(st1, d1) := process_lines st a in
  let '(st2, d2) := process_lines st1 b in (st2, (d1 ++ d2)%list).
Proof.
  revert st. induction a as [|l a IH]; intros st; cbn; [by destruct (process_lines st b)|].
  destruct (process_line st l) as [st1 d1]. rewrite IH.
  destruct (process_lines st1 a) as [st2 d2]. destruct (process_lines st2 b) as [st3 d3].
  by rewrite app_assoc.
Qed.

Lemma value_ok_strip v : value_ok v = true → default v (strip_prefix_char " " v) = v.
Proof.
  unfold value_ok. intros [_ H%negb_true_iff]%andb_true_iff. destruct v as [|c v]; [done|].
  unfold strip_prefix_char. cbn in H |- *. by rewrite H.
Qed.

(** A field with a value that does not start with a space. *)
Lemma process_named name st v :
  name ∈ ["event"; "data"; "id"; "retry"] → value_ok v = true →
  process_lines st [name +:+ ":" +:+ v] = (process_field st name v, []).
Proof.
  intros Hn Hv.
  assert (process_line st (name +:+ ":" +:+ v) =
    (process_field st name (default v (strip_prefix_char " " v)), [])) as E.
  { repeat (apply elem_of_cons in Hn as [->|Hn]; [done|]). by apply elem_of_nil in Hn. }
  cbn [process_lines]. by rewrite E, value_ok_strip.
Qed.

Lemma process_comment st o : process_lines st (opt_line ":" o) = (st, []).
Proof. by destruct o. Qed.

Lemma process_event_name st o :
  match o with Some n => value_ok n = true | None => True end →
  process_lines st (opt_line "event:" o) =
  (mkParser (data_buffer st) (default (event_buffer st) o) (last_id st) (reconnection st), []).
Proof.
  destruct o as [n|]; [|by destruct st]. intros Hn.
  apply (process_named "event" st n); [set_solver|done].
Qed.

Lemma process_id st o :
  match o with Some i => value_ok i = true ∧ str_contains_char "000" i = false | None => True end →
  process_lines st (opt_line "id:" o) =
  (mkParser (data_buffer st) (event_buffer st) (default (last_id st) o) (reconnection st), []).
Proof.
  destruct o as [i|]; [|by destruct st]. intros [Hi Hz].
  etrans; [apply (process_named "id" st i); [set_solver|done]|].
  unfold process_field. cbn. by rewrite Hz.
Qed.

Lemma retry_value_ok d : (0 <= d)%Z → value_ok (retry_text d) = true.
Proof.
  intros H%retry_text_digits%digits_forallb. unfold value_ok, one_line.
  rewrite (str_forallb_impl is_digit not_newline _) by (done || intros [[] [] [] [] [] [] [] []]; done).
  destruct (retry_text d) as [|c s]; [done|]. cbn in *. apply andb_true_iff in H as [H _].
  destruct (Ascii.eqb_spec c " "); [by subst|done].
Qed.

Lemma process_retry st o :
  match o with Some d => (0 <= d)%Z | None => True end →
  process_lines st (opt_line "retry:" (retry_text <$> o)) =
  (mkParser (data_buffer st) (event_buffer st) (last_id st)
     (match o with Some d => Some (d / 1000000)%Z | None => reconnection st end), []).
Proof.
  destruct o as [d|]; [|by destruct st]. intros Hd.
  etrans; [apply (process_named "retry" st (retry_text d)); [set_solver|by apply retry_value_ok]|].
  unfold process_field. cbn. by rewrite retry_text_digits.
Qed.

Lemma process_data_values ls : ∀ st,
  Forall (λ l, value_ok l = true) ls →
  process_lines st (map (λ l, "data:" +:+ l) ls) =
  (mkParser (data_buffer st +:+ concat_lines ls) (event_buffer st) (last_id st) (reconnection st), []).
Proof.
  induction ls as [|l ls IH]; intros st Hl.
  { cbn. rewrite str_app_nil_r. by destruct st. }
  apply Forall_cons in Hl as [Hl Hls]. cbn [map].
  change (("data:" +:+ l) :: map (λ l, "data:" +:+ l) ls)%list
    with (["data" +:+ ":" +:+ l] ++ map (λ l, "data:" +:+ l) ls)%list.
  rewrite process_lines_app, (process_named "data" st l); [|set_solver|done].
  rewrite IH by done. change (process_field st "data" l) with
    (mkParser (data_buffer st +:+ line l) (event_buffer st) (last_id st) (reconnection st)).
  cbn [data_buffer event_buffer last_id reconnection]. by rewrite str_app_assoc.
Qed.

Lemma concat_lines_split d : concat_lines (split_char LF d) = line d.
Proof.
  induction d as [|c d IH]; [done|]. cbn [split_char].
  destruct (Ascii.eqb_spec c LF) as [->|].
  - change (line "" +:+ concat_lines (split_char LF d) = line (String LF d)). by rewrite IH.
  - pose proof (split_char_ne LF d). destruct (split_char LF d) as [|x xs]; [done|].
    change (line (String c x) +:+ concat_lines xs = String c (line d)). rewrite <-IH. done.
Qed.

Lemma strip_last_line d : strip_last (line d) = d.
Proof.
  induction d as [|c d IH]; [done|].
  change (line (String c d)) with (String c (line d)). cbn [strip_last]. rewrite IH.
  by destruct d.
Qed.

(** The data lines leave the text and a newline in the buffer. *)
Lemma process_data st e :
  match data e with
  | Some (Text d) => forallb value_ok (split_char LF d) = true
  | Some (JsonText d) => value_ok d = true
  | None => True
  end →
  process_lines st (data_lines e) =
  (mkParser (data_buffer st +:+ match data_text e with Some d => line d | None => "" end)
     (event_buffer st) (last_id st) (reconnection st), []).
Proof.
  unfold data_lines, data_text. destruct (data e) as [[d|d]|]; intros Hd.
  - rewrite process_data_values; [by rewrite concat_lines_split|].
    apply Forall_forall. intros l Hl. rewrite forallb_forall in Hd. apply Hd. by apply list_elem_of_In.
  - rewrite (process_data_values [d]); [|by constructor]. cbn. by rewrite str_app_nil_r.
  - cbn. rewrite str_app_nil_r. by destruct st.
Qed.

Lemma process_event st e :
  event_ok e = true → data_buffer st = "" → event_buffer st = "" →
  let last := default (last_id st) (id e) in
  process_lines st (event_lines e) =
  (mkParser "" "" last
     (match retry e with Some d => Some (d / 1000000)%Z | None => reconnection st end),
   match data_text e with Some d => [(event_type e, d, last)] | None => [] end).
Proof.
  unfold event_ok. intros [[[[Hc Hn]%andb_true_iff Hd]%andb_true_iff Hi]%andb_true_iff
    Hr]%andb_true_iff H1 H2. cbn zeta. unfold event_lines.
  rewrite process_lines_app, process_comment.
  rewrite process_lines_app, process_event_name by by destruct (event e).
  rewrite process_lines_app, process_data by by destruct (data e) as [[]|].
  rewrite process_lines_app, process_id.
  2:{ destruct (id e); [|done]. by apply andb_true_iff in Hi as [? ?%negb_true_iff]. }
  rewrite process_lines_app, process_retry.
  2:{ destruct (retry e); [|done]. by apply Z.leb_le. }
  cbn [data_buffer event_buffer last_id reconnection process_lines]. rewrite H1, H2.
  unfold process_line. cbn [data_buffer event_buffer last_id reconnection].
  rewrite bool_decide_eq_true_2 by done. cbn [app].
  destruct (data_text e) as [d|]; [|done]. change ("" +:+ line d) with (line d).
  rewrite bool_decide_eq_false_2 by by destruct d.
  rewrite strip_last_line. unfold event_type. destruct (event e) as [n|]; [|done].
  cbn. by case_bool_decide.
Qed.

(** ** Lemmas: a whole stream *)

Lemma process_events evs : ∀ st,
  Forall (λ e, event_ok e = true) evs → data_buffer st = "" → event_buffer st = "" →
  snd (process_lines st (concat (map event_lines evs))) = expected (last_id st) evs.
Proof.
  induction evs as [|e evs IH]; intros st He H1 H2; [done|]. cbn [map concat expected].
  apply Forall_cons in He as [He Hes]. rewrite process_lines_app.
  pose proof (process_event st e He H1 H2) as Hp. cbn zeta in Hp. rewrite Hp.
  specialize (IH (mkParser "" "" (default (last_id st) (id e))
    (match retry e with Some d => Some (d / 1000000)%Z | None => reconnection st end)) Hes eq_refl eq_refl).
  destruct (process_lines _ (concat _)) as [st' ds]. cbn in IH |- *. rewrite IH.
  by destruct (data_text e).
Qed.

Lemma one_line_not c s : not_newline c = false → one_line s = true → str_contains_char c s = false.
Proof. apply str_forallb_not_contains. Qed.

Lemma event_lines_one e : event_ok e = true → Forall (λ l, one_line l = true) (event_lines e).
Proof.
  unfold event_ok. intros [[[[Hc Hn]%andb_true_iff Hd]%andb_true_iff Hi]%andb_true_iff
    Hr]%andb_true_iff.
  assert (∀ n o, one_line n = true → (∀ v, o = Some v → one_line v = true) →
    Forall (λ l, one_line l = true) (opt_line n o)) as Ho.
  { intros n [v|] H1 H2; [|constructor]. constructor; [|constructor].
    unfold one_line in *. by rewrite str_forallb_app, H1, H2. }
  assert (∀ v, value_ok v = true → one_line v = true) as Hv by by intros v [? _]%andb_true_iff.
  unfold event_lines. repeat (apply Forall_app; split).
  - apply Ho; [done|]. intros v E. by rewrite E in Hc.
  - apply Ho; [done|]. intros v E. rewrite E in Hn. by apply Hv.
  - unfold data_lines. destruct (data e) as [[d|d]|]; [|by constructor; [exact (Hv d Hd)|]|constructor].
    apply Forall_forall. intros l (v & <- & Hin)%list_elem_of_In%in_map_iff.
    rewrite forallb_forall in Hd. exact (Hv v (Hd v Hin)).
  - apply Ho; [done|]. intros v E. rewrite E in Hi. apply Hv. by apply andb_true_iff in Hi as [? _].
  - apply Ho; [done|]. intros v E. destruct (retry e) as [d|]; [|done]. injection E as <-.
    apply Hv, retry_value_ok. by apply Z.leb_le.
  - by repeat constructor.
Qed.

Lemma concat_lines_no_cr ls :
  Forall (λ l, one_line l = true) ls →
  str_forallb (λ c, negb (Ascii.eqb c CR)) (concat_lines ls) = true.
Proof.
  induction 1 as [|l ls Hl Hls IH]; [done|].
  change (concat_lines (l :: ls)) with (line l +:+ concat_lines ls). unfold line.
  rewrite !str_forallb_app, IH, andb_true_r. apply andb_true_iff. split; [|done].
  eapply str_forallb_impl; [|exact Hl]. intros c. unfold not_newline. by intros [_ ->]%andb_true_iff.
Qed.

Lemma concat_event_lines evs :
  foldr (λ e s, SSEEvent_display e +:+ s) "" evs = concat_lines (concat (map event_lines evs)).
Proof.
  induction evs as [|e evs IH]; [done|]. cbn [foldr map concat].
  by rewrite concat_lines_app, IH, display_lines.
Qed.

(** The text of well-formed events parses to what they say. *)
Lemma parse_displayed evs :
  Forall (λ e, event_ok e = true) evs →
  snd (parse_stream (foldr (λ e s, SSEEvent_display e +:+ s) "" evs)) = expected "" evs.
Proof.
  intros He. rewrite concat_event_lines. unfold parse_stream.
  assert (Forall (λ l, one_line l = true) (concat (map event_lines evs))) as Hl.
  { induction He as [|e evs He Hes IH]; [constructor|]. cbn. apply Forall_app. split; [|done].
    by apply event_lines_one. }
  rewrite normalize_id by by apply concat_lines_no_cr.
  rewrite lines_concat; [by apply process_events|].
  eapply Forall_impl; [exact Hl|]. intros l H. apply negb_true_iff. by apply one_line_not.
Qed.

(** The events that go out, keep-alive comments among them. *)
Fixpoint sent_events (items : list (SilentResult SSEEvent)) : list SSEEvent :=
  match items with
  | [] => []
  | Ok e :: items => e :: sent_events items
  | Err _ :: _ => []
  end.

Lemma sent_events_ok e items : sent_events (Ok e :: items) = e :: sent_events items.
Proof. done. Qed.

Lemma body_text_events items :
  body_text (map sse_chunk items) = foldr (λ e s, SSEEvent_display e +:+ s) "" (sent_events items).
Proof.
  induction items as [|[e|e] items IH]; [done| |done].
  change (SSEEvent_display e +:+ body_text (map sse_chunk items) =
    SSEEvent_display e +:+ foldr (λ e s, SSEEvent_display e +:+ s) "" (sent_events items)).
  by rewrite IH.
Qed.

(** A poll that finds nothing sends a comment exactly when one is due. *)
Lemma keep_alive_due k before now : ∀ t,
  Forall (λ p, goes_on p = true) before →
  keep_alive_items k (t + max_interval k)%Z (before ++ [(now, Pending)])%list =
    (keep_alive_items k (t + max_interval k)%Z before ++
     if (last_sent k t before + max_interval k <=? now)%Z
     then [Ok (set_comment SSEEvent_default (comment_text k))] else [])%list.
Proof.
  induction before as [|[n inner] before IH]; intros t Hf; cbn [app keep_alive_items last_sent];
    unfold keep_alive_poll.
  { rewrite Z.leb_antisym. by destruct (_ <? _)%Z. }
  apply Forall_cons in Hf as [Hg Hf]. destruct inner as [[[ev|]|]|]; try done.
  - cbn [app]. f_equal. by apply IH.
  - rewrite (Z.leb_antisym n (t + max_interval k)). destruct (n <? _)%Z; cbn [negb]; [by apply IH|].
    cbn [app]. f_equal. by apply IH.
Qed.

(** Nothing behind the handler's first error goes out. *)
Lemma body_text_error start before now e after :
  body_text (sse_items start (before ++ (now, Ready (Some (Err e))) :: after)%list) =
  body_text (sse_items start before).
Proof.
  unfold sse_items. generalize (start + max_interval KeepAlive_default)%Z.
  induction before as [|[n inner] before IH]; intros timer; [done|].
  cbn [app keep_alive_items]. unfold keep_alive_poll.
  destruct inner as [[[ev|x]|]|]; [|done|done|].
  - cbn [map sse_chunk body_text]. by rewrite IH.
  - destruct (n <? timer)%Z; [apply IH|]. cbn [map sse_chunk body_text]. by rewrite IH.
Qed.

(** Keep-alive comments are well formed and say nothing. *)
Lemma keep_alive_events k polls : ∀ timer last,
  one_line (comment_text k) = true → Forall (λ e, event_ok e = true) (produced polls) →
  let evs := sent_events (keep_alive_items k timer polls) in
  Forall (λ e, event_ok e = true) evs ∧ expected last evs = expected last (produced polls).
Proof.
  induction polls as [|[now inner] polls IH]; intros timer last Hk He; [done|].
  cbn [keep_alive_items produced] in *. unfold keep_alive_poll.
  destruct inner as [[[ev|e]|]|].
  - apply Forall_cons in He as [He Hes]. rewrite sent_events_ok. cbn zeta.
    destruct (IH (now + max_interval k)%Z (default last (id ev)) Hk Hes) as [H1 H2].
    split; [by constructor|]. cbn [expected]. by rewrite H2.
  - done.
  - done.
  - destruct (Z.ltb_spec now timer); [by apply IH|]. rewrite sent_events_ok. cbn zeta.
    destruct (IH (now + max_interval k)%Z last Hk He) as [H1 H2]. split; [|done].
    constructor; [|done]. unfold event_ok; cbn. by rewrite Hk.
Qed.

(** ** Properties *)

(** C29: An event stream arrives as it was meant: whatever the polls and
    their timing, parsing what goes out of the body as a browser does
    dispatches exactly the handler's events that carry data, in order, each
    with its type, its data and the last id, and keep-alive comments are
    invisible: one goes out at a poll that finds nothing exactly if nothing
    went out for the interval.  The body ends with the handler's first error,
    and nothing behind it arrives.  No field may hold a stray line end or start with a
    space (nor an id hold a null), which the printer does not escape: a line
    end in an event name adds fields of its own, and a leading space is
    lost. *)
Theorem sse_stream_arrives start polls :
  Forall (λ e, event_ok e = true) (produced polls) →
  snd (parse_stream (body_text (sse_items start polls))) = expected "" (produced polls) ∧
  (∀ before now e after, polls = (before ++ (now, Ready (Some (Err e))) :: after)%list →
     body_text (sse_items start polls) = body_text (sse_items start before)) ∧
  (∀ now, Forall (λ p, goes_on p = true) polls →
     sse_items start (polls ++ [(now, Pending)])%list =
       (sse_items start polls ++
        if (last_sent KeepAlive_default start polls + 15000000000 <=? now)%Z
        then [Ok (SSEEvent_display (set_comment SSEEvent_default ""))] else [])%list) ∧
  snd (parse_stream (SSEEvent_display
    (set_event (set_data SSEEvent_default "x") ("a" +:+ String LF "data:forged"))))
    = [("a", "forged" +:+ String LF "x", "")] ∧
  snd (parse_stream (SSEEvent_display (set_data SSEEvent_default " x")))
    = [("message", "x", "")].
Proof.
  intros He. split; [|split; [intros before now e after ->; apply body_text_error|split; [|split; reflexivity]]].
  2:{ intros now Hg. unfold sse_items. rewrite (keep_alive_due KeepAlive_default polls now start Hg), map_app.
      f_equal. cbn [max_interval KeepAlive_default]. by destruct (_ <=? _)%Z. }
  unfold sse_items. rewrite body_text_events.
  destruct (keep_alive_events KeepAlive_default polls (start + max_interval KeepAlive_default) ""
    eq_refl He) as [H1 H2].
  by rewrite parse_displayed.
Qed.

(** ** Witness *)

Definition demo_polls : list (Z * Poll (option (result SSEEvent string))) :=
  [(0, Ready (Some (Ok (set_id (set_data SSEEvent_default ("two" +:+ String LF "lines")) "7"))));
   (1000000000, Pending); (16000000000, Pending);
   (17000000000, Ready (Some (Ok (set_event (set_data SSEEvent_default "bye") "end"))));
   (18000000000, Ready (Some (Err "gone")));
   (19000000000, Ready (Some (Ok (set_data SSEEvent_default "late"))))]%Z.

Lemma sse_stream_arrives_witness :
  length (sse_items 0 demo_polls) = 5%nat ∧
  snd (parse_stream (body_text (sse_items 0 demo_polls))) =
    [("message", "two" +:+ String LF "lines", "7"); ("end", "bye", "7")].
Proof.
  split; [reflexivity|].
  refine (proj1 (sse_stream_arrives 0 demo_polls _)). repeat constructor.
Defined.
