(* ===== verification/Cors.v ===== *)
(** * Cross-origin requests (silent/src/middleware/middlewares/cors.rs)

    The options of the middleware and what it answers.  The cached headers
    are a function of the options, which no longer change once a request is
    handled. *)

From S2P Require Import Prelude Str Platform State Error PathParam Body Message Next.

Inductive CorsType :=
| CorsAny
| AllowSome (values : list string).

Definition CorsType_get_value (t : CorsType) : string :=
  match t with CorsAny => "*" | AllowSome value => join "," value end.

(** From a list of names, methods or header names, by their text. *)
Definition CorsType_from_list (value : list string) : CorsType := AllowSome value.
Definition CorsType_from_str (value : string) : CorsType :=
  if bool_decide (value = "*") then CorsAny else AllowSome (split_char "," value).

(** [CorsOriginType] has the same two cases. *)
Definition origin_get_value (t : CorsType) (origin : string) : string :=
  match t with
  | CorsAny => origin
  | AllowSome value => default "" (List.find (λ v, bool_decide (v = origin)) value)
  end.

Record Cors := mkCors {
  origin : option CorsType;
  methods : option CorsType;
  cors_headers : option CorsType;
  credentials : option bool;
  max_age : option Z;
  expose : option CorsType;
}.

Definition Cors_new : Cors := mkCors None None None None None None.
Definition Cors_origin (c : Cors) (t : CorsType) : Cors :=
  mkCors (Some t) (methods c) (cors_headers c) (credentials c) (max_age c) (expose c).
Definition Cors_methods (c : Cors) (t : CorsType) : Cors :=
  mkCors (origin c) (Some t) (cors_headers c) (credentials c) (max_age c) (expose c).
Definition Cors_headers (c : Cors) (t : CorsType) : Cors :=
  mkCors (origin c) (methods c) (Some t) (credentials c) (max_age c) (expose c).
Definition Cors_credentials (c : Cors) (b : bool) : Cors :=
  mkCors (origin c) (methods c) (cors_headers c) (Some b) (max_age c) (expose c).
Definition Cors_max_age (c : Cors) (n : Z) : Cors :=
  mkCors (origin c) (methods c) (cors_headers c) (credentials c) (Some n) (expose c).
Definition Cors_expose (c : Cors) (t : CorsType) : Cors :=
  mkCors (origin c) (methods c) (cors_headers c) (credentials c) (max_age c) (Some t).

Section cors.
Context {P : Platform}.

(** [if let Some(ref v) = ... && let Ok(value) = ...parse()]. *)
Definition insert_parsed (headers : HeaderMap) (name : string) (value : option string) : HeaderMap :=
  match value with
  | Some v => if header_value_ok v then hm_insert headers name v else headers
  | None => headers
  end.

Definition bool_text (b : bool) : string := if b then "true" else "false".

Definition get_cached_headers (c : Cors) : HeaderMap :=
  let headers := hm_empty in
  let headers := insert_parsed headers "Access-Control-Allow-Methods"
                   (CorsType_get_value <$> methods c) in
  let headers := insert_parsed headers "Access-Control-Allow-Headers"
                   (CorsType_get_value <$> cors_headers c) in
  let headers := insert_parsed headers "Access-Control-Allow-Credentials"
                   (bool_text <$> credentials c) in
  let headers := insert_parsed headers "Access-Control-Max-Age" (show_Z <$> max_age c) in
  insert_parsed headers "Access-Control-Expose-Headers" (CorsType_get_value <$> expose c).

Definition req_origin (req : Request) : string :=
  default "" (hm_get (headers req) "origin" ≫= header_to_str).

(** After the origin was let through. *)
Definition answer_allowed (res : Response) (req : Request) (next : Handler)
  : M World (SilentResult Response) :=
  if bool_decide (method req = OPTIONS) then mret (Ok res)
  else
    r ← next req;
    match r with
    | Ok result => mret (Ok (copy_from_response res result))
    | Err e => mret (Ok (copy_from_response res (response_from_error e)))
    end.

Definition Cors_handle (c : Cors) : MiddleWare := λ req next,
  if bool_decide (req_origin req = "") then next req
  else
    let res := set_res_headers Response_empty
                 (hm_extend (r_headers Response_empty) (get_cached_headers c)) in
    match origin c with
    | None => answer_allowed res req next
    | Some t =>
        let value := origin_get_value t (req_origin req) in
        if bool_decide (value = "") then
          mret (Err (business_error FORBIDDEN
            ("Cors: Origin " +:+ String dquote (req_origin req +:+ String dquote " is not allowed"))))
        else if header_value_ok value then
          answer_allowed (set_header res "Access-Control-Allow-Origin" value) req next
        else
          mret (Err (business_error INTERNAL_SERVER_ERROR
            "Cors: Failed to parse cors allow origin: failed to parse header value"))
    end.

(** ** Reference *)

(** The headers the options ask for, by name. *)
Definition option_headers (c : Cors) : list (string * option string) :=
  [("Access-Control-Expose-Headers", CorsType_get_value <$> expose c);
   ("Access-Control-Max-Age", show_Z <$> max_age c);
   ("Access-Control-Allow-Credentials", bool_text <$> credentials c);
   ("Access-Control-Allow-Headers", CorsType_get_value <$> cors_headers c);
   ("Access-Control-Allow-Methods", CorsType_get_value <$> methods c)].

Fixpoint option_header (l : list (string * option string)) (k : string) : option string :=
  match l with
  | [] => None
  | (name, Some v) :: l =>
      if header_value_ok v && header_eq name k then Some v else option_header l k
  | (_, None) :: l => option_header l k
  end.

(** Whether the options let an origin through. *)
Definition allowed (c : Cors) (o : string) : bool :=
  match origin c with
  | None | Some CorsAny => true
  | Some (AllowSome l) => bool_decide (o ∈ l)
  end.

(** The value of a header in every answer to an origin that is let through. *)
Definition cors_header (c : Cors) (o k : string) : option string :=
  if bool_decide (is_Some (origin c)) && header_eq "Access-Control-Allow-Origin" k then Some o
  else option_header (option_headers c) k.

(** ** Lemmas *)

Context {L : PlatformLaws P}.

Lemma insert_parsed_get h name v k :
  hm_get (insert_parsed h name v) k =
  match v with
  | Some v => if header_value_ok v && header_eq name k then Some v else hm_get h k
  | None => hm_get h k
  end.
Proof.
  unfold insert_parsed. destruct v as [v|]; [|done].
  destruct (header_value_ok v); [|done]. by rewrite hm_get_insert.
Qed.

Lemma cached_get c k : hm_get (get_cached_headers c) k = option_header (option_headers c) k.
Proof.
  unfold get_cached_headers, option_headers. cbn zeta. rewrite !insert_parsed_get. cbn [option_header].
  rewrite hm_get_empty. repeat (case_match; try done).
Qed.

Lemma origin_value_allowed t o :
  o ≠ "" →
  origin_get_value t o =
  (if match t with CorsAny => true | AllowSome l => bool_decide (o ∈ l) end then o else "").
Proof.
  intros Ho. destruct t as [|l]; [done|]. cbn. induction l as [|v l IH]; cbn; [done|].
  destruct (bool_decide_reflect (v = o)) as [->|Hv].
  - rewrite bool_decide_eq_true_2; [done|]. by left.
  - rewrite IH. erewrite bool_decide_ext; [done|]. rewrite elem_of_cons. naive_solver.
Qed.

Lemma req_origin_ok req : header_value_ok (req_origin req) = true.
Proof.
  unfold req_origin. destruct (hm_get (headers req) "origin" ≫= header_to_str) as [v|] eqn:E; cbn.
  - destruct (hm_get _ _) as [h|]; [|done]. cbn in E.
    apply header_to_str_spec in E as [-> Hv]. by apply header_value_visible in Hv.
  - by apply header_value_visible.
Qed.

(** The response every allowed answer starts from. *)
Definition allow_response (c : Cors) (o : string) : Response :=
  let res := set_res_headers Response_empty
               (hm_extend (r_headers Response_empty) (get_cached_headers c)) in
  match origin c with
  | None => res
  | Some _ => set_header res "Access-Control-Allow-Origin" o
  end.

Lemma allow_response_get c o k :
  hm_get (r_headers (allow_response c o)) k = cors_header c o k.
Proof.
  unfold allow_response, cors_header. destruct (origin c); cbn -[hm_get].
  - rewrite hm_get_insert, hm_get_extend, cached_get, hm_get_empty.
    destruct (header_eq _ k); [done|]. by case_match.
  - rewrite hm_get_extend, cached_get, hm_get_empty. by case_match.
Qed.

Lemma Cors_handle_cases c req next :
  Cors_handle c req next =
  (if bool_decide (req_origin req = "") then next req
   else if allowed c (req_origin req)
   then answer_allowed (allow_response c (req_origin req)) req next
   else mret (Err (business_error FORBIDDEN
     ("Cors: Origin " +:+ String dquote (req_origin req +:+ String dquote " is not allowed"))))).
Proof.
  unfold Cors_handle, allowed, allow_response.
  destruct (bool_decide_reflect (req_origin req = "")) as [|Hne]; [done|].
  destruct (origin c) as [t|]; [|done]. rewrite origin_value_allowed by done.
  destruct t as [|l].
  { by rewrite (bool_decide_eq_false_2 _ Hne), req_origin_ok. }
  destruct (bool_decide (req_origin req ∈ l)).
  - by rewrite (bool_decide_eq_false_2 _ Hne), req_origin_ok.
  - by rewrite bool_decide_eq_true_2.
Qed.

(** ** Properties *)

(** C38: What the CORS middleware answers.  Without an origin the request
    passes untouched.  An origin that is not listed is refused with 403 and
    the handler never runs.  For an origin that is let through, [OPTIONS] is
    answered at once; otherwise the handler's answer, or the response of its
    error, keeps its status and body.  Every answer carries exactly the
    headers of the options, the allowed origin being the one asked for,
    except where the handler set the same header itself. *)
Theorem cors_answers c req next w :
  let o := req_origin req in
  if bool_decide (o = "") then Cors_handle c req next w = next req w
  else if negb (allowed c o) then
    ∃ msg, Cors_handle c req next w = (Ret (Err (BusinessError FORBIDDEN msg)), w)
  else if bool_decide (method req = OPTIONS) then
    ∃ res, Cors_handle c req next w = (Ret (Ok res), w) ∧ r_status res = OK ∧ r_body res = ResNone ∧
      ∀ k, hm_get (r_headers res) k = cors_header c o k
  else
    match next req w with
    | (Panic, w') => Cors_handle c req next w = (Panic, w')
    | (Ret r, w') =>
        ∃ res, Cors_handle c req next w = (Ret (Ok res), w') ∧
          r_status res = r_status (response_or_error r) ∧
          r_body res = r_body (response_or_error r) ∧
          ∀ k, hm_get (r_headers res) k =
            match hm_get (r_headers (response_or_error r)) k with
            | Some v => Some v
            | None => cors_header c o k
            end
    end.
Proof.
  cbn zeta. rewrite Cors_handle_cases. destruct (bool_decide (req_origin req = "")); [done|].
  destruct (allowed c (req_origin req)); cbn [negb]; [|by eexists].
  unfold answer_allowed. destruct (bool_decide (method req = OPTIONS)).
  { eexists. split; [done|]. split_and!; [by unfold allow_response; destruct (origin c)..|].
    intros k. apply allow_response_get. }
  cbv [mbind M_bind]. destruct (next req w) as [[[r|e]|] w']; [| |done];
    (eexists; split; [done|]; split_and!; [done|done|]; intros k;
     cbn [copy_from_response r_headers response_or_error];
     rewrite hm_get_extend, allow_response_get; done).
Qed.
End cors.

(** ** Witness *)

Definition demo_cors : Cors :=
  Cors_credentials (Cors_origin (Cors_methods Cors_new (CorsType_from_list ["GET"; "POST"]))
    (CorsType_from_str "https://a.example,https://b.example")) true.

Definition demo_cors_req (o : string) : Request (P := Demo) :=
  Request_from_parts (P := Demo)
    (mkParts (P := Demo) GET (mkUri "/" None) HTTP_11 [("origin", o)] tt) ReqEmpty.

Lemma cors_answers_witness :
  let next : Handler (P := Demo) := λ _ w, (Ret (Ok (text "hi")), (w ++ ["ran"])%list) in
  (∃ res, Cors_handle (P := Demo) demo_cors (demo_cors_req "https://b.example") next []
     = (Ret (Ok res), ["ran"]) ∧
     demo_get (r_headers res) "access-control-allow-origin" = Some "https://b.example" ∧
     demo_get (r_headers res) "access-control-allow-methods" = Some "GET,POST") ∧
  (∃ msg, Cors_handle (P := Demo) demo_cors (demo_cors_req "https://c.example") next []
     = (Ret (Err (BusinessError FORBIDDEN msg)), [])).
Proof.
  intros next. split.
  - pose proof (cors_answers (P := Demo) demo_cors (demo_cors_req "https://b.example") next [])
      as (res & He & _ & _ & Hk).
    exists res. split_and!; [exact He|exact (Hk "access-control-allow-origin")|].
    exact (Hk "access-control-allow-methods").
  - exact (cors_answers (P := Demo) demo_cors (demo_cors_req "https://c.example") next []).
Defined.
