(* ===== verification/Middlewares.v ===== *)
(** * The bundled middlewares
    (silent/src/middleware/middlewares: request_id.rs, timeout.rs,
    exception_handler.rs, compression.rs, logger.rs, request_time_logger.rs)

    Each middleware is a [MiddleWare] over the next handler.  Timers, ids, log
    subscribers and encoders are parameters.  RateLimit.v holds the rate
    limiter. *)

From S2P Require Import Prelude Str Platform State Error PathParam Body Form Message Next Addr Static.

Inductive LogLevel := LogError | LogWarn | LogInfo.

(** What a request logger writes. *)
Record LogLine := mkLogLine {
  l_level : LogLevel;
  l_peer : string;
  l_method : Method;
  l_path : string;
  l_query : string;
  l_version : string;
  l_status : StatusCode;
  l_size : option Z;
}.

Inductive Algorithm := AlgBrotli | AlgGzip.

Class MiddlewareCrates (P : Platform) := {
  (** [scru128::new_string]. *)
  scru128_new_string : M World string;
  (** [tokio::time::timeout]: [None] when the time is over first. *)
  timeout : ∀ A, Z → M World A → M World (option A);
  (** The tracing subscriber. *)
  log : LogLine → M World unit;
  (** A body through an encoder of async-compression. *)
  encode : Algorithm → ResBody → BytesStream;
  (** [Uri]'s [Display] and the texts of the addresses. *)
  uri_display : Uri → string;
}.
Arguments timeout {P _ A}.

Section middlewares.
Context {P : Platform} {C : MiddlewareCrates P}.

(** ** RequestId *)

Definition RequestId_handle (header_name : string) : MiddleWare := λ req next,
  (match hm_get (headers req) header_name ≫= header_to_str with
   | Some id => mret id
   | None => scru128_new_string
   end) ≫= λ request_id,
  let req := if header_value_ok request_id
             then set_headers req (hm_insert (headers req) header_name request_id) else req in
  res <-? next req ;;
  mret (Ok (if header_value_ok request_id
            then set_header res header_name request_id else res)).

(** ** Timeout *)

Definition Timeout_handle (limit : Z) : MiddleWare := λ req next,
  timeout limit (next req) ≫= λ r,
  mret (match r with
        | Some res => res
        | None => Err (business_error REQUEST_TIMEOUT "Request timed out")
        end).

(** ** ExceptionHandler *)

Definition ExceptionHandler_handle {T} (into : T → Response)
    (handler : SilentResult Response → State → M World (SilentResult T)) : MiddleWare :=
  λ req next,
  let state := req_state req in
  next req ≫= λ res, handler res state ≫= λ r,
  mret (match r with Ok t => Ok (into t) | Err e => Err e end).

(** ** Logger and the deprecated RequestTimeLogger *)

Definition level_of (status : StatusCode) : LogLevel :=
  if (500 <=? status)%Z then LogError else if (400 <=? status)%Z then LogWarn else LogInfo.

Definition Logger_handle : MiddleWare := λ req next,
  let peer := default "-" (hm_get (headers req) "x-real-ip" ≫= header_to_str) in
  let line level code size :=
    mkLogLine level peer (method req) (uri_path (uri req)) (default "" (uri_query (uri req)))
      (version req) code size in
  next req ≫= λ res,
  match res with
  | Ok res =>
      log (line (level_of (r_status res)) (r_status res) (Some (lower (content_length res))))
        ≫= λ _, mret (Ok res)
  | Err e => log (line LogError (status e) None) ≫= λ _, mret (Err e)
  end.

(** It asks for the peer with [Request::remote], which may panic, and turns an
    error into its response. *)
Definition RequestTimeLogger_handle {T : Ipv6Text} : MiddleWare := λ req next,
  M_lift (remote req) ≫= λ peer_addr,
  let line level code size :=
    mkLogLine level (RemoteAddr_display peer_addr) (method req) (uri_display (uri req)) ""
      (version req) code size in
  next req ≫= λ res,
  match res with
  | Ok res =>
      log (line (if (400 <=? r_status res)%Z then LogWarn else LogInfo) (r_status res)
             (Some (lower (content_length res)))) ≫= λ _, mret (Ok res)
  | Err e => log (line LogError (status e) (Some 0%Z)) ≫= λ _, mret (Ok (response_from_error e))
  end.

(** ** Compression *)

Record CompressionMw := mkCompression {
  enable_brotli : bool;
  enable_gzip : bool;
  min_size : Z;
}.
Definition Compression_new : CompressionMw := mkCompression true true 128.
Definition gzip_only : CompressionMw := mkCompression false true 128.
Definition brotli_only : CompressionMw := mkCompression true false 128.
Definition with_min_size (c : CompressionMw) (size : Z) : CompressionMw :=
  mkCompression (enable_brotli c) (enable_gzip c) size.

(** One item of [Accept-Encoding]; items are read as for static files. *)
Definition negotiate_item (c : CompressionMw) (ok : bool * bool) (item : string) : bool * bool :=
  let '(brotli_ok, gzip_ok) := ok in
  let '(encoding, zero) := parse_item item in
  if zero : bool then ok
  else if bool_decide (encoding = "br") && enable_brotli c then (true, gzip_ok)
  else if (bool_decide (encoding = "gzip") || bool_decide (encoding = "x-gzip")) && enable_gzip c
  then (brotli_ok, true)
  else if bool_decide (encoding = "*") && enable_brotli c then (true, gzip_ok)
  else if bool_decide (encoding = "*") && enable_gzip c then (brotli_ok, true)
  else ok.

Definition negotiate (c : CompressionMw) (accept : string) : option Algorithm :=
  let '(brotli_ok, gzip_ok) := foldl (negotiate_item c) (false, false) (split_char "," accept) in
  if brotli_ok : bool then Some AlgBrotli
  else if gzip_ok : bool then Some AlgGzip else None.

Definition is_compressible (content_type : string) : bool :=
  let ct := to_ascii_lowercase content_type in
  let mime_part := trim (default "" (head (split_char ";" ct))) in
  starts_with "text/" mime_part ||
  bool_decide (mime_part ∈ ["application/json"; "application/xml"; "application/javascript";
    "application/ecmascript"; "application/x-javascript"; "application/xhtml+xml";
    "application/rss+xml"; "application/svg+xml"; "image/svg+xml"]).

Definition alg_name (a : Algorithm) : string :=
  match a with AlgBrotli => "br" | AlgGzip => "gzip" end.

(** Whether the answer is left alone. *)
Definition skip_compression (c : CompressionMw) (res : Response) : bool :=
  bool_decide (is_Some (hm_get (r_headers res) "content-encoding")) ||
  negb (match hm_get (r_headers res) "content-type" ≫= header_to_str with
        | Some ct => is_compressible ct
        | None => false
        end) ||
  ((0 <? min_size c)%Z &&
   match upper (ResBody_size_hint (r_body res)) with
   | Some u => (u <? min_size c)%Z
   | None => false
   end).

Definition compress (a : Algorithm) (res : Response) : Response :=
  let '(body, res) := res_take_body res in
  let res := set_header res "content-encoding" (alg_name a) in
  let res := set_header res "vary" "Accept-Encoding" in
  let res := set_res_headers res (hm_remove (r_headers res) "content-length") in
  set_body res (stream_body (encode a body)).

Definition Compression_handle (c : CompressionMw) : MiddleWare := λ req next,
  let algorithm := (hm_get (headers req) "accept-encoding" ≫= header_to_str) ≫= negotiate c in
  res <-? next req ;;
  mret (Ok (match algorithm with
            | None => res
            | Some a => if skip_compression c res then res else compress a res
            end)).

(** ** Lemmas *)

Lemma set_header_get `{!PlatformLaws P} r k v : hm_get (r_headers (set_header r k v)) k = Some v.
Proof. apply hm_get_insert_eq. Qed.

(** What the items of a header say about one coding. *)
Definition wants (c : CompressionMw) (pick : string → bool) (items : list string) : bool :=
  existsb (λ item, let '(e, zero) := parse_item item in negb zero && pick e) items.

Definition picks_brotli (c : CompressionMw) (e : string) : bool :=
  enable_brotli c && (bool_decide (e = "br") || bool_decide (e = "*")).
Definition picks_gzip (c : CompressionMw) (e : string) : bool :=
  enable_gzip c && (bool_decide (e = "gzip") || bool_decide (e = "x-gzip") ||
                    (bool_decide (e = "*") && negb (enable_brotli c))).

Lemma negotiate_fold c items b g :
  foldl (negotiate_item c) (b, g) items =
  (b || wants c (picks_brotli c) items, g || wants c (picks_gzip c) items).
Proof.
  revert b g. induction items as [|i items IH]; intros b g; cbn [foldl wants existsb].
  { by rewrite !orb_false_r. }
  unfold negotiate_item at 2. destruct (parse_item i) as [e [|]]; cbn [negb andb orb]; [apply IH|].
  unfold picks_brotli at 1, picks_gzip at 1.
  assert (∀ x y : bool, x || (true || y) = true) as Ht by by intros [] [].
  repeat (case_bool_decide; [subst|]); try congruence;
    destruct (enable_brotli c), (enable_gzip c); cbn [andb orb negb];
    rewrite IH; cbn; f_equal; by destruct b, g.
Qed.

(** The compression middleware in closed form: it compresses exactly when
    the negotiation finds a coding the client did not refuse item by item
    (Brotli before gzip, a wildcard standing for the first enabled coding),
    the answer has no content coding yet, its type is compressible and its
    body is not known to be shorter than the threshold.  Then the status is
    kept, the coding and [Vary] are set and [Content-Length] is removed; in
    every other case, errors included, the answer passes unchanged.  A
    wildcard brings back a coding refused with [q=0], and a [Vary] header set
    further in is overwritten. *)
Theorem compression_spec `{!PlatformLaws P} c req next w :
  let items := match hm_get (headers req) "accept-encoding" ≫= header_to_str with
               | Some a => split_char "," a | None => [] end in
  let chosen := if wants c (picks_brotli c) items then Some AlgBrotli
                else if wants c (picks_gzip c) items then Some AlgGzip else None in
  Compression_handle c req next w =
    match next req w with
    | (Ret (Ok res), w') =>
        (Ret (Ok (match chosen with
                  | Some a => if skip_compression c res then res else compress a res
                  | None => res
                  end)), w')
    | (Ret (Err e), w') => (Ret (Err e), w')
    | (Panic, w') => (Panic, w')
    end ∧
  (∀ a res, r_status (compress a res) = r_status res ∧
     r_body (compress a res) = stream_body (encode a (r_body res)) ∧
     hm_get (r_headers (compress a res)) "content-encoding" = Some (alg_name a) ∧
     hm_get (r_headers (compress a res)) "vary" = Some "Accept-Encoding" ∧
     hm_get (r_headers (compress a res)) "content-length" = None) ∧
  negotiate Compression_new "br;q=0, *" = Some AlgBrotli.
Proof.
  intros items chosen. split_and!; [| |reflexivity].
  - assert ((hm_get (headers req) "accept-encoding" ≫= header_to_str) ≫= negotiate c = chosen)
      as Hc.
    { subst chosen items. destruct (hm_get (headers req) "accept-encoding" ≫= header_to_str)
        as [a|]; [|done]. cbn [mbind option_bind]. unfold negotiate. by rewrite negotiate_fold. }
    unfold Compression_handle. rewrite Hc. unfold M_try, mbind, M_bind.
    by destruct (next req w) as [[[res|e]|] w'].
  - intros a res. unfold compress; cbn -[header_eq]. split_and!; try done.
    + rewrite hm_get_remove, !hm_get_insert. done.
    + rewrite hm_get_remove, !hm_get_insert. done.
    + by rewrite hm_get_remove.
Qed.

(** The request id a handler sees is the one the client gets back: for an
    id that can stand in a header (every printable one can), the handler is
    called with it in the request, and the answer carries the same id; the id
    is the request's own when it has a readable one, else a new one.  An
    error of the handler passes unchanged. *)
Theorem request_id_spec `{!PlatformLaws P} name req next w id w1
    (Hid : match hm_get (headers req) name ≫= header_to_str with
           | Some i => (Ret i, w) = (Ret id, w1)
           | None => scru128_new_string w = (Ret id, w1)
           end)
    (Hv : str_forallb visible id = true) :
  ∃ req', hm_get (headers req') name = Some id ∧ body req' = body req ∧
    path_params req' = path_params req ∧
    RequestId_handle name req next w =
      match next req' w1 with
      | (Ret (Ok res), w2) => (Ret (Ok (set_header res name id)), w2)
      | (Ret (Err e), w2) => (Ret (Err e), w2)
      | (Panic, w2) => (Panic, w2)
      end ∧
    ∀ res, hm_get (r_headers (set_header res name id)) name = Some id.
Proof.
  apply header_value_visible in Hv.
  exists (set_headers req (hm_insert (headers req) name id)).
  split_and!; [apply hm_get_insert_eq|done|done| |intros; apply set_header_get].
  unfold RequestId_handle.
  destruct (hm_get (headers req) name ≫= header_to_str) as [i|].
  - injection Hid as <- <-. rewrite M_bind_ret_l, Hv. unfold M_try, mbind, M_bind.
    by destruct (next _ _) as [[[res|e]|] w2].
  - rewrite (M_bind_run _ _ _ _ _ Hid), Hv. unfold M_try, mbind, M_bind.
    by destruct (next _ _) as [[[res|e]|] w2].
Qed.
End middlewares.

(** ** On the demonstration platform *)

#[local] Existing Instance Demo.
#[local] Existing Instance DemoLaws.
#[local] Instance DemoCrates : MiddlewareCrates Demo := {
  scru128_new_string := mret "0372hg16csmsm50l8dikcvukc";
  timeout _ _ m := m ≫= λ a, mret (Some a);
  log _ := mret tt;
  encode a b :=
    match b with
    | ResOnce bytes => [Ready (Some (Ok (alg_name a +:+ ":" +:+ bytes)))]
    | ResStream s => s
    | _ => []
    end;
  uri_display := uri_path;
}.

Definition demo_req (hs : list (string * string)) : Request (P := Demo) :=
  Request_from_parts (P := Demo) (mkParts (P := Demo) GET (mkUri "/a" None) HTTP_11 hs tt) ReqEmpty.
Definition demo_text : string := String.concat "" (replicate 20 "0123456789").
Definition demo_next : Handler (P := Demo) := λ _ w, (Ret (Ok (text demo_text)), w).

(** A client that refuses Brotli gets gzip; with a wildcard Brotli is back. *)
Lemma compression_spec_witness :
  fst (Compression_handle Compression_new (demo_req [("accept-encoding", "br;q=0, gzip")])
         demo_next []) = Ret (Ok (compress AlgGzip (text demo_text))) ∧
  fst (Compression_handle Compression_new (demo_req [("accept-encoding", "br;q=0, *")])
         demo_next []) = Ret (Ok (compress AlgBrotli (text demo_text))) ∧
  hm_get (r_headers (compress AlgGzip (text demo_text))) "content-encoding" = Some "gzip".
Proof.
  split_and!.
  - rewrite (proj1 (compression_spec Compression_new
      (demo_req [("accept-encoding", "br;q=0, gzip")]) demo_next [])). reflexivity.
  - rewrite (proj1 (compression_spec Compression_new
      (demo_req [("accept-encoding", "br;q=0, *")]) demo_next [])). reflexivity.
  - exact (proj1 (proj2 (proj2 (proj1 (proj2 (compression_spec Compression_new
      (demo_req []) demo_next [])) AlgGzip (text demo_text))))).
Defined.

(** A readable id of the client's is kept. *)
Lemma request_id_spec_witness :
  ∃ req', hm_get (headers req') "x-request-id" = Some "abc" ∧
    RequestId_handle "x-request-id" (demo_req [("x-request-id", "abc")]) demo_next [] =
      (Ret (Ok (set_header (text demo_text) "x-request-id" "abc")), []).
Proof.
  destruct (request_id_spec "x-request-id" (demo_req [("x-request-id", "abc")]) demo_next []
    "abc" [] ltac:(by vm_compute) ltac:(by vm_compute)) as (req' & H1 & _ & _ & H2 & _).
  exists req'. split; [exact H1|exact H2].
Defined.
