(* ===== verification/RateLimit.v ===== *)
(** * The rate limiting middleware
    (silent/src/middleware/middlewares/rate_limiter.rs)

    A token bucket with [f64] tokens.  An [f64] operation is the exact
    rational operation followed by the rounding function [rnd]; [FloatLaws]
    states what IEEE 754 guarantees of it within the range used here.
    Instants are nanoseconds. *)

From Stdlib Require Import QArith Qround Lqa.
From S2P Require Import Prelude Str Platform State Error PathParam Body Form Message Next.
#[local] Open Scope Z_scope.
#[local] Open Scope nat_scope.

Class FloatOps := {
  rnd : Q → Q;
  (** [Duration::as_secs_f64]. *)
  as_secs_f64 : Z → Q;
}.

Section bucket.
Context {FO : FloatOps}.

Record BucketState := mkBucket { tokens : Q; last_refill : Z }.

Record RateLimiter := mkLimiter { rate : Q; capacity : Z }.

(** [capacity as f64] *)
Definition capacity_f64 (l : RateLimiter) : Q := rnd (inject_Z (capacity l)).

Definition RateLimiter_new (rate : Q) (capacity now : Z) : RateLimiter * BucketState :=
  (mkLimiter rate capacity, mkBucket (rnd (inject_Z capacity)) now).

(** A float to [u64] cast saturates. *)
Definition to_u64 (z : Z) : Z := Z.max 0 (Z.min u64_max z).

Definition per_second (rate : Q) (now : Z) : RateLimiter * BucketState :=
  RateLimiter_new rate (to_u64 (Qceiling rate)) now.

Definition Qmin_f (a b : Q) : Q := if Qle_bool a b then a else b.

(** Since the last refill; [duration_since] saturates at zero. *)
Definition elapsed (b : BucketState) (now : Z) : Q :=
  as_secs_f64 (Z.max 0 (now - last_refill b)).

Definition bucket_refill (l : RateLimiter) (now : Z) (b : BucketState) : BucketState :=
  let e := elapsed b now in
  if Qle_bool e 0 then b
  else mkBucket (Qmin_f (rnd (tokens b + rnd (e * rate l))) (capacity_f64 l)) now.

(** [try_acquire] *)
Definition try_acquire (l : RateLimiter) (now : Z) (b : BucketState) : bool * BucketState :=
  let b := bucket_refill l now b in
  if Qle_bool 1 (tokens b) then (true, mkBucket (rnd (tokens b - 1)) (last_refill b))
  else (false, b).

(** [retry_after_secs]; dividing by a zero rate gives infinity, whose cast is
    the largest [u64]. *)
Definition retry_after_secs (l : RateLimiter) (b : BucketState) : Z :=
  let deficit := rnd (1 - tokens b) in
  if Qle_bool deficit 0 then 0%Z
  else if Qeq_bool (rate l) 0 then u64_max
  else to_u64 (Qceiling (rnd (deficit / rate l))).

(** Calls at a list of instants: the bucket in the end and how many were
    admitted. *)
Fixpoint acquire_all (l : RateLimiter) (b : BucketState) (nows : list Z) : nat * BucketState :=
  match nows with
  | [] => (0, b)
  | now :: nows =>
      let '(ok, b) := try_acquire l now b in
      let '(n, b) := acquire_all l b nows in
      ((if ok then 1 else 0) + n, b)
  end.

(** The elapsed times the calls see. *)
Fixpoint elapsed_all (l : RateLimiter) (b : BucketState) (nows : list Z) : Q :=
  match nows with
  | [] => 0
  | now :: nows => elapsed b now + elapsed_all l (snd (try_acquire l now b)) nows
  end.
End bucket.

Section handle.
Context {P : Platform} {FO : FloatOps}.

Definition too_many_requests (retry_after : Z) : Response :=
  set_body (set_header (set_status Response_empty TOO_MANY_REQUESTS) "retry-after"
              (show_Z retry_after)) (full "Too Many Requests").

(** [RateLimiter::handle]: the bucket is behind a mutex of its own. *)
Definition RateLimiter_handle (l : RateLimiter) (now : Z) (b : BucketState)
    (req : Request) (next : Handler) : M World (SilentResult Response) * BucketState :=
  let '(ok, b) := try_acquire l now b in
  (if ok then next req
   else mret (Ok (too_many_requests (Z.max 1 (retry_after_secs l b)))), b).
End handle.

(** ** IEEE 754 *)

(** The values of the type, and what rounding to nearest does to them: it is
    exact on small integers and on [x - 1] for [1 <= x], keeps the sign, and is
    off by a relative error of at most [eps] or, among subnormal numbers, by at
    most [tiny].  (An overflow to infinity acts here like the largest number:
    the minimum with the capacity and the cast to [u64] hide it.) *)
Class FloatModel (FO : FloatOps) := {
  is_f64 : Q → Prop;
  eps : Q;
  tiny : Q;
}.

Class FloatLaws (FO : FloatOps) (FM : FloatModel FO) : Prop := {
  rnd_f64 x : is_f64 (rnd x);
  rnd_int z : (0 <= z <= 9007199254740992)%Z → (rnd (inject_Z z) == inject_Z z)%Q;
  rnd_pred x : is_f64 x → (1 <= x)%Q → (x <= 9007199254740992)%Q → (rnd (x - 1) == x - 1)%Q;
  rnd_nonneg x : (0 <= x)%Q → (0 <= rnd x)%Q;
  rnd_err x : (0 <= x)%Q → (rnd x <= (1 + eps) * x + tiny)%Q;
  eps_nonneg : (0 <= eps)%Q;
  tiny_nonneg : (0 <= tiny)%Q;
  secs_nonneg d : (0 <= d)%Z → (0 <= as_secs_f64 d)%Q;
  secs_zero : (as_secs_f64 0 == 0)%Q;
  secs_err d : (0 <= d)%Z →
    (as_secs_f64 d <= (1 + eps) * (1 + eps) * (1 + eps) * (inject_Z d / 1000000000))%Q;
}.

Section laws.
Context {FO : FloatOps} {FM : FloatModel FO} {L : FloatLaws FO FM}.

(** The bucket holds an [f64] between zero and the capacity. *)
Record bucket_ok (l : RateLimiter) (b : BucketState) : Prop := {
  ok_f64 : is_f64 (tokens b);
  ok_lo : (0 <= tokens b)%Q;
  ok_hi : (tokens b <= inject_Z (capacity l))%Q;
}.

Record limiter_ok (l : RateLimiter) : Prop := {
  rate_nonneg : (0 <= rate l)%Q;
  capacity_range : (0 <= capacity l <= 9007199254740992)%Z;
}.

(** What the rounding of one call can add. *)
Definition slack (l : RateLimiter) : Q := eps * inject_Z (capacity l) + (1 + eps) * tiny + tiny.

Lemma Qmin_f_le_l a b : (Qmin_f a b <= a)%Q.
Proof.
  unfold Qmin_f. destruct (Qle_bool a b) eqn:E; [lra|].
  destruct (Qlt_le_dec b a) as [H|H]; [lra|]. apply Qle_bool_iff in H. congruence.
Qed.
Lemma Qmin_f_le_r a b : (Qmin_f a b <= b)%Q.
Proof. unfold Qmin_f. destruct (Qle_bool a b) eqn:E; [by apply Qle_bool_iff|lra]. Qed.
Lemma Qmin_f_cases a b : Qmin_f a b = a ∨ Qmin_f a b = b.
Proof. unfold Qmin_f. destruct (Qle_bool a b); auto. Qed.

Lemma capacity_exact l : limiter_ok l → (capacity_f64 l == inject_Z (capacity l))%Q.
Proof. intros [_ H]. by apply rnd_int. Qed.

Lemma capacity_le_53 l : limiter_ok l → (inject_Z (capacity l) <= 9007199254740992)%Q.
Proof. intros Hl. change (9007199254740992)%Q with (inject_Z 9007199254740992); rewrite <-Zle_Qle; apply (capacity_range _ Hl). Qed.

Lemma elapsed_nonneg b now : (0 <= elapsed b now)%Q.
Proof. apply secs_nonneg. lia. Qed.

(** A refill keeps the bucket within its bounds and adds at most what the
    elapsed time earns, up to rounding. *)
Lemma bucket_refill_ok l now b :
  limiter_ok l → bucket_ok l b →
  bucket_ok l (bucket_refill l now b) ∧
  (tokens (bucket_refill l now b) <=
     tokens b + (slack l + (1 + eps) * (1 + eps) * (elapsed b now * rate l)))%Q.
Proof.
  intros Hl [Hf Hlo Hhi]. pose proof (elapsed_nonneg b now) as He.
  pose proof (rate_nonneg _ Hl) as Hr. pose proof eps_nonneg as Heps.
  pose proof (capacity_exact _ Hl) as Hc.
  assert (0 <= elapsed b now * rate l)%Q as Hx by by apply Qmult_le_0_compat.
  assert (0 <= inject_Z (capacity l))%Q as Hc0 by lra.
  pose proof tiny_nonneg as Ht.
  assert (0 <= eps * inject_Z (capacity l))%Q as Hec by by apply Qmult_le_0_compat.
  assert (0 <= (1 + eps) * tiny)%Q as Het by (apply Qmult_le_0_compat; lra).
  unfold slack.
  assert (0 <= (1 + eps) * (1 + eps) * (elapsed b now * rate l))%Q as Hee.
  { apply Qmult_le_0_compat; [apply Qmult_le_0_compat; lra|done]. }
  unfold bucket_refill. destruct (Qle_bool (elapsed b now) 0); [split; [done|lra]|].
  revert Hx Hee. generalize (elapsed b now * rate l)%Q as x. intros x Hx Hee. cbn [tokens].
  pose proof (rnd_nonneg x Hx) as Hrx0. pose proof (rnd_err x Hx) as Hrx.
  assert (0 <= tokens b + rnd x)%Q as Hsum by lra.
  pose proof (rnd_nonneg _ Hsum) as Hs0. pose proof (rnd_err _ Hsum) as Hs.
  split; [split|]; cbn [tokens].
  - destruct (Qmin_f_cases (rnd (tokens b + rnd x)) (capacity_f64 l)) as [->| ->];
      apply rnd_f64.
  - destruct (Qmin_f_cases (rnd (tokens b + rnd x)) (capacity_f64 l)) as [->| ->]; lra.
  - pose proof (Qmin_f_le_r (rnd (tokens b + rnd x)) (capacity_f64 l)). lra.
  - pose proof (Qmin_f_le_l (rnd (tokens b + rnd x)) (capacity_f64 l)) as Hm.
    assert ((1 + eps) * rnd x <= (1 + eps) * ((1 + eps) * x + tiny))%Q as H1.
    { apply Qmult_le_l; [lra|exact Hrx]. }
    assert (eps * tokens b <= eps * inject_Z (capacity l))%Q as H2.
    { rewrite !(Qmult_comm eps). by apply Qmult_le_compat_r. }
    lra.
Qed.

Lemma try_acquire_ok l now b ok b' :
  limiter_ok l → bucket_ok l b → try_acquire l now b = (ok, b') →
  bucket_ok l b' ∧
  ((if ok then 1 else 0) + tokens b' <=
     tokens b + (slack l + (1 + eps) * (1 + eps) * (elapsed b now * rate l)))%Q.
Proof.
  intros Hl Hb. destruct (bucket_refill_ok l now b Hl Hb) as [[Hf Hlo Hhi] Hle].
  unfold try_acquire. set (b1 := bucket_refill l now b) in *.
  destruct (Qle_bool 1 (tokens b1)) eqn:E; intros [= <- <-].
  - apply Qle_bool_iff in E.
    assert (tokens b1 <= 9007199254740992)%Q as H53.
    { apply (Qle_trans _ _ _ Hhi), capacity_le_53, Hl. }
    pose proof (rnd_pred _ Hf E H53) as Hp. split; [split|]; cbn [tokens].
    + apply rnd_f64.
    + rewrite Hp. lra.
    + rewrite Hp. lra.
    + rewrite Hp. lra.
  - split; [by split|lra].
Qed.

Lemma acquire_all_ok l nows b :
  limiter_ok l → bucket_ok l b →
  let '(n, b') := acquire_all l b nows in
  bucket_ok l b' ∧
  (inject_Z (Z.of_nat n) + tokens b' <=
     tokens b + (inject_Z (Z.of_nat (length nows)) * slack l +
                 (1 + eps) * (1 + eps) * (elapsed_all l b nows * rate l)))%Q.
Proof.
  intros Hl. revert b. induction nows as [|now nows IH]; intros b Hb; cbn [acquire_all elapsed_all].
  { split; [done|]. rewrite !(Qmult_0_l _). apply Qle_lteq. right. ring. }
  destruct (try_acquire l now b) as [ok b1] eqn:E.
  destruct (try_acquire_ok _ _ _ _ _ Hl Hb E) as [Hb1 H1]. specialize (IH b1 Hb1).
  destruct (acquire_all l b1 nows) as [n b2]. destruct IH as [Hb2 H2]. split; [done|].
  cbn [snd length].
  rewrite Nat2Z.inj_add, inject_Z_plus, Nat2Z.inj_succ, <-Z.add_1_l, inject_Z_plus.
  assert (inject_Z (Z.of_nat (if ok then 1 else 0)%nat) == (if ok then 1 else 0))%Q as ->
    by by destruct ok.
  change (inject_Z 1) with 1%Q. 
  revert H1 H2. generalize ((1 + eps) * (1 + eps))%Q (slack l)
    (inject_Z (Z.of_nat (length nows))). intros K c len H1 H2.
  rewrite (Qmult_plus_distr_l (elapsed b now)), !Qmult_plus_distr_r, Qmult_plus_distr_l, Qmult_1_l.
  lra.
Qed.

(** Refills credit no stretch of time twice. *)
Lemma elapsed_all_le l nows b stop :
  (last_refill b <= stop)%Z → (∀ now, now ∈ nows → (now <= stop)%Z) →
  (elapsed_all l b nows <=
     (1 + eps) * (1 + eps) * (1 + eps) * (inject_Z (stop - last_refill b) / 1000000000))%Q.
Proof.
  pose proof eps_nonneg as Heps.
  assert (0 <= (1 + eps) * (1 + eps) * (1 + eps))%Q as HK.
  { apply Qmult_le_0_compat; [apply Qmult_le_0_compat|]; lra. }
  revert HK. pose proof secs_err as Herr. revert Herr.
  generalize ((1 + eps) * (1 + eps) * (1 + eps))%Q as K. intros K Herr HK.
  assert (∀ z, (0 <= z)%Z → (0 <= K * (inject_Z z / 1000000000))%Q) as Hpos.
  { intros z Hz. apply Qmult_le_0_compat; [done|]. apply Qmult_le_0_compat; [|done].
    change 0%Q with (inject_Z 0); by rewrite <-Zle_Qle. }
  revert b. induction nows as [|now nows IH]; intros b Hb Hin; cbn [elapsed_all].
  { apply Hpos. lia. }
  assert (now <= stop)%Z as Hn by (apply Hin; by left).
  assert (∀ n, n ∈ nows → (n <= stop)%Z) as Hin' by (intros; apply Hin; by right).
  unfold try_acquire, bucket_refill. pose proof (elapsed_nonneg b now) as He.
  destruct (Qle_bool (elapsed b now) 0) eqn:E.
  - apply Qle_bool_iff in E.
    assert (∀ t, (elapsed_all l (mkBucket t (last_refill b)) nows <=
                  K * (inject_Z (stop - last_refill b) / 1000000000))%Q) as H.
    { intros t. by apply (IH (mkBucket t (last_refill b))). }
    destruct b as [t0 lr]. cbn [tokens last_refill] in *.
    destruct (Qle_bool 1 t0); cbn [snd];
      [specialize (H (rnd (t0 - 1)))|specialize (H t0)]; lra.
  - assert (0 < now - last_refill b)%Z as Hd.
    { destruct (Z_lt_le_dec 0 (now - last_refill b)) as [|Hle]; [done|].
      unfold elapsed in E. rewrite Z.max_l in E by lia.
      assert (Qle_bool (as_secs_f64 0) 0 = true); [|congruence].
      apply Qle_bool_iff. rewrite secs_zero. lra. }
    set (t := Qmin_f _ _). cbn [tokens last_refill].
    assert (∀ t, (elapsed_all l (mkBucket t now) nows <=
                  K * (inject_Z (stop - now) / 1000000000))%Q) as H.
    { intros t'. by apply (IH (mkBucket t' now)). }
    assert (elapsed b now <= K * (inject_Z (now - last_refill b) / 1000000000))%Q as H1.
    { unfold elapsed. rewrite Z.max_r by lia. apply Herr. lia. }
    replace (stop - last_refill b)%Z with ((now - last_refill b) + (stop - now))%Z by lia.
    rewrite inject_Z_plus. unfold Qdiv in *. rewrite Qmult_plus_distr_l, Qmult_plus_distr_r.
    destruct (Qle_bool 1 t); cbn [snd];
      [specialize (H (rnd (t - 1)))|specialize (H t)]; lra.
Qed.

Lemma bucket_refill_now l now b : (elapsed (bucket_refill l now b) now == 0)%Q.
Proof.
  pose proof (elapsed_nonneg b now) as He. unfold bucket_refill.
  destruct (Qle_bool (elapsed b now) 0) eqn:E.
  - apply Qle_bool_iff in E. lra.
  - unfold elapsed. cbn [last_refill]. rewrite Z.sub_diag. apply secs_zero.
Qed.

Lemma bucket_refill_idle l now b : (elapsed b now == 0)%Q → bucket_refill l now b = b.
Proof.
  intros H. unfold bucket_refill. assert (Qle_bool (elapsed b now) 0 = true) as ->; [|done].
  apply Qle_bool_iff. lra.
Qed.

(** At one instant the tokens only go down. *)
Lemma acquire_same_instant l now k b :
  limiter_ok l → bucket_ok l b → (elapsed b now == 0)%Q →
  (inject_Z (Z.of_nat (fst (acquire_all l b (replicate k now)))) <= tokens b)%Q.
Proof.
  intros Hl. revert b. induction k as [|k IH]; intros b Hb Hz; cbn [replicate acquire_all].
  { apply (ok_lo _ _ Hb). }
  destruct (try_acquire l now b) as [ok b1] eqn:E.
  destruct (try_acquire_ok _ _ _ _ _ Hl Hb E) as [Hb1 _].
  unfold try_acquire in E. rewrite (bucket_refill_idle l now b Hz) in E.
  assert ((if ok then 1 else 0) + tokens b1 <= tokens b ∧ last_refill b1 = last_refill b)%Q
    as [H1 Hlr].
  { destruct (Qle_bool 1 (tokens b)) eqn:E1; injection E as <- <-; [|split; [lra|done]].
    apply Qle_bool_iff in E1. cbn [tokens last_refill]. split; [|done].
    rewrite (rnd_pred _ (ok_f64 _ _ Hb) E1); [lra|].
    apply (Qle_trans _ _ _ (ok_hi _ _ Hb)), capacity_le_53, Hl. }
  specialize (IH b1 Hb1). destruct (acquire_all l b1 _) as [n b2]. cbn [fst] in *.
  rewrite Nat2Z.inj_add, inject_Z_plus.
  assert (inject_Z (Z.of_nat n) <= tokens b1)%Q as H2.
  { apply IH. unfold elapsed. by rewrite Hlr. }
  assert (inject_Z (Z.of_nat (if ok then 1 else 0)%nat) == (if ok then 1 else 0))%Q as ->
    by by destruct ok.
  lra.
Qed.

(** A bucket without capacity admits nothing. *)
Lemma acquire_none l nows b :
  limiter_ok l → capacity l = 0%Z → bucket_ok l b → fst (acquire_all l b nows) = 0%nat.
Proof.
  intros Hl H0. revert b. induction nows as [|now nows IH]; intros b Hb; [done|].
  cbn [acquire_all]. destruct (try_acquire l now b) as [ok b1] eqn:E.
  destruct (try_acquire_ok _ _ _ _ _ Hl Hb E) as [Hb1 _]. specialize (IH b1 Hb1).
  destruct (acquire_all l b1 nows) as [m b2]. cbn [fst] in *. subst m.
  unfold try_acquire in E.
  destruct (bucket_refill_ok l now b Hl Hb) as [[_ _ Hhi] _]. rewrite H0 in Hhi.
  destruct (Qle_bool 1 _) eqn:E1; [|by injection E as <- <-].
  apply Qle_bool_iff in E1. change (inject_Z 0) with 0%Q in Hhi. lra.
Qed.

(** C25: The rate limiter keeps its promise whatever the calls.  Over any
    sequence of calls up to the instant [stop] it admits at most the tokens it
    starts with plus [rate] per second since its last refill (within the
    relative error [eps] of the [f64] operations, and [slack] per call);
    requests that come at one instant are admitted at most [capacity] times;
    the tokens stay between zero and the capacity; and a bucket of capacity
    zero admits nothing, ever. *)
Theorem rate_limit_bounds l b nows stop (Hl : limiter_ok l) (Hb : bucket_ok l b)
    (Hstop : (last_refill b <= stop)%Z) (Hnows : ∀ now, now ∈ nows → (now <= stop)%Z) :
  let '(n, b') := acquire_all l b nows in
  bucket_ok l b' ∧
  (inject_Z (Z.of_nat n) <=
     tokens b +
     (inject_Z (Z.of_nat (length nows)) * slack l +
      (1 + eps) * (1 + eps) *
      ((1 + eps) * (1 + eps) * (1 + eps) *
         (inject_Z (stop - last_refill b) / 1000000000) * rate l)))%Q ∧
  (∀ now k, (Z.of_nat (fst (acquire_all l (bucket_refill l now b) (replicate k now)))
               <= capacity l)%Z) ∧
  (capacity l = 0%Z → n = 0%nat).
Proof.
  pose proof (acquire_all_ok l nows b Hl Hb) as H.
  pose proof (elapsed_all_le l nows b stop Hstop Hnows) as He.
  pose proof (λ H0, acquire_none l nows b Hl H0 Hb) as Hz.
  destruct (acquire_all l b nows) as [n b'] eqn:En. destruct H as [Hb' H].
  split_and!; [done| | |exact Hz].
  - pose proof (ok_lo _ _ Hb') as Hlo. pose proof eps_nonneg as Heps.
    pose proof (Qmult_le_compat_r _ _ _ He (rate_nonneg _ Hl)) as H1.
    assert (0 <= (1 + eps) * (1 + eps))%Q as HK by (apply Qmult_le_0_compat; lra).
    pose proof (Qmult_le_compat_r _ _ _ H1 HK) as H2.
    rewrite !(Qmult_comm _ ((1 + eps) * (1 + eps))%Q) in H2. lra.
  - intros now k. destruct (bucket_refill_ok l now b Hl Hb) as [Hr _].
    rewrite Zle_Qle. eapply Qle_trans; [|apply (ok_hi _ _ Hr)].
    apply acquire_same_instant; [done|done|apply bucket_refill_now].
Qed.
End laws.

(** ** Rounding that is exact *)

#[local] Instance DemoFloat : FloatOps := {
  rnd x := x;
  as_secs_f64 d := (inject_Z d / 1000000000)%Q;
}.
#[local] Instance DemoFloatModel : FloatModel DemoFloat := { is_f64 _ := True; eps := 0; tiny := 0 }.
Lemma DemoFloatLaws : FloatLaws DemoFloat DemoFloatModel.
Proof.
  split; cbn; intros; try done; try lra.
  - apply Qmult_le_0_compat; [|done]. change 0%Q with (inject_Z 0); by rewrite <-Zle_Qle.
Qed.
#[local] Existing Instance DemoFloatLaws.

(** Two tokens, one per second: three calls at once and one two seconds
    later. *)
Lemma rate_limit_bounds_witness :
  let '(n, b') := acquire_all (mkLimiter 1 2) (mkBucket 2 0) [0; 0; 0; 2000000000]%Z in
  bucket_ok (mkLimiter 1 2) b' ∧ n = 3%nat.
Proof.
  assert (limiter_ok (mkLimiter 1 2)) as Hl by (split; cbn; [discriminate|lia]).
  assert (bucket_ok (mkLimiter 1 2) (mkBucket 2 0)) as Hb by (split; cbn; [done|discriminate|discriminate]).
  pose proof (rate_limit_bounds (mkLimiter 1 2) (mkBucket 2 0) [0; 0; 0; 2000000000]%Z 2000000000
    Hl Hb ltac:(cbn; lia)
    ltac:(intros now Hin; rewrite !elem_of_cons in Hin;
          destruct Hin as [->|[->|[->|[->|Hin%not_elem_of_nil]]]]; (lia || done))) as H.
  assert (fst (acquire_all (mkLimiter 1 2) (mkBucket 2 0) [0; 0; 0; 2000000000]%Z) = 3%nat)
    as Hn by by vm_compute.
  destruct (acquire_all _ _ _) as [n b']. split; [apply H|exact Hn].
Defined.
