(* ===== verification/OpenApiPath.v ===== *)
(** * OpenAPI paths (silent-openapi/src/route.rs)

    [convert_path_format] rewrites [<name:type>] into [{name}] until nothing
    is left to rewrite, and the parameter scan of
    [create_operation_with_doc] lists the parameters of a path.  All
    positions the code slices at are those of ASCII characters, so the slices
    never panic. *)

From S2P Require Import Prelude Str.

(** [str::replace]: left to right, without overlaps. *)
Fixpoint replace_go (pat rep : string) (skip : nat) (s : string) : string :=
  match s with
  | "" => ""
  | String c s' =>
      match skip with
      | S skip => replace_go pat rep skip s'
      | O => if starts_with pat s
             then rep +:+ replace_go pat rep (String.length pat - 1) s'
             else String c (replace_go pat rep 0 s')
      end
  end.
Definition str_replace (pat rep s : string) : string := replace_go pat rep 0 s.

Fixpoint str_count (c : ascii) (s : string) : nat :=
  match s with
  | "" => 0
  | String a s' => (if Ascii.eqb a c then 1 else 0) + str_count c s'
  end.

(** The path the conversion starts from. *)
Definition normalise (silent_path : string) : string :=
  if bool_decide (silent_path = "") then "/"
  else if starts_with_char "/" silent_path then silent_path
  else "/" +:+ silent_path.

(** One iteration of the loop: the next [result], or [None] when the loop is
    left. *)
Definition convert_step (result : string) : option string :=
  match split_once "<" result with
  | (_, Some rest) =>
      match split_once ">" rest with
      | (inner, Some _) =>
          let full_match := "<" +:+ inner +:+ ">" in
          match split_once ":" inner with
          | (param_name, Some _) =>
              let replacement := "{" +:+ param_name +:+ "}" in
              Some (str_replace full_match replacement result)
          | (_, None) => None
          end
      | (_, None) => None
      end
  | (_, None) => None
  end.

Fixpoint convert_loop (fuel : nat) (result : string) : string :=
  match fuel with
  | O => result
  | S fuel =>
      match convert_step result with
      | Some result => convert_loop fuel result
      | None => result
      end
  end.

(** Every iteration removes a [>]. *)
Definition convert_path_format (silent_path : string) : string :=
  let result := normalise silent_path in
  convert_loop (S (str_count ">" result)) result.

(** ** The parameters of a path *)

(** The scan for [<name:type>]: the name and the type hint of every bracket
    with a name.  [fuel] bounds the rest of the path. *)
Fixpoint angle_params (fuel : nat) (path : string) : list (string * string) :=
  match fuel with
  | O => []
  | S fuel =>
      match split_once "<" path with
      | (_, Some rest) =>
          match split_once ">" rest with
          | (inner, Some after) =>
              let '(name, hint) := split_once ":" inner in
              let type_hint := default "" hint in
              if bool_decide (name = "") then angle_params fuel after
              else (name, type_hint) :: angle_params fuel after
          | (_, None) => []
          end
      | (_, None) => []
      end
  end.

(** The scan for [{name}], only made when the first one found nothing. *)
Fixpoint brace_params (fuel : nat) (path : string) : list (string * string) :=
  match fuel with
  | O => []
  | S fuel =>
      match split_once "{" path with
      | (_, Some rest) =>
          match split_once "}" rest with
          | (name, Some after) => (name, "String") :: brace_params fuel after
          | (_, None) => []
          end
      | (_, None) => []
      end
  end.

Definition path_parameters (path : string) : list (string * string) :=
  match angle_params (S (String.length path)) path with
  | [] => brace_params (S (String.length path)) path
  | l => l
  end.

(** [rust_type_to_schema]: the type and the format of a parameter. *)
Inductive SchemaType := TInteger | TNumber | TBoolean | TStringT.
Definition rust_type_to_schema (type_hint : string) : SchemaType * option string :=
  if bool_decide (type_hint ∈ ["i8"; "i16"; "i32"; "u8"; "u16"; "u32"])
  then (TInteger, Some "int32")
  else if bool_decide (type_hint ∈ ["i64"; "u64"; "i128"; "u128"; "isize"; "usize"])
  then (TInteger, Some "int64")
  else if bool_decide (type_hint = "f32") then (TNumber, Some "float")
  else if bool_decide (type_hint = "f64") then (TNumber, Some "double")
  else if bool_decide (type_hint = "bool") then (TBoolean, None)
  else (TStringT, None).

(** ** Reference: paths as lists of pieces *)

(** Plain text, or a bracketed parameter. *)
Inductive Piece :=
| Txt (s : string)
| Ang (name ty : string).

Definition piece_text (p : Piece) : string :=
  match p with Txt s => s | Ang name ty => "<" +:+ name +:+ ":" +:+ ty +:+ ">" end.
Definition path_text (l : list Piece) : string := foldr (λ p t, piece_text p +:+ t) "" l.

Definition piece_openapi (p : Piece) : string :=
  match p with Txt s => s | Ang name _ => "{" +:+ name +:+ "}" end.
Definition openapi_text (l : list Piece) : string := foldr (λ p t, piece_openapi p +:+ t) "" l.

Definition lacks (cs : list ascii) (s : string) : bool :=
  forallb (λ c, negb (str_contains_char c s)) cs.

Definition piece_ok (p : Piece) : bool :=
  match p with
  | Txt s => lacks ["<"%char] s
  | Ang name ty => negb (bool_decide (name = "")) &&
      lacks ["<"; ">"; ":"]%char name && lacks ["<"; ">"]%char ty
  end.

Definition piece_param (p : Piece) : option (string * string) :=
  match p with Txt _ => None | Ang name ty => Some (name, ty) end.

(** ** Lemmas *)

Lemma str_count_app c s t : str_count c (s +:+ t) = (str_count c s + str_count c t)%nat.
Proof. induction s as [|a s IH]; cbn; [done|]. fold (s +:+ t). rewrite IH. lia. Qed.

Lemma str_count_0 c s : str_contains_char c s = false → str_count c s = 0%nat.
Proof.
  induction s as [|a s IH]; cbn; [done|]. intros [Ha Hs]%orb_false_iff.
  by rewrite Ha, IH.
Qed.

Lemma split_once_Some c s x y : split_once c s = (x, Some y) →
  s = x +:+ String c y ∧ str_contains_char c x = false.
Proof.
  revert x. induction s as [|a s IH]; intros x; cbn; [done|].
  destruct (a =? c)%char eqn:Ea.
  - intros [= <- <-]. apply Ascii.eqb_eq in Ea as ->. done.
  - destruct (split_once c s) as [x' y']. intros [= <- ->].
    destruct (IH x' eq_refl) as [-> Hx]. split; [done|]. cbn. by rewrite Ea, Hx.
Qed.

Lemma split_once_app c x y : str_contains_char c x = false →
  split_once c (x +:+ String c y) = (x, Some y).
Proof.
  induction x as [|a x IH]; cbn.
  - intros _. by rewrite Ascii.eqb_refl.
  - intros [Ha Hx]%orb_false_iff. rewrite Ha. fold (x +:+ String c y).
    by rewrite IH.
Qed.

Lemma split_once_None c s : str_contains_char c s = false → split_once c s = (s, None).
Proof.
  induction s as [|a s IH]; cbn; [done|]. intros [Ha Hs]%orb_false_iff.
  by rewrite Ha, IH.
Qed.

Lemma starts_with_spec p s : starts_with p s = true ↔ ∃ r, s = p +:+ r.
Proof.
  revert s. induction p as [|a p IH]; intros s; cbn.
  { split; [by exists s|done]. }
  destruct s as [|b s]; [split; [done|by intros (r & ?)]|].
  rewrite andb_true_iff, Ascii.eqb_eq, IH. split.
  - intros [-> (r & ->)]. by exists r.
  - intros (r & [= -> ->]). split; [done|by exists r].
Qed.

Lemma replace_skip pat rep k s :
  replace_go pat rep k s = replace_go pat rep 0 (str_drop k s).
Proof.
  revert s. induction k as [|k IH]; intros [|c s]; try done. cbn [str_drop]. by rewrite <-IH.
Qed.

Lemma replace_match pat rep r : pat ≠ "" →
  str_replace pat rep (pat +:+ r) = rep +:+ str_replace pat rep r.
Proof.
  intros Hp. destruct pat as [|c pat]; [done|]. unfold str_replace.
  change (String c pat +:+ r) with (String c (pat +:+ r)). cbn [replace_go].
  change (String c (pat +:+ r)) with (String c pat +:+ r).
  assert (starts_with (String c pat) (String c pat +:+ r) = true) as ->
    by (apply starts_with_spec; by exists r).
  cbn [String.length]. rewrite Nat.sub_succ, Nat.sub_0_r, replace_skip.
  by rewrite str_drop_app.
Qed.

Lemma replace_step pat rep c s : starts_with pat (String c s) = false →
  str_replace pat rep (String c s) = String c (str_replace pat rep s).
Proof. intros H. unfold str_replace. cbn [replace_go]. by rewrite H. Qed.

(** Replacing by something with fewer [c] removes one from every place. *)
Lemma replace_count_le c pat rep s : pat ≠ "" →
  (str_count c rep <= str_count c pat)%nat →
  (str_count c (str_replace pat rep s) <= str_count c s)%nat.
Proof.
  intros Hp Hc. remember (String.length s) as n eqn:Hn. revert s Hn.
  induction (lt_wf n) as [n _ IH]; intros s ->. destruct s as [|a s]; [done|].
  destruct (starts_with pat (String a s)) eqn:E.
  - apply starts_with_spec in E as [r E]. rewrite E, replace_match by done.
    rewrite !str_count_app.
    assert (String.length r < String.length (String a s))%nat as Hr.
    { rewrite E, str_len_app. destruct pat; [done|]. cbn. lia. }
    specialize (IH _ Hr r eq_refl). lia.
  - rewrite replace_step by done. cbn.
    specialize (IH (String.length s) ltac:(cbn; lia) s eq_refl). lia.
Qed.

Lemma replace_count_lt c pat rep x y : pat ≠ "" →
  (str_count c rep < str_count c pat)%nat →
  (str_count c (str_replace pat rep (x +:+ pat +:+ y)) < str_count c (x +:+ pat +:+ y))%nat.
Proof.
  intros Hp Hc. remember (String.length x) as n eqn:Hn. revert x Hn.
  induction (lt_wf n) as [n _ IH]; intros x ->.
  destruct (starts_with pat (x +:+ pat +:+ y)) eqn:E.
  - apply starts_with_spec in E as [r E]. rewrite E, replace_match by done.
    rewrite !str_count_app.
    pose proof (replace_count_le c pat rep r Hp ltac:(lia)). lia.
  - destruct x as [|a x].
    { cbn in E. fold (pat +:+ y) in E.
      assert (starts_with pat (pat +:+ y) = true); [|congruence].
      apply starts_with_spec. by exists y. }
    change (String a x +:+ pat +:+ y) with (String a (x +:+ pat +:+ y)) in *.
    rewrite replace_step by done. cbn.
    specialize (IH (String.length x) ltac:(cbn; lia) x eq_refl). lia.
Qed.

Lemma convert_step_count r r' : convert_step r = Some r' →
  (str_count ">" r' < str_count ">" r)%nat.
Proof.
  unfold convert_step.
  destruct (split_once "<" r) as [x [rest|]] eqn:E1; [|done].
  destruct (split_once ">" rest) as [inner [after|]] eqn:E2; [|done].
  destruct (split_once ":" inner) as [name [ty|]] eqn:E3; [|done].
  apply split_once_Some in E1 as [-> _], E2 as [-> Hi], E3 as [-> _]. intros [= <-].
  replace (x +:+ String "<" ((name +:+ String ":" ty) +:+ String ">" after))
    with (x +:+ ("<" +:+ (name +:+ String ":" ty) +:+ ">") +:+ after).
  2: { f_equal. rewrite !str_app_assoc. done. }
  apply replace_count_lt; [done|].
  rewrite str_contains_app in Hi. apply orb_false_iff in Hi as [Hn _].
  rewrite !str_count_app, (str_count_0 _ name Hn). cbn.
  rewrite str_count_app, (str_count_0 _ name Hn). cbn. lia.
Qed.

Lemma convert_loop_done fuel r : (str_count ">" r < fuel)%nat →
  convert_step (convert_loop fuel r) = None.
Proof.
  revert r. induction fuel as [|fuel IH]; intros r Hf; [lia|]. cbn.
  destruct (convert_step r) as [r'|] eqn:E; [|done].
  apply IH. apply convert_step_count in E. lia.
Qed.

Lemma split_once_prefix c s r : str_contains_char c s = false →
  split_once c (s +:+ r) = (s +:+ fst (split_once c r), snd (split_once c r)).
Proof.
  induction s as [|a s IH]; cbn; [by destruct (split_once c r)|].
  intros [Ha Hs]%orb_false_iff. fold (s +:+ r). by rewrite Ha, IH.
Qed.

Lemma lacks_cons c cs s : lacks (c :: cs) s = true ↔
  str_contains_char c s = false ∧ lacks cs s = true.
Proof. unfold lacks. cbn. by rewrite andb_true_iff, negb_true_iff. Qed.

Lemma lacks_nil s : lacks [] s = true.
Proof. done. Qed.

(** A bracketed piece, taken apart. *)
Lemma piece_ok_Ang name ty : piece_ok (Ang name ty) = true →
  name ≠ "" ∧ str_contains_char "<" name = false ∧ str_contains_char ">" name = false ∧
  str_contains_char ":" name = false ∧ str_contains_char "<" ty = false ∧
  str_contains_char ">" ty = false.
Proof.
  cbn [piece_ok]. rewrite !andb_true_iff, negb_true_iff, bool_decide_eq_false, !lacks_cons.
  tauto.
Qed.

Lemma ang_text name ty r :
  piece_text (Ang name ty) +:+ r = String "<" ((name +:+ String ":" ty) +:+ String ">" r).
Proof. cbn. f_equal. rewrite !str_app_assoc. cbn. by rewrite !str_app_assoc. Qed.

Lemma ang_inner name ty : piece_ok (Ang name ty) = true →
  str_contains_char ">" (name +:+ String ":" ty) = false ∧
  str_contains_char "<" (name +:+ String ":" ty) = false.
Proof.
  intros (_ & H1 & H2 & H3 & H4 & H5)%piece_ok_Ang.
  rewrite !str_contains_app. cbn. by rewrite H1, H2, H4, H5.
Qed.

(** Reading the first bracket of a path that starts with one. *)
Lemma split_ang name ty r : piece_ok (Ang name ty) = true →
  split_once "<" (piece_text (Ang name ty) +:+ r) =
    ("", Some ((name +:+ String ":" ty) +:+ String ">" r)) ∧
  split_once ">" ((name +:+ String ":" ty) +:+ String ">" r) =
    (name +:+ String ":" ty, Some r) ∧
  split_once ":" (name +:+ String ":" ty) = (name, Some ty).
Proof.
  intros Hok. pose proof (ang_inner _ _ Hok) as [Hgt _].
  apply piece_ok_Ang in Hok as (_ & _ & _ & Hc & _ & _).
  rewrite ang_text. split_and!; [done| |]; by apply split_once_app.
Qed.

Definition convert_one (name ty : string) (p : Piece) : Piece :=
  match p with
  | Txt s => Txt s
  | Ang n t => if bool_decide (n = name ∧ t = ty) then Txt ("{" +:+ n +:+ "}") else Ang n t
  end.

Lemma replace_plain pat rep s r :
  str_contains_char "<" s = false →
  str_replace (String "<" pat) rep (s +:+ r) = s +:+ str_replace (String "<" pat) rep r.
Proof.
  induction s as [|a s IH]; [done|]. cbn [str_contains_char]. intros [Ha Hs]%orb_false_iff.
  change (String a s +:+ r) with (String a (s +:+ r)). rewrite replace_step.
  - by rewrite IH.
  - cbn [starts_with]. by rewrite Ascii.eqb_sym, Ha.
Qed.

Lemma ang_prefix name ty n t r :
  piece_ok (Ang name ty) = true → piece_ok (Ang n t) = true →
  starts_with (piece_text (Ang name ty)) (piece_text (Ang n t) +:+ r) = true →
  n = name ∧ t = ty.
Proof.
  intros H1 H2 (r' & E)%starts_with_spec. rewrite !ang_text in E. injection E as E.
  destruct (split_ang _ _ r H2) as (_ & Ha & Hb), (split_ang _ _ r' H1) as (_ & Hc & Hd).
  rewrite E, Hc in Ha. injection Ha as Ha _. rewrite <-Ha, Hd in Hb. by injection Hb as -> ->.
Qed.

Lemma path_text_cons p l : path_text (p :: l) = piece_text p +:+ path_text l.
Proof. done. Qed.

Lemma replace_pieces name ty l :
  piece_ok (Ang name ty) = true → forallb piece_ok l = true →
  str_replace (piece_text (Ang name ty)) ("{" +:+ name +:+ "}") (path_text l) =
  path_text (map (convert_one name ty) l).
Proof.
  intros Hok. induction l as [|p l IH]; [done|]. cbn [forallb map].
  intros [Hp Hl]%andb_true_iff. rewrite !path_text_cons, <-(IH Hl).
  destruct p as [s|n t].
  - cbn [piece_ok piece_text convert_one] in *. apply lacks_cons in Hp as [Hp _].
    by apply replace_plain.
  - cbn [convert_one]. case_bool_decide as He.
    + destruct He as [-> ->]. by apply replace_match.
    + destruct (ang_inner _ _ Hp) as [Hgt Hlt]. rewrite ang_text.
      rewrite replace_step.
      * replace ((n +:+ String ":" t) +:+ String ">" (path_text l))
          with (((n +:+ String ":" t) +:+ ">") +:+ path_text l) by by rewrite str_app_assoc.
        change (piece_text (Ang name ty)) with (String "<" (name +:+ ":" +:+ ty +:+ ">")).
        rewrite replace_plain by by rewrite str_contains_app, Hlt.
        cbn. rewrite !str_app_assoc. cbn. by rewrite !str_app_assoc.
      * apply not_true_iff_false. intros Hs. rewrite <-ang_text in Hs.
        by apply (ang_prefix name ty n t) in Hs.
Qed.

Lemma convert_one_ok name ty l : lacks ["<"%char] name = true →
  forallb piece_ok l = true → forallb piece_ok (map (convert_one name ty) l) = true.
Proof.
  intros Hn. induction l as [|p l IH]; [done|]. cbn [forallb map].
  intros [Hp Hl]%andb_true_iff. rewrite (IH Hl), andb_true_r.
  destruct p as [s|n t]; [done|]. cbn [convert_one]. case_bool_decide as He; [|done].
  destruct He as [-> ->]. cbn [piece_ok]. apply lacks_cons. split; [|done].
  apply lacks_cons in Hn as [Hn _]. rewrite !str_contains_app, Hn. done.
Qed.

Lemma convert_one_openapi name ty l :
  openapi_text (map (convert_one name ty) l) = openapi_text l.
Proof.
  induction l as [|p l IH]; [done|]. cbn. unfold openapi_text in IH. rewrite IH. f_equal.
  destruct p as [s|n t]; [done|]. cbn. by case_bool_decide.
Qed.

(** One iteration on a path of pieces: the first bracket and all its equals
    are rewritten. *)
Lemma convert_step_pieces l : forallb piece_ok l = true →
  match list_find (λ p, piece_param p ≠ None) l with
  | Some (_, Ang name ty) =>
      piece_ok (Ang name ty) = true ∧
      convert_step (path_text l) = Some (path_text (map (convert_one name ty) l))
  | _ => convert_step (path_text l) = None ∧ path_text l = openapi_text l
  end.
Proof.
  intros Hok.
  assert (∀ pre l' : list Piece, l = (pre ++ l')%list → Forall (λ p, piece_param p = None) pre →
    str_contains_char "<" (path_text pre) = false ∧
    path_text l = path_text pre +:+ path_text l') as Hpre.
  { intros pre l' -> Hpre. split.
    - rewrite forallb_app in Hok. apply andb_true_iff in Hok as [Hok _]. clear l'.
      induction Hpre as [|p pre Hp _ IH]; [done|]. destruct p as [s|]; [|done].
      cbn [forallb] in Hok. apply andb_true_iff in Hok as [Hs Hok]. cbn [piece_ok] in Hs.
      apply lacks_cons in Hs as [Hs _]. rewrite path_text_cons, str_contains_app.
      cbn [piece_text]. by rewrite Hs, IH.
    - clear. induction pre as [|p pre IH]; [done|]. cbn [app]. rewrite !path_text_cons, IH.
      by rewrite str_app_assoc. }
  destruct (list_find _ l) as [[i p]|] eqn:E.
  - apply list_find_Some in E as (Hi & Hp & Hbefore). destruct p as [s|name ty]; [done|].
    pose proof (take_drop_middle l i _ Hi) as Hl.
    destruct (Hpre (take i l) (Ang name ty :: drop (S i) l)) as [Hlt Ht]; [done| |].
    { apply Forall_lookup. intros j p Hj. apply lookup_take_Some in Hj as [Hj Hji].
      destruct (decide (piece_param p = None)); [done|]. by destruct (Hbefore j p). }
    assert (piece_ok (Ang name ty) = true) as Hpok.
    { rewrite forallb_forall in Hok. apply Hok. apply list_elem_of_In.
      by apply list_elem_of_lookup_2 in Hi. }
    split; [done|]. destruct (split_ang name ty (path_text (drop (S i) l)) Hpok) as (H1 & H2 & H3).
    unfold convert_step. rewrite Ht, path_text_cons, split_once_prefix by done.
    rewrite H1. cbn [snd]. rewrite H2, H3. f_equal.
    rewrite <-path_text_cons, <-Ht, <-(replace_pieces name ty l) by done. f_equal.
    cbn. by rewrite !str_app_assoc.
  - apply list_find_None in E. destruct (Hpre l []) as [Hlt _]; [by rewrite app_nil_r| |].
    { eapply Forall_impl; [done|]. intros p Hp. destruct (piece_param p) eqn:Ep; [|done].
      destruct Hp. by rewrite Ep. }
    split; [unfold convert_step; by rewrite split_once_None|].
    clear -E. induction E as [|p l Hp _ IH]; [done|]. rewrite path_text_cons, IH. cbn.
    destruct p; [done|]. by destruct Hp.
Qed.

Lemma convert_loop_pieces fuel l : forallb piece_ok l = true →
  (str_count ">" (path_text l) < fuel)%nat → convert_loop fuel (path_text l) = openapi_text l.
Proof.
  revert l. induction fuel as [|fuel IH]; intros l Hok Hf; [lia|]. cbn [convert_loop].
  pose proof (convert_step_pieces l Hok) as Hs.
  destruct (list_find _ l) as [[i [s|name ty]]|].
  1, 3: destruct Hs as [-> ->]; done.
  destruct Hs as [Hp Hs]. rewrite Hs. apply convert_step_count in Hs.
  rewrite IH; [apply convert_one_openapi| |lia].
  apply convert_one_ok; [|done]. apply piece_ok_Ang in Hp as (_ & Hp & _).
  by apply lacks_cons.
Qed.

(** The parameters the scan declares for a path of pieces. *)
Lemma angle_params_pieces fuel l : forallb piece_ok l = true → (length l < fuel)%nat →
  angle_params fuel (path_text l) = omap (M := list) piece_param l.
Proof.
  intros Hok. revert fuel. induction l as [|p l IH]; intros fuel Hf.
  { by destruct fuel. }
  cbn [forallb length] in *. apply andb_true_iff in Hok as [Hp Hok].
  destruct p as [s|name ty]; rewrite path_text_cons.
  - change (omap (M := list) piece_param (Txt s :: l)) with (omap (M := list) piece_param l).
    rewrite <-(IH Hok fuel) by lia. cbn [piece_ok] in Hp. apply lacks_cons in Hp as [Hp _].
    destruct fuel as [|fuel]; [lia|]. cbn [angle_params piece_text].
    rewrite split_once_prefix by done. by destruct (split_once "<" (path_text l)) as [? []].
  - destruct (split_ang name ty (path_text l) Hp) as (H1 & H2 & H3).
    destruct fuel as [|fuel]; [lia|]. cbn [angle_params].
    rewrite H1, H2, H3. apply piece_ok_Ang in Hp as (Hn & _).
    rewrite bool_decide_eq_false_2 by done. cbn. f_equal. apply IH; [done|lia].
Qed.

(** The length of a path bounds its brackets. *)
Lemma angle_params_fuel fuel k path : (String.length path < fuel)%nat →
  angle_params (fuel + k) path = angle_params fuel path.
Proof.
  revert path. induction fuel as [|fuel IH]; intros path Hf; [lia|]. cbn [angle_params Nat.add].
  destruct (split_once "<" path) as [x [rest|]] eqn:E1; [|done].
  destruct (split_once ">" rest) as [inner [after|]] eqn:E2; [|done].
  apply split_once_Some in E1 as [-> _], E2 as [-> _].
  rewrite !str_len_app in Hf. cbn in Hf. rewrite str_len_app in Hf. cbn in Hf.
  destruct (split_once ":" inner). rewrite IH by lia. done.
Qed.

Lemma path_parameters_pieces l : forallb piece_ok l = true →
  omap (M := list) piece_param l ≠ [] →
  path_parameters (path_text l) = omap (M := list) piece_param l.
Proof.
  intros Hok Hne. unfold path_parameters.
  rewrite <-(angle_params_fuel _ (S (length l))) by lia.
  assert (angle_params (S (String.length (path_text l)) + S (length l)) (path_text l) =
    omap (M := list) piece_param l) as ->.
  { apply angle_params_pieces; [done|lia]. }
  by destruct (omap (M := list) piece_param l).
Qed.

Lemma rtc_convert_loop fuel r : rtc (λ a b, convert_step a = Some b) r (convert_loop fuel r).
Proof.
  revert r. induction fuel as [|fuel IH]; intros r; cbn; [done|].
  destruct (convert_step r) as [r'|] eqn:E; [|done]. by econstructor.
Qed.

Lemma convert_step_slash r r' : starts_with_char "/" r = true →
  convert_step r = Some r' → starts_with_char "/" r' = true.
Proof.
  intros Hr. unfold convert_step.
  destruct (split_once "<" r) as [x [rest|]]; [|done].
  destruct (split_once ">" rest) as [inner [after|]]; [|done].
  destruct (split_once ":" inner) as [name [ty|]]; [|done]. intros [= <-].
  destruct r as [|a r]; [done|]. rewrite replace_step; [done|].
  cbn [starts_with_char starts_with] in *.
  destruct (a =? "/")%char eqn:Ea; [apply Ascii.eqb_eq in Ea as ->; done|].
  done.
Qed.

(** Every OpenAPI path starts with a slash. *)
Lemma convert_path_slash p : starts_with_char "/" (convert_path_format p) = true.
Proof.
  unfold convert_path_format. generalize (S (str_count ">" (normalise p))) as fuel.
  assert (starts_with_char "/" (normalise p) = true) as H.
  { unfold normalise. case_bool_decide; [done|]. by destruct (starts_with_char "/" p) eqn:E. }
  revert H. generalize (normalise p) as r. intros r H fuel. revert r H.
  induction fuel as [|fuel IH]; intros r H; cbn; [done|].
  destruct (convert_step r) as [r'|] eqn:E; [|done].
  apply IH. by apply (convert_step_slash r).
Qed.

(** C40: The rewriting of a route pattern always terminates, whatever the
    pattern: no infinite run of the loop exists (every iteration removes a
    [>] although it replaces all occurrences at once), and the result is what
    the loop leaves behind: it is reached by iterations from the normalised
    path, and no iteration applies to it. *)
Theorem convert_terminates p :
  well_founded (λ r' r, convert_step r = Some r') ∧
  rtc (λ a b, convert_step a = Some b) (normalise p) (convert_path_format p) ∧
  convert_step (convert_path_format p) = None.
Proof.
  split_and!.
  - apply (well_founded_lt_compat _ (str_count ">")). intros r' r. apply convert_step_count.
  - apply rtc_convert_loop.
  - apply convert_loop_done. lia.
Qed.

(** C22: For every pattern made of plain text and [<name:type>] parameters the
    OpenAPI path is the pattern with each parameter as [{name}] (and a
    leading slash), equal brackets being rewritten together, and the
    operation declares exactly the parameters of the pattern, in order, with
    their type hints: no placeholder stays undeclared and none is declared
    that the path does not have. *)
Theorem openapi_path_spec l (Hok : forallb piece_ok l = true)
    (Hne : path_text l ≠ "") (Hp : omap (M := list) piece_param l ≠ []) :
  convert_path_format (path_text l) =
    (if starts_with_char "/" (path_text l) then "" else "/") +:+ openapi_text l ∧
  path_parameters (path_text l) = omap (M := list) piece_param l.
Proof.
  split; [|by apply path_parameters_pieces].
  unfold convert_path_format, normalise. rewrite bool_decide_eq_false_2 by done.
  destruct (starts_with_char "/" (path_text l)).
  - apply convert_loop_pieces; [done|lia].
  - change ("/" +:+ path_text l) with (path_text (Txt "/" :: l)).
    rewrite convert_loop_pieces; [done| |lia]. done.
Qed.

(** A parameter without a type is a legal segment of a route, is declared,
    but stops the rewriting: it and everything after it keep their brackets. *)
Lemma untyped_parameter_kept :
  convert_path_format "/users/<id>/posts/<post:i64>" = "/users/<id>/posts/<post:i64>" ∧
  path_parameters "/users/<id>/posts/<post:i64>" = [("id", ""); ("post", "i64")].
Proof. split; reflexivity. Qed.

(** ** Witness *)

Lemma openapi_path_spec_witness :
  convert_path_format "users/<id:i64>/to/<id:i64>/<rest:**>" = "/users/{id}/to/{id}/{rest}" ∧
  path_parameters "users/<id:i64>/to/<id:i64>/<rest:**>" =
    [("id", "i64"); ("id", "i64"); ("rest", "**")].
Proof.
  apply (openapi_path_spec
    [Txt "users/"; Ang "id" "i64"; Txt "/to/"; Ang "id" "i64"; Txt "/"; Ang "rest" "**"]);
    [reflexivity|discriminate|discriminate].
Defined.
