(* ===== verification/OpenApi.v ===== *)
(** * OpenAPI documents
    (silent-openapi/src/doc.rs, silent-openapi/src/schema.rs,
    silent-openapi/src/route.rs)

    The registries of handler metadata, the document builder, and the walk
    over a route tree that collects one operation per handler.  utoipa's
    builders are library code: an [Operation] is recorded as the sequence of
    builder calls that make it, the paths of a document as the calls of its
    [PathsBuilder].  The registries are keyed by the address of a handler,
    the parameter [handler_ptr]. *)

From S2P Require Import Prelude Str Platform State Error PathParam Body Form Message Next Route OpenApiPath.

Definition TRACE : Method := "TRACE".

(** ** Metadata (doc.rs) *)

Record DocMeta := mkDocMeta {
  m_summary : option string;
  m_description : option string;
  m_deprecated : bool;
  m_tags : list string;
}.

Inductive ResponseMeta :=
| TextPlain
| RespJson (type_name : string).

Record ExtraResponse := mkExtra { x_status : Z; x_description : string }.

Inductive RequestMeta :=
| JsonBody (type_name : string)
| FormBody (type_name : string)
| QueryParams (type_name : string).

(** A schema of the components: the placeholder object, or a registered one. *)
Inductive Schema :=
| ObjectSchema
| RegisteredSchema (text : string).

(** The global registries.  A registered [SchemaRegFn] inserts the schemas a
    type brings along, then its own. *)
Record Registry := mkRegistry {
  docs : gmap Z DocMeta;
  responses : gmap Z ResponseMeta;
  extras : gmap Z (list ExtraResponse);
  requests : gmap Z (list RequestMeta);
  schema_fns : list (list (string * Schema));
}.

Definition register_doc_by_ptr_ext (ptr : Z) (summary description : option string)
    (deprecated : bool) (tags : list string) (g : Registry) : Registry :=
  mkRegistry (<[ptr := mkDocMeta summary description deprecated tags]> (docs g))
    (responses g) (extras g) (requests g) (schema_fns g).
Definition register_doc_by_ptr (ptr : Z) (summary description : option string)
    (g : Registry) : Registry :=
  mkRegistry (<[ptr := mkDocMeta summary description false []]> (docs g))
    (responses g) (extras g) (requests g) (schema_fns g).
Definition register_response_by_ptr (ptr : Z) (meta : ResponseMeta) (g : Registry) : Registry :=
  mkRegistry (docs g) (<[ptr := meta]> (responses g)) (extras g) (requests g) (schema_fns g).
Definition register_extra_response_by_ptr (ptr : Z) (status : Z) (description : string)
    (g : Registry) : Registry :=
  let l := default [] (extras g !! ptr) in
  mkRegistry (docs g) (responses g)
    (<[ptr := (l ++ [mkExtra status description])%list]> (extras g)) (requests g) (schema_fns g).
Definition register_request_by_ptr (ptr : Z) (meta : RequestMeta) (g : Registry) : Registry :=
  let l := default [] (requests g !! ptr) in
  mkRegistry (docs g) (responses g) (extras g)
    (<[ptr := (l ++ [meta])%list]> (requests g)) (schema_fns g).
Definition register_schema_for (refs : list (string * Schema)) (name : string) (schema : Schema)
    (g : Registry) : Registry :=
  mkRegistry (docs g) (responses g) (extras g) (requests g)
    (schema_fns g ++ [refs ++ [(name, schema)]])%list.

Definition lookup_doc_by_handler_ptr (ptr : Z) (g : Registry) : option DocMeta := docs g !! ptr.
Definition lookup_response_by_handler_ptr (ptr : Z) (g : Registry) : option ResponseMeta :=
  responses g !! ptr.
Definition lookup_extra_responses_by_handler_ptr (ptr : Z) (g : Registry)
  : option (list ExtraResponse) := extras g !! ptr.
Definition lookup_request_by_handler_ptr (ptr : Z) (g : Registry) : option (list RequestMeta) :=
  requests g !! ptr.

(** [list_registered_json_types], over the values in the map's order. *)
Definition list_registered_json_types (values : list ResponseMeta) : list string :=
  foldl (λ out meta,
    match meta with
    | RespJson type_name => if bool_decide (type_name ∈ out) then out else (out ++ [type_name])%list
    | TextPlain => out
    end) [] values.

(** ** Documents (schema.rs) *)

(** A call of utoipa's [OperationBuilder]. *)
Inductive ParamIn := InPath | InQuery.
Inductive OpCall :=
| OpSummary (s : string)
| OpDescription (s : string)
| OpId (s : string)
| OpResponse (code : string) (description : string) (content : option (string * option string))
| OpDeprecated
| OpTags (l : list string)
| OpRequestBody (content_type type_name : string)
| OpParameter (name : string) (place : ParamIn) (required : bool)
    (schema : SchemaType * option string + string).
Abbreviation Operation := (list OpCall).

Record PathItem := mkPathItem {
  i_get : option Operation;
  i_post : option Operation;
  i_put : option Operation;
  i_delete : option Operation;
  i_patch : option Operation;
  i_head : option Operation;
  i_options : option Operation;
  i_trace : option Operation;
}.
Definition PathItem_default : PathItem := mkPathItem None None None None None None None None.

Record Components := mkComponents {
  c_schemas : gmap string Schema;
  c_security : gmap string string;
}.
Definition Components_new : Components := mkComponents ∅ ∅.

Record OpenApiDoc := mkDoc {
  d_title : string;
  d_version : string;
  d_description : option string;
  d_servers : option (list (string * option string));
  d_paths : list (string * PathItem);
  d_components : option Components;
  d_security : option (list (string * list string));
}.

Definition OpenApiDoc_new (title version : string) : OpenApiDoc :=
  mkDoc title version None None [] None None.

(** Both branches of [description] store the text. *)
Definition doc_description (d : OpenApiDoc) (description : string) : OpenApiDoc :=
  mkDoc (d_title d) (d_version d) (Some description) (d_servers d) (d_paths d)
    (d_components d) (d_security d).

Definition add_server (d : OpenApiDoc) (url : string) (description : option string) : OpenApiDoc :=
  mkDoc (d_title d) (d_version d) (d_description d)
    (Some (default [] (d_servers d) ++ [(url, description)])%list) (d_paths d)
    (d_components d) (d_security d).

(** [add_path] and [add_paths] build a new [Paths] object. *)
Definition set_paths (d : OpenApiDoc) (l : list (string * PathItem)) : OpenApiDoc :=
  mkDoc (d_title d) (d_version d) (d_description d) (d_servers d) l (d_components d)
    (d_security d).
Definition add_path (d : OpenApiDoc) (path : string) (item : PathItem) : OpenApiDoc :=
  set_paths d [(path, item)].
Definition add_paths (d : OpenApiDoc) (l : list (string * PathItem)) : OpenApiDoc :=
  set_paths d l.

Definition set_components (d : OpenApiDoc) (c : Components) : OpenApiDoc :=
  mkDoc (d_title d) (d_version d) (d_description d) (d_servers d) (d_paths d) (Some c)
    (d_security d).

(** [schemas.entry(name).or_insert(schema)] *)
Definition or_insert_schema (c : Components) (kv : string * Schema) : Components :=
  match c_schemas c !! kv.1 with
  | Some _ => c
  | None => mkComponents (<[kv.1 := kv.2]> (c_schemas c)) (c_security c)
  end.

Definition add_placeholder_schemas (d : OpenApiDoc) (names : list string) : OpenApiDoc :=
  set_components d
    (foldl or_insert_schema (default Components_new (d_components d))
       (map (λ n, (n, ObjectSchema)) names)).

Definition apply_registered_schemas (g : Registry) (d : OpenApiDoc) : OpenApiDoc :=
  set_components d
    (foldl (λ c f, foldl or_insert_schema c f)
       (default Components_new (d_components d)) (schema_fns g)).

Definition add_bearer_auth (d : OpenApiDoc) (scheme_name : string) (description : option string)
  : OpenApiDoc :=
  let c := default Components_new (d_components d) in
  set_components d (mkComponents (c_schemas c) (<[scheme_name := "bearer JWT"]> (c_security c))).

Definition set_global_security (d : OpenApiDoc) (scheme_name : string) (scopes : list string)
  : OpenApiDoc :=
  mkDoc (d_title d) (d_version d) (d_description d) (d_servers d) (d_paths d) (d_components d)
    (Some (default [] (d_security d) ++ [(scheme_name, scopes)])%list).

(** [create_openapi_doc] of lib.rs. *)
Definition create_openapi_doc (title version description : string) : OpenApiDoc :=
  mkDoc title version (Some description) None [] None None.

(** [PathInfo] and its builder. *)
Record PathInfo := mkPathInfo {
  pi_method : Method;
  pi_path : string;
  pi_operation_id : option string;
  pi_summary : option string;
  pi_description : option string;
  pi_tags : list string;
}.
Definition PathInfo_new (m : Method) (p : string) : PathInfo := mkPathInfo m p None None None [].
Definition pi_set_operation_id (i : PathInfo) (id : string) : PathInfo :=
  mkPathInfo (pi_method i) (pi_path i) (Some id) (pi_summary i) (pi_description i) (pi_tags i).
Definition pi_set_summary (i : PathInfo) (s : string) : PathInfo :=
  mkPathInfo (pi_method i) (pi_path i) (pi_operation_id i) (Some s) (pi_description i) (pi_tags i).
Definition pi_set_description (i : PathInfo) (s : string) : PathInfo :=
  mkPathInfo (pi_method i) (pi_path i) (pi_operation_id i) (pi_summary i) (Some s) (pi_tags i).
Definition pi_tag (i : PathInfo) (t : string) : PathInfo :=
  mkPathInfo (pi_method i) (pi_path i) (pi_operation_id i) (pi_summary i) (pi_description i)
    (pi_tags i ++ [t])%list.
Definition pi_set_tags (i : PathInfo) (l : list string) : PathInfo :=
  mkPathInfo (pi_method i) (pi_path i) (pi_operation_id i) (pi_summary i) (pi_description i) l.

(** ** Operations (route.rs) *)

Definition create_operation_from_path_info (i : PathInfo) : Operation :=
  (match pi_operation_id i with Some id => [OpId id] | None => [] end ++
   match pi_summary i with Some s => [OpSummary s] | None => [] end ++
   match pi_description i with Some s => [OpDescription s] | None => [] end ++
   match pi_tags i with [] => [] | l => [OpTags l] end ++
   [OpResponse "200" "Successful response" None])%list.

(** Every character that is no ASCII letter or digit becomes [_]. *)
Definition is_alnum (c : ascii) : bool :=
  let n := N_of_ascii c in
  ((97 <=? n)%N && (n <=? 122)%N) || ((65 <=? n)%N && (n <=? 90)%N) ||
  ((48 <=? n)%N && (n <=? 57)%N).
Definition sanitized_path (path : string) : string :=
  str_flat_map (λ c, if is_alnum c then String c ""
                     else if is_cont c then "" else "_") path.
Definition trim_matches (c : ascii) (s : string) : string :=
  trim_end_matches c (trim_start_matches c s).
Definition operation_id (method : Method) (path : string) : string :=
  trim_matches "_" (to_ascii_lowercase method +:+ "_" +:+ sanitized_path path).

Definition default_tag (path : string) : option string :=
  find (λ s, negb (bool_decide (s = ""))) (split_char "/" path).

Definition response_content (resp : option ResponseMeta) : option (string * option string) :=
  match resp with
  | None => None
  | Some TextPlain => Some ("text/plain", None)
  | Some (RespJson type_name) => Some ("application/json", Some type_name)
  end.

Definition request_call (meta : RequestMeta) : OpCall :=
  match meta with
  | JsonBody type_name => OpRequestBody "application/json" type_name
  | FormBody type_name => OpRequestBody "application/x-www-form-urlencoded" type_name
  | QueryParams type_name => OpParameter type_name InQuery false (inr type_name)
  end.

Definition create_operation_with_doc (method : Method) (path : string) (doc : option DocMeta)
    (resp : option ResponseMeta) (req_meta : option (list RequestMeta))
    (extra_resp : option (list ExtraResponse)) (parent_tags : list string) : Operation :=
  let default_summary := method +:+ " " +:+ path in
  let default_description := "Handler for " +:+ method +:+ " " +:+ path in
  let '(summary, description, deprecated, custom_tags) :=
    match doc with
    | Some d => (default default_summary (m_summary d),
                 default default_description (m_description d), m_deprecated d, m_tags d)
    | None => (default_summary, default_description, false, [])
    end in
  ([OpSummary summary; OpDescription description; OpId (operation_id method path);
    OpResponse "200" "Successful response" (response_content resp)] ++
   (if deprecated : bool then [OpDeprecated] else []) ++
   match custom_tags, parent_tags, default_tag path with
   | _ :: _, _, _ => [OpTags custom_tags]
   | [], _ :: _, _ => [OpTags parent_tags]
   | [], [], Some tag => [OpTags [tag]]
   | [], [], None => []
   end ++
   map (λ er, OpResponse (show_Z (x_status er)) (x_description er) None) (default [] extra_resp) ++
   map request_call (default [] req_meta) ++
   map (λ nt, OpParameter nt.1 InPath true (inl (rust_type_to_schema nt.2)))
     (path_parameters path))%list.

(** [create_or_update_path_item] ignores the existing item it is given. *)
Definition create_or_update_path_item (method : Method) (op : Operation) : PathItem :=
  let i := PathItem_default in
  if bool_decide (method = GET) then mkPathItem (Some op) None None None None None None None
  else if bool_decide (method = POST) then mkPathItem None (Some op) None None None None None None
  else if bool_decide (method = PUT) then mkPathItem None None (Some op) None None None None None
  else if bool_decide (method = DELETE) then mkPathItem None None None (Some op) None None None None
  else if bool_decide (method = PATCH) then mkPathItem None None None None (Some op) None None None
  else if bool_decide (method = HEAD) then mkPathItem None None None None None (Some op) None None
  else if bool_decide (method = OPTIONS)
  then mkPathItem None None None None None None (Some op) None
  else if bool_decide (method = TRACE)
  then mkPathItem None None None None None None None (Some op)
  else i.

Definition opt_or {A} (a b : option A) : option A := match a with Some x => Some x | None => b end.
Definition merge_path_items (a b : PathItem) : PathItem :=
  mkPathItem (opt_or (i_get a) (i_get b)) (opt_or (i_post a) (i_post b))
    (opt_or (i_put a) (i_put b)) (opt_or (i_delete a) (i_delete b))
    (opt_or (i_patch a) (i_patch b)) (opt_or (i_head a) (i_head b))
    (opt_or (i_options a) (i_options b)) (opt_or (i_trace a) (i_trace b)).

(** [Vec::dedup_by_key]: only neighbours are compared. *)
Fixpoint dedup_status (l : list ExtraResponse) : list ExtraResponse :=
  match l with
  | [] => []
  | a :: l' =>
      match dedup_status l' with
      | b :: l'' => if bool_decide (x_status a = x_status b) then a :: l'' else a :: b :: l''
      | [] => [a]
      end
  end.

Definition responses_of_name (type_name : string) : list ExtraResponse :=
  ((if str_contains "RateLimiter" type_name || str_contains "rate_limiter" type_name
    then [mkExtra 429 "Too Many Requests"] else []) ++
   (if str_contains "Auth" type_name || str_contains "auth" type_name
    then [mkExtra 401 "Unauthorized"] else []) ++
   (if str_contains "Timeout" type_name || str_contains "timeout" type_name
    then [mkExtra 408 "Request Timeout"] else []))%list.

(** The responses inferred from the middlewares are added unless their status
    is there already. *)
Definition merge_responses (l mw : list ExtraResponse) : list ExtraResponse :=
  foldl (λ l r, if existsb (λ r', bool_decide (x_status r' = x_status r)) l then l
                else (l ++ [r])%list) l mw.

(** [paths.iter_mut().find(..)]: the first entry of the path is updated, or a
    new entry is pushed. *)
Fixpoint add_item (p : string) (item : PathItem) (paths : list (string * PathItem))
  : list (string * PathItem) :=
  match paths with
  | [] => [(p, item)]
  | (q, i) :: rest =>
      if bool_decide (q = p) then (q, merge_path_items i item) :: rest
      else (q, i) :: add_item p item rest
  end.

(** ** Routes *)

Class OpenApiEnv (P : Platform) := {
  (** [Arc::as_ptr] of a handler (a handler is its behaviour here, so two
      allocations that behave alike share one address: programs that document
      only one of two such handlers are outside the model), the order of a [HashMap] of handlers, and
      [type_name_of_val] of a [dyn MiddleWareHandler]: the argument's static
      type is the trait object, so the name is the same for all. *)
  handler_ptr : Handler → Z;
  handler_order : gmap Method Handler → list (Method * Handler);
  dyn_middleware_name : string;
}.

Section routes.
Context {P : Platform} {O : OpenApiEnv P}.

Definition infer_middleware_responses (mws : list MiddleWare) : list ExtraResponse :=
  dedup_status (concat (map (λ _, responses_of_name dyn_middleware_name) mws)).

Definition join_paths (current path : string) : string :=
  if bool_decide (current = "") then path
  else if bool_decide (path = "") then current
  else trim_end_matches "/" current +:+ "/" +:+ trim_start_matches "/" path.

Definition next_tags (parent : list string) (path : string) : list string :=
  let seg := trim_matches "/" path in
  if negb (bool_decide (seg = "")) && negb (starts_with_char "<" seg) &&
     negb (starts_with_char "{" seg) && negb (bool_decide (seg ∈ parent))
  then (parent ++ [seg])%list else parent.

(** The operation of one handler at [full_path]. *)
Definition handler_operation (g : Registry) (full_path : string) (tags : list string)
    (mw : list ExtraResponse) (mh : Method * Handler) : Operation :=
  let ptr := handler_ptr mh.2 in
  let extra := merge_responses (default [] (lookup_extra_responses_by_handler_ptr ptr g)) mw in
  create_operation_with_doc mh.1 full_path (lookup_doc_by_handler_ptr ptr g)
    (lookup_response_by_handler_ptr ptr g) (lookup_request_by_handler_ptr ptr g)
    (match extra with [] => None | l => Some l end) tags.

Definition collect_handlers (g : Registry) (r : Route) (full_path : string) (tags : list string)
    (paths : list (string * PathItem)) : list (string * PathItem) :=
  let mw := infer_middleware_responses (middlewares r) in
  foldl (λ paths mh,
    let op := handler_operation g full_path tags mw mh in
    add_item (convert_path_format full_path) (create_or_update_path_item mh.1 op) paths)
    paths (handler_order (handlers r)).

Fixpoint collect_paths_recursive (g : Registry) (r : Route) (current : string)
    (parent_tags : list string) (paths : list (string * PathItem)) : list (string * PathItem) :=
  let full_path := join_paths current (path r) in
  let tags := next_tags parent_tags (path r) in
  let paths := collect_handlers g r full_path tags paths in
  (fix children (l : list Route) (paths : list (string * PathItem)) :=
     match l with
     | [] => paths
     | child :: l => children l (collect_paths_recursive g child full_path tags paths)
     end) (kids r) paths.

Definition collect_openapi_paths (g : Registry) (r : Route) (base_path : string)
  : list (string * PathItem) := collect_paths_recursive g r base_path [] [].

Definition generate_openapi_doc (g : Registry) (r : Route) (title version : string)
    (description : option string) : OpenApiDoc :=
  let doc := OpenApiDoc_new title version in
  let doc := match description with Some desc => doc_description doc desc | None => doc end in
  apply_registered_schemas g (add_paths doc (collect_openapi_paths g r "")).

Definition to_openapi (g : Registry) (r : Route) (title version : string) : OpenApiDoc :=
  generate_openapi_doc g r title version None.

(** [RouteDocMarkExt::doc] and the [RouteDocAppendExt] methods. *)
Definition route_doc (r : Route) (m : Method) (summary description : string) (g : Registry)
  : Registry :=
  match handlers r !! m with
  | Some h => register_doc_by_ptr (handler_ptr h) (Some summary) (Some description) g
  | None => g
  end.
Definition method_with_doc (r : Route) (m : Method) (h : Handler) (summary description : string)
    (g : Registry) : outcome Route * Registry :=
  (handler r m h, register_doc_by_ptr (handler_ptr h) (Some summary) (Some description) g).

(** [handler_with_doc] *)
Definition handler_with_doc {A} (into : A → Response) (f : Request → M World (SilentResult A))
    (summary description : string) (g : Registry) : Handler * Registry :=
  let h := HandlerWrapper into f in
  (h, register_doc_by_ptr (handler_ptr h) (Some summary) (Some description) g).

(** [DocumentedRoute] *)
Record DocumentedRoute := mkDocumented { dr_route : Route; dr_docs : list PathInfo }.
Definition DocumentedRoute_new (r : Route) : DocumentedRoute := mkDocumented r [].
Definition add_path_doc (d : DocumentedRoute) (i : PathInfo) : DocumentedRoute :=
  mkDocumented (dr_route d) (dr_docs d ++ [i])%list.
Definition add_path_docs (d : DocumentedRoute) (l : list PathInfo) : DocumentedRoute :=
  mkDocumented (dr_route d) (dr_docs d ++ l)%list.
Definition generate_path_items (d : DocumentedRoute) (base_path : string)
  : list (string * PathItem) :=
  map (λ i,
    let full_path := if bool_decide (base_path = "") then pi_path i
                     else trim_end_matches "/" base_path +:+ pi_path i in
    (convert_path_format full_path,
     create_or_update_path_item (pi_method i) (create_operation_from_path_info i))) (dr_docs d).
End routes.

(** ** Reference: the operations of a route tree *)

Section reference.
Context {P : Platform} {O : OpenApiEnv P}.

(** One entry per handler, in the order of the walk: its path, its method and
    its operation. *)
Definition node_ops (g : Registry) (r : Route) (full_path : string) (tags : list string)
  : list (string * Method * Operation) :=
  map (λ mh, (convert_path_format full_path, mh.1,
              handler_operation g full_path tags (infer_middleware_responses (middlewares r)) mh))
    (handler_order (handlers r)).

Fixpoint tree_ops (g : Registry) (r : Route) (current : string) (parent_tags : list string)
  : list (string * Method * Operation) :=
  let full_path := join_paths current (path r) in
  let tags := next_tags parent_tags (path r) in
  (node_ops g r full_path tags ++
   (fix children (l : list Route) :=
      match l with
      | [] => []
      | child :: l => tree_ops g child full_path tags ++ children l
      end) (kids r))%list.

(** The methods a path item has a place for. *)
Definition documented (m : Method) : bool :=
  bool_decide (m ∈ [GET; POST; PUT; DELETE; PATCH; HEAD; OPTIONS; TRACE]).

Definition item_op (m : Method) (i : PathItem) : option Operation :=
  if bool_decide (m = GET) then i_get i
  else if bool_decide (m = POST) then i_post i
  else if bool_decide (m = PUT) then i_put i
  else if bool_decide (m = DELETE) then i_delete i
  else if bool_decide (m = PATCH) then i_patch i
  else if bool_decide (m = HEAD) then i_head i
  else if bool_decide (m = OPTIONS) then i_options i
  else if bool_decide (m = TRACE) then i_trace i
  else None.

(** What the collected paths say of a method of a path. *)
Definition op_at (paths : list (string * PathItem)) (p : string) (m : Method)
  : option Operation :=
  match find (λ kv, bool_decide (kv.1 = p)) paths with
  | Some kv => item_op m kv.2
  | None => None
  end.

(** The first operation of a list for a method of a path. *)
Definition first_op (l : list (string * Method * Operation)) (p : string) (m : Method)
  : option Operation :=
  match find (λ e, bool_decide (e.1.1 = p) && bool_decide (e.1.2 = m)) l with
  | Some e => if documented m then Some e.2 else None
  | None => None
  end.

Definition add_op (paths : list (string * PathItem)) (e : string * Method * Operation) :=
  add_item e.1.1 (create_or_update_path_item e.1.2 e.2) paths.

(** ** Lemmas *)

Lemma collect_handlers_ops g r full tags paths :
  collect_handlers g r full tags paths = foldl add_op paths (node_ops g r full tags).
Proof.
  unfold collect_handlers, node_ops. revert paths.
  induction (handler_order (handlers r)) as [|mh l IH]; intros paths; [done|]. apply IH.
Qed.

Lemma collect_ops g : ∀ r current tags paths,
  collect_paths_recursive g r current tags paths = foldl add_op paths (tree_ops g r current tags).
Proof.
  fix IH 1. intros [p h ks mws sm cp st ss] current tags paths. cbn [collect_paths_recursive tree_ops path kids].
  rewrite foldl_app, collect_handlers_ops.
  generalize (foldl add_op paths (node_ops g (mkRoute p h ks mws sm cp st ss)
    (join_paths current p) (next_tags tags p))).
  induction ks as [|k ks IHk]; intros acc; [done|].
  rewrite foldl_app, (IH k). apply IHk.
Qed.

Lemma item_op_create m m' op :
  item_op m' (create_or_update_path_item m op) =
  if bool_decide (m = m') && documented m' then Some op else None.
Proof.
  unfold item_op, create_or_update_path_item, documented.
  repeat (case_bool_decide; subst; cbn; try done); exfalso; set_solver.
Qed.

Lemma item_op_merge m a b : item_op m (merge_path_items a b) = opt_or (item_op m a) (item_op m b).
Proof. unfold item_op. repeat (case_bool_decide; [done|]). done. Qed.

Lemma op_at_add_item p i paths q m :
  op_at (add_item p i paths) q m =
  opt_or (op_at paths q m) (if bool_decide (p = q) then item_op m i else None).
Proof.
  unfold op_at. induction paths as [|[k j] paths IH]; cbn [add_item find fst].
  - by case_bool_decide.
  - destruct (decide (k = p)) as [->|Hk].
    + rewrite (bool_decide_eq_true_2 (p = p)) by done. cbn [find fst].
      destruct (decide (p = q)) as [->|Hq].
      * rewrite (bool_decide_eq_true_2 (q = q)) by done. cbn [snd]. apply item_op_merge.
      * rewrite (bool_decide_eq_false_2 (p = q)) by done.
        destruct (find _ paths) as [kv|]; [by destruct (item_op m kv.2)|done].
    + rewrite (bool_decide_eq_false_2 (k = p)) by done. cbn [find fst].
      destruct (decide (k = q)) as [->|Hq].
      * rewrite (bool_decide_eq_true_2 (q = q)) by done. cbn [snd].
        rewrite bool_decide_eq_false_2 by done. by destruct (item_op m j).
      * by rewrite (bool_decide_eq_false_2 (k = q)) by done.
Qed.

Lemma keys_add_item p i paths q : q ∈ map fst (add_item p i paths) ↔ q = p ∨ q ∈ map fst paths.
Proof.
  induction paths as [|[k j] paths IH]; cbn; [set_solver|]. case_bool_decide; cbn; set_solver.
Qed.

Lemma add_item_nodup p i paths : NoDup (map fst paths) → NoDup (map fst (add_item p i paths)).
Proof.
  induction paths as [|[k j] paths IH]; cbn; [intros _; apply NoDup_singleton|].
  intros [Hk Hn]%NoDup_cons. case_bool_decide as E; cbn; apply NoDup_cons; [done|].
  split; [|by apply IH]. rewrite keys_add_item. naive_solver.
Qed.

Lemma foldl_add_op paths l :
  (NoDup (map fst paths) → NoDup (map fst (foldl add_op paths l))) ∧
  ∀ q m, op_at (foldl add_op paths l) q m = opt_or (op_at paths q m) (first_op l q m).
Proof.
  revert paths. induction l as [|[[p m'] op] l IH]; intros paths; cbn [foldl].
  { split; [done|]. intros q m. by destruct (op_at paths q m). }
  destruct (IH (add_op paths (p, m', op))) as [IH1 IH2]. split.
  - intros Hn. apply IH1. by apply add_item_nodup.
  - intros q m. rewrite IH2. unfold add_op; cbn [fst snd].
    rewrite op_at_add_item, item_op_create. unfold first_op. cbn [find fst snd].
    destruct (op_at paths q m); [done|]. cbn [opt_or].
    do 2 case_bool_decide; subst; cbn; try done.
    destruct (documented m) eqn:Ed; [done|]. by case_match.
Qed.

Lemma keys_foldl_add_op paths l q :
  q ∈ map fst (foldl add_op paths l) ↔ q ∈ map fst paths ∨ q ∈ map (λ e, e.1.1) l.
Proof.
  revert paths. induction l as [|[[p m] op] l IH]; intros paths; cbn [foldl map]; [set_solver|].
  rewrite IH. unfold add_op. rewrite keys_add_item. cbn. set_solver.
Qed.

Lemma tree_ops_paths g : ∀ r current tags q,
  q ∈ map (λ e, e.1.1) (tree_ops g r current tags) → ∃ full, q = convert_path_format full.
Proof.
  fix IH 1. intros [p h ks mws sm cp st ss] current tags q. cbn [tree_ops path kids].
  rewrite map_app, elem_of_app. intros [H|H].
  - unfold node_ops in H. rewrite map_map in H. apply list_elem_of_In, in_map_iff in H.
    destruct H as (mh & <- & _). by eexists.
  - revert H. induction ks as [|k ks IHk]; [by intros ?%elem_of_nil|].
    rewrite map_app, elem_of_app. intros [H|H]; [by apply IH in H|by apply IHk].
Qed.
End reference.

Section properties.
Context {P : Platform} {O : OpenApiEnv P}.

(** C23: The document of a route tree: every OpenAPI path is listed once and
    starts with a slash; the listed paths are exactly those of the tree's
    handlers; under a path each method has the operation of the first handler
    the walk meets for it (patterns that differ only in their types share a
    path, later handlers of the same method are left out), so every handler
    of a documented method finds an operation under its path and method. *)
Theorem collect_openapi_spec g r base :
  let paths := collect_openapi_paths g r base in
  let ops := tree_ops g r base [] in
  NoDup (map fst paths) ∧
  Forall (λ q, starts_with_char "/" q = true) (map fst paths) ∧
  (∀ q, q ∈ map fst paths ↔ q ∈ map (λ e, e.1.1) ops) ∧
  (∀ q m, op_at paths q m = first_op ops q m) ∧
  (∀ q m op, (q, m, op) ∈ ops → documented m = true → is_Some (op_at paths q m)).
Proof.
  intros paths ops. unfold paths, collect_openapi_paths. rewrite collect_ops. fold ops.
  destruct (foldl_add_op [] ops) as [Hn Hop].
  assert (∀ q, q ∈ map fst (foldl add_op [] ops) ↔ q ∈ map (λ e, e.1.1) ops) as Hk.
  { intros q. rewrite keys_foldl_add_op. cbn. set_solver. }
  split_and!; [apply Hn; constructor| |done|done|].
  - apply Forall_forall. intros q Hq. rewrite Hk in Hq.
    apply tree_ops_paths in Hq as [full ->]. apply convert_path_slash.
  - intros q m op Hin Hm. rewrite Hop. cbn. unfold first_op.
    destruct (find _ ops) as [e|] eqn:E; [by rewrite Hm|].
    apply list_elem_of_In in Hin. pose proof (find_none _ _ E _ Hin) as H. cbn in H.
    by rewrite !bool_decide_eq_true_2 in H.
Qed.

(** The name the code inspects is that of the trait object, so nothing is ever
    inferred. *)
Lemma infer_middleware_none mws :
  dyn_middleware_name = "dyn silent::middleware::middleware_trait::MiddleWareHandler" →
  infer_middleware_responses mws = [].
Proof.
  intros H. unfold infer_middleware_responses. rewrite H.
  assert (concat (map (λ _ : MiddleWare, responses_of_name
    "dyn silent::middleware::middleware_trait::MiddleWareHandler") mws) = []) as ->; [|done].
  induction mws as [|mw mws IH]; [done|]. cbn [map concat]. by rewrite IH.
Qed.

(** A second [add_path] drops the first one. *)
Lemma add_path_replaces d p i q j : d_paths (add_path (add_path d p i) q j) = [(q, j)].
Proof. done. Qed.

(** Schemas once present are never overwritten. *)
Lemma or_insert_keeps l c n s :
  c_schemas c !! n = Some s → c_schemas (foldl or_insert_schema c l) !! n = Some s.
Proof.
  revert c. induction l as [|[k v] l IH]; intros c H; [done|]. apply IH.
  unfold or_insert_schema. cbn. destruct (c_schemas c !! k) eqn:E; [done|]. cbn.
  rewrite lookup_insert_ne; [done|]. intros ->. by rewrite E in H.
Qed.
End properties.
