(* ===== verification/Endpoint.v ===== *)
(** * The endpoint macro
    (silent-openapi-macros/src/lib.rs)

    [#[endpoint(...)]] turns a function into a constant that registers its
    documentation when it becomes a handler.  The macro is a function from the
    syntax syn hands it to an [Endpoint], which records what the generated
    code does; [endpoint_into_handler] is that code.  syn's syntax trees are
    data; its parser of attribute arguments and utoipa's schemas are
    parameters. *)

From S2P Require Import Prelude Str Platform State Error PathParam Body Form Message Next Route OpenApiPath OpenApi.

(** ** What syn hands over *)

(** The identifiers of a path. *)
Abbreviation SynPath := (list string).
Definition is_ident (p : SynPath) (name : string) : bool := bool_decide (p = [name]).

Inductive SynExpr := ExprStr (s : string) | ExprOther.

(** [syn::Type], with the arguments of path segments. *)
Inductive Ty :=
| TyPath (segments : list (string * PathArguments))
| TyRef (elem : Ty)
| TyOther (text : string)
with PathArguments :=
| NoArguments
| AngleBracketed (args : list GenericArgument)
| Parenthesized
with GenericArgument :=
| GType (t : Ty)
| GOther.

Inductive FnArg := Receiver | Typed (t : Ty).

(** syn's parser: the items of a parenthesised list; of an item the key, the
    value as [u16] and as string literal, if it is one, and whether the item
    ends after the value was read or left. *)
Class SynCrate := {
  Tokens : Type;
  Nested : Type;
  nested_items : Tokens → list Nested;
  nested_path : Nested → SynPath;
  value_u16 : Nested → option Z;
  value_str : Nested → option string;
  ends : Nested → bool → bool;
}.

(** [syn::Meta]: [deprecated], [summary = ..], [response(..)]. *)
Inductive SynMeta `{SynCrate} :=
| MetaPath (p : SynPath)
| MetaNameValue (p : SynPath) (v : SynExpr)
| MetaList (p : SynPath) (t : Tokens).

Definition meta_path `{SynCrate} (m : SynMeta) : SynPath :=
  match m with MetaPath p | MetaNameValue p _ | MetaList p _ => p end.

(** A callback of [parse_nested_meta]: [None] for an error, else whether it
    read the value. *)
Abbreviation Callback S := (Nested → S → option bool * S).

Class NestedParser `{SynCrate} := {
  parse_nested_meta : ∀ {S}, SynMeta → Callback S → S → result () () * S;
}.

Fixpoint run_nested `{SynCrate} {S} (f : Callback S) (l : list Nested) (s : S)
  : result () () * S :=
  match l with
  | [] => (Ok (), s)
  | n :: l =>
      match f n s with
      | (None, s) => (Err (), s)
      | (Some read, s) => if ends n read then run_nested f l s else (Err (), s)
      end
  end.

(** What syn documents: only arguments in parentheses are parsed, item by item
    up to the first error. *)
Class NestedParserLaws `{NestedParser} := {
  nested_list : ∀ S p t (f : Callback S) s,
    parse_nested_meta (MetaList p t) f s = run_nested f (nested_items t) s;
  nested_needs_list : ∀ S m (f : Callback S) s,
    (∀ p t, m ≠ MetaList p t) → parse_nested_meta m f s = (Err (), s);
}.

Section endpoint.
Context `{N : NestedParser}.

Record ItemFn := mkItemFn {
  fn_name : string;
  fn_attrs : list SynMeta;
  fn_inputs : list FnArg;
  fn_output : option Ty;
}.

(** ** The arguments of the attribute *)

Record MacroArgs := mkMacroArgs {
  summary_arg : option string;
  description_arg : option string;
  deprecated_flag : bool;
  tags_arg : list string;
  extra_responses : list (Z * string);
}.
Definition MacroArgs_empty : MacroArgs := mkMacroArgs None None false [] [].

Definition nonempty (s : string) : bool := negb (bool_decide (s = "")).

(** [s.value().split(',')], trimmed, without the empty ones. *)
Definition split_tags (s : string) : list string :=
  List.filter nonempty (map trim (split_char "," s)).

Definition response_logic : Callback (option Z * option string) := λ n st,
  if is_ident (nested_path n) "status" then
    match value_u16 n with
    | Some v => (Some true, (Some v, snd st))
    | None => (None, st)
    end
  else if is_ident (nested_path n) "description" then
    match value_str n with
    | Some v => (Some true, (fst st, Some v))
    | None => (None, st)
    end
  else (Some false, st).

(** The error of [parse_nested_meta] is dropped, what was read stays. *)
Definition response_args (m : SynMeta) : option (Z * string) :=
  match snd (parse_nested_meta m response_logic (None, None)) with
  | (Some st, Some d) => Some (st, d)
  | _ => None
  end.

Definition meta_step (a : MacroArgs) (m : SynMeta) : MacroArgs :=
  match m with
  | MetaPath p =>
      if is_ident p "deprecated"
      then mkMacroArgs (summary_arg a) (description_arg a) true (tags_arg a) (extra_responses a)
      else a
  | MetaNameValue p (ExprStr s) =>
      if is_ident p "summary" then
        mkMacroArgs (Some s) (description_arg a) (deprecated_flag a) (tags_arg a) (extra_responses a)
      else if is_ident p "description" then
        mkMacroArgs (summary_arg a) (Some s) (deprecated_flag a) (tags_arg a) (extra_responses a)
      else if is_ident p "tags" then
        mkMacroArgs (summary_arg a) (description_arg a) (deprecated_flag a)
          (tags_arg a ++ split_tags s)%list (extra_responses a)
      else a
  | MetaNameValue _ ExprOther => a
  | MetaList p _ =>
      if is_ident p "response" then
        match response_args m with
        | Some r => mkMacroArgs (summary_arg a) (description_arg a) (deprecated_flag a)
                      (tags_arg a) (extra_responses a ++ [r])%list
        | None => a
        end
      else a
  end.

Definition macro_args (args : list SynMeta) : MacroArgs := foldl meta_step MacroArgs_empty args.

(** ** Doc comments *)

Definition doc_logic : Callback (list string) := λ n ls,
  match value_str n with
  | Some v => (Some true, (ls ++ [trim v])%list)
  | None => (None, ls)
  end.

Definition doc_lines (attrs : list SynMeta) : list string :=
  foldl (λ ls a, if is_ident (meta_path a) "doc"
                 then snd (parse_nested_meta a doc_logic ls) else ls) [] attrs.

Fixpoint join_lines (l : list string) : string :=
  match l with
  | [] => ""
  | [x] => x
  | x :: l => x +:+ String "010" (join_lines l)
  end.

(** The default summary and description. *)
Definition doc_defaults (lines : list string) : option string * option string :=
  match List.filter nonempty lines with
  | [] => (None, None)
  | first :: rest =>
      let rest := join_lines rest in
      (Some first, if bool_decide (rest = "") then None else Some rest)
  end.

(** ** Types *)

Definition last_ident (t : Ty) : option string :=
  match t with TyPath segs => fst <$> last segs | _ => None end.

(** The first type argument of [Result<..>] or [SilentResult<..>]. *)
Definition ok_type (output : option Ty) : option Ty :=
  match output with
  | Some (TyPath segs) =>
      match last segs with
      | Some (id, AngleBracketed (GType t :: _)) =>
          if bool_decide (id = "Result") || bool_decide (id = "SilentResult") then Some t else None
      | _ => None
      end
  | _ => None
  end.

Definition ret_meta (output : option Ty) : option ResponseMeta :=
  match ok_type output with
  | Some (TyPath _ as t) =>
      match last_ident t with
      | Some id => if bool_decide (id = "Response") then None
                   else if bool_decide (id = "String") then Some TextPlain
                   else Some (RespJson id)
      | None => None
      end
  | Some (TyRef t) =>
      match last_ident t with
      | Some id => if bool_decide (id = "str") then Some TextPlain else Some (RespJson id)
      | None => None
      end
  | _ => None
  end.

(** The type whose schema is registered for the answer. *)
Definition ret_schema (output : option Ty) : option Ty :=
  match ok_type output with
  | Some (TyPath _ as t) =>
      match last_ident t with
      | Some id => if bool_decide (id = "Response") || bool_decide (id = "String") then None
                   else Some t
      | None => None
      end
  | Some (TyRef t) =>
      match last_ident t with
      | Some id => if bool_decide (id = "str") then None else Some t
      | None => None
      end
  | _ => None
  end.

(** What an extractor says of the request, and whose schema it registers. *)
Definition gen_request_meta_register (ty : Ty) : option (RequestMeta * Ty) :=
  match ty with
  | TyPath segs =>
      match last segs with
      | Some (ident, AngleBracketed (GType inner_ty :: _)) =>
          let inner_name := default "" (last_ident inner_ty) in
          if bool_decide (inner_name = "") then None
          else if bool_decide (ident = "Json") then Some (JsonBody inner_name, inner_ty)
          else if bool_decide (ident = "Form") then Some (FormBody inner_name, inner_ty)
          else if bool_decide (ident = "Query") then Some (QueryParams inner_name, inner_ty)
          else None
      | _ => None
      end
  | _ => None
  end.

Definition is_request (ty : Ty) : bool := bool_decide (last_ident ty = Some "Request").

(** Which [IntoRouteHandler] the macro implements, by the parameters. *)
Inductive EndpointKind :=
| TakesRequest
| TakesArgs (ty : Ty)
| TakesRequestAnd (ty : Ty)
| NoHandler.

Definition endpoint_kind (inputs : list FnArg) : EndpointKind :=
  match inputs with
  | [Typed ty] => if is_request ty then TakesRequest else TakesArgs ty
  | [Typed ty1; Typed ty2] => if is_request ty1 then TakesRequestAnd ty2 else NoHandler
  | _ => NoHandler
  end.

Definition kind_args (k : EndpointKind) : option Ty :=
  match k with TakesArgs ty | TakesRequestAnd ty => Some ty | _ => None end.

(** ** The generated code *)

Record Endpoint := mkEndpoint {
  ep_const : string;
  ep_type : string;
  ep_kind : EndpointKind;
  ep_summary : option string;
  ep_description : option string;
  ep_deprecated : bool;
  ep_tags : list string;
  ep_extras : list (Z * string);
  ep_ret_meta : option ResponseMeta;
  ep_ret_schema : option Ty;
  ep_request : option (RequestMeta * Ty);
}.

(** [endpoint_impl]; [None] for tokens that do not parse.  [upper_camel] is
    convert_case's. *)
Definition endpoint_impl (upper_camel : string → string) (attr : option (list SynMeta))
    (item : option ItemFn) : outcome Endpoint :=
  args ← unwrap attr;
  let a := macro_args args in
  input ← unwrap item;
  let '(def_summary, def_description) := doc_defaults (doc_lines (fn_attrs input)) in
  let kind := endpoint_kind (fn_inputs input) in
  mret (mkEndpoint (fn_name input) (upper_camel (fn_name input) +:+ "Endpoint") kind
          (opt_or (summary_arg a) def_summary) (opt_or (description_arg a) def_description)
          (deprecated_flag a) (tags_arg a) (extra_responses a)
          (ret_meta (fn_output input)) (ret_schema (fn_output input))
          (kind_args kind ≫= gen_request_meta_register)).
End endpoint.

(** ** [into_handler] *)

Section generated.
Context {P : Platform} {O : OpenApiEnv P}.
(** [ToSchema] of a type: the schemas it brings along, its name and its own. *)
Context (schemas : Ty → list (string * Schema)) (schema_name : Ty → string) (schema : Ty → Schema).

(** The function the macro renamed, with the conversions its types select. *)
Inductive Implementation :=
| ImplRequest {T : Type} (into : T → Response) (f : Request → M World (SilentResult T))
| ImplArgs {Args R T : Type} (extract : Request → M World (result Args R * Request))
    (reject : R → Response) (into : T → Response) (f : Args → M World (SilentResult T))
| ImplRequestArgs {Args R T : Type} (extract : Request → M World (result Args R * Request))
    (reject : R → Response) (into : T → Response) (f : Request → Args → M World (SilentResult T)).

(** [None] where the generated code has no implementation or its types do not
    fit. *)
Definition endpoint_handler (k : EndpointKind) (i : Implementation) : option Handler :=
  match k, i with
  | TakesRequest, ImplRequest into f => Some (into_handler_result into f)
  | TakesArgs _, ImplArgs extract reject into f => Some (into_handler_extract extract reject into f)
  | TakesRequestAnd _, ImplRequestArgs extract reject into f =>
      Some (into_handler_extract_with_request extract reject into f)
  | _, _ => None
  end.

Definition register_type (ty : Ty) (g : Registry) : Registry :=
  register_schema_for (schemas ty) (schema_name ty) (schema ty) g.

(** What [into_handler] registers under the handler's address. *)
Definition endpoint_register (e : Endpoint) (ptr : Z) (g : Registry) : Registry :=
  let g := register_doc_by_ptr_ext ptr (ep_summary e) (ep_description e) (ep_deprecated e)
             (ep_tags e) g in
  let g := match ep_ret_schema e with Some ty => register_type ty g | None => g end in
  let g := match ep_ret_meta e with Some m => register_response_by_ptr ptr m g | None => g end in
  let g := foldl (λ g r, register_extra_response_by_ptr ptr (fst r) (snd r) g) g (ep_extras e) in
  match ep_request e with
  | Some (m, ty) => register_type ty (register_request_by_ptr ptr m g)
  | None => g
  end.

Definition endpoint_into_handler (e : Endpoint) (i : Implementation) (g : Registry)
  : option (Handler * Registry) :=
  h ← endpoint_handler (ep_kind e) i;
  Some (h, endpoint_register e (handler_ptr h) g).
End generated.

(** ** Reference: what the attribute says *)

Section reference.
Context `{L : NestedParserLaws}.

(** The string literals given for a key, in order. *)
Definition str_args (name : string) (args : list SynMeta) : list string :=
  omap (λ m, match m with
             | MetaNameValue p (ExprStr s) => if is_ident p name then Some s else None
             | _ => None
             end) args.

Definition response_of (m : SynMeta) : option (Z * string) :=
  match m with
  | MetaList p _ => if is_ident p "response" then response_args m else None
  | _ => None
  end.

Definition is_deprecated (m : SynMeta) : bool :=
  match m with MetaPath p => is_ident p "deprecated" | _ => false end.

(** The last summary and description count; tags and responses add up. *)
Lemma macro_args_spec args :
  macro_args args =
  mkMacroArgs (last (str_args "summary" args)) (last (str_args "description" args))
    (existsb is_deprecated args) (concat (map split_tags (str_args "tags" args)))
    (omap response_of args).
Proof.
  unfold macro_args, str_args. induction args as [|m args IH] using rev_ind; [done|].
  rewrite foldl_snoc, IH, !omap_app, existsb_app, map_app, concat_app.
  destruct m as [p|p [s|]|p t]; cbn [omap list_omap meta_step is_deprecated existsb response_of];
    unfold is_ident; cbn; rewrite ?app_nil_r, ?orb_false_r; try done.
  - destruct (bool_decide (p = ["deprecated"])); by rewrite ?orb_true_r, ?orb_false_r.
  - repeat case_bool_decide; subst; try done; cbn; by rewrite ?app_nil_r, ?last_snoc.
  - case_bool_decide; [|by rewrite app_nil_r].
    destruct (response_args _); by rewrite ?app_nil_r.
Qed.

(** Attributes without a parenthesised [doc] give no default: a doc comment
    is [doc = ".."]. *)
Lemma doc_lines_comments attrs :
  (∀ t, MetaList ["doc"] t ∉ attrs) → doc_lines attrs = [].
Proof.
  unfold doc_lines. induction attrs as [|a attrs IH] using rev_ind; [done|]. intros Hd.
  rewrite foldl_snoc, IH by set_solver. unfold is_ident. case_bool_decide as E; [|done].
  rewrite nested_needs_list; [done|]. intros p t ->. cbn in E. subst. apply (Hd t). set_solver.
Qed.
End reference.

(** ** Lemmas: registering *)

Section registering.
Context {P : Platform} {O : OpenApiEnv P}.
Context (schemas : Ty → list (string * Schema)) (schema_name : Ty → string) (schema : Ty → Schema).

Lemma register_extras ptr l g :
  let g' := foldl (λ g r, register_extra_response_by_ptr ptr (fst r) (snd r) g) g l in
  docs g' = docs g ∧ responses g' = responses g ∧ requests g' = requests g ∧
  schema_fns g' = schema_fns g ∧
  default [] (extras g' !! ptr) =
    (default [] (extras g !! ptr) ++ map (λ r, mkExtra (fst r) (snd r)) l)%list ∧
  ∀ q, q ≠ ptr → extras g' !! q = extras g !! q.
Proof.
  revert g. induction l as [|r l IH]; intros g; cbn [foldl map].
  { by rewrite app_nil_r. }
  destruct (IH (register_extra_response_by_ptr ptr (fst r) (snd r) g)) as (-> & -> & -> & -> & -> & Hq).
  unfold register_extra_response_by_ptr. cbn. rewrite lookup_insert_eq. cbn.
  rewrite <- app_assoc. split_and!; try done. intros q Hne. rewrite Hq by done. cbn.
  by rewrite lookup_insert_ne.
Qed.

(** What the registries say of the handler, and that they say the same of all
    others. *)
Lemma endpoint_registered e ptr g :
  extras g !! ptr = None → requests g !! ptr = None → responses g !! ptr = None →
  let g' := endpoint_register schemas schema_name schema e ptr g in
  docs g' !! ptr = Some (mkDocMeta (ep_summary e) (ep_description e) (ep_deprecated e) (ep_tags e)) ∧
  responses g' !! ptr = ep_ret_meta e ∧
  default [] (extras g' !! ptr) = map (λ r, mkExtra (fst r) (snd r)) (ep_extras e) ∧
  default [] (requests g' !! ptr) = match ep_request e with Some (m, _) => [m] | None => [] end ∧
  (∀ ty, ep_ret_schema e = Some ty ∨ (∃ m, ep_request e = Some (m, ty)) →
     (schemas ty ++ [(schema_name ty, schema ty)])%list ∈ schema_fns g') ∧
  ∀ q, q ≠ ptr → docs g' !! q = docs g !! q ∧ responses g' !! q = responses g !! q ∧
    extras g' !! q = extras g !! q ∧ requests g' !! q = requests g !! q.
Proof.
  intros He Hq Hr. unfold endpoint_register. cbv zeta.
  set (g1 := register_doc_by_ptr_ext _ _ _ _ _ g).
  set (g2 := match ep_ret_schema e with Some ty => _ | None => _ end).
  set (g3 := match ep_ret_meta e with Some m => _ | None => _ end).
  destruct (register_extras ptr (ep_extras e) g3) as (Hd & Hre & Hrq & Hs & Hx & Hxq).
  set (g4 := foldl _ g3 _) in *.
  assert (docs g2 = docs g1 ∧ responses g2 = responses g1 ∧ extras g2 = extras g1 ∧
          requests g2 = requests g1) as (E1 & E2 & E3 & E4)
    by (unfold g2; by destruct (ep_ret_schema e)).
  assert (docs g3 = docs g2 ∧ extras g3 = extras g2 ∧ requests g3 = requests g2 ∧
          schema_fns g3 = schema_fns g2) as (F1 & F3 & F4 & F5)
    by (unfold g3; by destruct (ep_ret_meta e)).
  assert (docs g4 !! ptr =
    Some (mkDocMeta (ep_summary e) (ep_description e) (ep_deprecated e) (ep_tags e))) as G1.
  { rewrite Hd, F1, E1. apply lookup_insert_eq. }
  assert (responses g4 !! ptr = ep_ret_meta e) as G2.
  { rewrite Hre. unfold g3. destruct (ep_ret_meta e); [apply lookup_insert_eq|by rewrite E2]. }
  assert (default [] (extras g4 !! ptr) = map (λ r, mkExtra (fst r) (snd r)) (ep_extras e)) as G3.
  { rewrite Hx, F3, E3. unfold g1. cbn. by rewrite He. }
  assert (requests g4 !! ptr = None) as G4 by (rewrite Hrq, F4, E4; exact Hq).
  assert (∀ ty, ep_ret_schema e = Some ty →
    (schemas ty ++ [(schema_name ty, schema ty)])%list ∈ schema_fns g4) as G5.
  { intros ty Ht. rewrite Hs, F5. unfold g2. rewrite Ht. cbn. set_solver. }
  assert (∀ q, q ≠ ptr → docs g4 !! q = docs g !! q ∧ responses g4 !! q = responses g !! q ∧
    extras g4 !! q = extras g !! q ∧ requests g4 !! q = requests g !! q) as G6.
  { intros q Hne. rewrite Hd, Hre, Hrq, (Hxq q Hne), F1, F3, F4, E1, E3, E4.
    split_and!; try done; [by apply lookup_insert_ne|].
    unfold g3. destruct (ep_ret_meta e); cbn; rewrite ?lookup_insert_ne by done; by rewrite E2. }
  clearbody g4. destruct (ep_request e) as [[m ty]|]; cbn.
  - rewrite G4, lookup_insert_eq. split_and!; try done.
    + intros ty' [Ht|[m' [= -> ->]]]; [specialize (G5 _ Ht)|]; set_solver.
    + intros q Hne. rewrite lookup_insert_ne by done. by apply G6.
  - rewrite G4. split_and!; try done. intros ty' [Ht|[m' [=]]]. by apply G5.
Qed.

Lemma or_insert_has l c n s :
  (n, s) ∈ l → is_Some (c_schemas (foldl or_insert_schema c l) !! n).
Proof.
  revert c. induction l as [|[k v] l IH]; intros c; [by intros ?%elem_of_nil|].
  intros [[= <- <-]|H]%elem_of_cons; [|by apply IH]. cbn [foldl].
  destruct (c_schemas (or_insert_schema c (n, s)) !! n) as [x|] eqn:E.
  - exists x. by apply or_insert_keeps.
  - exfalso. revert E. unfold or_insert_schema. cbn. destruct (c_schemas c !! n) eqn:E; [congruence|].
    cbn. by rewrite lookup_insert_eq.
Qed.

Lemma or_inserts_keep fs c n :
  is_Some (c_schemas c !! n) → is_Some (c_schemas (foldl (λ c f, foldl or_insert_schema c f) c fs) !! n).
Proof.
  revert c. induction fs as [|f fs IH]; intros c [s H]; [by eexists|]. apply IH. exists s.
  by apply or_insert_keeps.
Qed.

(** A registered schema is in every document made from the registries. *)
Lemma registered_in_document g d f n s :
  f ∈ schema_fns g → (n, s) ∈ f →
  ∃ c, d_components (apply_registered_schemas g d) = Some c ∧ is_Some (c_schemas c !! n).
Proof.
  intros Hf Hn. eexists. split; [reflexivity|].
  generalize (default Components_new (d_components d)). revert Hf.
  induction (schema_fns g) as [|x fs IH]; [by intros ?%elem_of_nil|].
  intros [->|H]%elem_of_cons c; [|by apply IH]. cbn [foldl].
  apply or_inserts_keep, (or_insert_has _ _ _ _ Hn).
Qed.

Lemma ret_type_named o n :
  ret_meta o = Some (RespJson n) → ∃ ty, ret_schema o = Some ty ∧ last_ident ty = Some n.
Proof.
  unfold ret_meta, ret_schema. destruct (ok_type o) as [[segs|t|s]|]; try done.
  - destruct (last_ident (TyPath segs)) as [id|] eqn:E; [|done].
    repeat case_bool_decide; try done. intros [= <-]. by eexists.
  - destruct (last_ident t) as [id|] eqn:E; [|done]. case_bool_decide; try done.
    intros [= <-]. by eexists.
Qed.

Definition meta_type (m : RequestMeta) : string :=
  match m with JsonBody n | FormBody n | QueryParams n => n end.

Lemma request_type_named ty m inner :
  gen_request_meta_register ty = Some (m, inner) → last_ident inner = Some (meta_type m).
Proof.
  unfold gen_request_meta_register. destruct ty as [segs| |]; try done.
  destruct (last segs) as [[id [|[|[t|] rest]|]]|]; try done.
  destruct (last_ident t) as [n|] eqn:E; cbn; [|done].
  repeat case_bool_decide; try done; by intros [= <- <-].
Qed.

Lemma merge_responses_nil l : merge_responses l [] = l.
Proof. done. Qed.
End registering.

Section properties.
Context {P : Platform} {O : OpenApiEnv P} `{L : NestedParserLaws}.
Context (schemas : Ty → list (string * Schema)) (schema_name : Ty → string) (schema : Ty → Schema).

(** C24: Using an [#[endpoint]] constant as a handler puts what its attribute
    says into the document, and touches no other handler's entry: the
    operation has the last summary and description given, else those of the
    default derived from [doc] attributes, else texts made from method and
    path; all tags, or the group's; deprecation; every complete [response],
    the answer's content and the request the extractor stands for.  Each JSON
    type the operation refers to has its schema in every document.  And,
    against what the documentation says, doc comments have no effect: they are
    [doc = ".."] attributes, which the macro's parser of parenthesised
    arguments rejects. *)
Theorem endpoint_documented upper_camel args item e impl g h g' :
  endpoint_impl upper_camel (Some args) (Some item) = Ret e →
  endpoint_into_handler schemas schema_name schema e impl g = Some (h, g') →
  extras g !! handler_ptr h = None → requests g !! handler_ptr h = None →
  responses g !! handler_ptr h = None →
  let defaults := doc_defaults (doc_lines (fn_attrs item)) in
  let tags := concat (map split_tags (str_args "tags" args)) in
  let request := kind_args (endpoint_kind (fn_inputs item)) ≫= gen_request_meta_register in
  (∀ m path group,
    handler_operation g' path group [] (m, h) =
    ([OpSummary (default (m +:+ " " +:+ path) (opt_or (last (str_args "summary" args)) (fst defaults)));
      OpDescription (default ("Handler for " +:+ m +:+ " " +:+ path)
                       (opt_or (last (str_args "description" args)) (snd defaults)));
      OpId (operation_id m path);
      OpResponse "200" "Successful response" (response_content (ret_meta (fn_output item)))] ++
     (if existsb is_deprecated args then [OpDeprecated] else []) ++
     match tags, group, default_tag path with
     | _ :: _, _, _ => [OpTags tags]
     | [], _ :: _, _ => [OpTags group]
     | [], [], Some tag => [OpTags [tag]]
     | [], [], None => []
     end ++
     map (λ r, OpResponse (show_Z (fst r)) (snd r) None) (omap response_of args) ++
     match request with Some (r, _) => [request_call r] | None => [] end ++
     map (λ nt, OpParameter nt.1 InPath true (inl (rust_type_to_schema nt.2)))
       (path_parameters path))%list) ∧
  ((∀ t, MetaList ["doc"] t ∉ fn_attrs item) → defaults = (None, None)) ∧
  (∀ n, ret_meta (fn_output item) = Some (RespJson n) ∨ meta_type ∘ fst <$> request = Some n →
     ∃ ty, last_ident ty = Some n ∧
       (schema_name ty = n → ∀ d, ∃ c, d_components (apply_registered_schemas g' d) = Some c ∧
          is_Some (c_schemas c !! n))) ∧
  ∀ ptr, ptr ≠ handler_ptr h →
    docs g' !! ptr = docs g !! ptr ∧ responses g' !! ptr = responses g !! ptr ∧
    extras g' !! ptr = extras g !! ptr ∧ requests g' !! ptr = requests g !! ptr.
Proof.
  intros He Hh Hx Hq Hr defaults tags request.
  unfold endpoint_impl in He. cbn [unwrap mbind outcome_bind] in He. fold defaults in He.
  rewrite macro_args_spec in He. fold tags in He. fold request in He.
  destruct defaults as [ds dd] eqn:Ed. injection He as <-.
  unfold endpoint_into_handler in Hh. cbn [ep_kind] in Hh.
  destruct (endpoint_handler _ impl) as [h'|]; [|done]. cbn [mbind option_bind] in Hh.
  injection Hh as -> <-. set (e := mkEndpoint _ _ _ _ _ _ _ _ _ _ _).
  destruct (endpoint_registered schemas schema_name schema e (handler_ptr h) g Hx Hq Hr)
    as (Rd & Rr & Rx & Rq & Rs & Ro).
  set (g' := endpoint_register _ _ _ _ _ _) in *. split_and!; [| | |exact Ro].
  - intros m path group. unfold handler_operation. cbv zeta.
    unfold lookup_doc_by_handler_ptr, lookup_response_by_handler_ptr,
      lookup_request_by_handler_ptr, lookup_extra_responses_by_handler_ptr. cbn [fst snd].
    rewrite Rd, Rr, Rx, merge_responses_nil. unfold create_operation_with_doc. rewrite Rq.
    cbn [e ep_summary ep_description ep_deprecated ep_tags ep_extras ep_ret_meta ep_request
      m_summary m_description m_deprecated m_tags fst snd].
    assert (∀ l : list ExtraResponse, default [] (match l with [] => None | _ => Some l end) = l) as Hl
      by by intros [].
    rewrite Hl, map_map. by destruct request as [[? ?]|].
  - intros Hd. unfold defaults in Ed. rewrite doc_lines_comments in Ed by done. by injection Ed as <- <-.
  - intros n Hn.
    assert (∃ ty, last_ident ty = Some n ∧
      (ep_ret_schema e = Some ty ∨ ∃ m, ep_request e = Some (m, ty))) as (ty & Hl & Ht).
    { destruct Hn as [Hn|Hn].
      - apply ret_type_named in Hn as (ty & H1 & H2). exists ty. by split; [|left].
      - unfold request in *. destruct (kind_args _) as [k|]; [|done]. cbn in Hn.
        destruct (gen_request_meta_register k) as [[m ty]|] eqn:Eg; [|done]. cbn in Hn.
        injection Hn as <-. exists ty. split; [by eapply request_type_named|].
        right. exists m. exact Eg. }
    exists ty. split; [done|]. intros <- d. eapply registered_in_document; [by apply Rs|].
    apply elem_of_app. right. by apply list_elem_of_singleton.
Qed.
End properties.

(** ** A concrete parser, and examples *)

Inductive DemoLit := LitInt (v : Z) | LitStr (s : string).

#[local] Instance DemoSyn : SynCrate := {|
  Tokens := list (SynPath * option DemoLit);
  Nested := SynPath * option DemoLit;
  nested_items := λ l, l;
  nested_path := fst;
  value_u16 := λ n, match snd n with
                    | Some (LitInt v) => if (v <=? 65535)%Z then Some v else None
                    | _ => None
                    end;
  value_str := λ n, match snd n with Some (LitStr s) => Some s | _ => None end;
  ends := λ n read, read || negb (bool_decide (is_Some (snd n)));
|}.
#[local] Instance DemoNested : NestedParser := {|
  parse_nested_meta := λ S m f s,
    match m with MetaList _ t => run_nested f (nested_items t) s | _ => (Err (), s) end;
|}.
#[local] Instance DemoNestedLaws : NestedParserLaws.
Proof. split; [done|]. intros S [] f s H; try done. by destruct (H p t). Qed.

#[local] Instance DemoOpenApi : OpenApiEnv Demo := {|
  handler_ptr := λ _, 1%Z;
  handler_order := λ _, [];
  dyn_middleware_name := "";
|}.

Definition demo_item (attrs : list SynMeta) : ItemFn :=
  mkItemFn "create_user" attrs
    [Typed (TyPath [("Json", AngleBracketed [GType (TyPath [("UserInput", NoArguments)])])])]
    (Some (TyPath [("Result", AngleBracketed [GType (TyPath [("User", NoArguments)])])])).

(** A doc comment gives no summary, [doc(alias = "..")] does, and a [response]
    with a key the macro does not know before the others is left out. *)
Example doc_comment_ignored :
  ep_summary <$> endpoint_impl (λ s, s) (Some [])
    (Some (demo_item [MetaNameValue ["doc"] (ExprStr "Creates a user")])) = Ret None.
Proof. reflexivity. Qed.
Example doc_alias_used :
  ep_summary <$> endpoint_impl (λ s, s) (Some [])
    (Some (demo_item [MetaList ["doc"] [(["alias"], Some (LitStr "new_user"))]])) = Ret (Some "new_user").
Proof. reflexivity. Qed.
Example unknown_key_drops_response :
  ep_extras <$> endpoint_impl (λ s, s)
    (Some [MetaList ["response"] [(["content"], Some (LitStr "Error")); (["status"], Some (LitInt 404));
                                  (["description"], Some (LitStr "no such user"))];
           MetaList ["response"] [(["status"], Some (LitInt 409)); (["description"], Some (LitStr "taken"))]])
    (Some (demo_item [])) = Ret [(409%Z, "taken")].
Proof. reflexivity. Qed.

Definition demo_args : list SynMeta :=
  [MetaNameValue ["summary"] (ExprStr "Create"); MetaNameValue ["tags"] (ExprStr "users, admin");
   MetaPath ["deprecated"];
   MetaList ["response"] [(["status"], Some (LitInt 409)); (["description"], Some (LitStr "taken"))]].

Definition demo_commented : ItemFn := demo_item [MetaNameValue ["doc"] (ExprStr "Creates a user")].
Definition demo_endpoint : Endpoint :=
  mkEndpoint "create_user" "create_userEndpoint"
    (TakesArgs (TyPath [("Json", AngleBracketed [GType (TyPath [("UserInput", NoArguments)])])]))
    (Some "Create") None true ["users"; "admin"] [(409%Z, "taken")] (Some (RespJson "User"))
    (Some (TyPath [("User", NoArguments)]))
    (Some (JsonBody "UserInput", TyPath [("UserInput", NoArguments)])).
Definition demo_impl : Implementation (P := Demo) :=
  ImplArgs (λ req, mret (Ok tt, req)) (λ _ : (), Response_empty) (λ r : Response, r)
    (λ _ : (), mret (Ok Response_empty)).
Definition demo_handler : Handler (P := Demo) :=
  into_handler_extract (λ req, mret (Ok tt, req)) (λ _ : (), Response_empty) (λ r, r)
    (λ _, mret (Ok Response_empty)).
Definition demo_registry : Registry :=
  endpoint_register (λ _, []) (λ ty, default "" (last_ident ty)) (λ _, ObjectSchema) demo_endpoint 1
    (mkRegistry ∅ ∅ ∅ ∅ []).

Lemma endpoint_documented_witness :
  endpoint_impl (λ s, s) (Some demo_args) (Some demo_commented) = Ret demo_endpoint ∧
  handler_operation demo_registry "users" [] [] (POST, demo_handler) =
    [OpSummary "Create"; OpDescription "Handler for POST users"; OpId "post_users";
     OpResponse "200" "Successful response" (Some ("application/json", Some "User"));
     OpDeprecated; OpTags ["users"; "admin"]; OpResponse "409" "taken" None;
     OpRequestBody "application/json" "UserInput"].
Proof.
  split; [reflexivity|].
  rewrite (proj1 (endpoint_documented (P := Demo) (O := DemoOpenApi) (L := DemoNestedLaws) (λ _, []) (λ ty, default "" (last_ident ty))
    (λ _, ObjectSchema) (λ s, s) demo_args demo_commented demo_endpoint
    demo_impl (mkRegistry ∅ ∅ ∅ ∅ []) demo_handler demo_registry eq_refl eq_refl eq_refl eq_refl eq_refl)).
  reflexivity.
Defined.
