(* ===== verification/OpenApiUi.v ===== *)
(** * Documentation pages
    (silent-openapi/src/handler.rs, middleware.rs, redoc.rs, ui_html.rs,
    embedded.rs, error.rs)

    The Swagger UI and ReDoc pages as handlers and as middlewares.  The
    embedded files are parameters; the document arrives serialised. *)

From S2P Require Import Prelude Str Platform State Error PathParam Body Form Message Next Route.

(** ** Errors (error.rs) *)

Inductive OpenApiError :=
| OaJson (e : string)
| OaSilent (e : SilentError)
| OpenApiGeneration (message : string)
| SwaggerUi (message : string)
| OaHttp (e : string)
| PathMismatch (path : string)
| ResourceNotFound (resource : string)
| Configuration (message : string).

Definition openapi_generation (message : string) : OpenApiError := OpenApiGeneration message.
Definition swagger_ui (message : string) : OpenApiError := SwaggerUi message.
Definition configuration (message : string) : OpenApiError := Configuration message.
Definition resource_not_found (resource : string) : OpenApiError := ResourceNotFound resource.

(** [Display] *)
Definition openapi_error_display {P : Platform} (e : OpenApiError) : string :=
  match e with
  | OaJson e => "JSON处理错误: " +:+ e
  | OaSilent e => "Silent框架错误: " +:+ error_display e
  | OpenApiGeneration m => "OpenAPI文档生成错误: " +:+ m
  | SwaggerUi m => "Swagger UI资源错误: " +:+ m
  | OaHttp e => "HTTP错误: " +:+ e
  | PathMismatch p => "路径匹配错误: " +:+ p
  | ResourceNotFound r => "资源未找到: " +:+ r
  | Configuration m => "配置错误: " +:+ m
  end.

(** ** Pages *)

(** Double quotes are written as backquotes here. *)
Fixpoint dq (s : string) : string :=
  match s with
  | "" => ""
  | String c s => String (if Ascii.eqb c "`" then "034" else c) (dq s)
  end.

Definition SWAGGER_UI_VERSION : string := "5.17.14".
Definition REDOC_VERSION : string := "2.1.5".

(** The template of [generate_index_html]. *)
Definition index_template
    (css_href favicon_href bundle_src preset_src api_doc_path try_it_out : string) : string :=
  dq "<!DOCTYPE html>
<html lang=`zh-CN`>
<head>
    <meta charset=`UTF-8`>
    <meta name=`viewport` content=`width=device-width, initial-scale=1.0`>
    <title>API Documentation - Swagger UI</title>
    <link rel=`stylesheet` type=`text/css` href=`" +:+
  css_href +:+
  dq "` />
    <link rel=`icon` type=`image/png` href=`" +:+
  favicon_href +:+
  dq "` sizes=`32x32` />
    <style>
        html {
            box-sizing: border-box;
            overflow: -moz-scrollbars-vertical;
            overflow-y: scroll;
        }
        *, *:before, *:after {
            box-sizing: inherit;
        }
        body {
            margin: 0;
            background: #fafafa;
        }
        .swagger-ui .topbar {
            display: none;
        }
        .swagger-ui .info {
            margin: 50px 0;
        }
        .custom-header {
            background: #89CFF0;
            padding: 20px;
            text-align: center;
            color: #1976d2;
            font-family: -apple-system, BlinkMacSystemFont, `Segoe UI`, Roboto, sans-serif;
        }
        .custom-header h1 {
            margin: 0;
            font-size: 24px;
            font-weight: 600;
        }
        .custom-header p {
            margin: 8px 0 0 0;
            opacity: 0.8;
        }
    </style>
</head>
<body>
    <div class=`custom-header`>
        <h1>Silent Framework API Documentation</h1>
        <p>OpenAPI 3.0</p>
    </div>
    <div id=`swagger-ui`></div>

    <script src=`" +:+
  bundle_src +:+
  dq "`></script>
    <script src=`" +:+
  preset_src +:+
  dq "`></script>
    <script>
        window.onload = function() {
            const ui = SwaggerUIBundle({
                url: '" +:+
  api_doc_path +:+
  dq "',
                dom_id: '#swagger-ui',
                deepLinking: true,
                presets: [
                    SwaggerUIBundle.presets.apis,
                    SwaggerUIStandalonePreset
                ],
                plugins: [
                    SwaggerUIBundle.plugins.DownloadUrl
                ],
                layout: `StandaloneLayout`,
                validatorUrl: null,
                docExpansion: `list`,
                defaultModelsExpandDepth: 1,
                defaultModelExpandDepth: 1,
                displayRequestDuration: true,
                filter: true,
                showExtensions: true,
                showCommonExtensions: true,
                tryItOutEnabled: " +:+
  try_it_out +:+
  dq "
            });
            window.ui = ui;
        }
    </script>
</body>
</html>".

Definition generate_redoc_html (api_doc_url : string) : string :=
  dq "<!DOCTYPE html>
<html lang=`zh-CN`>
<head>
    <meta charset=`UTF-8`>
    <meta name=`viewport` content=`width=device-width, initial-scale=1.0`>
    <title>API Documentation - ReDoc</title>
    <style>
        body { margin: 0; padding: 0; }
    </style>
</head>
<body>
    <redoc spec-url='" +:+
  api_doc_url +:+
  dq "'></redoc>
    <script src=`https://unpkg.com/redoc@" +:+
  REDOC_VERSION +:+
  dq "/bundles/redoc.standalone.js`></script>
</body>
</html>".

Class UiAssets (P : Platform) := {
  (** The [swagger-ui-embedded] feature and the files it embeds. *)
  embedded : bool;
  asset_bytes : string → string;
}.

Section ui.
Context {P : Platform} {U : UiAssets P}.

Definition response_from_openapi_error (e : OpenApiError) : Response :=
  let code := match e with
              | ResourceNotFound _ | PathMismatch _ => NOT_FOUND
              | _ => INTERNAL_SERVER_ERROR
              end in
  set_body (set_status Response_empty code) (full (openapi_error_display e)).

(** ** Assets (embedded.rs, ui_html.rs) *)

Definition get_embedded_asset (p : string) : option (string * string) :=
  if bool_decide (p = "swagger-ui-bundle.js")
  then Some ("application/javascript; charset=utf-8", asset_bytes p)
  else if bool_decide (p = "swagger-ui-standalone-preset.js")
  then Some ("application/javascript; charset=utf-8", asset_bytes p)
  else if bool_decide (p = "swagger-ui.css") then Some ("text/css; charset=utf-8", asset_bytes p)
  else if bool_decide (p = "favicon-32x32.png") then Some ("image/png", asset_bytes p)
  else if bool_decide (p = "favicon-16x16.png") then Some ("image/png", asset_bytes p)
  else None.

Definition asset_base (ui_path : string) : string :=
  if embedded then trim_end_matches "/" ui_path
  else "https://unpkg.com/swagger-ui-dist@" +:+ SWAGGER_UI_VERSION.

Definition generate_index_html (ui_path api_doc_path : string) (try_it_out_enabled : bool)
  : string :=
  let base := asset_base ui_path in
  index_template (base +:+ "/swagger-ui.css") (base +:+ "/favicon-32x32.png")
    (base +:+ "/swagger-ui-bundle.js") (base +:+ "/swagger-ui-standalone-preset.js")
    api_doc_path (if try_it_out_enabled then "true" else "false").

Definition asset_not_found : Response :=
  set_body (set_status Response_empty NOT_FOUND) (full "Asset not found").

Definition serve_asset (asset_path : string) : result Response OpenApiError :=
  match (if embedded then get_embedded_asset asset_path else None) with
  | Some (content_type, data) =>
      Ok (set_body
            (set_header (set_header (set_status Response_empty OK) "content-type" content_type)
               "cache-control" "public, max-age=86400") (full data))
  | None => Ok asset_not_found
  end.

(** ** Configuration *)

(** The four types hold the same data; ReDoc has no options. *)
Record Ui := mkUi {
  ui_path : string;
  api_doc_path : string;
  openapi_json : string;
  try_it_out : bool;
}.

(** [new], [with_custom_api_doc_path] and [with_options]; [json] is the
    document as serde_json prints it. *)
Definition Ui_new (ui_path : string) (json : result string string) : result Ui OpenApiError :=
  match json with
  | Ok s => Ok (mkUi ui_path (trim_end_matches "/" ui_path +:+ "/openapi.json") s true)
  | Err e => Err (OaJson e)
  end.
Definition Ui_with_custom_api_doc_path (ui_path api_doc_path : string)
    (json : result string string) : result Ui OpenApiError :=
  match json with Ok s => Ok (mkUi ui_path api_doc_path s true) | Err e => Err (OaJson e) end.
Definition Ui_with_options (ui_path : string) (json : result string string) (options : bool)
  : result Ui OpenApiError :=
  match json with
  | Ok s => Ok (mkUi ui_path (trim_end_matches "/" ui_path +:+ "/openapi.json") s options)
  | Err e => Err (OaJson e)
  end.

Definition matches_path (u : Ui) (path : string) : bool :=
  bool_decide (path = ui_path u) || starts_with (ui_path u +:+ "/") path ||
  bool_decide (path = api_doc_path u).

(** ** Answers *)

Definition json_response (u : Ui) (cors : bool) : Response :=
  let r := set_header (set_status Response_empty OK) "content-type"
             "application/json; charset=utf-8" in
  let r := if cors then set_header r "access-control-allow-origin" "*" else r in
  set_body r (full (openapi_json u)).

Definition handle_ui_redirect (u : Ui) : Response :=
  let redirect_url := ui_path u +:+ "/" in
  set_header (set_status Response_empty MOVED_PERMANENTLY) "location"
    (if header_value_ok redirect_url then redirect_url else "/").

Definition page_response (no_cache : bool) (page : string) : Response :=
  let r := set_header (set_status Response_empty OK) "content-type" "text/html; charset=utf-8" in
  let r := if no_cache
           then set_header r "cache-control" "no-cache, no-store, must-revalidate" else r in
  set_body r (full page).

Definition relative_path (u : Ui) (path : string) : string :=
  let prefix := ui_path u +:+ "/" in
  if starts_with prefix path then str_drop (String.length prefix) path else "".

Definition handle_ui_resource (u : Ui) (no_cache : bool) (path : string)
  : result Response OpenApiError :=
  let rel := relative_path u path in
  if bool_decide (rel = "") || bool_decide (rel = "index.html")
  then Ok (page_response no_cache
             (generate_index_html (ui_path u) (api_doc_path u) (try_it_out u)))
  else serve_asset rel.

(** [handle_swagger_request], shared by the handler and the middleware. *)
Definition handle_swagger_request (u : Ui) (is_middleware : bool) (path : string)
  : result Response OpenApiError :=
  if bool_decide (path = api_doc_path u) then Ok (json_response u is_middleware)
  else if bool_decide (path = ui_path u) then Ok (handle_ui_redirect u)
  else handle_ui_resource u is_middleware path.

(** [SwaggerUiHandler::call] *)
Definition SwaggerUiHandler_call (u : Ui) : Handler := λ req,
  let path := uri_path (uri req) in
  mret (if negb (matches_path u path) then Err NotFound
        else match handle_swagger_request u false path with
             | Ok response => Ok response
             | Err _ => Err NotFound
             end).

(** [SwaggerUiMiddleware::handle] *)
Definition SwaggerUiMiddleware_handle (u : Ui) : MiddleWare := λ req next,
  let path := uri_path (uri req) in
  if matches_path u path then
    mret (match handle_swagger_request u true path with
          | Ok response => Ok response
          | Err e => Ok (set_body (set_status Response_empty INTERNAL_SERVER_ERROR)
                           (full ("Swagger UI Error: " +:+ openapi_error_display e)))
          end)
  else next req.

(** [ReDocHandler] and [ReDocMiddleware]: every page below the path is the
    ReDoc page. *)
Definition redoc_answer (u : Ui) (is_middleware : bool) (path : string) : Response :=
  if bool_decide (path = api_doc_path u) then json_response u is_middleware
  else if bool_decide (path = ui_path u) then handle_ui_redirect u
  else page_response is_middleware (generate_redoc_html (api_doc_path u)).

Definition ReDocHandler_call (u : Ui) : Handler := λ req,
  let path := uri_path (uri req) in
  mret (if negb (matches_path u path) then Err NotFound else Ok (redoc_answer u false path)).

Definition ReDocMiddleware_handle (u : Ui) : MiddleWare := λ req next,
  let path := uri_path (uri req) in
  if negb (matches_path u path) then next req else mret (Ok (redoc_answer u true path)).

(** [into_route] of both handlers: the page and everything below it. *)
Definition ui_into_route (u : Ui) (h : Handler) : outcome Route :=
  let mount := trim_start_matches "/" (ui_path u) in
  let base := insert_handler (insert_handler (Route_new mount) GET h) HEAD h in
  base ← Route_append base
           (insert_handler (insert_handler (Route_new "<path:**>") GET h) HEAD h);
  Route_append (Route_new "") base.

(** [add_swagger_ui]: without a document the route stays as it is. *)
Definition add_swagger_ui (r : Route) (ui_path : string) (json : result string string) : Route :=
  match Ui_new ui_path json with
  | Ok u => hook r (SwaggerUiMiddleware_handle u)
  | Err _ => r
  end.

(** ** Lemmas *)

Lemma matches_below u rel : matches_path u (ui_path u +:+ "/" +:+ rel) = true.
Proof.
  unfold matches_path. rewrite orb_true_iff, orb_true_iff. left; right.
  induction (ui_path u) as [|c s IH]; cbn; [done|]. by rewrite Ascii.eqb_refl.
Qed.

Lemma relative_path_below u rel : relative_path u (ui_path u +:+ "/" +:+ rel) = rel.
Proof.
  unfold relative_path. replace (ui_path u +:+ "/" +:+ rel) with ((ui_path u +:+ "/") +:+ rel)
    by by rewrite str_app_assoc.
  assert (starts_with (ui_path u +:+ "/") ((ui_path u +:+ "/") +:+ rel) = true) as ->.
  { induction (ui_path u +:+ "/") as [|c s IH]; cbn; [done|]. by rewrite Ascii.eqb_refl. }
  apply str_drop_app.
Qed.

(** The middlewares answer their own paths without calling the next handler
    and never fail there; every other request goes through untouched. *)
Lemma ui_middlewares_spec u req next w :
  let path := uri_path (uri req) in
  (matches_path u path = false →
     SwaggerUiMiddleware_handle u req next w = next req w ∧
     ReDocMiddleware_handle u req next w = next req w) ∧
  (matches_path u path = true → ∃ r r',
     SwaggerUiMiddleware_handle u req next w = (Ret (Ok r), w) ∧
     ReDocMiddleware_handle u req next w = (Ret (Ok r'), w)).
Proof.
  intros path. unfold SwaggerUiMiddleware_handle, ReDocMiddleware_handle. fold path.
  split; intros ->; [done|].
  destruct (handle_swagger_request u true path); by eexists _, _.
Qed.

(** A document with its default path is found below the UI: the document, the
    redirect to the index page and the index page itself. *)
Lemma swagger_ui_serves u json p :
  Ui_new p (Ok json) = Ok u → trim_end_matches "/" p = p →
  handle_swagger_request u false (p +:+ "/openapi.json") = Ok (json_response u false) ∧
  handle_swagger_request u false p = Ok (handle_ui_redirect u) ∧
  handle_swagger_request u false (p +:+ "/") =
    Ok (page_response false (generate_index_html p (p +:+ "/openapi.json") true)).
Proof.
  intros [= <-] Hp. unfold handle_swagger_request; cbn. rewrite Hp.
  assert (∀ s t : string, s +:+ t = s → t = "") as Happ.
  { intros s t. induction s as [|c s IH]; [done|]. intros [= H]. by apply IH. }
  split_and!.
  - by rewrite bool_decide_eq_true_2.
  - rewrite bool_decide_eq_false_2; [by rewrite bool_decide_eq_true_2|].
    intros H. symmetry in H. by apply Happ in H.
  - rewrite !bool_decide_eq_false_2.
    + unfold handle_ui_resource. cbn [ui_path api_doc_path try_it_out].
      assert (relative_path (mkUi p (p +:+ "/openapi.json") json true) (p +:+ "/") = "") as ->.
      { exact (relative_path_below (mkUi p (p +:+ "/openapi.json") json true) ""). }
      done.
    + intros H. by apply Happ in H.
    + intros H. clear -H. induction p as [|c p IH]; [done|]. injection H as H. by apply IH.
Qed.

(** A page path with a trailing slash, which the JSON path is prepared for,
    makes [into_route] panic while the routes are built. *)
Lemma ui_trailing_slash_panics json h :
  ui_into_route (mkUi "/docs/" "/docs/openapi.json" json true) h = Panic.
Proof. reflexivity. Qed.
End ui.

(** ** The mounted pages *)

#[local] Instance DemoUi : UiAssets Demo := {|
  embedded := false;
  asset_bytes p := p;
|}.

Definition demo_ui_status (mount path : string) : outcome (SilentResult StatusCode) :=
  let u := mkUi mount (mount +:+ "/openapi.json") "{}" true in
  r ← ui_into_route (P := Demo) u (SwaggerUiHandler_call u);
  a ← fst (Route_call (P := Demo) 4096 r
             (Request_from_parts (P := Demo)
                (mkParts (P := Demo) GET (mkUri path None) HTTP_11 [] tt) ReqEmpty) []);
  mret (match a with Ok x => Ok (r_status x) | Err e => Err e end).

(** Also below several segments, where the handlers of the mount point end up
    on its first segment and the page is answered by the catch-all child. *)
Lemma ui_mounted :
  demo_ui_status "/docs" "/docs" = Ret (Ok MOVED_PERMANENTLY) ∧
  demo_ui_status "/docs" "/docs/" = Ret (Ok OK) ∧
  demo_ui_status "/docs" "/docs/openapi.json" = Ret (Ok OK) ∧
  demo_ui_status "/api/docs" "/api/docs" = Ret (Ok MOVED_PERMANENTLY) ∧
  demo_ui_status "/api/docs" "/api" = Ret (Err NotFound) ∧
  demo_ui_status "/docs" "/docs/missing.js" = Ret (Ok NOT_FOUND).
Proof. split_and!; vm_compute; reflexivity. Qed.
