(* ===== verification/Assets.v ===== *)
(** * The build script of silent-openapi (silent-openapi/build.rs)

    With the embedded UI the build downloads the files that embedded.rs
    includes, and leaves a marker with their version so that the next build
    can skip the download.  A write that fails may leave anything at its path,
    and the script panics at the first failure; the system and the network are
    parameters, the files under [OUT_DIR] are the state. *)

From S2P Require Import Prelude Str Platform OpenApiUi.

Abbreviation Fs := (gmap string string).

Section download.
(** [env::var], whether the marker can be read, creating the directory, the
    response of a URL with what reading it gives, and for a path that can not
    be written what the attempt leaves there. *)
Context (out_dir : option string) (readable : bool) (create_dir_all : result () string)
  (http_get : string → result (result string string) string)
  (write_fails : string → option (option string)).

Definition swagger_dir (out : string) : string := out +:+ "/swagger-ui".
Definition marker (out : string) : string := swagger_dir out +:+ "/" +:+ ".version".
Definition base_url : string := "https://unpkg.com/swagger-ui-dist@" +:+ SWAGGER_UI_VERSION.
Definition files : list string :=
  ["swagger-ui-bundle.js"; "swagger-ui-standalone-preset.js"; "swagger-ui.css";
   "favicon-32x32.png"; "favicon-16x16.png"].
Definition dest (out file : string) : string := swagger_dir out +:+ "/" +:+ file.

(** [fs::write] with the [expect] or [unwrap_or_else] around it. *)
Definition write_or_panic (p content : string) : M Fs unit := λ fs,
  match write_fails p with
  | None => (Ret tt, <[p := content]> fs)
  | Some rest => (Panic, partial_alter (λ _, rest) p fs)
  end.

Definition download_file (out file : string) : M Fs unit :=
  match http_get (base_url +:+ "/" +:+ file) with
  | Ok (Ok bytes) => write_or_panic (dest out file) bytes
  | _ => M_lift Panic
  end.

Fixpoint download_all (out : string) (l : list string) : M Fs unit :=
  match l with
  | [] => mret tt
  | file :: l => _ ← download_file out file; download_all out l
  end.

Definition up_to_date (out : string) (fs : Fs) : bool :=
  match fs !! marker out with
  | Some v => readable && bool_decide (trim v = SWAGGER_UI_VERSION)
  | None => false
  end.

Definition download_swagger_ui : M Fs unit := λ fs,
  match out_dir with
  | None => (Panic, fs)
  | Some out =>
      if up_to_date out fs then (Ret tt, fs)
      else match create_dir_all with
           | Err _ => (Panic, fs)
           | Ok _ => (_ ← download_all out files; write_or_panic (marker out) SWAGGER_UI_VERSION) fs
           end
  end.

(** ** What the marker promises *)

(** [asset f b]: [b] is the file [f] of the version. *)
Context (asset : string → string → Prop).
Hypothesis served : ∀ file b, http_get (base_url +:+ "/" +:+ file) = Ok (Ok b) → asset file b.

Definition has_all (out : string) (l : list string) (fs : Fs) : Prop :=
  ∀ file, file ∈ l → ∃ b, fs !! dest out file = Some b ∧ asset file b.
Definition marked_complete (out : string) (fs : Fs) : Prop :=
  ∀ v, fs !! marker out = Some v → trim v = SWAGGER_UI_VERSION → has_all out files fs.

Lemma str_app_inj_l (s t u : string) : s +:+ t = s +:+ u → t = u.
Proof. induction s as [|c s IH]; [done|]. intros [= H]. by apply IH. Qed.

Lemma dest_inj out f g : dest out f = dest out g → f = g.
Proof. intros H. by apply str_app_inj_l, (str_app_inj_l "/") in H. Qed.
Lemma dest_not_marker out f : f ∈ files → dest out f ≠ marker out.
Proof. intros Hf E. apply (dest_inj _ _ ".version") in E as ->. unfold files in Hf. set_solver. Qed.

(** What a write can change. *)
Lemma write_spec p c fs o fs' :
  write_or_panic p c fs = (o, fs') →
  (∀ q, q ≠ p → fs' !! q = fs !! q) ∧ (o = Ret tt → fs' !! p = Some c).
Proof.
  unfold write_or_panic. destruct (write_fails p) as [rest|]; intros [= <- <-].
  - split; [|done]. intros q Hq. by rewrite lookup_partial_alter_ne.
  - split; [intros q Hq; by rewrite lookup_insert_ne|]. intros _. by rewrite lookup_insert_eq.
Qed.

Lemma download_file_spec out file fs o fs' :
  download_file out file fs = (o, fs') →
  (∀ q, q ≠ dest out file → fs' !! q = fs !! q) ∧
  (o = Ret tt → ∃ b, fs' !! dest out file = Some b ∧ asset file b).
Proof.
  unfold download_file. destruct (http_get _) as [[b|]|] eqn:E; [|by intros [= <- <-]..].
  intros [Hq Hr]%write_spec. split; [done|]. intros Ho. exists b. split; [by apply Hr|by apply served].
Qed.

Lemma download_all_spec out l fs o fs' :
  NoDup l → download_all out l fs = (o, fs') →
  (∀ q, q ∉ dest out <$> l → fs' !! q = fs !! q) ∧ (o = Ret tt → has_all out l fs').
Proof.
  intros Hn. revert fs. induction Hn as [|file l Hf Hn IH]; intros fs; cbn [download_all].
  - intros [= <- <-]. split; [done|]. intros _ f Hf. by apply elem_of_nil in Hf.
  - unfold mbind, M_bind. destruct (download_file out file fs) as [[[]|] fs1] eqn:E;
      apply download_file_spec in E as [Hq Hb].
    + intros [Hq' Hb']%IH. split.
      * intros q [H1 H2]%not_elem_of_cons. by rewrite Hq', Hq.
      * intros -> f [->|Hin]%elem_of_cons; [|by apply Hb'].
        destruct (Hb eq_refl) as (b & Hb1 & Ha). exists b. rewrite Hq'; [done|].
        intros (g & Eg & Hg)%list_elem_of_fmap. by apply dest_inj in Eg as ->.
    + intros [= <- <-]. split; [|done]. intros q [H1 _]%not_elem_of_cons. by rewrite Hq.
Qed.

(** However a build ends, a marker that names the version stands for a
    complete set of its files, so a later build that skips the download has
    them; and a build that ends well has them too. *)
Lemma download_complete out fs o fs' :
  out_dir = Some out → readable = true → marked_complete out fs →
  download_swagger_ui fs = (o, fs') →
  marked_complete out fs' ∧ (o = Ret tt → has_all out files fs').
Proof.
  intros Ho Hr Hc. unfold download_swagger_ui. rewrite Ho. destruct (up_to_date out fs) eqn:Eu.
  - intros [= <- <-]. split; [done|]. intros _. unfold up_to_date in Eu.
    destruct (fs !! marker out) as [v|] eqn:E; [|done].
    apply andb_true_iff in Eu as [_ Eu%bool_decide_eq_true]. by apply (Hc v).
  - destruct create_dir_all; [|by intros [= <- <-]]. unfold mbind, M_bind.
    assert (NoDup files) as Hn by (apply (bool_decide_unpack _); vm_compute; exact I).
    destruct (download_all out files fs) as [[[]|] fs1] eqn:E;
      apply (download_all_spec _ _ _ _ _ Hn) in E as [Hq Ha].
    + intros [Hw _]%write_spec. assert (has_all out files fs') as H.
      { intros f Hf. destruct (Ha eq_refl f Hf) as (b & Hb & Hs). exists b.
        rewrite Hw; [done|]. by apply dest_not_marker. }
      by split; [intros v _ _|].
    + intros [= <- <-]. split; [|done]. intros v Hv Ht. exfalso. rewrite Hq in Hv.
      * unfold up_to_date in Eu. rewrite Hv, Hr, bool_decide_eq_true_2 in Eu; done.
      * intros (f & Ef & Hf)%list_elem_of_fmap. symmetry in Ef. by apply dest_not_marker in Ef.
Qed.
End download.

(** Every asset the embedded UI answers with is among the files. *)
Lemma embedded_downloaded {P : Platform} {U : UiAssets P} p ct b :
  get_embedded_asset p = Some (ct, b) → p ∈ files.
Proof.
  unfold get_embedded_asset, files. repeat (case_bool_decide; [subst; intros _; set_solver|]). done.
Qed.

(** A download that breaks off at the third file leaves no marker, and the
    next build starts again. *)
Example broken_off :
  let get := λ url : string, Ok (Ok url) in
  let bad := λ p, if bool_decide (p = dest "o" "swagger-ui.css") then Some (Some "") else None in
  let '(o, fs) := download_swagger_ui (Some "o") true (Ok tt) get bad ∅ in
  (o, fs !! marker "o", fst (download_swagger_ui (Some "o") true (Ok tt) get (λ _, None) fs))
  = (Panic, None, Ret tt).
Proof. vm_compute. reflexivity. Qed.
