(* ===== verification/Bench.v ===== *)
(** * The benchmark server and the task that drives it
    (benchmark/src/main.rs, xtask/src/main.rs)

    [cargo xtask bench] starts the benchmark server as a child process, waits
    until it accepts connections, runs bombardier against the route of one
    scenario and stops the server.  The routes are built with the framework;
    the run is a program over the child process and what was written and
    printed ([Sys]).  Processes, sockets, files and JSON texts are parameters;
    times are milliseconds. *)

From S2P Require Import Prelude Str Platform State Error PathParam Body Message Next Cookies Addr RouteSeg RouteTree Route Service.

Inductive Scenario := ScenA | ScenB | ScenC.
Inductive OutputFormat := FmtJson | FmtCsv.

(** ** The benchmark server *)

Section server.
Context {P : Platform}.

Record AppState := mkAppState { blob : string; etag : string }.

(** The queries of scenario B; [QueryB] is read and written by serde. *)
Record QueryB := mkQueryB {
  q1 : option string; q2 : option string; q3 : option Z; q4 : option bool; q5 : option string;
}.
Record RespB := mkRespB { b_a : string; b_b : Z; b_c : string; b_q : QueryB; b_ok : bool; b_msg : string }.

Context (to_value : string → Json) (de_query : string → result QueryB string) (ser_b : RespB → Json).

Definition build_route_a : outcome Route :=
  Route_get (Route_new "")
    (HandlerWrapper response_from_serialize (λ _, mret (Ok (to_value ("hello world" +:+ String "010" ""))))).

Definition handle_b (req : Request) : M World (SilentResult Response) :=
  a <-? M_lift (get_path_params try_String req "a") ;;
  b <-? M_lift (get_path_params (λ p, Ret (try_i64 p)) req "b") ;;
  c <-? M_lift (get_path_params try_String req "c") ;;
  q <-? mret (params_parse de_query req) ;;
  mret (Ok (json (ser_b (mkRespB a b c q true "ok")))).

Definition build_route_b : outcome Route :=
  Route_get (Route_new "b/<a:str>/<b:int>/<c:str>") (HandlerWrapper (λ r, r) handle_b).

(** [HeaderValue::from_str(..).unwrap()]. *)
Definition etag_header (res : Response) (etag : string) : outcome Response :=
  if header_value_ok etag then Ret (set_header res "etag" etag) else Panic.

Definition handle_c (state : AppState) (req : Request) : M World (SilentResult Response) :=
  if bool_decide ((hm_get (headers req) "if-none-match" ≫= header_to_str) = Some (etag state))
  then
    res ← M_lift (etag_header (set_status Response_empty NOT_MODIFIED) (etag state));
    mret (Ok res)
  else
    res ← M_lift (etag_header (set_header Response_empty "content-type" "application/octet-stream") (etag state));
    mret (Ok (set_body res (full (blob state)))).

Definition build_route_c (state : AppState) : outcome Route :=
  Route_get (Route_new "static") (HandlerWrapper (λ r, r) (handle_c state)).

(** [format!("{:x}")] of an unsigned integer. *)
Definition hex_digit (d : Z) : ascii :=
  ascii_of_N (Z.to_N (if (d <? 10)%Z then 48 + d else 87 + d)).
Fixpoint hex_digits (fuel : nat) (z : Z) (acc : string) : string :=
  match fuel with
  | O => acc
  | S fuel =>
      let acc := String (hex_digit (z mod 16)) acc in
      if (z <? 16)%Z then acc else hex_digits fuel (z / 16)%Z acc
  end.

(** Sixteen digits are enough for 64 bits; [hash] is the hasher's result for
    the bytes. *)
Definition make_state (hash : string → Z) : AppState :=
  let blob := String.concat "" (replicate 1024 "x") in
  mkAppState blob (String dquote (hex_digits 16 (hash blob) (String dquote ""))).

(** The route [main] serves for the variable SCENARIO, and its port. *)
Definition bench_route (hash : string → Z) (scenario : option string) : outcome Route :=
  let scenario := default "A" scenario in
  if bool_decide (scenario = "A") then build_route_a
  else if bool_decide (scenario = "B") then build_route_b
  else if bool_decide (scenario = "C") then build_route_c (make_state hash)
  else build_route_a.
Definition bench_port (port : option string) : Z :=
  default 8080%Z (port ≫= parse_unsigned u16_max).

(** ** Lemmas: the tag *)

(** A byte that is visible and no white space. *)
Definition solid (c : ascii) : bool := visible c && negb (is_ws c).

Lemma trim_solid s : str_forallb solid s = true → trim s = s.
Proof.
  intros H. assert (trim_end s = s) as He.
  { induction s as [|c s IH]; [done|]. cbn in *. apply andb_true_iff in H as [Hc Hs].
    rewrite (IH Hs). apply andb_true_iff in Hc as [_ Hw%negb_true_iff]. by rewrite Hw; destruct s. }
  unfold trim. assert (trim_start s = s) as ->; [|done].
  destruct s as [|c s]; [done|]. cbn in *. apply andb_true_iff in H as [[_ ->%negb_true_iff]%andb_true_iff _]. done.
Qed.

Lemma solid_visible s : str_forallb solid s = true → str_forallb visible s = true.
Proof.
  induction s as [|c s IH]; [done|]. cbn. intros [[-> _]%andb_true_iff Hs]%andb_true_iff. by rewrite IH.
Qed.

Lemma hex_digit_solid z : solid (hex_digit (z mod 16)) = true.
Proof.
  pose proof (Z.mod_pos_bound z 16 ltac:(lia)).
  assert (∀ n, (n < 16)%nat → solid (hex_digit (Z.of_nat n)) = true) as H16.
  { do 16 (intros [|n]; [done|revert n]). lia. }
  replace (z mod 16)%Z with (Z.of_nat (Z.to_nat (z mod 16))) by lia. apply H16. lia.
Qed.

Lemma hex_digits_solid fuel : ∀ z acc,
  str_forallb solid acc = true → str_forallb solid (hex_digits fuel z acc) = true.
Proof.
  induction fuel as [|fuel IH]; intros z acc Ha; [done|]. cbn [hex_digits]. cbv zeta.
  destruct (z <? 16)%Z; [|apply IH]; cbn; by rewrite hex_digit_solid, Ha.
Qed.

Lemma etag_solid hash : str_forallb solid (etag (make_state hash)) = true.
Proof.
  unfold make_state. cbn [etag str_forallb]. apply andb_true_iff. split; [done|].
  by apply hex_digits_solid.
Qed.

(** Scenario C answers a request that carries its tag with 304 and no body, any
    other with the blob; it never panics. *)
Lemma handle_state_spec `{!PlatformLaws P} state req w :
  header_value_ok (etag state) = true →
  ∃ res, handle_c state req w = (Ret (Ok res), w) ∧
    hm_get (r_headers res) "etag" = Some (etag state) ∧
    if bool_decide ((hm_get (headers req) "if-none-match" ≫= header_to_str) = Some (etag state))
    then r_status res = NOT_MODIFIED ∧ r_body res = ResNone
    else r_status res = OK ∧ r_body res = full (blob state).
Proof.
  intros Hok. unfold handle_c, etag_header. rewrite Hok.
  case_bool_decide; eexists; (split; [reflexivity|]); cbn -[header_eq];
    rewrite hm_get_insert; by split_and!.
Qed.

Lemma handle_c_spec `{!PlatformLaws P} hash req w :
  let state := make_state hash in
  ∃ res, handle_c state req w = (Ret (Ok res), w) ∧
    hm_get (r_headers res) "etag" = Some (etag state) ∧
    if bool_decide ((hm_get (headers req) "if-none-match" ≫= header_to_str) = Some (etag state))
    then r_status res = NOT_MODIFIED ∧ r_body res = ResNone
    else r_status res = OK ∧ r_body res = full (blob state).
Proof. apply handle_state_spec, header_value_visible, solid_visible, etag_solid. Qed.
End server.

(** ** xtask *)

Record BenchConfig := mkBenchConfig {
  scenario : Scenario;
  port : Z;
  duration : string;
  concurrency : Z;
  format : option OutputFormat;
  out_file : option string;
  prune : bool;
  run_only : bool;
}.

Definition scenario_name (s : Scenario) : string :=
  match s with ScenA => "A" | ScenB => "B" | ScenC => "C" end.

Definition target_path (s : Scenario) : string :=
  match s with
  | ScenA => "/"
  | ScenB => "/b/abc/123/xyz?q1=a&q2=b&q3=42&q4=true&q5=z"
  | ScenC => "/static"
  end.
Definition target_url (s : Scenario) (port : Z) : string :=
  "http://127.0.0.1:" +:+ show_Z port +:+ target_path s.


(** [str::lines], [str::strip_prefix]. *)
Definition str_lines (s : string) : list string :=
  let l := split_char LF s in
  map (λ x, if ends_with_char CR x then str_take (String.length x - 1) x else x)
    (if bool_decide (last l = Some "") then removelast l else l).
Definition strip_prefix (p s : string) : option string :=
  if starts_with p s then Some (str_drop (String.length p) s) else None.

(** The header built from the first line of a HEAD answer that has the tag. *)
Fixpoint etag_line (ls : list string) : option string :=
  match ls with
  | [] => None
  | l :: ls =>
      match strip_prefix "etag: " l with
      | Some v => Some ("If-None-Match: " +:+ trim v)
      | None => etag_line ls
      end
  end.

(** What the world outside does: processes, the network, files. *)
Record BenchEnv {V F : Type} := mkBenchEnv {
  spawn_server : result () string;
  child_wait : result string string;
  connects : nat → bool;
  (** Time an attempt takes beyond the sleep that follows it. *)
  attempt_time : nat → Z;
  which : string → bool;
  (** Exit and standard output, [None] when it is not UTF-8. *)
  curl_head : string → option (bool * option string);
  bombardier_output : list string → result (string * string) string;
  bombardier_status : list string → result string string;
  from_utf8_lossy : string → string;
  fs_write : string → string → result () string;
  (** [serde_json]: values, their fields and numbers, texts. *)
  json_parse : string → result V string;
  json_null : V;
  json_get : string → V → option V;
  as_f64 : V → option F;
  of_str : string → V;
  of_int : Z → V;
  of_f64 : F → V;
  json_pretty : list (string * V) → result string string;
  f64_zero : F;
  now_local : string;
  hostname_var : option string;
  hostname_cmd : option (bool * option string);
  os_arch : string * string;
}.
Arguments BenchEnv : clear implicits.

Section xtask.
Context {V F : Type} (env : BenchEnv V F).

(** ** Reading bombardier's JSON *)

Definition get_hostname : string :=
  match hostname_var env with
  | Some h => h
  | None =>
      match hostname_cmd env with
      | Some (true, Some s) => trim s
      | _ => "unknown-host"
      end
  end.

Definition rps_avg (v result : V) : F :=
  default (f64_zero env)
    (or_else (json_get env "rps" result ≫= json_get env "avg") (json_get env "rps" v ≫= json_get env "avg") ≫= as_f64 env).

(** A percentile: the field [p<n>], else the one of the percentiles, when one
    of the three fields is missing. *)
Definition percentile (latency : V) (missing : bool) (n : string) : F :=
  let p := json_get env ("p" +:+ n) latency ≫= as_f64 env in
  let p := match (if missing then json_get env "percentiles" latency else None) with
           | Some ps => or_else (or_else p (json_get env n ps ≫= as_f64 env)) (json_get env (n +:+ ".0") ps ≫= as_f64 env)
           | None => p
           end in
  default (f64_zero env) p.

Definition prune_bombardier_json (c : BenchConfig) (raw : string) : result string string :=
  v <-! json_parse env raw ;;
  let result := default (json_null env) (json_get env "result" v) in
  let latency := default (json_null env) (json_get env "latency" result) in
  let missing := existsb (λ n, negb (bool_decide (is_Some (json_get env ("p" +:+ n) latency ≫= as_f64 env))))
                   ["50"; "90"; "99"] in
  json_pretty env
    [("scenario", of_str env (scenario_name (scenario c))); ("port", of_int env (port c));
     ("concurrency", of_int env (concurrency c)); ("duration", of_str env (duration c));
     ("timestamp_local", of_str env (now_local env)); ("hostname", of_str env get_hostname);
     ("os", of_str env (fst (os_arch env))); ("arch", of_str env (snd (os_arch env)));
     ("rps_avg", of_f64 env (rps_avg v result)); ("p50_ms", of_f64 env (percentile latency missing "50"));
     ("p90_ms", of_f64 env (percentile latency missing "90")); ("p99_ms", of_f64 env (percentile latency missing "99"))].

(** [.split("\n").last().map(trim)] *)
Definition last_line (s : string) : string := trim (default "" (last (split_char LF s))).

Definition bench_content (c : BenchConfig) (body : string) : string :=
  last_line (match format c with
             | Some FmtJson =>
                 if prune c then
                   match prune_bombardier_json c body with Ok pruned => pruned | Err _ => body end
                 else body
             | _ => body
             end).

(** ** Waiting for the server *)

(** [wait_until_ready] from attempt [i] on, [elapsed] since it started. *)
Fixpoint wait_loop (fuel : nat) (timeout : Z) (i : nat) (backoff elapsed : Z) : option (result () string) :=
  match fuel with
  | O => None
  | S fuel =>
      if (elapsed <? timeout)%Z then
        if connects env i then Some (Ok ())
        else wait_loop fuel timeout (S i) (Z.min (backoff * 2) 500) (elapsed + attempt_time env i + backoff)
      else Some (Err "TimedOut")
  end.

(** A fuel no run uses up. *)
Definition wait_fuel (timeout : Z) : nat := S (Z.to_nat timeout).

Definition wait_until_ready (timeout : Z) : outcome (result () string) :=
  unwrap (wait_loop (wait_fuel timeout) timeout 0 50 0).

(** ** A run *)

(** The child process, and what the task did. *)
Inductive BenchAct :=
| Launched (scenario port : string)
| Loaded (args : list string)
| Wrote (path content : string)
| Printed (content : string).

Record Sys := mkSys { server_running : bool; acts : list BenchAct }.

Definition act (a : BenchAct) : M Sys unit := λ s, (Ret tt, mkSys (server_running s) (acts s ++ [a])%list).
Definition set_running (b : bool) : M Sys unit := λ s, (Ret tt, mkSys b (acts s)).

Definition launch (c : BenchConfig) : M Sys (result () string) :=
  match spawn_server env with
  | Ok _ =>
      _ ← act (Launched (scenario_name (scenario c)) (show_Z (port c)));
      _ ← set_running true; mret (Ok ())
  | Err e => mret (Err e)
  end.

(** [child.wait()], and [child.kill()] with the [wait] after it. *)
Definition wait_child : M Sys (result () string) :=
  match child_wait env with
  | Ok _ => _ ← set_running false; mret (Ok ())
  | Err e => mret (Err e)
  end.
Definition kill_child : M Sys unit := set_running false.

Definition etag_for (c : BenchConfig) : option string :=
  match scenario c with
  | ScenC =>
      if which env "curl" then
        match curl_head env (target_url (scenario c) (port c)) with
        | Some (true, Some head) => etag_line (str_lines head)
        | _ => None
        end
      else None
  | _ => None
  end.

Definition bombardier_args (c : BenchConfig) : list string :=
  ["-c"; show_Z (concurrency c); "-d"; duration c] ++
  match etag_for c with Some h => ["-H"; h] | None => [] end ++
  match format c with Some FmtJson => ["-o"; "json"] | Some FmtCsv => ["-o"; "csv"] | None => [] end ++
  [target_url (scenario c) (port c)].

(** Running bombardier and handing its result on. *)
Definition run_load (c : BenchConfig) : M Sys (result () string) :=
  _ ← act (Loaded (bombardier_args c));
  match format c with
  | Some _ =>
      output <-? mret (bombardier_output env (bombardier_args c)) ;;
      let content := bench_content c (from_utf8_lossy env (fst output)) in
      match out_file c with
      | Some path =>
          _ <-? mret (fs_write env path content) ;;
          _ ← act (Wrote path content); mret (Ok ())
      | None => _ ← act (Printed content); mret (Ok ())
      end
  | None => _ <-? mret (bombardier_status env (bombardier_args c)) ;; mret (Ok ())
  end.

Definition run_bench (c : BenchConfig) : M Sys (result () string) :=
  _ <-? launch c ;;
  if run_only c then wait_child
  else
    _ <-? M_lift (wait_until_ready 60000) ;;
    if negb (which env "bombardier") then _ ← kill_child; mret (Err "未找到 bombardier 可执行文件，请先安装：brew install bombardier 或参考 https://github.com/codesenberg/bombardier")
    else
      _ <-? run_load c ;;
      _ ← kill_child; mret (Ok ()).

(** ** Lemmas: waiting *)

Context (forward : ∀ i, (0 <= attempt_time env i)%Z).

(** Every attempt that fails brings the end closer. *)
Lemma wait_loop_ends fuel timeout : ∀ i backoff elapsed,
  (1 <= backoff)%Z → (timeout - elapsed < Z.of_nat fuel)%Z →
  (0 < fuel)%nat → ∃ r, wait_loop fuel timeout i backoff elapsed = Some r.
Proof using forward.
  induction fuel as [|fuel IH]; intros i backoff elapsed Hb Hf Hp; [lia|]. cbn [wait_loop].
  destruct (Z.ltb_spec elapsed timeout); [|by eexists]. destruct (connects env i); [by eexists|].
  pose proof (forward i). apply IH; [lia|lia|lia].
Qed.

Lemma wait_until_ready_total timeout :
  ∃ r, wait_until_ready timeout = Ret r ∧
    wait_loop (wait_fuel timeout) timeout 0 50 0 = Some r.
Proof using forward.
  destruct (wait_loop_ends (wait_fuel timeout) timeout 0 50 0) as [r Hr]; [lia|unfold wait_fuel; lia|unfold wait_fuel; lia|].
  exists r. unfold wait_until_ready. by rewrite Hr.
Qed.

(** At the longest pause, [n] more attempts are made within [500 n] ms. *)
Lemma wait_loop_500 n timeout : ∀ i elapsed,
  (timeout <= elapsed + 500 * Z.of_nat n)%Z →
  ∃ r, wait_loop (S n) timeout i 500 elapsed = Some r.
Proof using forward.
  induction n as [|n IH]; intros i elapsed Hn; cbn [wait_loop].
  { rewrite (proj2 (Z.ltb_ge _ _)) by lia. by eexists. }
  destruct (elapsed <? timeout)%Z; [|by eexists]. destruct (connects env i); [by eexists|].
  pose proof (forward i). change (Z.min (500 * 2) 500) with 500%Z. apply IH. lia.
Qed.

Lemma wait_loop_step fuel timeout i b e :
  (∃ r, wait_loop fuel timeout (S i) (Z.min (b * 2) 500) (e + attempt_time env i + b) = Some r) →
  ∃ r, wait_loop (S fuel) timeout i b e = Some r.
Proof using Type.
  intros H. cbn [wait_loop]. destruct (e <? timeout)%Z; [|by eexists]. by destruct (connects env i); [eexists|].
Qed.

(** Within the minute of [run_bench] there are at most 123 attempts. *)
Lemma wait_attempts : ∃ r, wait_loop 124 60000 0 50 0 = Some r.
Proof using forward.
  pose proof (forward 0). pose proof (forward 1). pose proof (forward 2). pose proof (forward 3).
  do 4 apply wait_loop_step. apply wait_loop_500. lia.
Qed.

(** ** Lemmas: one run *)

(** What loading the server comes to: its output, or the first failure. *)
Definition load_result (c : BenchConfig) : result (list BenchAct) string :=
  let args := bombardier_args c in
  match format c with
  | None => result_bind (bombardier_status env args) (λ _, Ok [])
  | Some _ =>
      result_bind (bombardier_output env args) (λ output,
        let content := bench_content c (from_utf8_lossy env (fst output)) in
        match out_file c with
        | Some path => result_bind (fs_write env path content) (λ _, Ok [Wrote path content])
        | None => Ok [Printed content]
        end)
  end.

Lemma run_load_eq c s :
  run_load c s =
  (Ret (result_bind (load_result c) (λ _, Ok ())),
   mkSys (server_running s)
     (acts s ++ Loaded (bombardier_args c) ::
      match load_result c with Ok l => l | Err _ => [] end)%list).
Proof using Type.
  unfold run_load, load_result. generalize (bombardier_args c) as args. intros args.
  unfold act, M_try. cbv [mbind M_bind mret M_ret].
  destruct (format c); [destruct (bombardier_output env args) as [[out st]|e]|
    by destruct (bombardier_status env args)]; [|done].
  cbn [result_bind fst]. generalize (bench_content c (from_utf8_lossy env out)) as content. intros content.
  destruct (out_file c) as [path|]; [destruct (fs_write env path content)|]; cbn; by rewrite <- ?app_assoc.
Qed.

(** A run of the benchmark task never panics and stops waiting for the server
    in time.  It succeeds exactly when nothing it relies on fails, and then
    has stopped the server and done what its options ask.  When it fails
    after the server was started, the server is stopped only if bombardier is
    not installed: a server that is not ready in time, a bombardier that can
    not be run and a file that can not be written all leave it running. *)
Theorem bench_run_ends c :
  let ready := wait_until_ready 60000 in
  ∃ s r, run_bench c (mkSys false []) = (Ret r, s) ∧
    (r = Ok () ↔ spawn_server env = Ok () ∧
       if run_only c then is_ok (child_wait env) = true
       else ready = Ret (Ok ()) ∧ which env "bombardier" = true ∧ is_ok (load_result c) = true) ∧
    (r = Ok () → server_running s = false ∧
       acts s = Launched (scenario_name (scenario c)) (show_Z (port c)) ::
         if run_only c then []
         else Loaded (bombardier_args c) :: default [] (ok (load_result c))) ∧
    (server_running s = true ↔ spawn_server env = Ok () ∧
       if run_only c then is_ok (child_wait env) = false
       else ready ≠ Ret (Ok ()) ∨ which env "bombardier" = true ∧ is_ok (load_result c) = false).
Proof using forward.
  intros ready. destruct (wait_until_ready_total 60000) as (w & Hw & _).
  unfold run_bench, launch, wait_child, kill_child, act, set_running, M_try.
  cbv [mbind M_bind mret M_ret]. subst ready. rewrite Hw.
  destruct (spawn_server env) as [[]|e]; [|eexists _, _; split; [done|naive_solver]].
  cbn [acts app]. destruct (run_only c).
  { destruct (child_wait env); eexists _, _; (split; [done|]); naive_solver. }
  cbn [M_lift]. destruct w as [[]|e]; [|eexists _, _; split; [done|]; naive_solver].
  destruct (which env "bombardier"); cbn [negb]; [|eexists _, _; split; [done|]; naive_solver].
  rewrite run_load_eq. destruct (load_result c); eexists _, _; (split; [done|]); cbn; naive_solver.
Qed.

(** The pruned result is lost: [to_string_pretty] ends in a line of its own
    with the closing brace, and only the last line is kept. *)
Lemma pruned_lost c raw text :
  format c = Some FmtJson → prune c = true →
  prune_bombardier_json c raw = Ok (text +:+ String LF "}") →
  bench_content c raw = "}".
Proof using Type.
  intros Hf Hp Hr. unfold bench_content, last_line. rewrite Hf, Hp, Hr.
  by rewrite split_char_at, last_app.
Qed.
End xtask.

(** ** The task and the server together *)

(** The header the task reads off the HEAD answer of scenario C makes the
    server answer 304: whatever lines come before and after, if the first one
    that has a tag has the server's. *)
Theorem bench_etag_round_trip `{!PlatformLaws P} hash before after head req w :
  let state := make_state hash in
  str_lines head = (before ++ ("etag: " +:+ etag state) :: after)%list →
  Forall (λ l, starts_with "etag: " l = false) before →
  header_to_str (etag state) = Some (etag state) →
  ∃ v, etag_line (str_lines head) = Some ("If-None-Match: " +:+ v) ∧
    (hm_get (headers req) "if-none-match" = Some v →
     ∃ res, handle_c state req w = (Ret (Ok res), w) ∧
       r_status res = NOT_MODIFIED ∧ r_body res = ResNone ∧
       hm_get (r_headers res) "etag" = Some (etag state)).
Proof.
  intros state -> Hb Hv. exists (etag state). split.
  - induction Hb as [|l ls Hl _ IH]; cbn [app etag_line]; unfold strip_prefix.
    + subst state. rewrite (proj2 (starts_with_app _ _)) by by eexists.
      rewrite str_drop_app, (trim_solid _ (etag_solid hash)). done.
    + by rewrite Hl.
  - intros Hm. destruct (handle_c_spec hash req w) as (res & Hr & He & Hs).
    exists res. fold state in Hs, Hr, He. rewrite Hm in Hs.
    change (Some (etag state) ≫= header_to_str) with (header_to_str (etag state)) in Hs.
    rewrite Hv, bool_decide_eq_true_2 in Hs by done. destruct Hs. by split_and!.
Qed.

(** The three targets are served: the service built from each scenario's
    route answers the request bombardier sends with 200 and the payload. *)
Section examples.
#[local] Existing Instance NoCookies.
Let ser_b (r : RespB) : string := b_a r +:+ "," +:+ show_Z (b_b r) +:+ "," +:+ b_c r.
Let query : QueryB := mkQueryB (Some "a") (Some "b") (Some 42%Z) (Some true) (Some "z").

Definition bench_answer (scenario path : string) (q : option string) : outcome (Z * string) :=
  r ← bench_route (P := Demo) (λ s, s) (λ _, Ok query) ser_b (λ _, 3735928559%Z) (Some scenario);
  svc ← RouteConnectionService_new (λ req next, next req) (λ e, e) None r;
  fst (('(status, _, _, _, body) ← handle_http_connection (T := LoopbackText) 1 svc
         (Tcp (V4 (127, 0, 0, 1)%Z 50000))
         (mkParts (P := Demo) GET (mkUri path q) HTTP_11 hm_empty ext_empty) ReqEmpty;
        mret (status, match body with ResOnce s => s | _ => "" end)) []).

Lemma bench_targets_served :
  bench_answer "A" "/" None = Ret (OK, "hello world" +:+ String LF "") ∧
  bench_answer "B" "/b/abc/123/xyz" (Some "q1=a&q2=b&q3=42&q4=true&q5=z") = Ret (OK, "abc,123,xyz") ∧
  bench_answer "C" "/static" None = Ret (OK, String.concat "" (replicate 1024 "x")).
Proof. split; [|split]; vm_compute; reflexivity. Qed.
End examples.
